(* ===== verification/_CoqProject ===== *)
-Q . S2P
Prelude.v
Text.v
Utils.v
Wire.v
FileManager.v
FileTransfer.v
Sockets.v
Protocol.v
SyncPlanner.v
StateStore.v
ClusterConfig.v
Session.v
Worker.v
ThreadPool.v
ServerState.v
LockManager.v
Replication.v
Concurrent.v
Linked.v
Watcher.v
WatchTimer.v
Standby.v
Server.v
ServerRun.v
Startup.v
ServerLife.v
Peer.v
DataNode.v
Client.v
Posted.v
EndToEnd.v
LockService.v
SquidFS.v
FsClients.v
FsCounts.v
FsFiles.v
FsClose.v
Mounted.v
FsFaults.v
FsDirs.v
Mains.v
