(* ===== verification/Prelude.v ===== *)
(** * SquidStorage: a verification development

    SquidStorage is a replicated file store.  A _server_ keeps a version map
    and a replication map and coordinates _datanodes_, which store the files;
    _clients_ create, read, update, delete and lock files through the server, and
    a FUSE file system mounts a client;
    _standby_ servers keep a copy of the server's maps and take over when every
    server before them in the configuration is down.  All of them speak one
    binary protocol over byte streams.

    ** The program and the files of this development

    Sources are under [src/]; the files are listed in the order in which they
    depend on each other.

    - [Prelude] (this file): exceptions as [result], the state-and-exception
      monad [SE] with [let*] and [do*], machine integers ([u8] ... [i32]), bytes,
      ordered iteration over [std::map] ([map_entries], [map_keys],
      [map_values]), and lemmas on lists and maps that the components share.
    - [Text]: what the sources use of the C++ library on text ([getline],
      [operator>>], [stoi], [to_string], [rfind]).
    - [Utils]: [common/src/utils/scoped_thread.hpp] and [logger.hpp].
    - [Wire]: [common/src/squidprotocol/squidProtocolFormatter.*], the frame
      format, every formatter, [parseMessage] and the accessors of [Message].
    - [FileManager]: [common/src/filesystem/filemanager.*] and [filelock.*], paths
      under the storage root, files, the version file.  The operating system's
      files are the record [Disk].
    - [FileTransfer]: [networking/INetworkChannel.hpp] as the class
      [NetworkChannel], its contract as the class [StreamChannel],
      [TCPSquidChannel.cpp] over a socket as the instance [Pipe], and
      [filesystem/filetransfer.*].
    - [Sockets]: [networking/TCPListenerChannel.*] and [TCPConnectorChannel.*],
      over the socket calls as the class [Sockets].
    - [Protocol]: [squidprotocol/squidprotocol.*], one connection: frames,
      sequence numbers, the reorder buffer, the requests, the dispatcher.
    - [SyncPlanner]: [filesystem/syncplanner.hpp].
    - [StateStore]: [server/src/state_manager.hpp] and
      [filesystem/epoch_store.hpp], with saves as sequences of file-system
      operations, [fsync] among them, of which the disk may refuse some.  A
      power failure ([after_crash]) comes after any prefix and may leave
      anything in a file that was written and not synced.
    - [ClusterConfig]: [config/ClusterConfig.hpp].
    - [Session]: [networking/ConnectionSession.hpp], the task queue of a
      connection, [call], [post] and the worker.  The class [Session] is what
      the server uses of a session and [DataNodeSession] what it may rely on
      when the peer is a datanode; the server's theorems are proved against
      these classes.  [ConnectionSession] is an instance of the first; [Node],
      a peer in memory, and [Linked.Link] of both.
    - [Worker]: the same file as a transition system: the worker, the request
      handler it runs on itself (with the direct path of [call]) and other
      threads interleave, also in the middle of a task, which is a tree of
      operations on the protocol; timeouts, and the session's own pointer to
      itself with the join of [Utils].
    - [ServerState]: the members of [Server] and its managers as one record,
      since the managers share the maps by reference; a
      [shared_ptr<ConnectionSession>] is an identifier into the table
      [sessions].  Work handed to other threads is recorded in [posted].
    - [ThreadPool]: [server/src/thread_pool.hpp], as steps of the workers that
      interleave.
    - [LockManager], [Replication] (with [HeartbeatManager]), [Standby],
      [Server]: [server/src/lock_manager.*], [replication_manager.*] and
      [heartbeat_manager.*], [standby_replica_manager.*], [server.*].
    - [Concurrent]: the operations of [Replication] as threads that give up
      [stateMutex_] where the code does, under any schedule.
    - [Linked]: the server's end and a datanode's end of a connection run
      against each other, byte by byte.
    - [ServerRun]: the threads of [Server::run], as the relation [server_step]
      whose steps are whole turns of any of them.
    - [Watcher]: [server/src/replica_watcher.*], the standby's side; [WatchTimer]:
      its receive loop with the clock, and its thread.  Promotion is a sequence
      of steps, the operations of [EpochStore::save] among them.
    - [Posted]: what the tasks posted to a session put on its connection, and
      what the standby or the client at the other end makes of it.
    - [Startup]: [server/src/main.cpp], the roles a server process takes and
      what a standby does when it promotes itself.
    - [ServerLife]: the constructors of [Server], [run] and the destructor as
      commands of the thread that owns the server, among the threads it starts.
    - [Peer], [DataNode], [Client]: [common/src/peer/peer.*] with the request
      handler of [datanode/src/datanode.cpp]; the rest of [datanode.cpp] and
      [datanode/src/main.cpp]; and [client/src/client.*].
    - [EndToEnd]: a client, its connection, the turns of the server that serve
      it and datanodes of [Linked] put together; [LockService]: any number of
      clients and the locks.
    - [SquidFS]: [client/src/squidfs.*], over the class [FsClient] of what it
      uses of the client.  [FsClients] has instances of that class (the
      client itself, a client that keeps a record of its requests, a server in
      memory), the class [FileServer] of what closing and opening rely on, and
      relates [Client.handlePush] to the events of [SquidFS].
      [FsCounts] proves the invariants of the cache, [FsFiles] that an open
      file is an array of bytes, [FsClose] what closing does and that the
      operations return, [FsDirs] the directories, [FsFaults] what is lost.
    - [Mounted]: the file system on a client whose connection goes to the server
      of [EndToEnd] and its datanodes; the laws of [FileServer] are proved of
      this whole ([World_server]).
    - [Mains]: [client/src/main.cpp] and [client/src/squidfs_main.cpp].

    Other threads.  A session is a sequential object ([Worker]), and an operation
    of the server is a sequence of atomic actions: critical sections, requests
    to one session, posts, and file-system operations.  [Concurrent] writes it
    as a tree of actions ([prog]); [thread_alone_is_operation] says that the
    tree, run alone, is the definition of [Replication], and the theorems
    about schedules go by rely and guarantee: what the other threads may do
    between two actions is a relation ([undisturbed]) that each of their
    actions is shown to respect ([respects], [amid]).  The file system gives up
    [cacheMutex_] around every request, and the session's worker and the health
    monitor run then.  A state of [SquidFS] carries a schedule [env], any list of
    batches of events; the next batch runs before each lock and each request, so
    that a theorem about all states is one about all interleavings.  The mutex is
    a flag, and locking it twice is the outcome [Hang].

    ** What the theorems show

    - The whole: a client that updates a file and reads it back gets what it
      wrote, from its own calls down to the disks of the datanodes
      ([client_reads_its_write]); the lock service refines a map from files to
      owners, for any number of clients and any order of their requests
      ([lock_service_refines]).
    - The wire format: what is built is parsed back ([frame_roundtrip]), only
      frames are parsed ([parse_sound]), when building fails
      ([buildFrame_total]), and the payloads of the larger messages
      ([version_map_roundtrip], [snap_entry_roundtrip]).
    - Sockets: every path through the listener and the connectors closes the
      descriptors it does not return ([descriptors_balance]).
    - Connections: transfers deliver what was sent whatever the sizes of the
      reads and writes ([transfer_roundtrip]); receiving always returns
      ([receive_returns]) and delivers messages once and in order
      ([delivery_in_order]); both ends of an upload, a download and the
      handshake agree byte for byte ([upload_rpc], [read_rpc],
      [handshake_agreement]); failover ([failover_takes_first]); a datanode that
      lost its server comes back ([datanode_comes_back]).
    - Storage: the version file refines a map ([version_file_refines_map]);
      the durable maps survive a power failure at any point
      ([state_survives_crash]); the plan of a synchronisation is right
      ([plan_synchronises]); configuration files are read back
      ([config_roundtrip], [priority_is_position]).
    - Sessions: worker, handlers and callers together do the submitted tasks and
      the handling of messages one after the other, each once and in order
      ([session_is_sequential]); a queued call
      is served ([queued_call_is_served]); at most one request of a client is
      being handled ([one_request_at_a_time]); the one-step call of [Session]
      is what the worker does ([call_is_drain]).
    - Posts: what is posted to a standby or a client arrives and has its effect
      ([wired_standby_tracks], [pushes_reach_client]).
    - Replication: creations and updates need a quorum
      ([create_needs_quorum], [update_needs_quorum]) and clients are told the
      truth about them ([create_request_answered],
      [update_request_answered]); reads are not older than what is recorded
      ([read_is_current], [read_your_update]); the highest version wins at
      registration ([register_takes_highest]); leases are exclusive
      ([lease_is_exclusive]).  With datanodes that run the protocol the classes
      of [Session] are theorems ([Link_datanode]) and an update goes down to
      the bytes on the datanodes' disks ([wired_update_commits]).
    - Concurrency: an update or a read is not disturbed by threads that work on
      other files ([concurrent_update_commits], [concurrent_read_is_current]);
      two updates of one file can be
      ([same_file_updates_diverge], [overtaken_update_reverts]), and so can the
      saving of the state ([late_save_drops_commit]).
    - The running server: in any sequence of its threads' turns the disk
      covers what is committed, so that a restart loses nothing
      ([restart_keeps_commits]); the pool starts every task once and in order
      and drains when it is destroyed ([pool_runs_each_once],
      [shutdown_drains]); the destructor ends unless a thread is stuck
      ([destructor_ends], [stuck_heartbeat_blocks_owner]), but nothing makes [run]
      return ([server_never_stops]).
    - Threads: destroying a wrapper waits for its thread ([scoped_waits]), moving
      over one that runs terminates the process ([scoped_move_terminates]).
    - The file system: the counts of the cache and the server's lock
      ([counts_bounded], [writers_hold_lock]); an open file refines an array of
      bytes ([open_file_refines]); operations return ([operations_return]); a
      close sends the buffer once and gives the lock back
      ([close_publishes]); what was closed is on the disks of the datanodes and
      is what the next open reads, through client, server and datanodes
      ([close_to_open]); listings ([listChildren_spec],
      [readdir_names_resolve], [readdir_lists_files], [mkdir_makes_directory]).
    - High availability: a standby that applies what it is sent is a copy of
      the primary ([standby_mirrors_primary] for the frames,
      [standby_tracks_server] for any sequence of the primary's own
      operations); epochs grow and are durable before the role changes
      ([promotion_raises_epoch]); promotion needs every better server to be
      unreachable ([promotion_only_when_alone]); a silent primary is given up
      after the timeout and no earlier than that ([silence_is_detected],
      [timeout_means_silence]).
    - Behaviour a maintainer should know, each proved of the same definitions:
      [expiry_notice_eats_request], [checked_call_can_hang],
      [released_session_terminates], [client_needs_argument],
      [short_write_replaces_state], [late_task_is_lost], [hash_path_forgotten],
      [space_path_has_no_version],
      [push_taken_for_answer], [refused_update_resurfaces],
      [large_sync_suspends_client], [dead_session_stops_heartbeats],
      [read_missing_breaks_connection], [failed_delete_is_acknowledged],
      [window_commit_lost], [update_without_holders_commits],
      [expiry_unlocks_new_holder], [failed_receive_removes_file],
      [locks_are_advisory], [promotion_forgets_mirror], [leadership_is_kept],
      [stuck_tasks_block_pool], [empty_buffer_refetched],
      [delete_push_drops_writes], [open_leaks_lock], [rmdir_removes_nothing].

    ** Bounds and fuel

    Loops that read from a connection are fixpoints with fuel.
    [receiveAndParse] takes one unit per byte that can still arrive and one
    per buffered frame, and [receive_returns] proves that this is enough; the
    loops of [FileTransfer] take one unit per byte, as every successful call
    of the channel moves at least one.  Integers keep their C++ width: the
    reductions [u32], [i32] and [u64] are written where the code converts.

    An exchange of [Linked] alternates between the two ends at most four times;
    no request needs more than three rounds, as the lemmas [link_upload],
    [link_read] and their kin show by computing the result; the same holds of a
    request in [Mounted] ([ask_update], [ask_read], [ask_lock]).

    [ReplicaWatcher::tryConnect] and [connectWithFailover] recurse on the number
    of attempts; a schedule and a list of turns are as long as one likes.

    ** What is not modelled

    Data races inside one atomic action: [persistState] iterates over the maps
    without a lock, and [Concurrent] reads a map in one action; files are known
    by path there, where an overtaken save of the program goes on with its
    descriptor.  A turn of [server_step] is one uninterrupted run, also where its
    parts are interleaved in [Concurrent].  [Session] and the files on it treat a
    request to a session as one step; [Worker] has the interleaving inside it.
    Directory entries are taken to reach the disk in order.  The sockets under a connection are the class
    [NetworkChannel], of which [Pipe] and [Gate] are instances; that a connection
    attempt is [Sockets.tryConnectChannel] is not stated in Rocq, where it is the
    argument [dial].  [EndToEnd] and [LockService] follow updates, reads and lock
    requests from the client's call to the server's state, with no push on the
    client's connection meanwhile ([push_taken_for_answer] is what happens then);
    creations, deletions and listings are followed from the handler on.
    [relativePath] is modelled for paths under the storage root.  The text of
    diagnostics, sleeping, memory exhaustion and the order in which the members
    of an object are destroyed are left out.  The clock is an argument, in
    minutes for locks and in milliseconds for the watcher.

    ** Extending it

    Creations, deletions and listings could be followed from the client's call
    as updates and reads are ([EndToEnd], [Mounted]), pushes to the client be
    brought into [World], and the invariants of [server_step] be shown to survive
    the interleavings of [Concurrent]. *)

From stdpp Require Export base tactics list gmap strings pretty sorting fin_maps sets.
From Stdlib Require Export ZArith Ascii Lia.
From Stdlib Require String.

#[global] Open Scope Z_scope.

(** ** Exceptions

    A C++ function that may throw [std::runtime_error] returns a [result]:
    the value, or the text the exception carries. *)
Inductive result (A : Type) : Type :=
| Ok (a : A)
| Throw (what : string).
Arguments Ok {A} a.
Arguments Throw {A} what.

Declare Scope squid_scope.
Delimit Scope squid_scope with squid.
Open Scope squid_scope.

Definition result_bind {A B} (r : result A) (k : A -> result B) : result B :=
  match r with Ok a => k a | Throw w => Throw w end.

Notation "'try!' x := r 'in' k" := (result_bind r (fun x => k))
  (at level 10, x name, r at level 100, k at level 200,
   format "'try!'  x  :=  r  'in' '//' k") : squid_scope.

Definition is_ok {A} (r : result A) : bool :=
  match r with Ok _ => true | Throw _ => false end.

(** ** Stateful code that may throw

    An operation on an object of type [S] that may throw: the new state is
    there in either case, as an exception does not undo what was done. *)
Definition SE (S A : Type) : Type := S -> result A * S.

Definition ret {S A} (a : A) : SE S A := fun s => (Ok a, s).
Definition bind {S A B} (m : SE S A) (k : A -> SE S B) : SE S B := fun s =>
  let '(r, s) := m s in
  match r with Ok a => k a s | Throw e => (Throw e, s) end.
Definition lift {S A} (f : S -> A * S) : SE S A := fun s => let '(a, s) := f s in (Ok a, s).
Definition modify {S} (f : S -> S) : SE S unit := fun s => (Ok tt, f s).
Definition gets {S A} (f : S -> A) : SE S A := fun s => (Ok (f s), s).

Notation "'let*' x := m 'in' k" := (bind m (fun x => k))
  (at level 10, x name, m at level 100, k at level 200,
   format "'let*'  x  :=  m  'in' '//' k") : squid_scope.
Notation "'do*' m 'in' k" := (bind m (fun _ => k))
  (at level 10, m at level 100, k at level 200,
   format "'do*'  m  'in' '//' k") : squid_scope.

(** [for (x : xs) body(x)]. *)
Fixpoint for_each {S A} (xs : list A) (body : A -> SE S unit) : SE S unit :=
  match xs with
  | [] => ret tt
  | x :: xs => do* body x in for_each xs body
  end.

Lemma for_each_app {S A} (xs ys : list A) (body : A -> SE S unit) s :
  for_each (xs ++ ys) body s = (do* for_each xs body in for_each ys body) s.
Proof.
  revert s. induction xs as [|x xs IH]; intros s; [done|]. simpl. unfold bind in *.
  destruct (body x s) as [[[]|e] s1]; [|done]. apply IH.
Qed.

(** ** Machine integers

    Values of [uint8_t], [uint16_t], [uint32_t], [uint64_t] and [int] are
    integers; a conversion to the type is the reduction below.  [i32] is the
    two's complement value, which is what [static_cast<int>] of a [uint32_t]
    gives. *)
Definition wrap (w z : Z) : Z := z mod 2 ^ w.
Definition u8 (z : Z) : Z := wrap 8 z.
Definition u16 (z : Z) : Z := wrap 16 z.
Definition u32 (z : Z) : Z := wrap 32 z.
Definition u64 (z : Z) : Z := wrap 64 z.
Definition i32 (z : Z) : Z := (z + 2 ^ 31) mod 2 ^ 32 - 2 ^ 31.

Definition in_u8 (z : Z) : Prop := 0 <= z < 2 ^ 8.
Definition in_u16 (z : Z) : Prop := 0 <= z < 2 ^ 16.
Definition in_u32 (z : Z) : Prop := 0 <= z < 2 ^ 32.
Definition in_u64 (z : Z) : Prop := 0 <= z < 2 ^ 64.
Definition in_i32 (z : Z) : Prop := - 2 ^ 31 <= z < 2 ^ 31.

Definition INT_MAX : Z := 2 ^ 31 - 1.
Definition UINT32_MAX : Z := 2 ^ 32 - 1.

Create HintDb squid.
Create Rewrite HintDb squid.

Lemma u32_small z : in_u32 z -> u32 z = z.
Proof. intros H. apply Z.mod_small. exact H. Qed.

Lemma u32_range z : in_u32 (u32 z).
Proof. apply Z.mod_pos_bound. lia. Qed.

Lemma i32_small z : in_i32 z -> i32 z = z.
Proof. unfold in_i32, i32. intros H. rewrite Z.mod_small by lia. lia. Qed.

Lemma i32_range z : in_i32 (i32 z).
Proof.
  unfold in_i32, i32.
  pose proof (Z.mod_pos_bound (z + 2 ^ 31) (2 ^ 32) ltac:(lia)). lia.
Qed.

(** A version survives the two casts [int -> uint32_t -> int] of the wire. *)
Lemma i32_u32 z : in_i32 z -> i32 (u32 z) = z.
Proof.
  unfold in_i32, i32, u32, wrap. intros H.
  rewrite Z.add_mod_idemp_l by lia. rewrite Z.mod_small by lia. lia.
Qed.

Lemma i32_of_u32 z : i32 (u32 z) = i32 z.
Proof. unfold i32, u32, wrap. by rewrite Z.add_mod_idemp_l by lia. Qed.

#[export] Hint Resolve u32_range i32_range : squid.

(** ** Bytes

    A byte of a [std::vector<uint8_t>] and a [char] of a [std::string] are
    both Rocq's [ascii]; [Z_of_byte] reads it as an unsigned integer and
    [byte_of_Z] is [static_cast<uint8_t>]. *)
Abbreviation byte := ascii.

Definition Z_of_byte (b : byte) : Z := Z.of_N (N_of_ascii b).
Definition byte_of_Z (z : Z) : byte := ascii_of_N (Z.to_N (u8 z)).

Lemma Z_of_byte_range b : in_u8 (Z_of_byte b).
Proof.
  unfold in_u8, Z_of_byte. pose proof (N_ascii_bounded b).
  change (2 ^ 8) with 256. lia.
Qed.

Lemma Z_of_byte_of_Z z : Z_of_byte (byte_of_Z z) = u8 z.
Proof.
  unfold Z_of_byte, byte_of_Z, u8, wrap.
  pose proof (Z.mod_pos_bound z (2 ^ 8) ltac:(lia)).
  change (2 ^ 8) with 256 in *.
  rewrite N_ascii_embedding by lia. lia.
Qed.

Lemma byte_of_Z_of_byte b : byte_of_Z (Z_of_byte b) = b.
Proof.
  unfold byte_of_Z, u8, wrap. rewrite Z.mod_small by apply Z_of_byte_range.
  unfold Z_of_byte. rewrite N2Z.id. apply ascii_N_embedding.
Qed.

Lemma Z_of_byte_small z : in_u8 z -> Z_of_byte (byte_of_Z z) = z.
Proof. intros H. rewrite Z_of_byte_of_Z. apply Z.mod_small, H. Qed.

#[export] Hint Resolve Z_of_byte_range : squid.
#[export] Hint Rewrite Z_of_byte_of_Z byte_of_Z_of_byte : squid.

(** Setting the low bits of a shifted value is an addition. *)
Lemma lor_mul_add a b k : 0 <= k -> 0 <= b < 2 ^ k -> Z.lor (a * 2 ^ k) b = a * 2 ^ k + b.
Proof.
  intros Hk Hb. symmetry. apply Z.add_nocarry_lor. apply Z.bits_inj'. intros n Hn.
  rewrite Z.land_spec, Z.bits_0, <-Z.shiftl_mul_pow2 by done.
  destruct (Z.lt_ge_cases n k).
  - by rewrite Z.shiftl_spec_low.
  - rewrite <-(Z.mod_small b (2 ^ k)) by done.
    rewrite Z.mod_pow2_bits_high by lia. apply andb_false_r.
Qed.

Lemma land_255 z : Z.land z 0xFF = u8 z.
Proof. change 0xFF with (Z.ones 8). by rewrite Z.land_ones. Qed.

Lemma byte_of_Z_land z : byte_of_Z (Z.land z 0xFF) = byte_of_Z z.
Proof.
  unfold byte_of_Z. rewrite land_255. unfold u8, wrap. by rewrite Z.mod_mod by lia.
Qed.

(** [std::vector<uint8_t>(s.begin(), s.end())] and its inverse. *)
Definition bytes_of_string (s : string) : list byte := String.list_ascii_of_string s.
Definition string_of_bytes (bs : list byte) : string := String.string_of_list_ascii bs.

Lemma string_of_bytes_of_string s : string_of_bytes (bytes_of_string s) = s.
Proof. apply String.string_of_list_ascii_of_string. Qed.

Lemma bytes_of_string_of_bytes bs : bytes_of_string (string_of_bytes bs) = bs.
Proof. apply String.list_ascii_of_string_of_list_ascii. Qed.

#[export] Hint Rewrite string_of_bytes_of_string bytes_of_string_of_bytes : squid.

Lemma bytes_of_string_app s t :
  bytes_of_string (s +:+ t) = bytes_of_string s ++ bytes_of_string t.
Proof. induction s as [|c s IH]; [done|]. by f_equal/=. Qed.

Lemma string_of_bytes_app l k :
  string_of_bytes (l ++ k) = string_of_bytes l +:+ string_of_bytes k.
Proof. induction l as [|c l IH]; [done|]. simpl. by rewrite IH. Qed.

Lemma bytes_of_string_inj s t : bytes_of_string s = bytes_of_string t -> s = t.
Proof. intros H. by rewrite <-(string_of_bytes_of_string s), H, string_of_bytes_of_string. Qed.

(** ** Iteration over a [std::map]

    A [std::map<std::string, V>] is a [gmap string V]; a range-based [for]
    visits its entries in increasing order of the keys, bytewise. *)
Definition key_le {V} (x y : string * V) : Prop := String.le x.1 y.1.

#[export] Instance key_le_dec {V} : RelDecision (@key_le V).
Proof. intros x y. unfold key_le. apply _. Defined.
#[export] Instance key_le_trans {V} : Transitive (@key_le V).
Proof. intros x y z H1 H2. unfold key_le in *. by etrans. Qed.
#[export] Instance key_le_total {V} : Total (@key_le V).
Proof. intros x y. unfold key_le. apply (total String.le). Qed.

Definition map_entries {V} (m : gmap string V) : list (string * V) :=
  merge_sort key_le (map_to_list m).
Definition map_keys {V} (m : gmap string V) : list string := (map_entries m).*1.
Definition map_values {V} (m : gmap string V) : list V := (map_entries m).*2.
(** Iteration over a [std::set<std::string>]. *)
Definition set_elems (s : gset string) : list string := merge_sort String.le (elements s).

Section map_entries.
Context {V : Type}.
Implicit Types m : gmap string V.

Lemma map_entries_perm m : map_entries m ≡ₚ map_to_list m.
Proof. apply merge_sort_Permutation. Qed.

Lemma elem_of_map_entries m k v : (k, v) ∈ map_entries m <-> m !! k = Some v.
Proof. rewrite map_entries_perm. apply elem_of_map_to_list. Qed.

Lemma length_map_entries m : length (map_entries m) = size m.
Proof. rewrite map_entries_perm. apply length_map_to_list. Qed.

Lemma NoDup_map_keys m : NoDup (map_entries m).*1.
Proof. rewrite map_entries_perm. apply NoDup_fst_map_to_list. Qed.

Lemma list_to_map_entries m : list_to_map (map_entries m) = m.
Proof.
  rewrite (list_to_map_proper _ (map_to_list m)).
  - apply list_to_map_to_list.
  - apply NoDup_map_keys.
  - apply map_entries_perm.
Qed.

Lemma sorted_map_entries m : Sorted key_le (map_entries m).
Proof. apply Sorted_merge_sort. apply _. Qed.

Lemma map_entries_empty : map_entries (∅ : gmap string V) = [].
Proof. unfold map_entries. by rewrite map_to_list_empty. Qed.
End map_entries.

(** Storing the entries of a list one after the other, [m[k] = v]. *)
Definition store_all {V} (kvs : list (string * V)) (m : gmap string V) : gmap string V :=
  fold_left (fun m kv => <[kv.1 := kv.2]> m) kvs m.

Lemma lookup_store_all_ne {V} (kvs : list (string * V)) m k :
  k ∉ kvs.*1 -> store_all kvs m !! k = m !! k.
Proof.
  revert m. induction kvs as [|[k' v'] kvs IH]; intros m Hk; [done|].
  simpl. rewrite IH by set_solver. simpl. rewrite lookup_insert_ne; [done|set_solver].
Qed.

Lemma lookup_store_all {V} (kvs : list (string * V)) m k v :
  NoDup kvs.*1 -> (k, v) ∈ kvs -> store_all kvs m !! k = Some v.
Proof.
  revert m. induction kvs as [|[k' v'] kvs IH]; intros m Hnd Hin; [set_solver|].
  apply NoDup_cons in Hnd as [Hnot Hnd]. simpl in *.
  apply elem_of_cons in Hin as [[= -> ->]|Hin].
  - rewrite lookup_store_all_ne by done. apply lookup_insert_eq.
  - by apply IH.
Qed.

Lemma store_all_entries {V} (m : gmap string V) : store_all (map_entries m) ∅ = m.
Proof.
  apply map_eq. intros k. destruct (m !! k) as [v|] eqn:Hk.
  - apply lookup_store_all; [apply NoDup_map_keys|]. by apply elem_of_map_entries.
  - rewrite lookup_store_all_ne; [apply lookup_empty|].
    intros ([k' v] & -> & Hin)%list_elem_of_fmap.
    apply elem_of_map_entries in Hin. simpl in Hk. congruence.
Qed.

Lemma set_elems_perm (s : gset string) : set_elems s ≡ₚ elements s.
Proof. apply merge_sort_Permutation. Qed.

Lemma list_to_set_elems (s : gset string) : list_to_set (set_elems s) = s.
Proof. rewrite (list_to_set_perm_L _ _ (set_elems_perm s)). apply list_to_set_elements_L. Qed.

Lemma elem_of_set_elems (s : gset string) x : x ∈ set_elems s <-> x ∈ s.
Proof. rewrite set_elems_perm. apply elem_of_elements. Qed.

Lemma sublist_all {A} (l k : list A) :
  l `sublist_of` k -> (length k <= length l)%nat -> l = k.
Proof.
  induction 1 as [|x l k Hlk IH|x l k Hlk IH]; intros Hlen; [done| |].
  - f_equal. apply IH. simpl in Hlen. lia.
  - apply sublist_length in Hlk. simpl in Hlen. lia.
Qed.

(** ** Tactics *)

(** Case analysis on the innermost [match], keeping equations, then clean up. *)
Ltac squid_case :=
  match goal with
  | H : context [match ?x with _ => _ end] |- _ =>
      lazymatch x with context [match _ with _ => _ end] => fail | _ => destruct x eqn:? end
  | |- context [match ?x with _ => _ end] =>
      lazymatch x with context [match _ with _ => _ end] => fail | _ => destruct x eqn:? end
  end; simplify_eq/=.

Ltac squid_cases := repeat squid_case.

(** Turn the boolean comparisons of the code into propositions. *)
Ltac to_prop :=
  repeat match goal with
  | H : (_ <? _) = true |- _ => apply Z.ltb_lt in H
  | H : (_ <? _) = false |- _ => apply Z.ltb_ge in H
  | H : (_ <=? _) = true |- _ => apply Z.leb_le in H
  | H : (_ <=? _) = false |- _ => apply Z.leb_gt in H
  | H : (_ =? _) = true |- _ => apply Z.eqb_eq in H
  | H : (_ =? _) = false |- _ => apply Z.eqb_neq in H
  | H : (_ <? _)%nat = true |- _ => apply Nat.ltb_lt in H
  | H : (_ <? _)%nat = false |- _ => apply Nat.ltb_ge in H
  | H : (_ <=? _)%nat = true |- _ => apply Nat.leb_le in H
  | H : (_ <=? _)%nat = false |- _ => apply Nat.leb_gt in H
  | H : negb _ = true |- _ => apply negb_true_iff in H
  | H : negb _ = false |- _ => apply negb_false_iff in H
  | H : _ && _ = true |- _ => apply andb_true_iff in H as [? ?]
  | H : _ || _ = false |- _ => apply orb_false_iff in H as [? ?]
  end.
