(* ===== verification/Text.v ===== *)
(** * Text handling of the C++ standard library

    What the sources use of [<sstream>], [<fstream>] and [std::string] on
    text: [std::getline], [operator>>] on an [istringstream], [std::stoi],
    [std::to_string], [find], [rfind] and [substr].  A text is the list of its
    bytes; the rest of a stream is the list that has not been read. *)

From S2P Require Import Prelude.

(** ** Characters *)

Definition char (c : Ascii.ascii) : byte := c.
Definition is_space (c : byte) : bool := Ascii.is_space c.
Definition newline : byte := "010"%char.
Definition space : byte := " "%char.
Definition comma : byte := ","%char.

(** The value of a decimal digit. *)
Definition digit (c : byte) : option Z :=
  let z := Z_of_byte c in
  if (48 <=? z) && (z <=? 57) then Some (z - 48) else None.

Definition is_digit (c : byte) : bool := bool_decide (is_Some (digit c)).

(** ** Formatted input *)

Fixpoint skip_ws (l : list byte) : list byte :=
  match l with
  | c :: l' => if is_space c then skip_ws l' else l
  | [] => []
  end.

(** The longest prefix whose characters satisfy [p], and the rest. *)
Fixpoint span (p : byte -> bool) (l : list byte) : list byte * list byte :=
  match l with
  | c :: l' => if p c then let '(a, b) := span p l' in (c :: a, b) else ([], l)
  | [] => ([], [])
  end.

(** [in >> s] for a [std::string]: fails when only white space is left. *)
Definition read_word (l : list byte) : option (list byte * list byte) :=
  match span (fun c => negb (is_space c)) (skip_ws l) with
  | ([], _) => None
  | (w, rest) => Some (w, rest)
  end.

Fixpoint read_digits (acc : Z) (l : list byte) : Z * list byte :=
  match l with
  | c :: l' => match digit c with
               | Some d => read_digits (acc * 10 + d) l'
               | None => (acc, l)
               end
  | [] => (acc, [])
  end.

Definition read_magnitude (l : list byte) : option (Z * list byte) :=
  match l with
  | c :: _ => if is_digit c then Some (read_digits 0 l) else None
  | [] => None
  end.

(** An optional sign, then at least one digit; the sign and the magnitude. *)
Definition read_signed (l : list byte) : option (bool * Z * list byte) :=
  match l with
  | c :: l' =>
      if decide (c = "-"%char) then
        match read_magnitude l' with Some (z, r) => Some (true, z, r) | None => None end
      else if decide (c = "+"%char) then
        match read_magnitude l' with Some (z, r) => Some (false, z, r) | None => None end
      else match read_magnitude l with Some (z, r) => Some (false, z, r) | None => None end
  | [] => None
  end.

Definition signed_value (neg : bool) (z : Z) : Z := if neg then - z else z.

Definition in_i32b (z : Z) : bool := (- 2 ^ 31 <=? z) && (z <? 2 ^ 31).

(** [in >> v] for an [int]: fails on a missing number and out of range. *)
Definition read_int (l : list byte) : option (Z * list byte) :=
  match read_signed (skip_ws l) with
  | Some (neg, z, r) =>
      let v := signed_value neg z in
      if in_i32b v then Some (v, r) else None
  | None => None
  end.

(** [std::stoi]: [None] stands for either exception it throws. *)
Definition stoi (l : list byte) : option Z := fst <$> read_int l.

(** The value of a [uint32_t v = 0] after [in >> v]: a magnitude out of range
    stores the maximum, a minus sign negates modulo 2^32. *)
Definition read_u32 (l : list byte) : Z :=
  match read_signed (skip_ws l) with
  | Some (neg, z, _) =>
      if (UINT32_MAX <? z) then UINT32_MAX
      else if neg then u32 (- z) else z
  | None => 0
  end.

(** ** Lines and separators *)

(** [while (std::getline(in, part, d))]: the parts between delimiters; a last
    part without a delimiter after it counts when it is not empty. *)
Fixpoint split_at (d : byte) (cur : list byte) (l : list byte) : list (list byte) :=
  match l with
  | [] => match cur with [] => [] | _ => [reverse cur] end
  | c :: l' => if decide (c = d) then reverse cur :: split_at d [] l'
               else split_at d (c :: cur) l'
  end.

Definition getlines (l : list byte) : list (list byte) := split_at newline [] l.

(** [for (line : lines) out << line << '\n']. *)
Definition unlines (ls : list (list byte)) : list byte :=
  concat (map (fun l => l ++ [newline]) ls).

(** [s.find(c)] and [s.rfind(c)]; [None] is [npos]. *)
Fixpoint find_char (d : byte) (l : list byte) : option nat :=
  match l with
  | [] => None
  | c :: l' => if decide (c = d) then Some 0%nat else S <$> find_char d l'
  end.

Fixpoint rfind_char (d : byte) (l : list byte) : option nat :=
  match l with
  | [] => None
  | c :: l' => match rfind_char d l' with
               | Some i => Some (S i)
               | None => if decide (c = d) then Some 0%nat else None
               end
  end.

(** [std::to_string]. *)
Definition to_string (z : Z) : string := pretty z.
Definition decimal (z : Z) : list byte := bytes_of_string (to_string z).

(** [d] joined between the parts, as the [bool first] loops write them. *)
Fixpoint join (d : byte) (parts : list (list byte)) : list byte :=
  match parts with
  | [] => []
  | [p] => p
  | p :: ps => p ++ d :: join d ps
  end.

(** ** Facts *)

Definition no_space (l : list byte) : Prop := Forall (fun c => is_space c = false) l.
Definition free_of (d : byte) (l : list byte) : Prop := Forall (fun c => c <> d) l.

#[export] Instance no_space_dec l : Decision (no_space l).
Proof. unfold no_space. apply _. Defined.
#[export] Instance free_of_dec d l : Decision (free_of d l).
Proof. unfold free_of. apply _. Defined.

Lemma no_space_free_of c l : is_space c = true -> no_space l -> free_of c l.
Proof. intros Hc Hl. eapply Forall_impl; [exact Hl|]. intros x Hx ->. simpl in Hx. congruence. Qed.

Lemma span_app p a b :
  Forall (fun c => p c = true) a ->
  match b with [] => True | c :: _ => p c = false end ->
  span p (a ++ b) = (a, b).
Proof.
  intros Ha Hb. induction Ha as [|c a Hc Ha IH]; simpl.
  - destruct b as [|c b]; simpl; [done|]. by rewrite Hb.
  - by rewrite Hc, IH.
Qed.

Lemma skip_ws_no_space c l : is_space c = false -> skip_ws (c :: l) = c :: l.
Proof. simpl. by intros ->. Qed.

(** A word followed by white space or by the end is read back. *)
Lemma read_word_app w rest :
  w <> [] -> no_space w ->
  match rest with [] => True | c :: _ => is_space c = true end ->
  read_word (w ++ rest) = Some (w, rest).
Proof.
  intros Hne Hw Hr. unfold read_word.
  destruct w as [|c w]; [done|]. pose proof (Forall_inv Hw) as Hc. simpl in Hc.
  change ((c :: w) ++ rest) with (c :: (w ++ rest)).
  rewrite (skip_ws_no_space c (w ++ rest)) by done.
  change (c :: (w ++ rest)) with ((c :: w) ++ rest).
  rewrite span_app; [done| |].
  - eapply Forall_impl; [exact Hw|]. simpl. by intros x ->.
  - destruct rest; [done|]. by rewrite Hr.
Qed.

Lemma read_word_space c l : is_space c = true -> read_word (c :: l) = read_word l.
Proof. unfold read_word. simpl. by intros ->. Qed.

Lemma digit_char n : (n < 10)%N -> digit (pretty_N_char n) = Some (Z.of_N n).
Proof.
  assert (Forall (fun k => digit (pretty_N_char k) = Some (Z.of_N k)) (map N.of_nat (List.seq 0 10))) as Hall
    by (cbn; repeat (constructor; [reflexivity|]); constructor).
  intros H. rewrite Forall_forall in Hall. apply Hall, list_elem_of_In, List.in_map_iff.
  exists (N.to_nat n). split; [apply N2Nat.id|]. apply List.in_seq. lia.
Qed.

Lemma read_digits_pretty n s :
  read_digits 0 (bytes_of_string (pretty_N_go n s))
  = read_digits (Z.of_N n) (bytes_of_string s).
Proof.
  revert s. induction (N.lt_wf_0 n) as [n _ IH]; intros s.
  destruct (decide (n = 0)%N) as [->|Hn]; [by rewrite pretty_N_go_0|].
  rewrite pretty_N_go_step by lia.
  rewrite IH by (apply N.div_lt; lia). simpl.
  rewrite digit_char by (apply N.mod_lt; lia).
  f_equal. pose proof (N.div_mod n 10) as Hdm. lia.
Qed.

(** The characters [std::to_string] writes. *)
Definition digit_or_dash (c : byte) : Prop := is_digit c = true \/ c = "-"%char.

Lemma pretty_N_go_digits n s :
  Forall digit_or_dash (bytes_of_string s) ->
  Forall digit_or_dash (bytes_of_string (pretty_N_go n s)).
Proof.
  revert s. induction (N.lt_wf_0 n) as [n _ IH]; intros s Hs.
  destruct (decide (n = 0)%N) as [->|Hn]; [by rewrite pretty_N_go_0|].
  rewrite pretty_N_go_step by lia. apply IH; [apply N.div_lt; lia|].
  constructor; [|done]. left. apply bool_decide_eq_true.
  rewrite digit_char by (apply N.mod_lt; lia). eauto.
Qed.

Lemma pretty_N_go_head n s :
  (0 < n)%N -> exists c r, bytes_of_string (pretty_N_go n s) = c :: r /\ is_digit c = true.
Proof.
  revert s. induction (N.lt_wf_0 n) as [n _ IH]; intros s Hn.
  rewrite pretty_N_go_step by done.
  destruct (decide (n / 10 = 0)%N) as [Hd|Hd].
  - rewrite Hd, pretty_N_go_0. simpl. eexists _, _. split; [done|].
    apply bool_decide_eq_true. rewrite digit_char by (apply N.mod_lt; lia). eauto.
  - apply IH; [apply N.div_lt; lia|by apply N.neq_0_lt_0].
Qed.

(** The magnitude of [std::to_string z] is read back, whatever follows that is
    not a digit. *)
Definition not_digit_next (l : list byte) : Prop :=
  match l with [] => True | c :: _ => digit c = None end.

Lemma read_digits_stop z l : not_digit_next l -> read_digits z l = (z, l).
Proof. destruct l as [|c l]; simpl; [done|]. by intros ->. Qed.

Lemma read_digits_app z l k :
  not_digit_next k -> read_digits z (l ++ k) =
    let '(v, r) := read_digits z l in (v, r ++ k).
Proof.
  intros Hk. revert z. induction l as [|c l IH]; intros z; simpl.
  - by apply read_digits_stop.
  - destruct (digit c); [apply IH|done].
Qed.

Lemma pretty_pos_bytes (p : positive) :
  bytes_of_string (pretty p) = bytes_of_string (pretty_N_go (Npos p) "").
Proof. reflexivity. Qed.

Lemma read_magnitude_pos (p : positive) l :
  not_digit_next l ->
  read_magnitude (bytes_of_string (pretty p) ++ l) = Some (Zpos p, l).
Proof.
  intros Hl. rewrite pretty_pos_bytes.
  destruct (pretty_N_go_head (Npos p) "") as (c & r & Heq & Hc); [lia|].
  unfold read_magnitude. rewrite Heq at 1. simpl. rewrite Hc.
  rewrite read_digits_app by done. by rewrite read_digits_pretty.
Qed.

Lemma decimal_pos_head (p : positive) : exists c r,
  bytes_of_string (pretty p) = c :: r /\ is_digit c = true.
Proof. rewrite pretty_pos_bytes. apply pretty_N_go_head. lia. Qed.

Lemma is_digit_props c :
  is_digit c = true -> is_space c = false /\ c <> "-"%char /\ c <> "+"%char /\ c <> comma
    /\ c <> space /\ c <> newline /\ c <> "#"%char.
Proof.
  destruct c as [[] [] [] [] [] [] [] []]; vm_compute; intros H;
    first [discriminate | repeat split; discriminate].
Qed.

Lemma read_signed_decimal z l :
  not_digit_next l ->
  exists neg m, read_signed (skip_ws (decimal z ++ l)) = Some (neg, m, l)
                /\ signed_value neg m = z.
Proof.
  intros Hl. unfold decimal, to_string. destruct z as [|p|p].
  - exists false, 0. split; [|done]. simpl. rewrite read_digits_stop by done. done.
  - destruct (decimal_pos_head p) as (c & r & Heq & Hc).
    destruct (is_digit_props c Hc) as (Hs & Hm & Hp & _).
    exists false, (Zpos p). split; [|done].
    change (pretty (Zpos p)) with (pretty p). rewrite Heq.
    change ((c :: r) ++ l) with (c :: (r ++ l)).
    rewrite (skip_ws_no_space c (r ++ l) Hs). unfold read_signed.
    rewrite !decide_False by done.
    change (c :: r ++ l) with ((c :: r) ++ l). rewrite <-Heq, read_magnitude_pos by done. done.
  - exists true, (Zpos p). split; [|done].
    change (read_signed (skip_ws (bytes_of_string (pretty (Zneg p)) ++ l))) with
      (match read_magnitude (bytes_of_string (pretty p) ++ l) with
       | Some (z, r) => Some (true, z, r) | None => None end).
    by rewrite read_magnitude_pos.
Qed.

Lemma in_i32b_spec z : in_i32b z = true <-> in_i32 z.
Proof. unfold in_i32b, in_i32. rewrite andb_true_iff, Z.leb_le, Z.ltb_lt. lia. Qed.

(** [std::to_string] is undone by [in >> v] and by [std::stoi]. *)
Lemma read_int_decimal z l :
  in_i32 z -> not_digit_next l -> read_int (decimal z ++ l) = Some (z, l).
Proof.
  intros Hz Hl. unfold read_int.
  destruct (read_signed_decimal z l Hl) as (neg & m & -> & <-).
  by rewrite (proj2 (in_i32b_spec _) Hz).
Qed.

Lemma read_int_space z l :
  in_i32 z -> not_digit_next l -> read_int (space :: decimal z ++ l) = Some (z, l).
Proof. intros. change (read_int (space :: ?x)) with (read_int x). by apply read_int_decimal. Qed.

Lemma stoi_decimal z : in_i32 z -> stoi (decimal z) = Some z.
Proof.
  intros Hz. unfold stoi. rewrite <-(app_nil_r (decimal z)), read_int_decimal by done. done.
Qed.

Lemma read_u32_decimal z l :
  in_u32 z -> not_digit_next l -> read_u32 (decimal z ++ l) = z.
Proof.
  intros Hz Hl. unfold read_u32.
  destruct (read_signed_decimal z l Hl) as (neg & m & -> & Hv).
  unfold in_u32, UINT32_MAX, signed_value in *.
  destruct neg; case_match; to_prop; try lia.
  unfold u32, wrap. rewrite Z.mod_small; lia.
Qed.

Lemma decimal_chars z : Forall digit_or_dash (decimal z).
Proof.
  unfold decimal, to_string. destruct z as [|p|p].
  - repeat constructor.
  - apply (pretty_N_go_digits (Npos p)). constructor.
  - simpl. constructor; [by right|]. apply (pretty_N_go_digits (Npos p)). constructor.
Qed.

Lemma digit_or_dash_props c :
  digit_or_dash c -> is_space c = false /\ c <> comma /\ c <> space /\ c <> newline
    /\ c <> "#"%char.
Proof.
  intros [H| ->]; [|done]. destruct (is_digit_props c H) as (?&?&?&?&?&?&?). done.
Qed.

Lemma decimal_no_space z : no_space (decimal z).
Proof. eapply Forall_impl; [apply decimal_chars|]. intros c Hc. by apply digit_or_dash_props. Qed.

Lemma decimal_not_nil z : decimal z <> [].
Proof.
  unfold decimal, to_string. destruct z as [|p|p]; [done| |done].
  destruct (decimal_pos_head p) as (c & r & Heq & _).
  change (pretty (Zpos p)) with (pretty p). by rewrite Heq.
Qed.

(** ** Lines and separators *)

Lemma split_at_app d cur p l :
  free_of d p -> split_at d cur (p ++ d :: l) = reverse (reverse p ++ cur) :: split_at d [] l.
Proof.
  intros Hp. revert cur. induction Hp as [|c p Hc Hp IH]; intros cur; simpl.
  - by rewrite decide_True.
  - rewrite decide_False by done. rewrite IH. by rewrite reverse_cons, <-app_assoc.
Qed.

Lemma split_at_last d cur p :
  free_of d p -> split_at d cur p =
    match reverse p ++ cur with [] => [] | _ => [reverse (reverse p ++ cur)] end.
Proof.
  intros Hp. revert cur. induction Hp as [|c p Hc Hp IH]; intros cur; simpl.
  - by destruct cur.
  - rewrite decide_False by done. rewrite IH. by rewrite reverse_cons, <-app_assoc.
Qed.

(** A text file of lines is read back line by line. *)
Lemma getlines_unlines ls : Forall (free_of newline) ls -> getlines (unlines ls) = ls.
Proof.
  intros H. induction H as [|l ls Hl Hls IH]; [done|].
  unfold getlines, unlines in *. simpl. rewrite <-app_assoc. simpl.
  rewrite split_at_app by done. rewrite app_nil_r, reverse_involutive. by f_equal.
Qed.

(** A list of non-empty names joined with commas is split back. *)
Lemma split_at_join d ps :
  Forall (free_of d) ps -> Forall (fun p => p <> []) ps ->
  split_at d [] (join d ps) = ps.
Proof.
  intros Hf Hne. induction ps as [|p ps IH]; [done|].
  inversion Hf as [|? ? Hp Hps]; subst. inversion Hne as [|? ? Hp' Hps']; subst.
  destruct ps as [|q ps].
  - simpl. rewrite split_at_last by done. rewrite app_nil_r.
    destruct (reverse p) eqn:E; [|by rewrite <-E, reverse_involutive].
    apply (f_equal reverse) in E. rewrite reverse_involutive in E. by subst.
  - change (join d (p :: q :: ps)) with (p ++ d :: join d (q :: ps)).
    rewrite split_at_app by done. rewrite app_nil_r, reverse_involutive. by rewrite IH.
Qed.

Lemma join_not_nil d p ps : p <> [] -> join d (p :: ps) <> [].
Proof. intros Hp. destruct ps; simpl; [done|]. by destruct p. Qed.

Lemma no_space_join d ps :
  is_space d = false -> Forall no_space ps -> no_space (join d ps).
Proof.
  intros Hd H. induction H as [|p ps Hp Hps IH]; [constructor|].
  destruct ps as [|q ps]; [done|].
  change (join d (p :: q :: ps)) with (p ++ d :: join d (q :: ps)).
  apply Forall_app. split; [done|]. constructor; done.
Qed.

Lemma rfind_char_app d l k :
  free_of d k -> rfind_char d (l ++ d :: k) = Some (length l).
Proof.
  intros Hk.
  assert (rfind_char d k = None) as Hn.
  { induction Hk as [|c k Hc Hk IH]; simpl; [done|]. rewrite IH. by rewrite decide_False. }
  induction l as [|c l IH]; simpl.
  - by rewrite Hn, decide_True.
  - by rewrite IH.
Qed.

Lemma find_char_app d l k : free_of d l -> find_char d (l ++ d :: k) = Some (length l).
Proof.
  intros Hl. induction Hl as [|c l Hc Hl IH]; simpl.
  - by rewrite decide_True.
  - by rewrite decide_False, IH.
Qed.
