(* ===== verification/Utils.v ===== *)
(** * Utilities

    [common/src/utils/scoped_thread.hpp], the wrapper of [std::thread] that
    sessions and the file system keep their threads in, and
    [common/src/utils/logger.hpp].  What the C++ library does is written out:
    joining, moving over and destroying a [std::thread]. *)

From S2P Require Import Prelude Text.

(** ** Threads *)

(** What an operation may do: return, throw, wait for ever, or call
    [std::terminate]. *)
Inductive effect (A : Type) : Type :=
| Returns (a : A)
| Throws
| Waits
| Terminates.
Arguments Returns {A} a.
Arguments Throws {A}.
Arguments Waits {A}.
Arguments Terminates {A}.

(** A [std::thread] is the number of the thread it stands for, if any. *)
Definition handle : Type := option nat.
Definition joinable (t : handle) : bool := bool_decide (is_Some t).

Section threads.
(** The thread that calls, and whether a thread has returned. *)
Variables (self : nat) (finished : nat -> bool).

(** [std::thread::join]: the handle after it. *)
Definition join (t : handle) : effect handle :=
  match t with
  | None => Throws
  | Some i => if decide (i = self) then Throws else if finished i then Returns None else Waits
  end.

Definition detach (t : handle) : effect handle :=
  match t with None => Throws | Some _ => Returns None end.

(** The move assignment of [std::thread] terminates when a thread would be lost. *)
Definition moveAssign (t from : handle) : effect handle := if joinable t then Terminates else Returns from.

(** *** [ScopedThread] *)

Definition newScoped : handle := None.
Definition scoped (t : handle) : handle := t.

(** [operator=(std::thread)]. *)
Definition assign (t_ t : handle) : effect handle :=
  if joinable t_ then
    match join t_ with
    | Returns t_ => moveAssign t_ t
    | other => other
    end
  else moveAssign t_ t.

(** [operator=(ScopedThread &&) = default]. *)
Definition assignScoped (t_ from : handle) : effect handle := moveAssign t_ from.

(** The destructor; an exception in it terminates, and so does the destructor
    of the member when it is still joinable. *)
Definition destroy (t_ : handle) : effect unit :=
  if joinable t_ then
    match join t_ with
    | Returns t_ => if joinable t_ then Terminates else Returns tt
    | Throws => Terminates
    | Waits => Waits
    | Terminates => Terminates
    end
  else Returns tt.

(** The wrapper loses no thread: it is destroyed, or given a new thread, only
    when the old one has returned; until then it waits.  The thread itself must
    not do it: then the destructor terminates and the assignment throws. *)
Theorem scoped_waits t_ t :
  destroy t_ = match t_ with
               | None => Returns tt
               | Some i => if decide (i = self) then Terminates else if finished i then Returns tt else Waits
               end
  /\ assign t_ t = match t_ with
                   | None => Returns t
                   | Some i => if decide (i = self) then Throws else if finished i then Returns t else Waits
                   end.
Proof.
  unfold destroy, assign, moveAssign. destruct t_ as [i|]; [|done]. simpl.
  destruct (decide (i = self)); [done|]. by destruct (finished i).
Qed.

(** Its own move assignment is the one of [std::thread]: moving a wrapper over
    one that still has a thread ends the process, finished thread or not,
    which the wrapper is there to prevent. *)
Theorem scoped_move_terminates i from : assignScoped (Some i) from = Terminates.
Proof. done. Qed.
End threads.

(** ** Logging *)

Inductive LogLevel : Type := DEBUG | INFO | WARN | ERROR.

Definition level_rank (l : LogLevel) : nat := match l with DEBUG => 0 | INFO => 1 | WARN => 2 | ERROR => 3 end.
Definition levelToString (l : LogLevel) : string :=
  match l with DEBUG => "DEBUG" | INFO => "INFO" | WARN => "WARN" | ERROR => "ERROR" end.

(** [Logger]: its name, and the level and the output that all loggers share;
    [time] is what [put_time] makes of the clock. *)
Record LogState : Type := mkLog { minLevel_ : LogLevel; out : list byte }.
Definition newLogState : LogState := mkLog DEBUG [].
Definition setMinLevel (l : LogLevel) (s : LogState) : LogState := mkLog l (out s).

Definition logLine (name : string) (time : list byte) (l : LogLevel) (msg : list byte) : list byte :=
  time ++ bytes_of_string " [" ++ bytes_of_string (levelToString l) ++ bytes_of_string "] ["
  ++ bytes_of_string name ++ bytes_of_string "] " ++ msg ++ [newline].

Definition log (name : string) (time : list byte) (l : LogLevel) (msg : list byte) (s : LogState) : LogState :=
  if (level_rank l <? level_rank (minLevel_ s))%nat then s
  else mkLog (minLevel_ s) (out s ++ logLine name time l msg).

Definition debug name time := log name time DEBUG.
Definition info name time := log name time INFO.
Definition warn name time := log name time WARN.
Definition error name time := log name time ERROR.

(** Errors are always written, and nothing below the level is. *)
Lemma log_levels name time l msg s :
  log name time ERROR msg s = mkLog (minLevel_ s) (out s ++ logLine name time ERROR msg)
  /\ (log name time l msg s = s <-> (level_rank l < level_rank (minLevel_ s))%nat).
Proof.
  unfold log. split; [by destruct (minLevel_ s)|].
  destruct (Nat.ltb_spec (level_rank l) (level_rank (minLevel_ s))); [done|]. split; [|lia].
  intros E. apply (f_equal (fun s => length (out s))) in E. simpl in E. unfold logLine in E.
  rewrite !length_app in E. simpl in E. lia.
Qed.
