(* ===== verification/Wire.v ===== *)
(** * The SquidProtocol wire format

    Models [common/src/squidprotocol/squidProtocolFormatter.{hpp,cpp}]: opcodes,
    field identifiers, the binary frame, every [...Format] builder of
    [SquidProtocolFormatter], [parseMessage], and the accessors of [Message]. *)

From S2P Require Import Prelude Text.

(** ** Opcodes and field identifiers *)

Definition SQUID_MAGIC : Z := 0x5351.
Definition FLAG_RESPONSE : Z := 0x01.
Definition FRAME_HEADER_SIZE : nat := 13.

(** [enum class Opcode : uint8_t].  [static_cast<Opcode>(b)] accepts every
    byte, so a value outside the enumerators is [OTHER_OPCODE b]. *)
Inductive Opcode : Set :=
| CONNECT_SERVER | IDENTIFY | CLOSE | HEARTBEAT | SYNC_STATUS
| CREATE_FILE | READ_FILE | UPDATE_FILE | DELETE_FILE
| ACQUIRE_LOCK | RELEASE_LOCK
| PUSH_CREATE_FILE | PUSH_UPDATE_FILE | PUSH_DELETE_FILE
| STATE_SNAP | STATE_DELTA | LEADER_HB | NACK_STALE_EPOCH
| RESPONSE
| OTHER_OPCODE (b : byte).

#[export] Instance Opcode_eq_dec : EqDecision Opcode.
Proof. solve_decision. Defined.

Definition opcode_code (op : Opcode) : Z :=
  match op with
  | CONNECT_SERVER => 0x01 | IDENTIFY => 0x02 | CLOSE => 0x03
  | HEARTBEAT => 0x04 | SYNC_STATUS => 0x05
  | CREATE_FILE => 0x10 | READ_FILE => 0x12 | UPDATE_FILE => 0x13
  | DELETE_FILE => 0x14 | ACQUIRE_LOCK => 0x20 | RELEASE_LOCK => 0x21
  | PUSH_CREATE_FILE => 0x30 | PUSH_UPDATE_FILE => 0x31
  | PUSH_DELETE_FILE => 0x32
  | STATE_SNAP => 0x40 | STATE_DELTA => 0x41 | LEADER_HB => 0x42
  | NACK_STALE_EPOCH => 0x43 | RESPONSE => 0xFF
  | OTHER_OPCODE b => Z_of_byte b
  end.

Definition named_opcodes : list Opcode :=
  [CONNECT_SERVER; IDENTIFY; CLOSE; HEARTBEAT; SYNC_STATUS; CREATE_FILE;
   READ_FILE; UPDATE_FILE; DELETE_FILE; ACQUIRE_LOCK; RELEASE_LOCK;
   PUSH_CREATE_FILE; PUSH_UPDATE_FILE; PUSH_DELETE_FILE; STATE_SNAP;
   STATE_DELTA; LEADER_HB; NACK_STALE_EPOCH; RESPONSE].

(** [static_cast<Opcode>(b)]. *)
Definition opcode_of_byte (b : byte) : Opcode :=
  match List.find (fun op => opcode_code op =? Z_of_byte b) named_opcodes with
  | Some op => op
  | None => OTHER_OPCODE b
  end.

Definition opcodeToString (op : Opcode) : string :=
  match op with
  | CONNECT_SERVER => "CONNECT_SERVER" | IDENTIFY => "IDENTIFY"
  | CLOSE => "CLOSE" | HEARTBEAT => "HEARTBEAT" | SYNC_STATUS => "SYNC_STATUS"
  | CREATE_FILE => "CREATE_FILE" | READ_FILE => "READ_FILE"
  | UPDATE_FILE => "UPDATE_FILE" | DELETE_FILE => "DELETE_FILE"
  | ACQUIRE_LOCK => "ACQUIRE_LOCK" | RELEASE_LOCK => "RELEASE_LOCK"
  | PUSH_CREATE_FILE => "PUSH_CREATE_FILE"
  | PUSH_UPDATE_FILE => "PUSH_UPDATE_FILE"
  | PUSH_DELETE_FILE => "PUSH_DELETE_FILE"
  | STATE_SNAP => "STATE_SNAP" | STATE_DELTA => "STATE_DELTA"
  | LEADER_HB => "LEADER_HB" | NACK_STALE_EPOCH => "NACK_STALE_EPOCH"
  | RESPONSE => "RESPONSE" | OTHER_OPCODE _ => "UNKNOWN"
  end.

(** [enum class FieldID : uint8_t], in the same way. *)
Inductive FieldID : Set :=
| FILE_PATH | FILE_VERSION | NODE_TYPE | PROCESS_NAME | PORT | ACK
| IS_LOCKED | TIMESTAMP | FILE_ENTRY | VER_ENTRY
| EPOCH | DELTA_OP | DATANODE_NAME | SNAP_ENTRY
| OTHER_FIELD (b : byte).

#[export] Instance FieldID_eq_dec : EqDecision FieldID.
Proof. solve_decision. Defined.

Definition field_code (id : FieldID) : Z :=
  match id with
  | FILE_PATH => 0x01 | FILE_VERSION => 0x02 | NODE_TYPE => 0x03
  | PROCESS_NAME => 0x04 | PORT => 0x05 | ACK => 0x06 | IS_LOCKED => 0x07
  | TIMESTAMP => 0x08 | FILE_ENTRY => 0x10 | VER_ENTRY => 0x11
  | EPOCH => 0x20 | DELTA_OP => 0x21 | DATANODE_NAME => 0x22
  | SNAP_ENTRY => 0x23
  | OTHER_FIELD b => Z_of_byte b
  end.

Definition named_fields : list FieldID :=
  [FILE_PATH; FILE_VERSION; NODE_TYPE; PROCESS_NAME; PORT; ACK; IS_LOCKED;
   TIMESTAMP; FILE_ENTRY; VER_ENTRY; EPOCH; DELTA_OP; DATANODE_NAME;
   SNAP_ENTRY].

Definition field_of_byte (b : byte) : FieldID :=
  match List.find (fun id => field_code id =? Z_of_byte b) named_fields with
  | Some id => id
  | None => OTHER_FIELD b
  end.

Record BinaryField : Set := mkField { id : FieldID; value : list byte }.

Record Message : Set := mkMessage {
  opcode : Opcode;
  flags : Z;
  seq : Z;
  payloadLen : Z;
  fields : list BinaryField }.

(** The default member initialisers of [struct Message]. *)
Definition emptyMessage : Message := mkMessage RESPONSE 0 0 0 [].

#[export] Instance BinaryField_eq_dec : EqDecision BinaryField.
Proof. solve_decision. Defined.
#[export] Instance Message_eq_dec : EqDecision Message.
Proof. solve_decision. Defined.

(** ** Big-endian integers *)

Definition shr_byte (v : Z) (k : Z) : byte := byte_of_Z (Z.land (Z.shiftr v k) 0xFF).

Definition pushU16 (buf : list byte) (v : Z) : list byte :=
  buf ++ [byte_of_Z (Z.shiftr v 8); byte_of_Z (Z.land v 0xFF)].

Definition pushU32 (buf : list byte) (v : Z) : list byte :=
  buf ++ [shr_byte v 24; shr_byte v 16; shr_byte v 8; byte_of_Z (Z.land v 0xFF)].

Definition pushU64 (buf : list byte) (v : Z) : list byte :=
  buf ++ map (fun i => shr_byte v (8 * i)) [7; 6; 5; 4; 3; 2; 1; 0].

(** The byte at index [i] of a buffer the caller has checked to be long
    enough. *)
Definition at_ (p : list byte) (i : nat) : Z := Z_of_byte (nth i p zero).

Definition readU16 (p : list byte) : Z :=
  Z.lor (Z.shiftl (at_ p 0) 8) (at_ p 1).

Definition readU32 (p : list byte) : Z :=
  Z.lor (Z.lor (Z.lor (Z.shiftl (at_ p 0) 24) (Z.shiftl (at_ p 1) 16))
               (Z.shiftl (at_ p 2) 8)) (at_ p 3).

Definition readU64 (p : list byte) : Z :=
  fold_left (fun v i => Z.lor (u64 (Z.shiftl v 8)) (at_ p i)) [0;1;2;3;4;5;6;7]%nat 0.

(** ** Typed fields *)

Definition fieldString (i : FieldID) (s : string) : BinaryField :=
  mkField i (bytes_of_string s).

Definition fieldUint32 (i : FieldID) (v : Z) : BinaryField :=
  mkField i [shr_byte v 24; shr_byte v 16; shr_byte v 8; byte_of_Z (Z.land v 0xFF)].

(** [for (i = 7..0) { value[i] = v & 0xFF; v >>= 8; }]: the last byte is
    written first. *)
Fixpoint fill_be (n : nat) (v : Z) (acc : list byte) : list byte :=
  match n with
  | O => acc
  | S n => fill_be n (Z.shiftr v 8) (byte_of_Z (Z.land v 0xFF) :: acc)
  end.

Definition fieldUint64 (i : FieldID) (v : Z) : BinaryField := mkField i (fill_be 8 v []).

Definition fieldBool (i : FieldID) (v : bool) : BinaryField :=
  mkField i [byte_of_Z (if v then 0x01 else 0x00)].

(** ** Frames *)

(** The field loop of [buildFrame]. *)
Fixpoint pushFields (frame : list byte) (fs : list BinaryField) : result (list byte) :=
  match fs with
  | [] => Ok frame
  | f :: fs =>
      if (65535 <? Z.of_nat (length (value f)))
      then Throw "Field value exceeds maximum length"
      else
        let frame := frame ++ [byte_of_Z (field_code (id f))] in
        let frame := pushU16 frame (u16 (Z.of_nat (length (value f)))) in
        pushFields (frame ++ value f) fs
  end.

Definition buildFrame (op : Opcode) (fl : Z) (fs : list BinaryField) (plen : Z)
  : result (list byte) :=
  if (255 <? Z.of_nat (length fs))
  then Throw "Too many fields for a single frame"
  else
    let frame := pushU16 [] SQUID_MAGIC in
    let frame := frame ++ [byte_of_Z (opcode_code op)] in
    let frame := frame ++ [byte_of_Z fl] in
    let frame := frame ++ [byte_of_Z (Z.of_nat (length fs))] in
    let frame := pushU32 frame 0 in
    let frame := pushU32 frame plen in
    pushFields frame fs.

Definition stampSeq (frame : list byte) (s : Z) : list byte :=
  if (length frame <? FRAME_HEADER_SIZE)%nat then frame
  else
    <[8%nat := byte_of_Z (Z.land s 0xFF)]>
      (<[7%nat := shr_byte s 8]>
        (<[6%nat := shr_byte s 16]>
          (<[5%nat := shr_byte s 24]> frame))).

(** The field loop of [parseMessage]; [p] is what lies between the read
    pointer and [end]. *)
Fixpoint parseFields (nf : nat) (p : list byte) : result (list BinaryField) :=
  match nf with
  | O => Ok []
  | S nf =>
      if (length p <? 3)%nat then Throw "Frame truncated in field header"
      else
        let fid := field_of_byte (nth 0 p zero) in
        let vlen := Z.to_nat (readU16 (drop 1 p)) in
        let p := drop 3 p in
        if (length p <? vlen)%nat then Throw "Frame truncated in field value"
        else
          try! rest := parseFields nf (drop vlen p) in
          Ok (mkField fid (take vlen p) :: rest)
  end.

Definition parseMessage (frame : list byte) : result Message :=
  if (length frame <? FRAME_HEADER_SIZE)%nat then Throw "Frame too short"
  else if negb (readU16 frame =? SQUID_MAGIC) then Throw "Bad magic"
  else
    let op := opcode_of_byte (nth 2 frame zero) in
    let fl := at_ frame 3 in
    let nf := Z.to_nat (at_ frame 4) in
    let sq := readU32 (drop 5 frame) in
    let plen := readU32 (drop 9 frame) in
    try! fs := parseFields nf (drop 13 frame) in
    Ok (mkMessage op fl sq plen fs).

(** ** [SquidProtocolFormatter]: requests *)

Definition identifyFormat : result (list byte) := buildFrame IDENTIFY 0 [] 0.
Definition closeFormat : result (list byte) := buildFrame CLOSE 0 [] 0.
Definition connectServerFormat : result (list byte) := buildFrame CONNECT_SERVER 0 [] 0.
Definition heartbeatFormat : result (list byte) := buildFrame HEARTBEAT 0 [] 0.
Definition syncStatusFormat : result (list byte) := buildFrame SYNC_STATUS 0 [] 0.

Definition createFileFormat (filePath : string) : result (list byte) :=
  buildFrame CREATE_FILE 0 [fieldString FILE_PATH filePath] 0.
Definition createFileFormatV (filePath : string) (version : Z) : result (list byte) :=
  buildFrame CREATE_FILE 0
    [fieldString FILE_PATH filePath; fieldUint32 FILE_VERSION (u32 version)] 0.
Definition readFileFormat (filePath : string) : result (list byte) :=
  buildFrame READ_FILE 0 [fieldString FILE_PATH filePath] 0.
Definition updateFileFormat (filePath : string) : result (list byte) :=
  buildFrame UPDATE_FILE 0 [fieldString FILE_PATH filePath] 0.
Definition updateFileFormatV (filePath : string) (version : Z) : result (list byte) :=
  buildFrame UPDATE_FILE 0
    [fieldString FILE_PATH filePath; fieldUint32 FILE_VERSION (u32 version)] 0.
Definition deleteFileFormat (filePath : string) : result (list byte) :=
  buildFrame DELETE_FILE 0 [fieldString FILE_PATH filePath] 0.
Definition acquireLockFormat (filePath : string) : result (list byte) :=
  buildFrame ACQUIRE_LOCK 0 [fieldString FILE_PATH filePath] 0.
Definition releaseLockFormat (filePath : string) : result (list byte) :=
  buildFrame RELEASE_LOCK 0 [fieldString FILE_PATH filePath] 0.

Definition pushCreateFileFormat (filePath : string) (version : Z) : result (list byte) :=
  buildFrame PUSH_CREATE_FILE 0
    [fieldString FILE_PATH filePath; fieldUint32 FILE_VERSION (u32 version)] 0.
Definition pushUpdateFileFormat (filePath : string) (version : Z) : result (list byte) :=
  buildFrame PUSH_UPDATE_FILE 0
    [fieldString FILE_PATH filePath; fieldUint32 FILE_VERSION (u32 version)] 0.
Definition pushDeleteFileFormat (filePath : string) : result (list byte) :=
  buildFrame PUSH_DELETE_FILE 0 [fieldString FILE_PATH filePath] 0.

(** ** [SquidProtocolFormatter]: standby replication *)

(** One [SNAP_ENTRY] value: ["filePath version dn1,dn2,..."], the datanode
    part only when the replication map has a non-empty set for the path. *)
Definition snapEntry (filePath : string) (ver : Z) (holders : option (gset string)) : list byte :=
  let entry := bytes_of_string filePath ++ space :: decimal ver in
  match holders with
  | Some dns =>
      match set_elems dns with
      | [] => entry
      | names => entry ++ space :: join comma (map bytes_of_string names)
      end
  | None => entry
  end.

Definition stateSnapFields (versionMap : gmap string Z) (repMap : gmap string (gset string))
    (epoch : Z) : list BinaryField :=
  fieldUint32 EPOCH epoch
    :: map (fun kv => mkField SNAP_ENTRY (snapEntry kv.1 kv.2 (repMap !! kv.1)))
           (map_entries versionMap).

Definition stateSnapFormat (versionMap : gmap string Z)
    (repMap : gmap string (gset string)) (epoch : Z) : result (list byte) :=
  buildFrame STATE_SNAP 0 (stateSnapFields versionMap repMap epoch) 0.

Definition stateDeltaFields (op : Z) (filePath : string) (version : Z)
    (datanodes : list string) (epoch : Z) : list BinaryField :=
  [fieldUint32 EPOCH epoch; mkField DELTA_OP [byte_of_Z op];
   fieldString FILE_PATH filePath; fieldUint32 FILE_VERSION (u32 version)]
  ++ map (fieldString DATANODE_NAME) datanodes.

Definition stateDeltaFormat (op : Z) (filePath : string) (version : Z)
    (datanodes : list string) (epoch : Z) : result (list byte) :=
  buildFrame STATE_DELTA 0 (stateDeltaFields op filePath version datanodes epoch) 0.

Definition leaderHbFormat (epoch : Z) : result (list byte) :=
  buildFrame LEADER_HB 0 [fieldUint32 EPOCH epoch] 0.
Definition nackStaleEpochFormat (myEpoch : Z) : result (list byte) :=
  buildFrame NACK_STALE_EPOCH 0 [fieldUint32 EPOCH myEpoch] 0.

(** [parseSnapEntry]: [None] is the [false] return.  The set is the one the
    caller passes in, empty at its only call. *)
Definition parseSnapEntry (entry : list byte) : option (string * Z * gset string) :=
  match read_word entry with
  | None => None
  | Some (filePath, rest) =>
      match read_int rest with
      | None => None
      | Some (version, rest) =>
          let datanodes : gset string :=
            match read_word rest with
            | Some (dnList, _) =>
                list_to_set (map string_of_bytes
                  (List.filter (fun dn => negb (bool_decide (dn = [])))
                               (split_at comma [] dnList)))
            | None => ∅
            end in
          Some (string_of_bytes filePath, version, datanodes)
      end
  end.

(** ** [SquidProtocolFormatter]: responses *)

Definition responseAck (isAck : bool) : result (list byte) :=
  buildFrame RESPONSE FLAG_RESPONSE [fieldBool ACK isAck] 0.
Definition responseAckWithVersion (isAck : bool) (version : Z) : result (list byte) :=
  buildFrame RESPONSE FLAG_RESPONSE
    [fieldBool ACK isAck; fieldUint32 FILE_VERSION (u32 version)] 0.
Definition responseFormatText (ack : string) : result (list byte) :=
  responseAck (bool_decide (ack = "ACK")).
Definition responsePort (port : Z) : result (list byte) :=
  buildFrame RESPONSE FLAG_RESPONSE [fieldUint32 PORT (u32 port)] 0.
Definition responseIdentity (nodeType processName : string) : result (list byte) :=
  buildFrame RESPONSE FLAG_RESPONSE
    [fieldString NODE_TYPE nodeType; fieldString PROCESS_NAME processName] 0.

Definition versionMapFields (m : gmap string Z) : list BinaryField :=
  concat (map (fun kv => [fieldString FILE_ENTRY kv.1; fieldUint32 VER_ENTRY (u32 kv.2)])
              (map_entries m)).
Definition responseFileVersionMap (m : gmap string Z) : result (list byte) :=
  buildFrame RESPONSE FLAG_RESPONSE (versionMapFields m) 0.

(** The two overloads for maps of times send version 0 for every file. *)
Definition responseFormatTimes {T} (fileTimeMap : gmap string T) : result (list byte) :=
  responseFileVersionMap ((fun _ => 0) <$> fileTimeMap).

(** ** [Message] *)

Definition makeNack : Message := mkMessage RESPONSE FLAG_RESPONSE 0 0 [fieldBool ACK false].
Definition makeAck : Message := mkMessage RESPONSE FLAG_RESPONSE 0 0 [fieldBool ACK true].

Definition findField (m : Message) (i : FieldID) : option BinaryField :=
  List.find (fun f => bool_decide (id f = i)) (fields m).

Definition getString (m : Message) (i : FieldID) (def : string) : string :=
  match findField m i with
  | Some f => string_of_bytes (value f)
  | None => def
  end.

Definition getUint32 (m : Message) (i : FieldID) (def : Z) : Z :=
  match findField m i with
  | Some f => if (length (value f) <? 4)%nat then def else readU32 (value f)
  | None => def
  end.

Definition getUint64 (m : Message) (i : FieldID) (def : Z) : Z :=
  match findField m i with
  | Some f => if (length (value f) <? 8)%nat then def else readU64 (value f)
  | None => def
  end.

Definition getBool (m : Message) (i : FieldID) (def : bool) : bool :=
  match findField m i with
  | Some f => match value f with
              | [] => def
              | b :: _ => negb (Z_of_byte b =? 0x00)
              end
  | None => def
  end.

Definition isResponse (m : Message) : bool := negb (Z.land (flags m) FLAG_RESPONSE =? 0).
Definition isAck (m : Message) : bool := isResponse m && getBool m ACK false.

(** The first loop of [getFileVersionMap]: names and versions, in order. *)
Definition entryNames (fs : list BinaryField) : list string :=
  omap (fun f => if decide (id f = FILE_ENTRY) then Some (string_of_bytes (value f)) else None) fs.
Definition entryVersions (fs : list BinaryField) : list Z :=
  omap (fun f => if decide (id f = VER_ENTRY)
                 then if (4 <=? length (value f))%nat then Some (readU32 (value f)) else None
                 else None) fs.

Definition getFileVersionMap (m : Message) : gmap string Z :=
  store_all (zip (entryNames (fields m)) (map i32 (entryVersions (fields m)))) ∅.

Definition Message_toString (m : Message) : string :=
  "Message{opcode=" +:+ opcodeToString (opcode m) +:+ ",flags=" +:+ to_string (flags m)
  +:+ ",seq=" +:+ to_string (seq m) +:+ ",payloadLen=" +:+ to_string (payloadLen m)
  +:+ ",fields=[" +:+
  foldr String.append "]}"
    (map (fun f => to_string (field_code (id f)) +:+ "("
                   +:+ to_string (Z.of_nat (length (value f))) +:+ "B),") (fields m)).

(** ** Facts on big-endian integers *)

#[global] Arguments readU16 : simpl never.
#[global] Arguments readU32 : simpl never.
#[global] Arguments readU64 : simpl never.
#[global] Arguments shr_byte : simpl never.
#[global] Arguments byte_of_Z : simpl never.
#[global] Arguments Z_of_byte : simpl never.

(** The number a byte string spells, most significant byte first. *)
Definition be_value (l : list byte) : Z := fold_left (fun v b => v * 256 + Z_of_byte b) l 0.
Definition be_bytes (n : nat) (v : Z) : list byte := fill_be n v [].
#[global] Arguments be_bytes : simpl never.
#[global] Arguments be_value : simpl never.

Lemma fill_be_acc n v acc : fill_be n v acc = be_bytes n v ++ acc.
Proof.
  unfold be_bytes. revert v acc. induction n as [|n IH]; intros v acc; [done|].
  simpl. rewrite IH, (IH _ [_]). by rewrite <-app_assoc.
Qed.

Lemma be_bytes_S n v : be_bytes (S n) v = be_bytes n (Z.shiftr v 8) ++ [byte_of_Z v].
Proof. unfold be_bytes at 1. simpl. by rewrite fill_be_acc, byte_of_Z_land. Qed.

Lemma length_be_bytes n v : length (be_bytes n v) = n.
Proof.
  revert v. induction n as [|n IH]; intros v; [done|].
  rewrite be_bytes_S, length_app, IH. simpl. lia.
Qed.

Lemma be_value_snoc l b : be_value (l ++ [b]) = be_value l * 256 + Z_of_byte b.
Proof. unfold be_value. by rewrite fold_left_app. Qed.

Lemma be_value_bytes n v : be_value (be_bytes n v) = v mod 2 ^ (8 * Z.of_nat n).
Proof.
  revert v. induction n as [|n IH]; intros v.
  - by rewrite Z.mod_1_r.
  - rewrite be_bytes_S, be_value_snoc, IH, Z_of_byte_of_Z.
    replace (8 * Z.of_nat (S n)) with (8 + 8 * Z.of_nat n) by lia.
    rewrite Z.pow_add_r, Z.rem_mul_r by lia.
    rewrite Z.shiftr_div_pow2 by lia. unfold u8, wrap. change (2 ^ 8) with 256. lia.
Qed.

Lemma be_value_bound l : 0 <= be_value l < 2 ^ (8 * Z.of_nat (length l)).
Proof.
  induction l as [|b l IH] using rev_ind; [done|].
  rewrite be_value_snoc, length_app. simpl length.
  pose proof (Z_of_byte_range b) as Hb. unfold in_u8 in Hb. change (2 ^ 8) with 256 in Hb.
  replace (8 * Z.of_nat (length l + 1)) with (8 + 8 * Z.of_nat (length l)) by lia.
  rewrite Z.pow_add_r by lia. change (2 ^ 8) with 256. lia.
Qed.

Lemma be_bytes_value l : be_bytes (length l) (be_value l) = l.
Proof.
  induction l as [|b l IH] using rev_ind; [done|].
  rewrite length_app, Nat.add_comm. simpl Nat.add.
  pose proof (Z_of_byte_range b) as Hb. unfold in_u8 in Hb. change (2 ^ 8) with 256 in Hb.
  rewrite be_bytes_S, be_value_snoc. f_equal.
  - rewrite Z.shiftr_div_pow2 by lia. change (2 ^ 8) with 256.
    rewrite Z.div_add_l, Z.div_small, Z.add_0_r by lia. done.
  - f_equal. rewrite <-(byte_of_Z_of_byte b) at 2. unfold byte_of_Z, u8, wrap. do 2 f_equal.
    change (2 ^ 8) with 256. by rewrite Z.add_comm, Z.mod_add by lia.
Qed.

Lemma be_bytes_value_2 a b : be_bytes 2 (be_value [a; b]) = [a; b].
Proof. exact (be_bytes_value [a; b]). Qed.
Lemma be_bytes_value_4 a b c d : be_bytes 4 (be_value [a; b; c; d]) = [a; b; c; d].
Proof. exact (be_bytes_value [a; b; c; d]). Qed.

Lemma pushU16_be buf v : pushU16 buf v = buf ++ be_bytes 2 v.
Proof. unfold pushU16, be_bytes. simpl. by rewrite !byte_of_Z_land. Qed.

Lemma be_bytes_4 v :
  [shr_byte v 24; shr_byte v 16; shr_byte v 8; byte_of_Z (Z.land v 0xFF)] = be_bytes 4 v.
Proof.
  unfold be_bytes, shr_byte. cbn [fill_be].
  by rewrite !Z.shiftr_shiftr by lia.
Qed.

Lemma pushU32_be buf v : pushU32 buf v = buf ++ be_bytes 4 v.
Proof. unfold pushU32. by rewrite be_bytes_4. Qed.

Lemma fieldUint32_be i v : fieldUint32 i v = mkField i (be_bytes 4 v).
Proof. unfold fieldUint32. by rewrite be_bytes_4. Qed.

Lemma pushU64_be buf v : pushU64 buf v = buf ++ be_bytes 8 v.
Proof.
  unfold pushU64, be_bytes, shr_byte. cbn [fill_be map].
  by rewrite !Z.shiftr_shiftr, !Z.shiftr_0_r by lia.
Qed.

Ltac byte_bounds :=
  repeat match goal with
  | b : Ascii.ascii |- _ =>
      lazymatch goal with
      | _ : 0 <= Z_of_byte b < 256 |- _ => fail
      | _ => let H := fresh "Hb" in pose proof (Z_of_byte_range b) as H;
             unfold in_u8 in H; change (2 ^ 8) with 256 in H
      end
  end.

Lemma readU16_be a b rest : readU16 (a :: b :: rest) = be_value [a; b].
Proof.
  unfold readU16, at_. simpl nth. byte_bounds.
  rewrite Z.shiftl_mul_pow2, lor_mul_add by lia. unfold be_value. cbn [fold_left]. lia.
Qed.

Lemma readU32_be a b c d rest : readU32 (a :: b :: c :: d :: rest) = be_value [a; b; c; d].
Proof.
  unfold readU32, at_. simpl nth. byte_bounds. rewrite !Z.shiftl_mul_pow2 by lia.
  rewrite (lor_mul_add (Z_of_byte a)) by lia.
  replace (Z_of_byte a * 2 ^ 24 + Z_of_byte b * 2 ^ 16)
    with ((Z_of_byte a * 2 ^ 8 + Z_of_byte b) * 2 ^ 16) by lia.
  rewrite lor_mul_add by lia.
  replace ((Z_of_byte a * 2 ^ 8 + Z_of_byte b) * 2 ^ 16 + Z_of_byte c * 2 ^ 8)
    with (((Z_of_byte a * 2 ^ 8 + Z_of_byte b) * 2 ^ 8 + Z_of_byte c) * 2 ^ 8) by lia.
  rewrite lor_mul_add by lia. unfold be_value. cbn [fold_left]. lia.
Qed.

Lemma readU64_step v b : 0 <= v < 2 ^ 56 ->
  Z.lor (u64 (Z.shiftl v 8)) (Z_of_byte b) = v * 256 + Z_of_byte b.
Proof.
  intros Hv. byte_bounds. rewrite Z.shiftl_mul_pow2 by lia.
  unfold u64, wrap. rewrite Z.mod_small by lia. rewrite lor_mul_add by lia. lia.
Qed.

Lemma readU64_be l rest : length l = 8%nat -> readU64 (l ++ rest) = be_value l.
Proof.
  intros Hl. do 8 (destruct l as [|? l]; [discriminate Hl|]).
  destruct l; [|discriminate Hl]. unfold readU64, be_value, at_. cbn [fold_left nth app].
  byte_bounds.
  repeat match goal with
  | |- context [Z.lor (u64 (Z.shiftl ?v 8)) _] =>
      lazymatch v with context [Z.lor] => fail | _ => rewrite (readU64_step v) by lia end
  end. done.
Qed.

Lemma drop_take_be n (p : list byte) : (n <= length p)%nat -> p = take n p ++ drop n p.
Proof. intros. by rewrite take_drop. Qed.

(** ** Opcodes and field identifiers on the wire *)

Definition opcode_wf (op : Opcode) : bool :=
  bool_decide (opcode_of_byte (byte_of_Z (opcode_code op)) = op).
Definition field_wf (i : FieldID) : bool :=
  bool_decide (field_of_byte (byte_of_Z (field_code i)) = i).

Lemma opcode_code_of_byte b : opcode_code (opcode_of_byte b) = Z_of_byte b.
Proof.
  unfold opcode_of_byte. destruct (List.find _ _) as [op|] eqn:E; [|done].
  apply List.find_some in E as [_ E]. by apply Z.eqb_eq.
Qed.

Lemma field_code_of_byte b : field_code (field_of_byte b) = Z_of_byte b.
Proof.
  unfold field_of_byte. destruct (List.find _ _) as [i|] eqn:E; [|done].
  apply List.find_some in E as [_ E]. by apply Z.eqb_eq.
Qed.

Lemma opcode_of_byte_wf b : opcode_wf (opcode_of_byte b) = true.
Proof. apply bool_decide_eq_true. by rewrite opcode_code_of_byte, byte_of_Z_of_byte. Qed.

Lemma field_of_byte_wf b : field_wf (field_of_byte b) = true.
Proof. apply bool_decide_eq_true. by rewrite field_code_of_byte, byte_of_Z_of_byte. Qed.

(** ** The grammar of a frame

    What the two loops of [buildFrame] and [parseMessage] agree on. *)

Definition frameHeader (op : Opcode) (fl : Z) (nf : nat) (sq plen : Z) : list byte :=
  be_bytes 2 SQUID_MAGIC
  ++ [byte_of_Z (opcode_code op); byte_of_Z fl; byte_of_Z (Z.of_nat nf)]
  ++ be_bytes 4 sq ++ be_bytes 4 plen.

Definition encodeField (f : BinaryField) : list byte :=
  byte_of_Z (field_code (id f)) :: be_bytes 2 (Z.of_nat (length (value f))) ++ value f.

Definition encodeFields (fs : list BinaryField) : list byte := concat (map encodeField fs).
#[global] Arguments encodeField : simpl never.
#[global] Arguments encodeFields : simpl never.

Definition field_fits (f : BinaryField) : bool := (Z.of_nat (length (value f)) <=? 65535).

Definition frame_fits (fs : list BinaryField) : bool :=
  (Z.of_nat (length fs) <=? 255) && forallb field_fits fs.

Lemma length_frameHeader op fl nf sq plen :
  length (frameHeader op fl nf sq plen) = FRAME_HEADER_SIZE.
Proof. unfold frameHeader. rewrite !length_app, !length_be_bytes. done. Qed.

Lemma pushFields_spec fs frame :
  pushFields frame fs =
    if forallb field_fits fs then Ok (frame ++ encodeFields fs)
    else Throw "Field value exceeds maximum length".
Proof.
  revert frame. induction fs as [|f fs IH]; intros frame.
  - simpl. unfold encodeFields. simpl. by rewrite app_nil_r.
  - simpl. unfold field_fits at 1. rewrite Z.ltb_antisym.
    destruct (Z.of_nat (length (value f)) <=? 65535) eqn:E; simpl; [|done].
    rewrite IH. destruct (forallb field_fits fs); [|done]. f_equal.
    to_prop. unfold encodeFields. simpl. unfold encodeField, u16, wrap.
    rewrite pushU16_be, Z.mod_small by lia. by rewrite <-!app_assoc.
Qed.

(** [buildFrame] produces exactly the grammar, or one of its two exceptions. *)
Lemma buildFrame_spec op fl fs plen :
  buildFrame op fl fs plen =
    if (255 <? Z.of_nat (length fs)) then Throw "Too many fields for a single frame"
    else if forallb field_fits fs
         then Ok (frameHeader op fl (length fs) 0 plen ++ encodeFields fs)
         else Throw "Field value exceeds maximum length".
Proof.
  unfold buildFrame. destruct (255 <? _); [done|]. rewrite pushFields_spec.
  destruct (forallb field_fits fs); [|done].
  rewrite !pushU32_be, pushU16_be. unfold frameHeader. by rewrite <-!app_assoc.
Qed.

Lemma buildFrame_ok op fl fs plen :
  frame_fits fs = true ->
  buildFrame op fl fs plen = Ok (frameHeader op fl (length fs) 0 plen ++ encodeFields fs).
Proof.
  unfold frame_fits. intros [H1 H2]%andb_true_iff. rewrite buildFrame_spec, H2.
  rewrite Z.ltb_antisym, H1. done.
Qed.

Lemma buildFrame_inv op fl fs plen frame :
  buildFrame op fl fs plen = Ok frame ->
  frame_fits fs = true
  /\ frame = frameHeader op fl (length fs) 0 plen ++ encodeFields fs.
Proof.
  rewrite buildFrame_spec. unfold frame_fits. rewrite (Z.leb_antisym 255).
  destruct (255 <? _); simpl; [done|]. destruct (forallb _ _); [|done].
  by intros [= <-].
Qed.

(** [stampSeq] writes the sequence number in the header and nowhere else. *)
Lemma stampSeq_spec op fl nf sq0 plen body sq :
  stampSeq (frameHeader op fl nf sq0 plen ++ body) sq = frameHeader op fl nf sq plen ++ body.
Proof.
  unfold stampSeq. rewrite length_app, length_frameHeader.
  destruct (_ <? _)%nat eqn:E; [to_prop; unfold FRAME_HEADER_SIZE in *; lia|].
  unfold frameHeader. rewrite <-(be_bytes_4 sq), <-(be_bytes_4 sq0). reflexivity.
Qed.

Lemma be_bytes_2_inv v : exists x y, be_bytes 2 v = [x; y].
Proof. unfold be_bytes. simpl. eauto. Qed.
Lemma be_bytes_4_inv v : exists a b c d, be_bytes 4 v = [a; b; c; d].
Proof. rewrite <-be_bytes_4. eauto. Qed.

Lemma readU16_be_bytes v rest : in_u16 v -> readU16 (be_bytes 2 v ++ rest) = v.
Proof.
  intros Hv. destruct (be_bytes_2_inv v) as (x & y & E). rewrite E. simpl.
  rewrite readU16_be, <-E, be_value_bytes. apply Z.mod_small, Hv.
Qed.

Lemma readU32_be_bytes v rest : readU32 (be_bytes 4 v ++ rest) = u32 v.
Proof.
  destruct (be_bytes_4_inv v) as (a & b & c & d & E). rewrite E. simpl.
  rewrite readU32_be, <-E, be_value_bytes. done.
Qed.

Definition fields_wf (fs : list BinaryField) : bool := forallb (fun f => field_wf (id f)) fs.

Lemma encodeFields_cons f fs : encodeFields (f :: fs) = encodeField f ++ encodeFields fs.
Proof. done. Qed.

(** One turn of the field loop on a buffer that holds a field header. *)
Lemma parseFields_step nf a x y p :
  parseFields (S nf) (a :: x :: y :: p) =
    let vlen := Z.to_nat (readU16 (x :: y :: p)) in
    if (length p <? vlen)%nat then Throw "Frame truncated in field value"
    else try! rest := parseFields nf (drop vlen p) in
         Ok (mkField (field_of_byte a) (take vlen p) :: rest).
Proof. simpl. by rewrite drop_0. Qed.

Lemma encodeField_be f rest :
  exists x y, encodeField f ++ rest = byte_of_Z (field_code (id f)) :: x :: y :: value f ++ rest
  /\ be_bytes 2 (Z.of_nat (length (value f))) = [x; y].
Proof.
  destruct (be_bytes_2_inv (Z.of_nat (length (value f)))) as (x & y & E).
  exists x, y. split; [|done]. unfold encodeField. by rewrite E.
Qed.

Lemma parseFields_encode fs rest :
  forallb field_fits fs = true -> fields_wf fs = true ->
  parseFields (length fs) (encodeFields fs ++ rest) = Ok fs.
Proof.
  induction fs as [|f fs IH]; [done|].
  intros [Hf Hfs]%andb_true_iff [Hw Hws]%andb_true_iff.
  unfold field_fits in Hf. to_prop. rewrite encodeFields_cons, <-app_assoc.
  destruct (encodeField_be f (encodeFields fs ++ rest)) as (x & y & -> & E).
  cbn [length]. rewrite parseFields_step. cbv zeta.
  change (x :: y :: ?l) with ([x; y] ++ l). rewrite <-E.
  rewrite readU16_be_bytes, Nat2Z.id by (unfold in_u16; lia).
  replace (length (value f ++ _) <? length (value f))%nat with false
    by (symmetry; apply Nat.ltb_ge; rewrite length_app; lia).
  rewrite drop_app_length, take_app_length, IH by done. simpl.
  apply bool_decide_eq_true in Hw. rewrite Hw. by destruct f.
Qed.

Lemma parseFields_sound nf p fs :
  parseFields nf p = Ok fs ->
  length fs = nf /\ forallb field_fits fs = true /\ fields_wf fs = true
  /\ exists rest, p = encodeFields fs ++ rest.
Proof.
  revert p fs. induction nf as [|nf IH]; intros p fs.
  { intros [= <-]. repeat split. by exists p. }
  destruct p as [|a [|x [|y p]]]; [done..|]. rewrite parseFields_step. cbv zeta.
  set (vlen := Z.to_nat (readU16 (x :: y :: p))) in *.
  destruct (_ <? _)%nat eqn:Ev; [done|]. to_prop.
  destruct (parseFields nf (drop vlen p)) as [fs'|] eqn:Ep; simpl; [|done].
  intros [= <-]. destruct (IH _ _ Ep) as (Hl & Hf & Hw & rest & Hr).
  pose proof (be_value_bound [x; y]) as Hb. simpl in Hb.
  assert (length (take vlen p) = vlen) as Htl by (rewrite length_take; lia).
  assert (Z.of_nat vlen = be_value [x; y]) as Hvl
    by (unfold vlen; rewrite readU16_be, Z2Nat.id by lia; done).
  split; [simpl; lia|]. split; [|split].
  - simpl. rewrite Hf. unfold field_fits. simpl. rewrite Htl, Hvl.
    rewrite andb_true_r. apply Z.leb_le. lia.
  - simpl. by rewrite field_of_byte_wf.
  - exists rest. rewrite encodeFields_cons. unfold encodeField. cbn [id value].
    rewrite Htl, Hvl, be_bytes_value_2.
    rewrite field_code_of_byte, byte_of_Z_of_byte. simpl. do 3 f_equal.
    by rewrite <-app_assoc, <-Hr, take_drop.
Qed.

(** The fixed part of a frame, as [parseMessage] reads it. *)
Lemma parseMessage_header op fl nf sq plen body :
  opcode_wf op = true -> in_u8 fl -> (nf <= 255)%nat -> in_u32 sq -> in_u32 plen ->
  parseMessage (frameHeader op fl nf sq plen ++ body) =
    try! fs := parseFields nf body in Ok (mkMessage op fl sq plen fs).
Proof.
  intros Hop Hfl Hnf Hsq Hpl. unfold parseMessage.
  rewrite length_app, length_frameHeader.
  destruct (_ <? _)%nat eqn:E; [to_prop; unfold FRAME_HEADER_SIZE in *; lia|].
  unfold frameHeader. rewrite <-!app_assoc.
  rewrite readU16_be_bytes by (unfold in_u16, SQUID_MAGIC; lia). simpl negb. cbv iota.
  apply bool_decide_eq_true in Hop.
  pose proof (readU32_be_bytes sq (be_bytes 4 plen ++ body)) as H1.
  pose proof (readU32_be_bytes plen body) as H2. rewrite u32_small in H1, H2 by done.
  destruct (be_bytes_2_inv SQUID_MAGIC) as (x & y & ->).
  destruct (be_bytes_4_inv sq) as (a & b & c & d & Esq).
  destruct (be_bytes_4_inv plen) as (a' & b' & c' & d' & Epl). rewrite Esq, Epl in *.
  cbn [app nth drop at_] in *. rewrite drop_0, H1, H2, Hop.
  unfold at_. cbn [nth]. rewrite !Z_of_byte_small by (unfold in_u8 in *; lia).
  by rewrite Nat2Z.id.
Qed.

Lemma parseMessage_frame op fl fs sq plen rest :
  frame_fits fs = true -> fields_wf fs = true ->
  opcode_wf op = true -> in_u8 fl -> in_u32 sq -> in_u32 plen ->
  parseMessage (frameHeader op fl (length fs) sq plen ++ encodeFields fs ++ rest)
    = Ok (mkMessage op fl sq plen fs).
Proof.
  unfold frame_fits. intros [Hn Hf]%andb_true_iff. intros. to_prop.
  rewrite parseMessage_header by (done || lia). rewrite parseFields_encode by done. done.
Qed.

(** ** Round trip, soundness and errors of the codec *)

(** C14. Encoding then decoding: a frame that [buildFrame] builds, stamped with
    any sequence number, is parsed back to the opcode, flags, payload length
    and the very fields it was built from, in order. *)
Theorem frame_roundtrip op fl fs plen sq frame :
  buildFrame op fl fs plen = Ok frame ->
  opcode_wf op = true -> fields_wf fs = true -> in_u8 fl -> in_u32 plen -> in_u32 sq ->
  parseMessage (stampSeq frame sq) = Ok (mkMessage op fl sq plen fs).
Proof.
  intros [Hfit ->]%buildFrame_inv Hop Hw Hfl Hpl Hsq. rewrite stampSeq_spec.
  rewrite <-(app_nil_r (encodeFields fs)). by apply parseMessage_frame.
Qed.

Lemma frame_roundtrip_witness :
  parseMessage (stampSeq (match buildFrame CREATE_FILE 0
     [fieldString FILE_PATH "a.txt"; fieldUint32 FILE_VERSION 7] 0 with Ok f => f | _ => [] end) 9)
  = Ok (mkMessage CREATE_FILE 0 9 0
         [fieldString FILE_PATH "a.txt"; fieldUint32 FILE_VERSION 7]).
Proof.
  apply (frame_roundtrip CREATE_FILE 0); try reflexivity;
    (unfold in_u8, in_u32; lia).
Defined.

(** C40. Decoding accepts only encodings: whenever [parseMessage] succeeds, the
    bytes are the stamped frame of the message it returns, followed by bytes
    it ignores.  So two messages never share a frame, and nothing malformed
    is accepted. *)
Theorem parse_sound bytes m :
  parseMessage bytes = Ok m ->
  exists frame rest,
    buildFrame (opcode m) (flags m) (fields m) (payloadLen m) = Ok frame
    /\ bytes = stampSeq frame (seq m) ++ rest.
Proof.
  unfold parseMessage.
  destruct (_ <? _)%nat eqn:E13; [done|]. destruct (negb _) eqn:Em; [done|].
  destruct (parseFields _ _) as [fs|] eqn:Ep; simpl; [|done]. intros [= <-].
  apply parseFields_sound in Ep as (Hn & Hf & Hw & rest & Hr). to_prop.
  do 13 (destruct bytes as [|? bytes]; [simpl in E13; unfold FRAME_HEADER_SIZE in E13; lia|]).
  simpl in Hr. rewrite drop_0 in Hr. subst bytes. unfold at_ in *. simpl nth in *. simpl drop.
  rewrite !readU16_be, !readU32_be in *. byte_bounds.
  exists (frameHeader (opcode_of_byte a1) (Z_of_byte a2) (length fs) 0
            (be_value [a8; a9; a10; a11]) ++ encodeFields fs), rest.
  split.
  - simpl. apply buildFrame_ok. unfold frame_fits. rewrite Hf, Hn, andb_true_r.
    apply Z.leb_le. lia.
  - cbn [seq]. rewrite stampSeq_spec. unfold frameHeader.
    rewrite <-Em. rewrite be_bytes_value_2.
    rewrite !be_bytes_value_4.
    rewrite opcode_code_of_byte, Hn, Z2Nat.id by lia. rewrite !byte_of_Z_of_byte. done.
Qed.

Lemma parse_sound_witness : exists frame rest,
  buildFrame RESPONSE 1 [fieldBool ACK true] 0 = Ok frame
  /\ map byte_of_Z [0x53;0x51;0xFF;1;1;0;0;0;5;0;0;0;0;6;0;1;1;42] = stampSeq frame 5 ++ rest.
Proof.
  exact (parse_sound (map byte_of_Z [0x53;0x51;0xFF;1;1;0;0;0;5;0;0;0;0;6;0;1;1;42])
           (mkMessage RESPONSE 1 5 0 [fieldBool ACK true]) ltac:(reflexivity)).
Defined.

(** [buildFrame] throws exactly when a count does not fit its length byte
    or length word: more than 255 fields, else a value longer than 65535
    bytes; otherwise it returns a frame of 13 header bytes plus three bytes
    and the value per field. *)
Theorem buildFrame_total op fl fs plen :
  match buildFrame op fl fs plen with
  | Ok frame =>
      (length fs <= 255)%nat /\ Forall (fun f => Z.of_nat (length (value f)) <= 65535) fs
      /\ length frame = (13 + sum_list_with (fun f => 3 + length (value f)) fs)%nat
  | Throw e =>
      ((255 < length fs)%nat /\ e = "Too many fields for a single frame")
      \/ ((length fs <= 255)%nat /\ Exists (fun f => 65535 < Z.of_nat (length (value f))) fs
          /\ e = "Field value exceeds maximum length")
  end.
Proof.
  rewrite buildFrame_spec. destruct (255 <? _) eqn:E; to_prop; [left; split; [lia|done]|].
  destruct (forallb field_fits fs) eqn:Ef.
  - split; [lia|]. split.
    + rewrite List.forallb_forall in Ef. apply List.Forall_forall.
      intros f Hf%Ef. unfold field_fits in Hf. to_prop. lia.
    + rewrite length_app, length_frameHeader. f_equal. clear.
      induction fs as [|f fs IH]; [done|].
      rewrite encodeFields_cons, length_app, IH. unfold encodeField.
      rewrite length_cons, length_app, length_be_bytes. simpl. lia.
  - right. split; [lia|]. split; [|done]. clear E.
    induction fs as [|f fs IH]; [done|]. simpl in Ef.
    apply andb_false_iff in Ef as [Ef|Ef]; [left|right; auto].
    unfold field_fits in Ef. to_prop. lia.
Qed.

Lemma parseFields_app nf p q fs :
  parseFields nf p = Ok fs -> parseFields nf (p ++ q) = Ok fs.
Proof.
  intros (<- & Hf & Hw & rest & ->)%parseFields_sound. rewrite <-app_assoc.
  by apply parseFields_encode.
Qed.

(** A truncated frame is never taken for a message: every proper prefix of
    a frame makes [parseMessage] throw. *)
Theorem truncated_frame_throws op fl fs plen sq frame n :
  buildFrame op fl fs plen = Ok frame ->
  opcode_wf op = true -> fields_wf fs = true -> in_u8 fl -> in_u32 plen -> in_u32 sq ->
  (n < length frame)%nat ->
  is_ok (parseMessage (take n (stampSeq frame sq))) = false.
Proof.
  intros [Hfit ->]%buildFrame_inv Hop Hw Hfl Hpl Hsq Hn. rewrite stampSeq_spec.
  unfold frame_fits in Hfit. to_prop.
  set (hdr := frameHeader op fl (length fs) sq plen).
  assert (length hdr = 13%nat) as Hh by apply length_frameHeader.
  rewrite length_app in Hn. rewrite length_frameHeader in Hn. unfold FRAME_HEADER_SIZE in Hn.
  destruct (decide (n < 13)%nat) as [Hlt|Hge].
  - unfold parseMessage. replace (_ <? _)%nat with true; [done|].
    symmetry. apply Nat.ltb_lt. rewrite length_take, length_app, Hh.
    unfold FRAME_HEADER_SIZE. lia.
  - rewrite take_app_ge, Hh by lia. unfold hdr.
    rewrite parseMessage_header by (done || lia).
    destruct (parseFields _ _) as [fs'|] eqn:Ep; [exfalso|done].
    pose proof (parseFields_app _ _ (drop (n - 13) (encodeFields fs)) _ Ep) as Ep'.
    rewrite take_drop in Ep'.
    pose proof (parseFields_encode fs [] ltac:(done) Hw) as Efs.
    rewrite app_nil_r, Ep' in Efs. injection Efs as ->.
    apply parseFields_sound in Ep as (_ & _ & _ & rest & Er).
    apply (f_equal length) in Er. rewrite length_app, length_take in Er. lia.
Qed.

Lemma truncated_frame_throws_witness :
  is_ok (parseMessage (take 16 (stampSeq
    (match buildFrame RESPONSE 1 [fieldBool ACK true] 0 with Ok f => f | _ => [] end) 3))) = false.
Proof.
  apply (truncated_frame_throws RESPONSE 1 [fieldBool ACK true] 0 3); try reflexivity;
    try (unfold in_u8, in_u32; lia). apply Nat.ltb_lt. reflexivity.
Defined.

(** ** What the receiver of each message reads *)

(** The message a formatter's frame decodes to, at sequence number [sq]. *)
Definition decodes_to (fmt : result (list byte)) (sq : Z) (m : Message) : Prop :=
  exists frame, fmt = Ok frame /\ parseMessage (stampSeq frame sq) = Ok m.

Lemma buildFrame_decodes op fl fs sq :
  frame_fits fs = true -> fields_wf fs = true -> opcode_wf op = true -> in_u8 fl -> in_u32 sq ->
  decodes_to (buildFrame op fl fs 0) sq (mkMessage op fl sq 0 fs).
Proof.
  intros Hfit Hw Hop Hfl Hsq. eexists. split; [by apply buildFrame_ok|].
  rewrite stampSeq_spec. rewrite <-(app_nil_r (encodeFields fs)).
  apply parseMessage_frame; try done.
Qed.

(** A path or a name that fits the 16-bit length of a field. *)
Definition short (s : string) : bool := (Z.of_nat (length (bytes_of_string s)) <=? 65535).

Lemma getUint32_field fs i v op fl sq plen def :
  List.find (fun f => bool_decide (id f = i)) fs = Some (fieldUint32 i v) ->
  getUint32 (mkMessage op fl sq plen fs) i def = u32 v.
Proof.
  intros H. unfold getUint32, findField. simpl. rewrite H, fieldUint32_be.
  cbn [value]. rewrite length_be_bytes.
  rewrite <-(app_nil_r (be_bytes 4 v)). apply readU32_be_bytes.
Qed.

Lemma getString_field fs i s op fl sq plen def :
  List.find (fun f => bool_decide (id f = i)) fs = Some (fieldString i s) ->
  getString (mkMessage op fl sq plen fs) i def = s.
Proof.
  intros H. unfold getString, findField. simpl. rewrite H. simpl.
  apply string_of_bytes_of_string.
Qed.

(** The path and the version of every file request and push arrive as they
    were sent: the receiver of a CREATE_FILE, UPDATE_FILE, PUSH_CREATE_FILE or
    PUSH_UPDATE_FILE frame reads back the path, and the version through the
    casts [int -> uint32_t -> int]. *)
Theorem file_message_decodes fmt op path v sq :
  (fmt, op) ∈ [(createFileFormatV, CREATE_FILE); (updateFileFormatV, UPDATE_FILE);
               (pushCreateFileFormat, PUSH_CREATE_FILE);
               (pushUpdateFileFormat, PUSH_UPDATE_FILE)] ->
  short path = true -> in_i32 v -> in_u32 sq ->
  exists m, decodes_to (fmt path v) sq m
    /\ opcode m = op /\ seq m = sq /\ isResponse m = false
    /\ getString m FILE_PATH "" = path
    /\ i32 (getUint32 m FILE_VERSION 0) = v.
Proof.
  intros Hfmt Hs Hv Hsq.
  set (fs := [fieldString FILE_PATH path; fieldUint32 FILE_VERSION (u32 v)]).
  assert (frame_fits fs = true) as Hfit.
  { change (frame_fits fs) with (short path && true). by rewrite Hs. }
  assert (Hd : forall o, opcode_wf o = true ->
            decodes_to (buildFrame o 0 fs 0) sq (mkMessage o 0 sq 0 fs)).
  { intros o Ho. apply buildFrame_decodes; try done. }
  exists (mkMessage op 0 sq 0 fs).
  rewrite (getString_field _ _ path) by done. rewrite (getUint32_field _ _ (u32 v)) by done.
  rewrite (u32_small (u32 v)), i32_u32 by auto with squid.
  rewrite !elem_of_cons, elem_of_nil in Hfmt.
  destruct Hfmt as [[= -> ->]|[[= -> ->]|[[= -> ->]|[[= -> ->]|[]]]]];
    (split; [by apply Hd|done]).
Qed.

Lemma file_message_decodes_witness : exists m,
  decodes_to (updateFileFormatV "docs/a.txt" 41) 7 m
    /\ opcode m = UPDATE_FILE /\ seq m = 7 /\ isResponse m = false
    /\ getString m FILE_PATH "" = "docs/a.txt" /\ i32 (getUint32 m FILE_VERSION 0) = 41.
Proof.
  apply (file_message_decodes updateFileFormatV UPDATE_FILE "docs/a.txt" 41 7).
  - right; left.
  - reflexivity.
  - unfold in_i32; lia.
  - unfold in_u32; lia.
Defined.

(** ** The file version map of a SYNC_STATUS response *)

Definition entry_fields (kvs : list (string * Z)) : list BinaryField :=
  concat (map (fun kv => [fieldString FILE_ENTRY kv.1; fieldUint32 VER_ENTRY (u32 kv.2)]) kvs).

Lemma entry_fields_names kvs : entryNames (entry_fields kvs) = kvs.*1.
Proof.
  induction kvs as [|[k v] kvs IH]; [done|]. unfold entry_fields, entryNames in *.
  simpl. f_equal; [apply string_of_bytes_of_string|exact IH].
Qed.

Lemma entry_fields_versions kvs :
  entryVersions (entry_fields kvs) = map (fun kv => u32 kv.2) kvs.
Proof.
  induction kvs as [|[k v] kvs IH]; [done|].
  change (entryVersions (entry_fields ((k, v) :: kvs))) with
    (readU32 (value (fieldUint32 VER_ENTRY (u32 v))) :: entryVersions (entry_fields kvs)).
  rewrite IH, fieldUint32_be. simpl map. f_equal. cbn [value].
  rewrite <-(app_nil_r (be_bytes 4 (u32 v))), readU32_be_bytes.
  apply u32_small. auto with squid.
Qed.

Lemma entry_fields_fit kvs :
  Forall (fun kv => short kv.1 = true) kvs ->
  forallb field_fits (entry_fields kvs) = true /\ fields_wf (entry_fields kvs) = true
  /\ length (entry_fields kvs) = (2 * length kvs)%nat.
Proof.
  intros H. induction H as [|[k v] kvs Hk Hkvs (IH1 & IH2 & IH3)]; [done|].
  change (entry_fields ((k, v) :: kvs)) with
    (fieldString FILE_ENTRY k :: fieldUint32 VER_ENTRY (u32 v) :: entry_fields kvs).
  split; [|split].
  - change (short k && (true && forallb field_fits (entry_fields kvs)) = true).
    simpl in Hk. by rewrite Hk, IH1.
  - exact IH2.
  - simpl length. rewrite IH3. lia.
Qed.

Definition version_map_ok (m : gmap string Z) : Prop :=
  map_Forall (fun k v => short k = true /\ in_i32 v) m.

Lemma versionMapFields_back m op fl sq :
  version_map_ok m ->
  getFileVersionMap (mkMessage op fl sq 0 (versionMapFields m)) = m.
Proof.
  intros Hm. unfold getFileVersionMap. cbn [fields].
  change (versionMapFields m) with (entry_fields (map_entries m)).
  rewrite entry_fields_names, entry_fields_versions, map_map.
  rewrite <-(store_all_entries m) at 3. f_equal.
  assert (Forall (fun kv => in_i32 kv.2) (map_entries m)) as Hall.
  { apply Forall_forall. intros [k v] Hin%elem_of_map_entries. by apply (Hm k v). }
  induction Hall as [|[k v] kvs Hv Hkvs IH]; [done|]. simpl in *. rewrite i32_u32 by done.
  by f_equal.
Qed.

(** C35. The answer to SYNC_STATUS: a version map of at most 127 files (with
    paths of at most 65535 bytes) crosses the wire unchanged.  With more
    files the formatter throws, since every file takes two of the 255 fields
    a frame can carry. *)
Theorem version_map_roundtrip m sq :
  version_map_ok m -> in_u32 sq ->
  ((size m <= 127)%nat ->
     exists msg, decodes_to (responseFileVersionMap m) sq msg
       /\ isResponse msg = true /\ getFileVersionMap msg = m)
  /\ ((127 < size m)%nat ->
     responseFileVersionMap m = Throw "Too many fields for a single frame").
Proof.
  intros Hm Hsq.
  destruct (entry_fields_fit (map_entries m)) as (Hfit & Hwf & Hlen).
  { apply Forall_forall. intros [k v] Hin%elem_of_map_entries. by apply (Hm k v). }
  rewrite length_map_entries in Hlen.
  unfold responseFileVersionMap.
  change (versionMapFields m) with (entry_fields (map_entries m)).
  split; intros Hsz.
  - eexists. split; [apply buildFrame_decodes; try done|].
    + unfold frame_fits. rewrite Hfit, andb_true_r, Hlen. apply Z.leb_le. lia.
    + split; [done|]. by apply versionMapFields_back.
  - rewrite buildFrame_spec, Hlen. by replace (_ <? _) with true by (symmetry; apply Z.ltb_lt; lia).
Qed.

Lemma version_map_roundtrip_witness :
  exists msg, decodes_to (responseFileVersionMap {["a.txt" := 3; "b/c" := 0]}) 4 msg
      /\ isResponse msg = true /\ getFileVersionMap msg = {["a.txt" := 3; "b/c" := 0]}.
Proof.
  apply (version_map_roundtrip {["a.txt" := 3; "b/c" := 0]} 4).
  - intros k v [[<- <-]|[_ [<- <-]%lookup_singleton_Some]]%lookup_insert_Some;
      (split; [reflexivity|unfold in_i32; lia]).
  - unfold in_u32. lia.
  - apply Nat.leb_le. vm_compute. reflexivity.
Defined.

(** ** Snapshot entries *)

(** A path or a datanode name that [operator>>] and the comma list preserve. *)
Definition word_ok (s : string) : Prop :=
  s <> "" /\ no_space (bytes_of_string s) /\ free_of comma (bytes_of_string s).

#[export] Instance word_ok_dec s : Decision (word_ok s).
Proof. unfold word_ok. apply _. Defined.

Lemma bytes_not_nil s : s <> "" -> bytes_of_string s <> [].
Proof. destruct s; done. Qed.

Lemma parse_names names :
  Forall word_ok names ->
  map string_of_bytes (List.filter (fun dn => negb (bool_decide (dn = [])))
    (split_at comma [] (join comma (map bytes_of_string names)))) = names.
Proof.
  intros H.
  rewrite split_at_join.
  - induction H as [|n ns (Hn & _) Hns IH]; [done|]. simpl.
    rewrite bool_decide_eq_false_2 by by apply bytes_not_nil. simpl.
    by rewrite string_of_bytes_of_string, IH.
  - apply Forall_map. eapply Forall_impl; [exact H|]. by intros x (_ & _ & ?).
  - apply Forall_map. eapply Forall_impl; [exact H|]. intros x (? & _ & _). by apply bytes_not_nil.
Qed.

Lemma parse_snapEntry path v holders :
  path <> "" -> no_space (bytes_of_string path) -> in_i32 v ->
  (forall dns, holders = Some dns -> set_Forall word_ok dns) ->
  parseSnapEntry (snapEntry path v holders) = Some (path, v, default ∅ holders).
Proof.
  intros Hne Hsp Hv Hdn. unfold snapEntry, parseSnapEntry.
  assert (Hw : forall rest, read_word (bytes_of_string path ++ space :: rest)
                            = Some (bytes_of_string path, space :: rest)).
  { intros rest. apply read_word_app; [by apply bytes_not_nil|done|done]. }
  assert (Hnone : read_word ([] : list byte) = None) by done.
  assert (Hempty : parseSnapEntry (bytes_of_string path ++ space :: decimal v)
                   = Some (path, v, ∅)).
  { unfold parseSnapEntry. rewrite Hw. rewrite <-(app_nil_r (decimal v)).
    rewrite read_int_space by done. by rewrite Hnone, string_of_bytes_of_string. }
  destruct holders as [dns|]; [|exact Hempty].
  destruct (set_elems dns) as [|n ns] eqn:E.
  - rewrite <-(list_to_set_elems dns), E. exact Hempty.
  - assert (Forall word_ok (n :: ns)) as Hok.
    { apply Forall_forall. intros x Hx. apply (Hdn dns); [done|].
      apply elem_of_set_elems. by rewrite E. }
    rewrite <-app_assoc. cbn [app]. rewrite Hw, read_int_space by done.
    rewrite read_word_space by done.
    rewrite <-(app_nil_r (join comma (map bytes_of_string (n :: ns)))) at 1.
    rewrite read_word_app.
    + rewrite parse_names by done. rewrite <-E, list_to_set_elems. simpl.
      by rewrite string_of_bytes_of_string.
    + apply join_not_nil, bytes_not_nil. by inversion Hok as [|? ? (? & _)].
    + apply no_space_join; [done|]. apply Forall_map.
      eapply Forall_impl; [exact Hok|]. by intros x (_ & ? & _).
    + done.
Qed.

(** A snapshot entry is parsed back to the path, the version and the set of
    holders it was formatted from, as long as the path and the datanode names
    are free of white space and the names of commas; an absent replication
    entry and an empty one both come back as the empty set. *)
Theorem snap_entry_roundtrip path v holders :
  path <> "" -> no_space (bytes_of_string path) -> in_i32 v ->
  (forall dns, holders = Some dns -> set_Forall word_ok dns) ->
  parseSnapEntry (snapEntry path v holders) = Some (path, v, default ∅ holders).
Proof. apply parse_snapEntry. Qed.

Lemma snap_entry_roundtrip_witness :
  parseSnapEntry (snapEntry "docs/a.txt" 12 (Some {["dn2"; "dn1"]}))
  = Some ("docs/a.txt", 12, default ∅ (Some ({["dn2"; "dn1"]} : gset string))).
Proof.
  apply (snap_entry_roundtrip "docs/a.txt" 12 (Some {["dn2"; "dn1"]})).
  - done.
  - apply (bool_decide_unpack _). reflexivity.
  - unfold in_i32; lia.
  - intros dns [= <-]. apply (bool_decide_unpack _). vm_compute. exact I.
Defined.

(** A path with a space breaks the snapshot format: the entry of "a b" at
    version 3 is rejected by the parser, so the standby does not learn of the
    file; and if the second word starts with a number the entry is accepted
    for the wrong path and version. *)
Theorem snap_entry_space_path :
  parseSnapEntry (snapEntry "a b" 3 (Some {["dn1"]})) = None
  /\ parseSnapEntry (snapEntry "report 2" 3 (Some {["dn1"]})) = Some ("report", 2, {["3"]}).
Proof. split; reflexivity. Qed.
