(* ===== verification/FileManager.v ===== *)
(** * The local file store of a node

    Models [common/src/filesystem/filemanager.{hpp,cpp}]: path resolution under
    the storage root, the files of a node, and the version file
    [.squid/fileVersions.txt]; and [FileLock] of [filelock.{hpp,cpp}].

    The operating system's file system is the record [Disk]: the regular files
    by absolute path, and the oracle [openable] that says whether opening a
    path for writing succeeds (permissions, a directory of that name, a full
    disk).  The oracle [io] says what happens to a file that is written, synced
    and renamed; it is asked by the saves of [StateStore], whereas a plain write
    that opens its file is taken to be complete.  [create_directories] is taken
    to succeed. *)

From S2P Require Import Prelude Text.

(** ** Paths ([std::filesystem::path], POSIX) *)

Definition slash : byte := "/"%char.
Definition dot : list byte := bytes_of_string ".".
Definition dotdot : list byte := bytes_of_string "..".

Definition is_absolute (p : list byte) : bool :=
  match p with c :: _ => bool_decide (c = slash) | [] => false end.

(** The components between slashes, empty ones included. *)
Fixpoint components (cur p : list byte) : list (list byte) :=
  match p with
  | [] => [reverse cur]
  | c :: p => if decide (c = slash) then reverse cur :: components [] p
              else components (c :: cur) p
  end.

(** [lexically_normal] keeps a stack of components (innermost first) and
    whether the path ends in a separator. *)
Definition normal_step (abs : bool) (st : list (list byte) * bool) (comp : list byte)
  : list (list byte) * bool :=
  let '(stack, _) := st in
  if decide (comp = [] \/ comp = dot) then (stack, true)
  else if decide (comp = dotdot) then
    match stack with
    | top :: rest => if decide (top = dotdot) then (comp :: stack, false) else (rest, true)
    | [] => if abs then ([], true) else ([comp], false)
    end
  else (comp :: stack, false).

Definition lexically_normal (p : list byte) : list byte :=
  match p with
  | [] => []
  | _ =>
      let abs := is_absolute p in
      let '(stack, trailing) := fold_left (normal_step abs) (components [] p) ([], false) in
      match stack with
      | [] => if abs then [slash] else dot
      | top :: _ =>
          (if abs then [slash] else []) ++ join slash (reverse stack)
          ++ (if trailing && negb (bool_decide (top = dotdot)) then [slash] else [])
      end
  end.

(** [a / b]. *)
Definition path_append (a b : list byte) : list byte :=
  if is_absolute b then b
  else match a with
       | [] => b
       | _ => if decide (last a = Some slash) then a ++ b else a ++ slash :: b
       end.

(** [FileManager::storageRoot], from the environment and the working directory. *)
Definition storageRoot (getenv : string -> option string) (cwd : string) : string :=
  match getenv "SQUID_STORAGE_ROOT" with
  | Some ((String _ _) as r) => string_of_bytes (lexically_normal (bytes_of_string r))
  | _ =>
      match getenv "HOME" with
      | Some ((String _ _) as h) =>
          string_of_bytes (lexically_normal
            (path_append (bytes_of_string h) (bytes_of_string "SquidStorage")))
      | _ => string_of_bytes (lexically_normal (bytes_of_string cwd))
      end
  end.

Definition resolvePath (root path : string) : string :=
  let p := bytes_of_string path in
  if is_absolute p then string_of_bytes (lexically_normal p)
  else string_of_bytes (lexically_normal (path_append (bytes_of_string root) p)).

Definition metaPath (root name : string) : string :=
  string_of_bytes (path_append (path_append (bytes_of_string root) (bytes_of_string ".squid"))
                               (bytes_of_string name)).

Definition versionFilePath (root : string) : string := metaPath root "fileVersions.txt".

(** ** The disk *)

(** [io_room]: how many bytes the stream takes before it fails, [None] when it
    does not fail; [io_syncs]: whether the file can be opened for [fsync];
    [io_renames]: whether renaming it succeeds. *)
Record Io : Type := mkIo {
  io_room : option nat;
  io_syncs : bool;
  io_renames : bool }.
Definition sound_io : Io := mkIo None true true.

Record Disk : Type := mkDisk {
  root : string;
  files : gmap string (list byte);
  openable : string -> bool;
  io : string -> Io }.

(** Nothing fails. *)
Definition sound (d : Disk) : Prop := forall p, openable d p = true /\ io d p = sound_io.

Definition set_files (d : Disk) (fs : gmap string (list byte)) : Disk :=
  mkDisk (root d) fs (openable d) (io d).

(** [std::ofstream out(p); out << content]: no effect when the open fails. *)
Definition write_file (d : Disk) (p : string) (content : list byte) : Disk :=
  if openable d p then set_files d (<[p := content]> (files d)) else d.

(** Everything a read of [p] gets; nothing when it cannot be opened. *)
Definition read_text (d : Disk) (p : string) : list byte := default [] (files d !! p).

(** ** [FileLock] *)

Record FileLock : Type := mkFileLock {
  locked : bool;
  clientHolder : string;
  filePath : string;
  expirationTime : Z }.

(** [FileLock(filePath)] at time [now]. *)
Definition newFileLock (path : string) (now : Z) : FileLock := mkFileLock false "" path now.
Definition setIsLocked (l : FileLock) (b : bool) : FileLock :=
  mkFileLock b (clientHolder l) (filePath l) (expirationTime l).
Definition setClientHolder (l : FileLock) (h : string) : FileLock :=
  mkFileLock (locked l) h (filePath l) (expirationTime l).
Definition setExpiration (l : FileLock) (t : Z) : FileLock :=
  mkFileLock (locked l) (clientHolder l) (filePath l) t.

(** ** Version file *)

(** [iss >> filePath >> version] on one line. *)
Definition parseVersionLine (line : list byte) : option (list byte * Z) :=
  match read_word line with
  | Some (path, rest) =>
      match read_int rest with
      | Some (v, _) => Some (path, v)
      | None => None
      end
  | None => None
  end.

Definition versionLine (path : list byte) (version : Z) : list byte :=
  path ++ space :: decimal version.

Definition versionLines (d : Disk) : list (list byte) :=
  getlines (read_text d (versionFilePath (root d))).

(** The reading loop of [getFileVersion]: the first line of [path] decides. *)
Fixpoint scanVersion (path : list byte) (ls : list (list byte)) : Z :=
  match ls with
  | [] => -1
  | line :: ls =>
      match parseVersionLine line with
      | Some (p, v) => if decide (p = path) then v else scanVersion path ls
      | None => scanVersion path ls
      end
  end.

Definition getFileVersion (d : Disk) (path : string) : Z :=
  scanVersion (bytes_of_string path) (versionLines d).

(** The rewriting loop of [setFileVersion]: lines that do not parse are
    dropped, the line of [path] is replaced. *)
Definition rewriteVersionLine (path : list byte) (version : Z) (line : list byte)
  : option (list byte) :=
  match parseVersionLine line with
  | Some (p, _) => Some (if decide (p = path) then versionLine p version else line)
  | None => None
  end.

Definition hasVersionLine (path : list byte) (ls : list (list byte)) : bool :=
  existsb (fun line => match parseVersionLine line with
                       | Some (p, _) => bool_decide (p = path)
                       | None => false
                       end) ls.

Definition setFileVersion (d : Disk) (path : string) (version : Z) : Disk :=
  let p := bytes_of_string path in
  let ls := versionLines d in
  let lines := omap (rewriteVersionLine p version) ls in
  let lines := if hasVersionLine p ls then lines else lines ++ [versionLine p version] in
  write_file d (versionFilePath (root d)) (unlines lines).

Definition deleteFile (d : Disk) (path : string) : bool * Disk :=
  let p := resolvePath (root d) path in
  match files d !! p with
  | Some _ => (true, set_files d (delete p (files d)))
  | None => (false, d)
  end.

Definition deleteFileAndVersion (d : Disk) (path : string) : bool * Disk :=
  let '(removed, d) := deleteFile d path in
  if removed then
    let keep line := match parseVersionLine line with
                     | Some (p, _) => negb (bool_decide (p = bytes_of_string path))
                     | None => false
                     end in
    (true, write_file d (versionFilePath (root d)) (unlines (List.filter keep (versionLines d))))
  else (false, d).

(** ** Files *)

(** [createFile(path)]: opening the stream creates or truncates the file; the
    open is not checked. *)
Definition createFile (d : Disk) (path : string) : bool * Disk :=
  (true, write_file d (resolvePath (root d) path) []).

Definition createFileV (d : Disk) (path : string) (version : Z) : bool * Disk :=
  let '(ok, d) := createFile d path in
  if ok then (true, setFileVersion d path version) else (false, d).

Definition updateFile (d : Disk) (path : string) (content : list byte) : bool * Disk :=
  let p := resolvePath (root d) path in
  if openable d p then (true, write_file d p content) else (false, d).

Definition updateFileV (d : Disk) (path : string) (content : list byte) (version : Z)
  : bool * Disk :=
  let '(ok, d) := updateFile d path content in
  if ok then (true, setFileVersion d path version) else (false, d).

Definition updateFileAndVersion (d : Disk) (path : string) (content : list byte) : bool * Disk :=
  let version := getFileVersion d path in
  if (version =? -1) then (false, d)
  else
    let version := i32 (version + 1) in
    let '(ok, d) := updateFile d path content in
    if ok then (true, setFileVersion d path version) else (false, d).

(** [isRuntimeFile] (which accepts everything but [.squid]). *)
Definition isRuntimeFile (name : list byte) : bool := negb (bool_decide (name = bytes_of_string ".squid")).

(** The regular files directly in directory [dir]: [directory_iterator] does
    not descend. *)
Definition dirEntry (dir : list byte) (p : string) : option (list byte) :=
  let pre := path_append dir [] in
  let b := bytes_of_string p in
  if decide (take (length pre) b = pre) then
    let name := drop (length pre) b in
    if decide (name <> [] /\ free_of slash name) then Some name else None
  else None.

(** [getFiles(storageRoot())]: names relative to the root. *)
Definition getFiles (d : Disk) : list string :=
  map string_of_bytes
    (List.filter isRuntimeFile (omap (dirEntry (bytes_of_string (root d))) (map_keys (files d)))).

Definition savedFilesVersion (d : Disk) : gmap string Z :=
  store_all (omap (fun line => match parseVersionLine line with
                               | Some (p, v) => Some (string_of_bytes p, v)
                               | None => None
                               end) (versionLines d)) ∅.

Definition getFileVersionMap (d : Disk) : gmap string Z :=
  let saved := savedFilesVersion d in
  store_all (map (fun f => (f, default 0 (saved !! f))) (getFiles d)) ∅.

(** [getFileEntries(storageRoot())]: the same files, by their full paths. *)
Definition getFileEntries (d : Disk) : list string :=
  List.filter (fun p => match dirEntry (bytes_of_string (root d)) p with
                        | Some name => isRuntimeFile name
                        | None => false
                        end) (map_keys (files d)).

(** [relativePath] of a file directly in the root; other paths it leaves as
    they are ([fs::relative] to a directory above is not used). *)
Definition relativePath (d : Disk) (p : string) : string :=
  match dirEntry (bytes_of_string (root d)) p with
  | Some name => string_of_bytes name
  | None => p
  end.

(** [getFilesLastWrite(storageRoot())]; [mtime] are the times of the file
    system. *)
Definition getFilesLastWrite {T} (mtime : string -> T) (d : Disk) : gmap string T :=
  store_all (map (fun p => (relativePath d p, mtime p)) (getFileEntries d)) ∅.

(** [formatFileList] pops the last character without a check: on an empty
    list that is undefined behaviour, here an exception. *)
Definition formatFileList (fs : list string) : result string :=
  let s := concat (map (fun f => bytes_of_string f ++ [";"%char]) fs) in
  match s with
  | [] => Throw "pop_back on an empty string"
  | _ => Ok (string_of_bytes (removelast s))
  end.

(** Both listings name the same files. *)
Lemma getFileEntries_names d : map (relativePath d) (getFileEntries d) = getFiles d.
Proof.
  unfold getFileEntries, getFiles, relativePath. induction (map_keys (files d)) as [|p ps IH]; [done|].
  simpl. destruct (dirEntry (bytes_of_string (root d)) p) as [name|] eqn:E; [|done]. simpl.
  destruct (isRuntimeFile name); [|done]. simpl. rewrite E. by f_equal.
Qed.

(** ** The object: its disk, its map of locks and its lock *)

Record FileManager : Type := mkFileManager {
  fm_disk : Disk;
  fileMap : gmap string FileLock;
  fileLock : FileLock }.

(** [createFileVersionFile]: an empty file unless there is one. *)
Definition createFileVersionFile (d : Disk) : Disk :=
  match files d !! versionFilePath (root d) with
  | Some _ => d
  | None => write_file d (versionFilePath (root d)) []
  end.

(** The constructor, at time [now]; the lock member is [fl]. *)
Definition newFileManager (d : Disk) (fl : FileLock) (now : Z) : FileManager :=
  mkFileManager (createFileVersionFile d)
    (store_all (map (fun e => (e, newFileLock e now)) (getFiles d)) ∅) fl.

Definition setFileMap (m : gmap string FileLock) (fm : FileManager) : FileManager :=
  mkFileManager (fm_disk fm) m (fileLock fm).
Definition getFileMap (fm : FileManager) : gmap string FileLock := fileMap fm.
Definition getFileLock (fm : FileManager) : FileLock := fileLock fm.
Definition setFileLock (l : FileLock) (fm : FileManager) : FileManager :=
  mkFileManager (fm_disk fm) (fileMap fm) l.

(** [updateFileMap]: entries for the files that have none yet. *)
Definition updateFileMap (now : Z) (fm : FileManager) : FileManager :=
  setFileMap
    (fold_left (fun m e => match m !! e with Some _ => m | None => <[e := newFileLock e now]> m end)
               (getFiles (fm_disk fm)) (fileMap fm)) fm.

(** ** Properties of the version file *)

Lemma split_at_free d cur l :
  free_of d (reverse cur) -> Forall (free_of d) (split_at d cur l).
Proof.
  revert cur. induction l as [|c l IH]; intros cur Hc; simpl.
  - destruct cur; [constructor|]. by repeat constructor.
  - case_decide as E.
    + constructor; [done|]. apply IH. constructor.
    + apply IH. unfold free_of in *. rewrite reverse_cons. apply Forall_app. by repeat constructor.
Qed.

Lemma versionLines_free d : Forall (free_of newline) (versionLines d).
Proof. apply split_at_free. constructor. Qed.

(** Paths that [operator>>] reads as one word. *)
Definition plain_path (path : string) : Prop :=
  path <> "" /\ no_space (bytes_of_string path).

#[export] Instance plain_path_dec path : Decision (plain_path path).
Proof. unfold plain_path. apply _. Defined.

Lemma plain_path_bytes path : plain_path path -> bytes_of_string path <> [].
Proof. intros [H _] E. apply H, bytes_of_string_inj. exact E. Qed.

Lemma parseVersionLine_back path v :
  plain_path path -> in_i32 v ->
  parseVersionLine (versionLine (bytes_of_string path) v) = Some (bytes_of_string path, v).
Proof.
  intros Hp Hv. unfold parseVersionLine, versionLine.
  rewrite read_word_app; [|by apply plain_path_bytes|apply Hp|done].
  rewrite <-(app_nil_r (decimal v)). by rewrite read_int_space.
Qed.

Lemma versionLine_free path v :
  plain_path path -> free_of newline (versionLine (bytes_of_string path) v).
Proof.
  intros [_ Hp]. unfold versionLine. apply Forall_app. split.
  - by apply no_space_free_of.
  - constructor; [done|]. apply no_space_free_of; [done|]. apply decimal_no_space.
Qed.

Lemma rewriteVersionLine_free path v ls :
  plain_path path -> Forall (free_of newline) ls ->
  Forall (free_of newline) (omap (rewriteVersionLine (bytes_of_string path) v) ls).
Proof.
  intros Hp H. induction H as [|l ls Hl Hls IH]; [constructor|]. simpl.
  unfold rewriteVersionLine at 1. destruct (parseVersionLine l) as [[p w]|]; [|done].
  constructor; [|done]. case_decide; [|done]. subst. by apply versionLine_free.
Qed.

(** The version file as a map: the first parsable line of a path counts. *)
Definition parsedLine (line : list byte) : option (string * Z) :=
  match parseVersionLine line with
  | Some (p, v) => Some (string_of_bytes p, v)
  | None => None
  end.
Definition version_store (d : Disk) : gmap string Z :=
  list_to_map (omap parsedLine (versionLines d)).

Lemma getFileVersion_store d path :
  getFileVersion d path = default (-1) (version_store d !! path).
Proof.
  unfold getFileVersion, version_store. induction (versionLines d) as [|l ls IH]; [done|].
  simpl. unfold parsedLine at 1. destruct (parseVersionLine l) as [[p v]|]; [|done]. simpl.
  destruct (decide (p = bytes_of_string path)) as [->|Hne].
  - by rewrite string_of_bytes_of_string, lookup_insert_eq.
  - rewrite lookup_insert_ne; [done|]. intros <-. by rewrite bytes_of_string_of_bytes in Hne.
Qed.

Lemma getFileVersion_range d path : in_i32 (getFileVersion d path).
Proof.
  unfold getFileVersion. induction (versionLines d) as [|l ls IH]; simpl; [unfold in_i32; lia|].
  unfold parseVersionLine. destruct (read_word l) as [[w rest]|]; [|done].
  destruct (read_int rest) as [[v r]|] eqn:E; [|done]. case_decide; [|done].
  unfold read_int in E. destruct (read_signed _) as [[[neg z] r']|]; [|done].
  destruct (in_i32b _) eqn:Hz; [|done]. injection E as <- <-. by apply in_i32b_spec.
Qed.

(** Replacing the version of [path] in a list of entries. *)
Definition update_entry (path : string) (v : Z) (kv : string * Z) : string * Z :=
  if decide (kv.1 = path) then (path, v) else kv.

Lemma list_to_map_update path v (kvs : list (string * Z)) :
  (list_to_map (map (update_entry path v) kvs) : gmap string Z) =
    if decide (path ∈ kvs.*1) then <[path := v]> (list_to_map kvs) else list_to_map kvs.
Proof.
  induction kvs as [|[k w] kvs IH]; [done|]. csimpl. rewrite IH. unfold update_entry. csimpl.
  destruct (decide (k = path)) as [->|Hne]; simpl.
  - rewrite (decide_True (P := path ∈ path :: kvs.*1)) by set_solver. rewrite insert_insert_eq.
    case_decide; [by rewrite insert_insert_eq|done].
  - destruct (decide (path ∈ kvs.*1)).
    + rewrite decide_True by (by right). by rewrite insert_insert_ne.
    + rewrite decide_False by (by rewrite not_elem_of_cons). done.
Qed.

Lemma parsedLine_rewrite path v line :
  plain_path path -> in_i32 v ->
  rewriteVersionLine (bytes_of_string path) v line ≫= parsedLine
    = update_entry path v <$> parsedLine line.
Proof.
  intros Hp Hv. unfold rewriteVersionLine, parsedLine.
  destruct (parseVersionLine line) as [[p w]|] eqn:E; simpl; [|done]. unfold update_entry. simpl.
  destruct (decide (p = bytes_of_string path)) as [->|Hne].
  - rewrite parseVersionLine_back by done. rewrite string_of_bytes_of_string.
    by rewrite decide_True.
  - rewrite E, decide_False; [done|]. intros <-. by rewrite bytes_of_string_of_bytes in Hne.
Qed.

Lemma parsed_rewrite path v ls :
  plain_path path -> in_i32 v ->
  omap parsedLine (omap (rewriteVersionLine (bytes_of_string path) v) ls)
    = map (update_entry path v) (omap parsedLine ls).
Proof.
  intros Hp Hv. induction ls as [|l ls IH]; [done|]. csimpl.
  pose proof (parsedLine_rewrite path v l Hp Hv) as Hl.
  destruct (rewriteVersionLine _ v l) as [l'|], (parsedLine l) as [kv|]; csimpl in *;
    try rewrite Hl; csimpl; rewrite ?IH; done.
Qed.

Lemma hasVersionLine_parsed path ls :
  hasVersionLine (bytes_of_string path) ls = true <-> path ∈ (omap parsedLine ls).*1.
Proof.
  induction ls as [|l ls IH]; [by rewrite elem_of_nil|]. csimpl. rewrite orb_true_iff, IH.
  unfold parsedLine at 2. destruct (parseVersionLine l) as [[p w]|]; csimpl; [|naive_solver].
  rewrite elem_of_cons, bool_decide_eq_true.
  enough (p = bytes_of_string path <-> path = string_of_bytes p) by tauto.
  split; [intros ->|intros ->]; by autorewrite with squid.
Qed.

Lemma versionLines_write d ls :
  openable d (versionFilePath (root d)) = true -> Forall (free_of newline) ls ->
  versionLines (write_file d (versionFilePath (root d)) (unlines ls)) = ls.
Proof.
  intros Ho Hls. unfold write_file. rewrite Ho. unfold versionLines, read_text. simpl.
  rewrite lookup_insert_eq. simpl. by apply getlines_unlines.
Qed.

Lemma version_store_set d path v :
  plain_path path -> in_i32 v -> openable d (versionFilePath (root d)) = true ->
  version_store (setFileVersion d path v) = <[path := v]> (version_store d).
Proof.
  intros Hp Hv Ho. unfold version_store, setFileVersion.
  pose proof (rewriteVersionLine_free path v _ Hp (versionLines_free d)) as Hfree.
  rewrite versionLines_write; [|done|].
  - destruct (hasVersionLine _ _) eqn:Hin.
    + apply hasVersionLine_parsed in Hin. rewrite parsed_rewrite, list_to_map_update by done. by rewrite decide_True.
    + rewrite <-not_true_iff_false, hasVersionLine_parsed in Hin.
      rewrite omap_app, parsed_rewrite by done. simpl. unfold parsedLine at 2.
      rewrite parseVersionLine_back, string_of_bytes_of_string by done.
      rewrite list_to_map_snoc.
      * rewrite list_to_map_update. by rewrite decide_False.
      * intros ([k w] & -> & (kv & Hkv & Hin')%list_elem_of_In%List.in_map_iff)%list_elem_of_fmap.
        apply Hin. unfold update_entry in Hkv. case_decide as E; [|by subst; set_solver].
        rewrite <-E. apply list_elem_of_fmap. exists kv. by rewrite list_elem_of_In.
  - destruct (hasVersionLine _ _); [done|]. apply Forall_app. split; [done|].
    repeat constructor. by apply versionLine_free.
Qed.

Lemma list_to_map_drop path (kvs : list (string * Z)) :
  (list_to_map (List.filter (fun kv => negb (bool_decide (kv.1 = path))) kvs) : gmap string Z)
    = delete path (list_to_map kvs).
Proof.
  induction kvs as [|[k w] kvs IH]; [simpl; by rewrite delete_id|]. csimpl.
  case_bool_decide as E; csimpl.
  - subst k. by rewrite delete_insert_eq.
  - by rewrite IH, delete_insert_ne.
Qed.

Definition keepVersionLine (path : string) (line : list byte) : bool :=
  match parseVersionLine line with
  | Some (p, _) => negb (bool_decide (p = bytes_of_string path))
  | None => false
  end.

Lemma parsed_keep path ls :
  omap parsedLine (List.filter (keepVersionLine path) ls)
    = List.filter (fun kv => negb (bool_decide (kv.1 = path))) (omap parsedLine ls).
Proof.
  induction ls as [|l ls IH]; [done|]. csimpl. unfold keepVersionLine at 1, parsedLine at 2.
  destruct (parseVersionLine l) as [[p w]|] eqn:E; [|done]. csimpl.
  destruct (decide (p = bytes_of_string path)) as [->|Hne].
  - rewrite string_of_bytes_of_string. by rewrite !bool_decide_eq_true_2 by done.
  - rewrite !bool_decide_eq_false_2; [|intros <-; by rewrite bytes_of_string_of_bytes in Hne|done].
    csimpl. unfold parsedLine at 1. rewrite E. csimpl. by rewrite IH.
Qed.

Lemma version_store_delete d path :
  openable d (versionFilePath (root d)) = true ->
  resolvePath (root d) path <> versionFilePath (root d) ->
  is_Some (files d !! resolvePath (root d) path) ->
  version_store (deleteFileAndVersion d path).2 = delete path (version_store d).
Proof.
  intros Ho Hne [c Hc]. unfold deleteFileAndVersion, deleteFile. rewrite Hc. simpl.
  set (d' := set_files d _).
  assert (versionLines d' = versionLines d) as Hls.
  { unfold versionLines, read_text. simpl. by rewrite lookup_delete_ne. }
  unfold version_store. rewrite Hls.
  change (versionFilePath (root d)) with (versionFilePath (root d')).
  rewrite versionLines_write; [|done|].
  - rewrite (parsed_keep path). apply list_to_map_drop.
  - apply List.Forall_forall. intros l [Hl _]%List.filter_In.
    pose proof (versionLines_free d) as Hf. rewrite List.Forall_forall in Hf. auto.
Qed.

(** C27. The version file refines a map from paths to versions:
    [setFileVersion] is map insertion, [deleteFileAndVersion] of an existing
    file is map deletion, and [getFileVersion] is lookup, with -1 for a path
    that is absent. *)
Theorem version_file_refines_map d path v q :
  plain_path path -> in_i32 v -> openable d (versionFilePath (root d)) = true ->
  resolvePath (root d) path <> versionFilePath (root d) ->
  version_store (setFileVersion d path v) = <[path := v]> (version_store d)
  /\ (is_Some (files d !! resolvePath (root d) path) ->
        (deleteFileAndVersion d path).1 = true
        /\ version_store (deleteFileAndVersion d path).2 = delete path (version_store d))
  /\ getFileVersion d q = default (-1) (version_store d !! q)
  /\ getFileVersion (setFileVersion d path v) q =
       if decide (q = path) then v else getFileVersion d q.
Proof.
  intros Hp Hv Ho Hne. split; [by apply version_store_set|]. split; [|split].
  - intros Hf. split; [|by apply version_store_delete].
    destruct Hf as [c Hc]. unfold deleteFileAndVersion, deleteFile. by rewrite Hc.
  - apply getFileVersion_store.
  - rewrite !getFileVersion_store, version_store_set by done.
    case_decide as E; [subst; by rewrite lookup_insert_eq|by rewrite lookup_insert_ne].
Qed.

Definition demo_disk : Disk :=
  mkDisk "/data" {["/data/a.txt" := bytes_of_string "hi";
                   "/data/.squid/fileVersions.txt" := bytes_of_string "a.txt 4
"]} (fun _ => true) (fun _ => sound_io).

Lemma version_file_refines_map_witness :
  version_store (setFileVersion demo_disk "a.txt" 5) = <["a.txt" := 5]> (version_store demo_disk)
  /\ (is_Some (files demo_disk !! resolvePath "/data" "a.txt") ->
        (deleteFileAndVersion demo_disk "a.txt").1 = true
        /\ version_store (deleteFileAndVersion demo_disk "a.txt").2
           = delete "a.txt" (version_store demo_disk))
  /\ getFileVersion demo_disk "a.txt" = default (-1) (version_store demo_disk !! "a.txt")
  /\ getFileVersion (setFileVersion demo_disk "a.txt" 5) "a.txt" = 5.
Proof.
  apply (version_file_refines_map demo_disk "a.txt" 5 "a.txt").
  - split; [done|]. apply (bool_decide_unpack _). reflexivity.
  - unfold in_i32; lia.
  - reflexivity.
  - vm_compute. discriminate.
Defined.

Lemma span_Forall p l : Forall (fun c => p c = true) (span p l).1.
Proof.
  induction l as [|c l IH]; simpl; [constructor|]. destruct (p c) eqn:E; [|constructor].
  destruct (span p l). simpl in *. by constructor.
Qed.

Lemma read_word_no_space l w rest : read_word l = Some (w, rest) -> no_space w.
Proof.
  unfold read_word. pose proof (span_Forall (fun c => negb (is_space c)) (skip_ws l)) as H.
  destruct (span _ _) as [[|c a] b]; simpl in *; [done|]. intros [= <- <-].
  eapply Forall_impl; [exact H|]. simpl. intros x. by apply negb_true_iff.
Qed.

(** A path with white space in it never has a version: whatever the
    version file holds, and so also right after [setFileVersion] stored one,
    [getFileVersion] answers -1. *)
Theorem space_path_has_no_version d path :
  existsb is_space (bytes_of_string path) = true -> getFileVersion d path = -1.
Proof.
  intros Hsp. unfold getFileVersion. induction (versionLines d) as [|l ls IH]; [done|]. simpl.
  unfold parseVersionLine. destruct (read_word l) as [[w rest]|] eqn:E; [|done].
  destruct (read_int rest) as [[v r]|]; [|done]. rewrite decide_False; [done|].
  intros ->. apply read_word_no_space in E. unfold no_space in E.
  apply List.existsb_exists in Hsp as (c & Hin & Hc). rewrite List.Forall_forall in E.
  rewrite E in Hc by done. done.
Qed.

Lemma space_path_has_no_version_witness :
  getFileVersion (setFileVersion demo_disk "my file.txt" 3) "my file.txt" = -1.
Proof. apply space_path_has_no_version. reflexivity. Defined.

(** ** Properties of the directory listing *)

Lemma getFiles_flat d f : f ∈ getFiles d -> free_of slash (bytes_of_string f).
Proof.
  unfold getFiles. rewrite list_elem_of_In, List.in_map_iff.
  intros (name & <- & [Hn _]%List.filter_In). rewrite bytes_of_string_of_bytes.
  apply list_elem_of_In, list_elem_of_omap in Hn as (p & _ & Hp). unfold dirEntry in Hp.
  case_decide; [|done]. case_decide as Hfree; [|done]. injection Hp as <-. apply Hfree.
Qed.

Lemma store_all_map (f : string -> Z) ks m k :
  store_all (map (fun x => (x, f x)) ks) m !! k =
    if decide (k ∈ ks) then Some (f k) else m !! k.
Proof.
  revert m. induction ks as [|x ks IH]; intros m; [done|]. simpl. rewrite IH. simpl.
  destruct (decide (k ∈ ks)).
  - rewrite decide_True by (by right). done.
  - destruct (decide (k = x)) as [->|Hne].
    + rewrite decide_True by (by left). apply lookup_insert_eq.
    + rewrite decide_False by (by rewrite not_elem_of_cons). by apply lookup_insert_ne.
Qed.

(** What a datanode reports on SYNC_STATUS: exactly the regular files that
    lie directly in its storage root, with their recorded version or 0.  A
    file in a subdirectory is never reported, so the server does not learn
    that this datanode holds it. *)
Theorem reported_files_are_top_level d path :
  getFileVersionMap d !! path =
    (if decide (path ∈ getFiles d) then Some (default 0 (savedFilesVersion d !! path)) else None)
  /\ (slash ∈ bytes_of_string path -> getFileVersionMap d !! path = None).
Proof.
  assert (getFileVersionMap d !! path = if decide (path ∈ getFiles d)
            then Some (default 0 (savedFilesVersion d !! path)) else None) as H.
  { unfold getFileVersionMap. by rewrite (store_all_map (fun f => default 0 (_ !! f))). }
  split; [exact H|]. intros Hs. rewrite H. rewrite decide_False; [done|].
  intros Hf%getFiles_flat. unfold free_of in Hf. rewrite Forall_forall in Hf. by apply (Hf slash).
Qed.

Lemma reported_files_are_top_level_witness :
  slash ∈ bytes_of_string "docs/a.txt" ->
  getFileVersionMap (createFile demo_disk "docs/a.txt").2 !! "docs/a.txt" = None.
Proof. apply (reported_files_are_top_level (createFile demo_disk "docs/a.txt").2). Defined.

Example listing_demo :
  getFileVersionMap (createFile demo_disk "docs/a.txt").2 = {["a.txt" := 4]}
  /\ files (createFile demo_disk "docs/a.txt").2 !! "/data/docs/a.txt" = Some [].
Proof. split; vm_compute; reflexivity. Qed.
