(* ===== verification/FileTransfer.v ===== *)
(** * Network channels and the file transfer

    Models [common/src/networking/INetworkChannel.hpp] as the class
    [NetworkChannel], what the protocol needs of a connection as the class of
    laws [StreamChannel], [TCPSquidChannel] over a socket as the instance
    [Pipe], and [common/src/filesystem/filetransfer.{hpp,cpp}]. *)

From S2P Require Import Prelude Text Wire FileManager.

(** ** [INetworkChannel]

    [readBytes n c] is the return value of [readBytes(buf, n)], the bytes it
    put into [buf] and the channel after the call.  [inbound] and [outbound]
    observe the connection: the bytes the peer sends from now on until it
    closes or falls silent, and all the bytes written so far.  [inbound] also
    bounds the reading loops. *)
Class NetworkChannel (C : Type) : Type := {
  readBytes : Z -> C -> Z * list byte * C;
  writeBytes : list byte -> C -> Z * C;
  isOpen : C -> bool;
  close : C -> C;
  inbound : C -> list byte;
  outbound : C -> list byte }.

(** A byte stream: reads return what the peer sent, in order, in pieces of any
    size, and fail only when nothing more comes; a write accepts a prefix of
    what it is given.  [writable] holds while the peer takes bytes. *)
Class StreamChannel (C : Type) `{NetworkChannel C} : Type := {
  writable : C -> Prop;
  read_data n c k bs c' :
    0 < n -> readBytes n c = (k, bs, c') -> 0 < k ->
    k <= n /\ Z.of_nat (length bs) = k /\ inbound c = bs ++ inbound c';
  read_stop n c k bs c' :
    0 < n -> readBytes n c = (k, bs, c') -> k <= 0 -> inbound c = [] /\ inbound c' = [];
  read_keeps n c k bs c' :
    readBytes n c = (k, bs, c') -> outbound c' = outbound c /\ (writable c -> writable c');
  write_data bs c k c' :
    writeBytes bs c = (k, c') -> 0 < k ->
    k <= Z.of_nat (length bs) /\ outbound c' = outbound c ++ take (Z.to_nat k) bs;
  write_stop bs c k c' :
    writeBytes bs c = (k, c') -> k <= 0 -> outbound c' = outbound c;
  write_keeps bs c k c' :
    writeBytes bs c = (k, c') -> inbound c' = inbound c /\ (writable c -> writable c');
  write_up bs c k c' :
    writeBytes bs c = (k, c') -> writable c -> bs <> [] -> 0 < k;
  write_open c : writable c -> isOpen c = true;
  close_keeps c : outbound (close c) = outbound c }.

(** ** [TCPSquidChannel] over a socket

    [recv] returns at most [rcvMax] bytes at a time and [send] accepts at most
    [sndMax] bytes; at the end of the input [recv] returns [atEnd] (0 when the
    peer closed, -1 on a timeout).  A negative descriptor is a closed channel. *)
Record Pipe : Type := mkPipe {
  socketFd : Z;
  inbox : list byte;
  outbox : list byte;
  rcvMax : positive;
  sndMax : positive;
  eof : bool }.

Definition Pipe_isOpen (p : Pipe) : bool := 0 <=? socketFd p.

Definition Pipe_readBytes (n : Z) (p : Pipe) : Z * list byte * Pipe :=
  if negb (Pipe_isOpen p) then (-1, [], p)
  else match inbox p with
       | [] => (if eof p then 0 else -1, [], p)
       | _ =>
           let k := Z.min (Z.min n (Zpos (rcvMax p))) (Z.of_nat (length (inbox p))) in
           (k, take (Z.to_nat k) (inbox p),
            mkPipe (socketFd p) (drop (Z.to_nat k) (inbox p)) (outbox p) (rcvMax p) (sndMax p) (eof p))
       end.

Definition Pipe_writeBytes (bs : list byte) (p : Pipe) : Z * Pipe :=
  if negb (Pipe_isOpen p) then (-1, p)
  else
    let k := Z.min (Zpos (sndMax p)) (Z.of_nat (length bs)) in
    (k, mkPipe (socketFd p) (inbox p) (outbox p ++ take (Z.to_nat k) bs) (rcvMax p) (sndMax p) (eof p)).

Definition Pipe_close (p : Pipe) : Pipe :=
  if Pipe_isOpen p then mkPipe (-1) (inbox p) (outbox p) (rcvMax p) (sndMax p) (eof p) else p.

#[export] Instance Pipe_channel : NetworkChannel Pipe := {
  readBytes := Pipe_readBytes;
  writeBytes := Pipe_writeBytes;
  isOpen := Pipe_isOpen;
  close := Pipe_close;
  inbound p := if Pipe_isOpen p then inbox p else [];
  outbound := outbox }.

#[export] Program Instance Pipe_stream : StreamChannel Pipe := {
  writable p := Pipe_isOpen p = true }.
Next Obligation.
  simpl. unfold Pipe_readBytes. intros n p k bs p' Hn H Hk.
  destruct (Pipe_isOpen p) eqn:Ho; simpl in H; [|by simplify_eq].
  destruct (inbox p) as [|b l] eqn:Hi; [destruct (eof p); simplify_eq; lia|].
  rewrite <-Hi in H. injection H as <- <- <-.
  unfold Pipe_isOpen in *. cbn [inbox socketFd]. rewrite Ho, take_drop, length_take, Hi.
  cbn [length]. repeat split; lia.
Qed.
Next Obligation.
  simpl. unfold Pipe_readBytes. intros n p k bs p' Hn H Hk.
  destruct (Pipe_isOpen p) eqn:Ho; simpl in H; [|simplify_eq; by rewrite Ho].
  destruct (inbox p) as [|b l] eqn:Hi; [simplify_eq; by rewrite Ho|].
  injection H as <- <- <-. simpl in Hk. lia.
Qed.
Next Obligation.
  simpl. unfold Pipe_readBytes. intros n p k bs p' H.
  destruct (Pipe_isOpen p) eqn:Ho; simpl in H; [|by simplify_eq].
  destruct (inbox p); by simplify_eq.
Qed.
Next Obligation.
  simpl. unfold Pipe_writeBytes. intros bs p k p' H Hk.
  destruct (Pipe_isOpen p) eqn:Ho; simpl in H; simplify_eq; [|lia]. simpl. split; [lia|done].
Qed.
Next Obligation.
  simpl. unfold Pipe_writeBytes. intros bs p k p' H Hk.
  destruct (Pipe_isOpen p) eqn:Ho; simpl in H; simplify_eq; [|done]. simpl.
  replace (Z.to_nat _) with 0%nat by lia. simpl. by rewrite app_nil_r.
Qed.
Next Obligation.
  simpl. unfold Pipe_writeBytes. intros bs p k p' H.
  destruct (Pipe_isOpen p) eqn:Ho; simpl in H; simplify_eq; [|by rewrite Ho].
  unfold Pipe_isOpen in *. simpl. by rewrite Ho.
Qed.
Next Obligation.
  simpl. unfold Pipe_writeBytes. intros bs p k p' H Ho Hbs. rewrite Ho in H. simpl in H.
  simplify_eq. destruct bs; [done|]. simpl. lia.
Qed.
Next Obligation. done. Qed.
Next Obligation. simpl. unfold Pipe_close. intros p. by destruct (Pipe_isOpen p). Qed.

(** ** [FileTransfer] *)

Definition BUFFER_SIZE : Z := 1024 * 1024.
Definition FILETRANSFER_MAX_SIZE : Z := Z.shiftl 1 30.

Definition handleErrors (bytes : Z) : bool :=
  if (bytes =? 0) then false else if (bytes <? 0) then false else true.

(** The 8 bytes of the size, most significant first. *)
Definition encodeSize (filesize : Z) : list byte := fill_be 8 filesize [].
Definition decodeSize (sizebuf : list byte) : Z := readU64 sizebuf.

Section transfer.
Context {C : Type} `{NetworkChannel C}.
Implicit Types c : C.

(** [sendAll]: [rest] is what lies from [p + total] on.  Each round sends at
    least one byte, so the number of bytes bounds the rounds. *)
Fixpoint sendAll_loop (fuel : nat) (total : Z) (rest : list byte) c : Z * C :=
  match rest with
  | [] => (total, c)
  | _ =>
      match fuel with
      | O => (-1, c)
      | S fuel =>
          let '(n, c) := writeBytes rest c in
          if (0 <? n) then sendAll_loop fuel (total + n) (drop (Z.to_nat n) rest) c
          else if (n =? 0) then (0, c) else (-1, c)
      end
  end.
Definition sendAll (buf : list byte) c : Z * C := sendAll_loop (length buf) 0 buf c.

(** [recvAll]: [buf] is what has been received so far. *)
Fixpoint recvAll_loop (fuel : nat) (len : Z) (buf : list byte) c : Z * list byte * C :=
  let total := Z.of_nat (length buf) in
  if (total <? len) then
    match fuel with
    | O => (-1, buf, c)
    | S fuel =>
        let '(n, bs, c) := readBytes (len - total) c in
        if (0 <? n) then recvAll_loop fuel len (buf ++ bs) c
        else if (n =? 0) then (0, buf, c) else (-1, buf, c)
    end
  else (total, buf, c).
Definition recvAll (len : Z) c : Z * list byte * C :=
  recvAll_loop (S (length (inbound c))) len [] c.

(** The chunk loop of [sendFile]. *)
Fixpoint sendChunks (fuel : nat) (rest : list byte) c : bool * C :=
  match rest with
  | [] => (true, c)
  | _ =>
      match fuel with
      | O => (false, c)
      | S fuel =>
          let chunk := Z.to_nat (Z.min BUFFER_SIZE (Z.of_nat (length rest))) in
          let '(s, c) := sendAll (take chunk rest) c in
          if handleErrors s then sendChunks fuel (drop chunk rest) c else (false, c)
      end
  end.

(** [sendFile(channel, rolename, data)]. *)
Definition sendFile (data : list byte) c : bool * C :=
  let filesize := Z.of_nat (length data) in
  if (FILETRANSFER_MAX_SIZE <? filesize) then (false, c)
  else
    let '(bytes, c) := sendAll (encodeSize filesize) c in
    if handleErrors bytes then sendChunks (length data) data c else (false, c).

(** [sendFile(channel, rolename, filepath)]: the contents of the file, read
    in pieces of [BUFFER_SIZE]. *)
Definition sendFilePath (d : Disk) (filepath : string) c : bool * C :=
  match files d !! resolvePath (root d) filepath with
  | None => (false, c)
  | Some content => sendFile content c
  end.

(** The chunk loop of [receiveFile]; [buf] is what is stored so far. *)
Fixpoint recvChunks (fuel : nat) (remaining : Z) (buf : list byte) c : bool * list byte * C :=
  if (0 <? remaining) then
    match fuel with
    | O => (false, buf, c)
    | S fuel =>
        let chunk := if (BUFFER_SIZE <? remaining) then BUFFER_SIZE else remaining in
        let '(r, bs, c) := recvAll chunk c in
        if handleErrors r then recvChunks fuel (remaining - r) (buf ++ bs) c
        else (false, buf, c)
    end
  else (true, buf, c).

(** The size, then the bytes; shared by the two [receiveFile]s. *)
Definition receiveBytes c : bool * list byte * C :=
  let '(bytes, sizebuf, c) := recvAll 8 c in
  if handleErrors bytes then
    let filesize := decodeSize sizebuf in
    if (FILETRANSFER_MAX_SIZE <? filesize) then (false, [], c)
    else recvChunks (S (length (inbound c))) filesize [] c
  else (false, [], c).

(** [receiveFile(channel, rolename, data)], where [data] was empty: cleared
    when the transfer breaks off. *)
Definition receiveFile c : bool * list byte * C :=
  let '(ok, data, c) := receiveBytes c in
  if ok then (true, data, c) else (false, [], c).

(** [receiveFile(channel, rolename, outputpath)]: the file is created or
    truncated before the transfer and removed when the transfer fails. *)
Definition receiveFilePath (d : Disk) (outputpath : string) c : bool * Disk * C :=
  let p := resolvePath (root d) outputpath in
  if negb (openable d p) then (false, d, c)
  else
    let '(ok, data, c) := receiveBytes c in
    if ok then (true, write_file d p data, c)
    else (false, set_files d (delete p (files d)), c).
End transfer.

(** ** Properties over any byte stream *)

Lemma handleErrors_pos n : handleErrors n = (0 <? n).
Proof. unfold handleErrors. destruct (Z.eqb_spec n 0), (Z.ltb_spec n 0), (Z.ltb_spec 0 n); lia. Qed.

Section transfer_spec.
Context {C : Type} `{StreamChannel C}.
Implicit Types c : C.

Lemma sendAll_loop_spec fuel total rest c :
  (length rest <= fuel)%nat -> writable c ->
  exists c', sendAll_loop fuel total rest c = (total + Z.of_nat (length rest), c')
    /\ outbound c' = outbound c ++ rest /\ inbound c' = inbound c /\ writable c'.
Proof.
  revert total rest c. induction fuel as [|fuel IH]; intros total rest c Hf Hw.
  - destruct rest; [|simpl in Hf; lia]. exists c. simpl.
    by rewrite Z.add_0_r, app_nil_r.
  - destruct rest as [|b rest]; [exists c; simpl; by rewrite Z.add_0_r, app_nil_r|].
    set (bs := b :: rest) in *. cbn [sendAll_loop]. fold bs.
    destruct (writeBytes bs c) as [n c1] eqn:Hwr.
    pose proof (write_up _ _ _ _ Hwr Hw ltac:(done)) as Hn.
    destruct (write_data _ _ _ _ Hwr Hn) as [Hle Hout].
    destruct (write_keeps _ _ _ _ Hwr) as [Hin Hw1].
    destruct (Z.ltb_spec 0 n); [|lia].
    destruct (IH (total + n) (drop (Z.to_nat n) bs) c1) as (c' & Hs & Ho & Hi & Hw'); [|auto|].
    { rewrite length_drop. lia. }
    exists c'. rewrite length_drop in Hs. split; [|split; [|split; [congruence|done]]].
    + change (match bs with [] => (total, c) | _ :: _ => sendAll_loop fuel (total + n) (drop (Z.to_nat n) bs) c1 end)
        with (sendAll_loop fuel (total + n) (drop (Z.to_nat n) bs) c1).
      rewrite Hs. f_equal. lia.
    + by rewrite Ho, Hout, <-app_assoc, take_drop.
Qed.

Lemma sendAll_spec bs c : writable c ->
  exists c', sendAll bs c = (Z.of_nat (length bs), c')
    /\ outbound c' = outbound c ++ bs /\ inbound c' = inbound c /\ writable c'.
Proof. intros Hw. by apply (sendAll_loop_spec (length bs) 0 bs c). Qed.

(** A read of [len] bytes that are there gets exactly them. *)
Lemma recvAll_loop_ok fuel len buf c need :
  len - Z.of_nat (length buf) = Z.of_nat need -> (need <= length (inbound c))%nat ->
  (need < fuel)%nat ->
  exists c', recvAll_loop fuel len buf c = (len, buf ++ take need (inbound c), c')
    /\ inbound c' = drop need (inbound c)
    /\ outbound c' = outbound c /\ (writable c -> writable c').
Proof.
  revert buf c need. induction fuel as [|fuel IH]; intros buf c need Hlen Hin Hf; [lia|].
  cbn [recvAll_loop]. destruct (Z.ltb_spec (Z.of_nat (length buf)) len) as [Hlt|Hge].
  - assert (0 < len - Z.of_nat (length buf)) as Hpos by lia.
    destruct (readBytes (len - Z.of_nat (length buf)) c) as [[k bs] c1] eqn:Hr.
    destruct (Z.ltb_spec 0 k) as [Hk|Hk].
    + destruct (read_data _ _ _ _ _ Hpos Hr Hk) as (Hle & Hlb & Hsplit).
      destruct (read_keeps _ _ _ _ _ Hr) as [Hout Hw].
      rewrite Hsplit, length_app in Hin. rewrite Hsplit.
      destruct (IH (buf ++ bs) c1 (need - length bs)%nat) as (c' & Hs & Hi & Ho & Hw');
        [rewrite length_app; lia|lia|lia|].
      exists c'. rewrite Hs, Hi, Ho, Hout. repeat split; [|by rewrite drop_app_ge by lia|auto].
      by rewrite take_app_ge, <-app_assoc by lia.
    + destruct (read_stop _ _ _ _ _ Hpos Hr Hk) as [He _]. rewrite He in Hin. simpl in Hin. lia.
  - assert (need = 0%nat) as -> by lia. exists c.
    rewrite take_0, drop_0, app_nil_r. repeat split; [|auto]. do 2 f_equal. lia.
Qed.

Lemma recvAll_ok len c : 0 <= len <= Z.of_nat (length (inbound c)) ->
  exists c', recvAll len c = (len, take (Z.to_nat len) (inbound c), c')
    /\ inbound c' = drop (Z.to_nat len) (inbound c)
    /\ outbound c' = outbound c /\ (writable c -> writable c').
Proof. intros Hlen. apply (recvAll_loop_ok _ len [] c (Z.to_nat len)); simpl; lia. Qed.

(** A read of more than there is fails and drains the stream. *)
Lemma recvAll_loop_short fuel len buf c :
  Z.of_nat (length buf + length (inbound c)) < len -> (length (inbound c) < fuel)%nat ->
  exists k bs c', recvAll_loop fuel len buf c = (k, bs, c') /\ k <= 0
    /\ inbound c' = [] /\ outbound c' = outbound c /\ (writable c -> writable c').
Proof.
  revert buf c. induction fuel as [|fuel IH]; intros buf c Hlen Hf; [lia|].
  cbn [recvAll_loop]. destruct (Z.ltb_spec (Z.of_nat (length buf)) len) as [Hlt|Hge]; [|lia].
  assert (0 < len - Z.of_nat (length buf)) as Hpos by lia.
  destruct (readBytes (len - Z.of_nat (length buf)) c) as [[k bs] c1] eqn:Hr.
  destruct (read_keeps _ _ _ _ _ Hr) as [Hout Hw].
  destruct (Z.ltb_spec 0 k) as [Hk|Hk].
  - destruct (read_data _ _ _ _ _ Hpos Hr Hk) as (Hle & Hlb & Hsplit).
    rewrite Hsplit, length_app in Hlen, Hf.
    destruct (IH (buf ++ bs) c1) as (k' & bs' & c' & Hs & Hk' & Hi & Ho & Hw');
      [rewrite length_app; lia|lia|].
    exists k', bs', c'. repeat split; [done..|congruence|auto].
  - destruct (read_stop _ _ _ _ _ Hpos Hr Hk) as [_ He].
    destruct (Z.eqb_spec k 0); do 3 eexists; repeat split; eauto; lia.
Qed.

Lemma recvAll_short len c : Z.of_nat (length (inbound c)) < len ->
  exists k bs c', recvAll len c = (k, bs, c') /\ k <= 0
    /\ inbound c' = [] /\ outbound c' = outbound c /\ (writable c -> writable c').
Proof. intros Hlen. apply (recvAll_loop_short _ len [] c); simpl; lia. Qed.

Lemma sendChunks_spec fuel rest c :
  (length rest <= fuel)%nat -> writable c ->
  exists c', sendChunks fuel rest c = (true, c')
    /\ outbound c' = outbound c ++ rest /\ inbound c' = inbound c /\ writable c'.
Proof.
  revert rest c. induction fuel as [|fuel IH]; intros rest c Hf Hw.
  - destruct rest; [|simpl in Hf; lia]. exists c. by rewrite app_nil_r.
  - destruct rest as [|b rest]; [exists c; by rewrite app_nil_r|].
    set (bs := b :: rest) in *. cbn [sendChunks]. fold bs.
    assert (0 < Z.of_nat (length bs)) as Hpos by (simpl; lia).
    set (chunk := Z.to_nat (Z.min BUFFER_SIZE (Z.of_nat (length bs)))).
    assert (0 < chunk <= length bs)%nat as Hchunk by (unfold chunk, BUFFER_SIZE; lia).
    destruct (sendAll_spec (take chunk bs) c Hw) as (c1 & Hs & Ho & Hi & Hw1).
    rewrite Hs, handleErrors_pos, length_take, Nat.min_l by lia.
    destruct (Z.ltb_spec 0 (Z.of_nat chunk)); [|lia].
    destruct (IH (drop chunk bs) c1) as (c' & Hs' & Ho' & Hi' & Hw'); [rewrite length_drop; lia|done|].
    exists c'. repeat split; [exact Hs'| |congruence|done].
    by rewrite Ho', Ho, <-app_assoc, take_drop.
Qed.

Lemma recvChunks_ok fuel remaining buf c need :
  remaining = Z.of_nat need -> (need <= length (inbound c))%nat -> (need < fuel)%nat ->
  exists c', recvChunks fuel remaining buf c = (true, buf ++ take need (inbound c), c')
    /\ inbound c' = drop need (inbound c)
    /\ outbound c' = outbound c /\ (writable c -> writable c').
Proof.
  revert remaining buf c need. induction fuel as [|fuel IH]; intros remaining buf c need Hr Hin Hf;
    [lia|].
  cbn [recvChunks]. destruct (Z.ltb_spec 0 remaining) as [Hlt|Hge].
  - set (chunk := if (BUFFER_SIZE <? remaining) then BUFFER_SIZE else remaining).
    assert (0 < chunk <= remaining) as Hchunk.
    { unfold chunk, BUFFER_SIZE. destruct (Z.ltb_spec (1024 * 1024) remaining); lia. }
    destruct (recvAll_ok chunk c) as (c1 & Hs & Hi & Ho & Hw); [lia|].
    rewrite Hs, handleErrors_pos. destruct (Z.ltb_spec 0 chunk); [|lia].
    destruct (IH (remaining - chunk) (buf ++ take (Z.to_nat chunk) (inbound c)) c1
                 (need - Z.to_nat chunk)%nat) as (c' & Hs' & Hi' & Ho' & Hw');
      [lia|rewrite Hi, length_drop; lia|lia|].
    exists c'. rewrite Hs', Hi', Ho', Hi, Ho, drop_drop.
    replace (Z.to_nat chunk + (need - Z.to_nat chunk))%nat with need by lia.
    repeat split; [|auto]. rewrite <-app_assoc. do 3 f_equal.
    rewrite <-(take_drop (Z.to_nat chunk) (take need (inbound c))), take_take.
    by rewrite Nat.min_l, List.skipn_firstn_comm by lia.
  - assert (need = 0%nat) as -> by lia. exists c. rewrite take_0, drop_0, app_nil_r. auto.
Qed.

Lemma recvChunks_short fuel remaining buf c :
  Z.of_nat (length (inbound c)) < remaining -> (length (inbound c) < fuel)%nat ->
  exists bs c', recvChunks fuel remaining buf c = (false, bs, c')
    /\ outbound c' = outbound c /\ (writable c -> writable c').
Proof.
  revert remaining buf c. induction fuel as [|fuel IH]; intros remaining buf c Hr Hf; [lia|].
  cbn [recvChunks]. destruct (Z.ltb_spec 0 remaining) as [Hlt|Hge]; [|lia].
  set (chunk := if (BUFFER_SIZE <? remaining) then BUFFER_SIZE else remaining).
  assert (0 < chunk <= remaining) as Hchunk.
  { unfold chunk, BUFFER_SIZE. destruct (Z.ltb_spec (1024 * 1024) remaining); lia. }
  destruct (Z.le_gt_cases chunk (Z.of_nat (length (inbound c)))) as [Hle|Hgt].
  - destruct (recvAll_ok chunk c) as (c1 & Hs & Hi & Ho & Hw); [lia|].
    rewrite Hs, handleErrors_pos. destruct (Z.ltb_spec 0 chunk); [|lia].
    destruct (IH (remaining - chunk) (buf ++ take (Z.to_nat chunk) (inbound c)) c1)
      as (bs & c' & Hs' & Ho' & Hw'); [rewrite Hi, length_drop; lia..|].
    exists bs, c'. rewrite Hs', Ho', Ho. auto.
  - destruct (recvAll_short chunk c) as (k & bs & c1 & Hs & Hk & Hi & Ho & Hw); [lia|].
    rewrite Hs, handleErrors_pos. destruct (Z.ltb_spec 0 k); [lia|]. eauto 10.
Qed.

(** What [sendFile] puts on the wire. *)
Definition transferBytes (data : list byte) : list byte :=
  encodeSize (Z.of_nat (length data)) ++ data.

Lemma length_encodeSize n : length (encodeSize n) = 8%nat.
Proof. exact (length_be_bytes 8 n). Qed.

Lemma decode_encodeSize n : in_u64 n -> decodeSize (encodeSize n) = n.
Proof.
  intros Hn. unfold decodeSize. rewrite <-(app_nil_r (encodeSize n)).
  rewrite readU64_be by apply length_encodeSize. unfold encodeSize.
  change (fill_be 8 n []) with (be_bytes 8 n). rewrite be_value_bytes. by apply Z.mod_small.
Qed.

Definition transferable (data : list byte) : Prop :=
  Z.of_nat (length data) <= FILETRANSFER_MAX_SIZE.

Lemma transferable_u64 data : transferable data -> in_u64 (Z.of_nat (length data)).
Proof. unfold transferable, in_u64, FILETRANSFER_MAX_SIZE. rewrite Z.shiftl_mul_pow2 by lia. lia. Qed.

Lemma sendFile_ok data c : transferable data -> writable c ->
  exists c', sendFile data c = (true, c')
    /\ outbound c' = outbound c ++ transferBytes data /\ inbound c' = inbound c /\ writable c'.
Proof.
  intros Hd Hw. unfold sendFile. unfold transferable in Hd.
  destruct (Z.ltb_spec FILETRANSFER_MAX_SIZE (Z.of_nat (length data))); [lia|].
  destruct (sendAll_spec (encodeSize (Z.of_nat (length data))) c Hw) as (c1 & Hs & Ho & Hi & Hw1).
  rewrite Hs, length_encodeSize.
  destruct (sendChunks_spec (length data) data c1 ltac:(lia) Hw1) as (c2 & Hs2 & Ho2 & Hi2 & Hw2).
  exists c2. repeat split; [exact Hs2| |congruence|done].
  unfold transferBytes. by rewrite Ho2, Ho, <-app_assoc.
Qed.

Lemma receiveBytes_ok data rest c : transferable data ->
  inbound c = transferBytes data ++ rest ->
  exists c', receiveBytes c = (true, data, c') /\ inbound c' = rest
    /\ outbound c' = outbound c /\ (writable c -> writable c').
Proof.
  intros Hd Hin. unfold receiveBytes.
  assert (length (inbound c) = 8 + length data + length rest)%nat as Hlen.
  { rewrite Hin. unfold transferBytes. by rewrite !length_app, length_encodeSize. }
  destruct (recvAll_ok 8 c) as (c1 & Hs & Hi & Ho & Hw); [lia|]. rewrite Hs.
  unfold transferBytes in Hin. rewrite <-app_assoc in Hin. change (Z.to_nat 8) with 8%nat in *.
  rewrite Hin, take_app_length' by (by rewrite length_encodeSize).
  rewrite Hin, drop_app_length' in Hi by (by rewrite length_encodeSize).
  rewrite decode_encodeSize by by apply transferable_u64. change (handleErrors 8) with true.
  cbv beta iota zeta. unfold transferable in Hd.
  destruct (Z.ltb_spec FILETRANSFER_MAX_SIZE (Z.of_nat (length data))); [lia|].
  destruct (recvChunks_ok (S (length (inbound c1))) (Z.of_nat (length data)) [] c1 (length data))
    as (c2 & Hs2 & Hi2 & Ho2 & Hw2); [done|rewrite Hi, length_app; lia..|].
  exists c2. rewrite Hs2, Hi2, Ho2, Ho, Hi. simpl.
  rewrite take_app_length, drop_app_length. repeat split. intros Hcw. by apply Hw2, Hw.
Qed.
End transfer_spec.

(** C38. A file of up to 1 GiB survives the transfer: whatever pieces the two
    connections cut the stream into, [sendFile] succeeds, and [receiveFile] on
    a stream that starts with the bytes sent returns exactly the data and
    leaves the rest of the stream untouched. *)
Theorem transfer_roundtrip {C D} `{StreamChannel C, StreamChannel D}
    (data : list byte) (cs : C) (cr : D) rest :
  Z.of_nat (length data) <= FILETRANSFER_MAX_SIZE -> writable cs ->
  exists sent cs',
    sendFile data cs = (true, cs') /\ outbound cs' = outbound cs ++ sent
    /\ (inbound cr = sent ++ rest ->
        exists cr', receiveFile cr = (true, data, cr') /\ inbound cr' = rest).
Proof.
  intros Hd Hw. exists (transferBytes data).
  destruct (sendFile_ok data cs Hd Hw) as (cs' & Hs & Ho & _). exists cs'.
  split; [done|]. split; [done|]. intros Hin.
  destruct (receiveBytes_ok data rest cr Hd Hin) as (cr' & Hr & Hi & _). exists cr'.
  unfold receiveFile. by rewrite Hr.
Qed.

Definition demo_pipe (input : list byte) : Pipe := mkPipe 3 input [] 3 5 true.

Lemma transfer_roundtrip_witness :
  exists sent cs',
    sendFile (bytes_of_string "hello, squid") (demo_pipe []) = (true, cs')
    /\ outbound cs' = outbound (demo_pipe []) ++ sent
    /\ (inbound (demo_pipe (transferBytes (bytes_of_string "hello, squid") ++ [zero])) = sent ++ [zero] ->
        exists cr', receiveFile (demo_pipe (transferBytes (bytes_of_string "hello, squid") ++ [zero]))
          = (true, bytes_of_string "hello, squid", cr') /\ inbound cr' = [zero]).
Proof.
  apply (transfer_roundtrip (bytes_of_string "hello, squid") (demo_pipe [])
           (demo_pipe (transferBytes (bytes_of_string "hello, squid") ++ [zero])) [zero]).
  - vm_compute. discriminate.
  - reflexivity.
Defined.

Lemma receiveBytes_short {C} `{StreamChannel C} (c : C) :
  (length (inbound c) < 8)%nat
  \/ FILETRANSFER_MAX_SIZE < decodeSize (take 8 (inbound c))
  \/ Z.of_nat (length (inbound c)) < 8 + decodeSize (take 8 (inbound c)) ->
  exists bs c', receiveBytes c = (false, bs, c').
Proof.
  intros Hbad. unfold receiveBytes.
  destruct (Z.lt_ge_cases (Z.of_nat (length (inbound c))) 8) as [Hlt|Hge].
  - destruct (recvAll_short 8 c Hlt) as (k & bs & c' & -> & Hk & _).
    rewrite handleErrors_pos. destruct (Z.ltb_spec 0 k); [lia|eauto].
  - destruct (recvAll_ok 8 c) as (c1 & -> & Hi & _); [lia|]. change (handleErrors 8) with true.
    cbv beta iota zeta. change (Z.to_nat 8) with 8%nat in *.
    destruct (Z.ltb_spec FILETRANSFER_MAX_SIZE (decodeSize (take 8 (inbound c)))); [eauto|].
    destruct (recvChunks_short (S (length (inbound c1))) (decodeSize (take 8 (inbound c))) [] c1)
      as (bs & c' & -> & _); [rewrite Hi, length_drop; lia|lia|eauto].
Qed.

(** A transfer to a file is not atomic: when the stream ends before the
    announced number of bytes, or announces more than 1 GiB, [receiveFile]
    returns false and the target does not exist afterwards, whatever it
    contained before; no other file changes. *)
Theorem failed_receive_removes_file {C} `{StreamChannel C} (d : Disk) path (c : C) :
  openable d (resolvePath (root d) path) = true ->
  (length (inbound c) < 8)%nat
  \/ FILETRANSFER_MAX_SIZE < decodeSize (take 8 (inbound c))
  \/ Z.of_nat (length (inbound c)) < 8 + decodeSize (take 8 (inbound c)) ->
  exists d' c', receiveFilePath d path c = (false, d', c')
    /\ files d' = delete (resolvePath (root d) path) (files d).
Proof.
  intros Ho Hbad. unfold receiveFilePath. rewrite Ho. cbn [negb].
  destruct (receiveBytes_short c Hbad) as (bs & c' & ->). do 2 eexists. split; reflexivity.
Qed.

Lemma failed_receive_removes_file_witness :
  exists d' c', receiveFilePath demo_disk "a.txt" (demo_pipe [zero; zero]) = (false, d', c')
    /\ files d' = delete "/data/a.txt" (files demo_disk).
Proof.
  apply (failed_receive_removes_file demo_disk "a.txt" (demo_pipe [zero; zero])).
  - reflexivity.
  - left. vm_compute. repeat constructor.
Defined.

Lemma receiveFilePath_ok {C} `{StreamChannel C} (d : Disk) path data rest (c : C) :
  openable d (resolvePath (root d) path) = true -> transferable data ->
  inbound c = transferBytes data ++ rest ->
  exists c', receiveFilePath d path c = (true, write_file d (resolvePath (root d) path) data, c')
    /\ inbound c' = rest /\ outbound c' = outbound c /\ (writable c -> writable c').
Proof.
  intros Ho Hd Hin. unfold receiveFilePath. rewrite Ho. cbn [negb].
  destruct (receiveBytes_ok data rest c Hd Hin) as (c' & -> & Hr). eauto.
Qed.

(** An announced size over the limit: eight bytes are gone, nothing more. *)
Lemma receiveBytes_oversize {C} `{StreamChannel C} (c : C) hd rest :
  length hd = 8%nat -> inbound c = hd ++ rest -> FILETRANSFER_MAX_SIZE < decodeSize hd ->
  exists c', receiveBytes c = (false, [], c') /\ inbound c' = rest
    /\ outbound c' = outbound c /\ (writable c -> writable c').
Proof.
  intros Hlen Hin Hbig. unfold receiveBytes.
  destruct (recvAll_ok 8 c) as (c' & -> & Hi & Ho & Hw); [rewrite Hin, length_app; lia|].
  change (Z.to_nat 8) with 8%nat in *. change (handleErrors 8) with true. cbv beta iota zeta.
  rewrite Hin, take_app_length' by done. rewrite Hin, drop_app_length' in Hi by done.
  destruct (Z.ltb_spec FILETRANSFER_MAX_SIZE (decodeSize hd)); [|lia]. eauto.
Qed.
