(* ===== verification/Sockets.v ===== *)
(** * TCP sockets

    Models [networking/TCPListenerChannel.cpp], [TCPConnectorChannel.cpp] and
    the socket side of [TCPSquidChannel.cpp], with [Peer::tryConnectChannel] and
    [ReplicaWatcher::tryConnect].  The socket calls of the operating system are
    the class [Sockets], of which any answer is possible; [SocketLaws] is what
    the manual pages say about descriptors.  The theorems are about descriptors:
    every path through these functions closes what it does not return. *)

From S2P Require Import Prelude Text Wire FileManager FileTransfer.

(** What the code uses of the socket interface, on the state [O] of the
    operating system.  [os_select] waits for a descriptor to be readable or
    writable; its second answer is [FD_ISSET]. *)
Class Sockets (O : Type) : Type := {
  inet_pton : string -> Z;
  strerror : Z -> string;
  errno : O -> Z;
  os_socket : O -> Z * O;
  os_reuseaddr : Z -> O -> Z * O;
  os_bind : Z -> Z -> O -> Z * O;
  os_listen : Z -> Z -> O -> Z * O;
  os_accept : Z -> O -> Z * option string * Z * O;
  os_select : Z -> Z -> O -> Z * bool * O;
  os_nonblock : Z -> bool -> O -> O;
  os_connect : Z -> string -> Z -> O -> Z * O;
  os_sockerr : Z -> O -> Z * O;
  os_timeouts : Z -> Z -> O -> O;
  os_recv : Z -> Z -> O -> Z * list byte * O;
  os_send : Z -> list byte -> O -> Z * O;
  os_close : Z -> O -> O }.

Definition EINPROGRESS : Z := 115.
Definition FD_SETSIZE : Z := 1024.

Record Listener : Type := mkListener { listenFd_ : Z }.
Record Connector : Type := mkConnector { socketFd_ : Z }.

Section sockets.
Context {O : Type} `{Sockets O}.
Local Abbreviation M A := (SE O A).

Definition raise {A} (e : string) : M A := fun s => (Throw e, s).

(** [FD_SET] writes outside of the set for larger descriptors. *)
Definition fd_set (fd : Z) : M unit :=
  if fd <? FD_SETSIZE then ret tt else raise "undefined: FD_SET outside of the set".

(** ** Closing *)

Definition closeFd (fd : Z) : M Z :=
  if 0 <=? fd then do* modify (os_close fd) in ret (-1) else ret fd.
Definition listener_isOpen (l : Listener) : bool := 0 <=? listenFd_ l.
Definition listener_close (l : Listener) : M Listener :=
  let* fd := closeFd (listenFd_ l) in ret (mkListener fd).
Definition connector_isOpen (c : Connector) : bool := 0 <=? socketFd_ c.
Definition connector_close (c : Connector) : M Connector :=
  let* fd := closeFd (socketFd_ c) in ret (mkConnector fd).

(** ** [TCPListenerChannel] *)

Definition newListener (port backlog : Z) : M Listener :=
  let* fd := lift os_socket in
  if fd <? 0 then raise "TCPListenerChannel: socket creation failed"
  else
    let* rc := lift (os_reuseaddr fd) in
    if rc <? 0 then do* closeFd fd in raise "TCPListenerChannel: setsockopt(SO_REUSEADDR) failed"
    else
      let* rc := lift (os_bind fd (u16 port)) in
      if rc <? 0 then
        do* closeFd fd in
        let* e := gets errno in
        raise ("TCPListenerChannel: bind failed: " +:+ strerror e)
      else
        let* rc := lift (os_listen fd backlog) in
        if rc <? 0 then do* closeFd fd in raise "TCPListenerChannel: listen failed"
        else ret (mkListener fd).

Record AcceptedConnection : Type := mkAccepted {
  acceptedChannel : option Connector;
  peerIp : string;
  peerPort : Z }.

Definition acceptConnection (l : Listener) : M AcceptedConnection :=
  if negb (listener_isOpen l) then ret (mkAccepted None "" 0)
  else
    let* r := lift (os_accept (listenFd_ l)) in
    let '(fd, ip, port) := (r : Z * option string * Z) in
    if fd <? 0 then ret (mkAccepted None "" 0)
    else ret (mkAccepted (Some (mkConnector fd)) (default "" ip) (u16 port)).

Definition waitForConnection (l : Listener) (timeoutSeconds : Z) : M (option AcceptedConnection) :=
  if negb (listener_isOpen l) then ret None
  else
    do* fd_set (listenFd_ l) in
    let* r := lift (os_select (listenFd_ l) timeoutSeconds) in
    let (ready, isset) := (r : Z * bool) in
    if ready <? 0 then ret None
    else if ready =? 0 then ret None
    else if negb isset then ret None
    else
      let* accepted := acceptConnection l in
      match acceptedChannel accepted with
      | None => ret None
      | Some _ => ret (Some accepted)
      end.

(** ** [TCPConnectorChannel] *)

(** The wait for a connection in progress. *)
Definition awaitConnect (fd timeoutSeconds : Z) : M unit :=
  do* fd_set fd in
  let* r := lift (os_select fd timeoutSeconds) in
  let (ready, _) := (r : Z * bool) in
  if ready <=? 0 then do* closeFd fd in raise "TCPConnectorChannel: connect timed out"
  else
    let* err := lift (os_sockerr fd) in
    if negb (err =? 0) then
      do* closeFd fd in raise ("TCPConnectorChannel: connect error: " +:+ strerror err)
    else ret tt.

(** [errno] is read again after a [connect] that succeeded, as in the code. *)
Definition newConnector (host : string) (port timeoutSeconds : Z) : M Connector :=
  if inet_pton host <=? 0 then raise "TCPConnectorChannel: invalid address"
  else
    let* fd := lift os_socket in
    if fd <? 0 then raise "TCPConnectorChannel: socket() failed"
    else
      do* modify (os_nonblock fd true) in
      let* rc := lift (os_connect fd host (u16 port)) in
      let* e := gets errno in
      if negb (rc =? 0) && negb (e =? EINPROGRESS) then
        do* closeFd fd in
        let* e := gets errno in
        raise ("TCPConnectorChannel: connect failed: " +:+ strerror e)
      else
        do* (if e =? EINPROGRESS then awaitConnect fd timeoutSeconds else ret tt) in
        do* modify (os_nonblock fd false) in
        do* modify (os_timeouts fd timeoutSeconds) in
        ret (mkConnector fd).

(** [Peer::tryConnectChannel], and one attempt of [ReplicaWatcher::tryConnect]:
    every exception is taken for a server that is down. *)
Definition tryConnectChannel (ip : string) (port timeoutSeconds : Z) : M (option Connector) := fun o =>
  match newConnector ip port timeoutSeconds o with
  | (Ok ch, o) => if connector_isOpen ch then (Ok (Some ch), o)
                  else (let* _ := connector_close ch in ret None) o
  | (Throw _, o) => (Ok None, o)
  end.

(** [ReplicaWatcher::tryConnect]. *)
Fixpoint tryConnect (ip : string) (port : Z) (attempts : nat) : M (option Connector) :=
  match attempts with
  | 0%nat => ret None
  | S attempts =>
      let* ch := tryConnectChannel ip port 1 in
      match ch with
      | Some ch => ret (Some ch)
      | None => tryConnect ip port attempts
      end
  end.
End sockets.

(** What the manual pages promise of descriptors: [fds] are the open ones, a
    new one is the number of a descriptor that was not open, below the limit of
    the process (which is [FD_SETSIZE] by default), and only [close] closes. *)
Class SocketLaws (O : Type) `{Sockets O} : Type := {
  fds : O -> gset Z;
  socket_fds o fd o' : os_socket o = (fd, o') ->
    if decide (fd < 0) then (fds o' = fds o)
    else (fd ∉ fds o) /\ fd < FD_SETSIZE /\ fds o' = {[fd]} ∪ fds o;
  accept_fds l o fd ip port o' : os_accept l o = (fd, ip, port, o') ->
    if decide (fd < 0) then (fds o' = fds o)
    else (fd ∉ fds o) /\ fd < FD_SETSIZE /\ fds o' = {[fd]} ∪ fds o;
  close_fds fd o : fds (os_close fd o) = fds o ∖ {[fd]};
  reuseaddr_fds fd o : fds (os_reuseaddr fd o).2 = fds o;
  bind_fds fd port o : fds (os_bind fd port o).2 = fds o;
  listen_fds fd n o : fds (os_listen fd n o).2 = fds o;
  select_fds fd n o : fds (os_select fd n o).2 = fds o;
  nonblock_fds fd b o : fds (os_nonblock fd b o) = fds o;
  connect_fds fd host port o : fds (os_connect fd host port o).2 = fds o;
  sockerr_fds fd o : fds (os_sockerr fd o).2 = fds o;
  timeouts_fds fd n o : fds (os_timeouts fd n o) = fds o }.

Section descriptors.
Context {O : Type} `{SocketLaws O}.
Local Abbreviation M A := (SE O A).

(** [m] owns the descriptors [own a] when it returns [a], and none that were
    not open before when it throws. *)
Definition balanced {A} (m : M A) (own : A -> gset Z) : Prop := forall o,
  match m o with
  | (Ok a, o') => own a ## fds o /\ fds o' = own a ∪ fds o
  | (Throw _, o') => fds o' = fds o
  end.

(** [m] runs with the descriptor [fd] open besides [B], and keeps it ([Ok]) or
    closes it ([Throw]). *)
Definition keeps_fd {A} (fd : Z) (m : M A) : Prop := forall o B,
  fd ∉ B -> fds o = {[fd]} ∪ B ->
  match m o with
  | (Ok _, o') => fds o' = {[fd]} ∪ B
  | (Throw _, o') => fds o' = B
  end.

Lemma fd_bind {A B} fd (m : M A) (k : A -> M B) :
  keeps_fd fd m -> (forall a, keeps_fd fd (k a)) -> keeps_fd fd (let* a := m in k a).
Proof.
  intros Hm Hk o D Hn Ho. unfold bind. specialize (Hm o D Hn Ho).
  destruct (m o) as [[a|e] o1]; [|done]. exact (Hk a o1 D Hn Hm).
Qed.
Lemma fd_ret {A} fd (a : A) : keeps_fd fd (ret a).
Proof. by intros o B Hn Ho. Qed.
Lemma fd_lift {A} fd (f : O -> A * O) : (forall o, fds (f o).2 = fds o) -> keeps_fd fd (lift f).
Proof. intros Hf o B Hn Ho. unfold lift. specialize (Hf o). destruct (f o). simpl in *. congruence. Qed.
Lemma fd_modify fd (f : O -> O) : (forall o, fds (f o) = fds o) -> keeps_fd fd (modify f).
Proof. intros Hf o B Hn Ho. simpl. by rewrite Hf. Qed.
Lemma fd_gets {A} fd (f : O -> A) : keeps_fd fd (gets f).
Proof. by intros o B Hn Ho. Qed.
Lemma keeps_fd_set fd : fd < FD_SETSIZE -> keeps_fd fd (fd_set fd).
Proof. intros Hlt. unfold fd_set. rewrite (proj2 (Z.ltb_lt _ _) Hlt). apply fd_ret. Qed.

(** Closing and throwing. *)
Lemma fd_close {A} fd (k : Z -> M A) :
  0 <= fd -> (forall z o, exists e, k z o = (Throw e, o)) -> keeps_fd fd (let* z := closeFd fd in k z).
Proof.
  intros Hfd Hk o B Hn Ho. unfold closeFd. rewrite (proj2 (Z.leb_le _ _) Hfd). cbn.
  destruct (Hk (-1) (os_close fd o)) as [e ->]. rewrite close_fds, Ho. set_solver.
Qed.

(** A function that opens a descriptor and goes on with it. *)
Lemma opens_balanced {A} (f : O -> Z * O) (e : string) (k : Z -> M A) (own : A -> gset Z) :
  (forall o fd o', f o = (fd, o') ->
     if decide (fd < 0) then (fds o' = fds o)
     else (fd ∉ fds o) /\ fd < FD_SETSIZE /\ fds o' = {[fd]} ∪ fds o) ->
  (forall fd, 0 <= fd < FD_SETSIZE -> keeps_fd fd (k fd)) ->
  (forall fd o a o', k fd o = (Ok a, o') -> own a = {[fd]}) ->
  balanced (let* fd := lift f in if fd <? 0 then raise e else k fd) own.
Proof.
  intros Hf Hk Hown o. unfold bind, lift. destruct (f o) as [fd o1] eqn:E. specialize (Hf _ _ _ E).
  destruct (Z.ltb_spec fd 0) as [Hlt|Hge].
  - by rewrite decide_True in Hf by done.
  - rewrite decide_False in Hf by lia. destruct Hf as (Hn & Hs & Ho).
    specialize (Hk fd (conj Hge Hs) o1 (fds o) Hn Ho). destruct (k fd o1) as [[a|x] o2] eqn:Ek; [|done].
    rewrite (Hown _ _ _ _ Ek). split; [set_solver|done].
Qed.
End descriptors.

Create HintDb squid_fds.
#[export] Hint Resolve fd_ret fd_lift fd_modify fd_gets keeps_fd_set : squid_fds.
#[export] Hint Resolve reuseaddr_fds bind_fds listen_fds select_fds nonblock_fds connect_fds sockerr_fds timeouts_fds : squid_fds.

(** A path that keeps the descriptor or closes it and throws. *)
Ltac keep_fd :=
  repeat first
    [ apply fd_close; [lia|by intros; eexists]
    | apply fd_bind; [|intros ?]
    | case_match
    | progress eauto with squid_fds
    | apply fd_lift; intros ?; apply select_fds ].

(** What a path that returns has returned. *)
Ltac returned := intros *; unfold bind, lift, gets, modify, closeFd, raise, ret; intros; by repeat (case_match; simplify_eq/=).

Section balance.
Context {O : Type} `{SocketLaws O}.
Local Abbreviation M A := (SE O A).

Definition connector_fd (c : Connector) : gset Z := {[socketFd_ c]}.
Definition opt_fds (c : option Connector) : gset Z := from_option connector_fd ∅ c.
Definition accepted_fds (a : option AcceptedConnection) : gset Z := opt_fds (a ≫= acceptedChannel).

Lemma newListener_balanced port backlog : balanced (newListener port backlog) (fun l => {[listenFd_ l]}).
Proof.
  unfold newListener. apply opens_balanced; [apply socket_fds| |returned].
  intros fd [Hlo Hhi]. keep_fd.
Qed.

Lemma awaitConnect_keeps fd n : 0 <= fd < FD_SETSIZE -> keeps_fd fd (awaitConnect fd n).
Proof. intros [Hlo Hhi]. unfold awaitConnect. keep_fd. Qed.

Lemma newConnector_balanced host port n : balanced (newConnector host port n) connector_fd.
Proof.
  unfold newConnector. case_match; [by intros o|]. apply opens_balanced; [apply socket_fds| |returned].
  intros fd [Hlo Hhi]. pose proof (awaitConnect_keeps fd n). keep_fd.
Qed.

Lemma balanced_none {A} (m : M (option A)) (own : option A -> gset Z) :
  own None = ∅ -> (forall o, exists o', m o = (Ok None, o') /\ fds o' = fds o) -> balanced m own.
Proof. intros Hn Hm o. destruct (Hm o) as (o' & -> & ->). rewrite Hn. set_solver. Qed.

Lemma accept_balanced l : balanced (acceptConnection l) (fun a => opt_fds (acceptedChannel a)).
Proof.
  intros o. unfold acceptConnection. destruct (negb (listener_isOpen l)); [cbn; set_solver|].
  unfold bind, lift. destruct (os_accept (listenFd_ l) o) as [[[fd ip] port] o1] eqn:E.
  pose proof (accept_fds _ _ _ _ _ _ E) as Ha. destruct (Z.ltb_spec fd 0).
  - rewrite decide_True in Ha by done. cbn. set_solver.
  - rewrite decide_False in Ha by lia. destruct Ha as (Hn & _ & Ho). cbn. unfold connector_fd. cbn. set_solver.
Qed.

Lemma wait_balanced l n : listenFd_ l < FD_SETSIZE -> balanced (waitForConnection l n) accepted_fds.
Proof.
  intros Hlt. unfold waitForConnection. destruct (negb (listener_isOpen l)); [intros o; cbn; set_solver|].
  intros o. unfold fd_set. rewrite (proj2 (Z.ltb_lt _ _) Hlt). unfold bind, lift, ret.
  pose proof (select_fds (listenFd_ l) n o) as Hs. destruct (os_select (listenFd_ l) n o) as [[ready isset] o1].
  cbn in Hs. destruct (ready <? 0); [cbn; set_solver|]. destruct (ready =? 0); [cbn; set_solver|].
  destruct (negb isset); [cbn; set_solver|]. pose proof (accept_balanced l o1) as Ha.
  destruct (acceptConnection l o1) as [[a|e] o2]; [|congruence].
  unfold accepted_fds. destruct (acceptedChannel a) eqn:E; cbn in *; rewrite ?E; set_solver.
Qed.

Lemma newConnector_open ip port n (o o' : O) c : newConnector ip port n o = (Ok c, o') -> connector_isOpen c = true.
Proof.
  unfold newConnector, bind, lift, gets, modify, closeFd, raise, ret, connector_isOpen. intros E.
  repeat (case_match; simplify_eq/=); lia.
Qed.

Lemma tryConnectChannel_balanced ip port n : balanced (tryConnectChannel ip port n) opt_fds.
Proof.
  intros o. unfold tryConnectChannel. pose proof (newConnector_balanced ip port n o) as Hc.
  destruct (newConnector ip port n o) as [[ch|e] o1] eqn:E; [|cbn; set_solver].
  by rewrite (newConnector_open _ _ _ _ _ _ E).
Qed.

Lemma tryConnect_balanced ip port k : balanced (tryConnect ip port k) opt_fds.
Proof.
  induction k as [|k IH]; intros o; [cbn; set_solver|]. cbn [tryConnect]. unfold bind.
  pose proof (tryConnectChannel_balanced ip port 1 o) as Hc.
  destruct (tryConnectChannel ip port 1 o) as [[[ch|]|e] o1]; [exact Hc| |done].
  destruct Hc as [_ Hc]. cbn in Hc. rewrite union_empty_l_L in Hc. specialize (IH o1). by rewrite Hc in IH.
Qed.

(** The life of a listener: it is opened, asked [n] times for a connection,
    and closed. *)
Fixpoint acceptLoop (l : Listener) (n : nat) : M (list AcceptedConnection) :=
  match n with
  | 0%nat => ret []
  | S n =>
      let* a := waitForConnection l 1 in
      let* rest := acceptLoop l n in
      ret (match a with Some a => a :: rest | None => rest end)
  end.
Definition listen (port backlog : Z) (n : nat) : M (list AcceptedConnection) :=
  let* l := newListener port backlog in
  let* conns := acceptLoop l n in
  do* listener_close l in
  ret conns.

Definition conn_fds (conns : list AcceptedConnection) : gset Z := ⋃ (map (fun a => opt_fds (acceptedChannel a)) conns).

Lemma wait_returns l n o : listenFd_ l < FD_SETSIZE -> exists a o', waitForConnection l n o = (Ok a, o').
Proof.
  intros Hl. unfold waitForConnection, acceptConnection, fd_set. rewrite (proj2 (Z.ltb_lt _ _) Hl).
  unfold bind, lift, ret. repeat case_match; simplify_eq/=; eauto.
Qed.

Lemma acceptLoop_balanced l n : listenFd_ l < FD_SETSIZE -> forall o,
  exists conns o', acceptLoop l n o = (Ok conns, o') /\ conn_fds conns ## fds o /\ fds o' = conn_fds conns ∪ fds o.
Proof.
  intros Hl. induction n as [|n IH]; intros o; [exists [], o; cbn; set_solver|].
  cbn [acceptLoop]. unfold bind. pose proof (wait_balanced l 1 Hl o) as Hw.
  destruct (wait_returns l 1 o Hl) as (a & o1 & E). rewrite E in *. destruct Hw as [Hd Ho].
  destruct (IH o1) as (conns & o2 & -> & Hd2 & Ho2). unfold ret.
  destruct a as [a|]; eexists _, _; (split; [reflexivity|]); unfold accepted_fds, conn_fds in *; cbn in *; set_solver.
Qed.

Lemma newListener_small port backlog (o o' : O) l : newListener port backlog o = (Ok l, o') ->
  0 <= listenFd_ l < FD_SETSIZE.
Proof.
  unfold newListener, bind, lift, gets, modify, closeFd, raise, ret. intros E.
  destruct (os_socket o) as [fd o1] eqn:Es. pose proof (socket_fds _ _ _ Es) as Hs.
  repeat (case_match; simplify_eq/=); try lia.
Qed.

Lemma listen_balanced port backlog n : balanced (listen port backlog n) conn_fds.
Proof.
  intros o. unfold listen, bind. pose proof (newListener_balanced port backlog o) as Hn.
  destruct (newListener port backlog o) as [[l|e] o1] eqn:E; [|done]. destruct Hn as [Hd Ho].
  pose proof (newListener_small _ _ _ _ _ E) as [Hlo Hhi].
  destruct (acceptLoop_balanced l n Hhi o1) as (conns & o2 & -> & Hd2 & Ho2).
  unfold listener_close, closeFd. rewrite (proj2 (Z.leb_le _ _) Hlo). cbn.
  rewrite close_fds, Ho2, Ho. rewrite Ho in Hd2. split; set_solver.
Qed.
End balance.

(** No descriptor is lost or closed twice, whatever the socket calls answer:
    opening a listener, taking any number of connections from it and closing
    it leaves open, besides what was open before, exactly the descriptors of
    the connections that were returned, and a listener that cannot be opened
    leaves none; connecting to a server leaves the descriptor of the channel
    it returns, and none when it returns no channel, over any number of
    attempts; a channel that is closed gives its descriptor back. *)
Theorem descriptors_balance {O} `{SocketLaws O} :
  (forall port backlog n, balanced (O := O) (listen port backlog n) conn_fds)
  /\ (forall ip port attempts, balanced (O := O) (tryConnect ip port attempts) opt_fds)
  /\ (forall ip port timeout, balanced (O := O) (tryConnectChannel ip port timeout) opt_fds)
  /\ (forall c (o : O), 0 <= socketFd_ c ->
        connector_close c o = (Ok (mkConnector (-1)), os_close (socketFd_ c) o)
        /\ fds (os_close (socketFd_ c) o) = fds o ∖ connector_fd c).
Proof.
  split; [exact listen_balanced|]. split; [exact tryConnect_balanced|].
  split; [exact tryConnectChannel_balanced|]. intros c o Hc.
  unfold connector_close, closeFd. rewrite (proj2 (Z.leb_le _ _) Hc). split; [done|]. apply close_fds.
Qed.

(** An operating system that answers from a script: the descriptors that are
    open, the answers to come and the last error. *)
Record Script : Type := mkScript {
  open_fds : gset Z;
  answers : list Z;
  last_error : Z }.

(** The lowest number that is not open, from 3 on; a negative one when there
    is none or when the script says so. *)
Definition next_fd (s : gset Z) : Z :=
  default (-1) (List.find (fun fd => bool_decide (fd ∉ s)) (Z.of_nat <$> List.seq 3 1021)).

Definition answer (s : Script) : Z * Script :=
  match answers s with
  | [] => (0, s)
  | a :: rest => (a, mkScript (open_fds s) rest (if a <? 0 then - a else last_error s))
  end.
Definition opening (s : Script) : Z * Script :=
  let '(a, s) := answer s in
  let fd := next_fd (open_fds s) in
  if a <? 0 then (-1, s)
  else if fd <? 0 then (-1, s)
  else (fd, mkScript ({[fd]} ∪ open_fds s) (answers s) (last_error s)).

#[export] Instance Script_sockets : Sockets Script := {
  inet_pton host := if decide (host = "") then 0 else 1;
  strerror e := to_string e;
  errno := last_error;
  os_socket := opening;
  os_reuseaddr _ := answer;
  os_bind _ _ := answer;
  os_listen _ _ := answer;
  os_accept _ s := let '(fd, s) := opening s in (fd, Some "10.0.0.9", 4000, s);
  os_select _ _ s := let '(a, s) := answer s in (a, 0 <? a, s);
  os_nonblock _ _ s := s;
  os_connect _ _ _ := answer;
  os_sockerr _ := answer;
  os_timeouts _ _ s := s;
  os_recv _ _ s := (0, [], s);
  os_send _ bs s := (Z.of_nat (length bs), s);
  os_close fd s := mkScript (open_fds s ∖ {[fd]}) (answers s) (last_error s) }.

Lemma next_fd_fresh s : 0 <= next_fd s -> next_fd s < FD_SETSIZE /\ next_fd s ∉ s.
Proof.
  unfold next_fd. destruct (List.find _ _) as [fd|] eqn:E; [|simpl; lia]. simpl. intros _.
  apply List.find_some in E as [Hin Hn]. apply bool_decide_eq_true in Hn. split; [|done].
  apply list_elem_of_In, list_elem_of_fmap in Hin as (k & -> & Hk). apply list_elem_of_In, in_seq in Hk.
  unfold FD_SETSIZE. lia.
Qed.
Lemma answer_open s : open_fds (answer s).2 = open_fds s.
Proof. unfold answer. by destruct (answers s). Qed.
Lemma opening_fds s fd s' : opening s = (fd, s') ->
  if decide (fd < 0) then open_fds s' = open_fds s
  else (fd ∉ open_fds s) /\ fd < FD_SETSIZE /\ open_fds s' = {[fd]} ∪ open_fds s.
Proof.
  unfold opening. pose proof (answer_open s) as Ha. destruct (answer s) as [a s1]. simpl in Ha.
  destruct (a <? 0); [intros [= <- <-]; by rewrite decide_True by lia|].
  destruct (Z.ltb_spec (next_fd (open_fds s1)) 0); intros [= <- <-]; [by rewrite decide_True by lia|].
  rewrite decide_False by lia. destruct (next_fd_fresh (open_fds s1)) as [Hlt Hn]; [done|].
  rewrite <- Ha. done.
Qed.

#[export] Program Instance Script_laws : SocketLaws Script := { fds := open_fds }.
Next Obligation. exact opening_fds. Qed.
Next Obligation.
  simpl. intros l s fd ip port s'. destruct (opening s) as [fd' s1] eqn:E. intros [= <- <- <- <-]. by apply opening_fds.
Qed.
Next Obligation. done. Qed.
Next Obligation. intros. apply answer_open. Qed.
Next Obligation. intros. apply answer_open. Qed.
Next Obligation. intros. apply answer_open. Qed.
Next Obligation.
  simpl. intros _ _ s. pose proof (answer_open s). by destruct (answer s).
Qed.
Next Obligation. done. Qed.
Next Obligation. intros. apply answer_open. Qed.
Next Obligation. intros. apply answer_open. Qed.
Next Obligation. done. Qed.

(** A listener that takes one of two connections, on a machine where 0 to 2
    are open, and a connection attempt that is refused, then one that is not. *)
Definition demo_net (script : list Z) : Script := mkScript {[0; 1; 2]} script 0.
Definition demo_accepts : result (list AcceptedConnection) * Script :=
  listen 9000 3 2 (demo_net [0; 0; 0; 0; 1; 0; 0]).
Definition demo_connects : result (option Connector) * Script :=
  tryConnect "10.0.0.1" 9000 2 (demo_net [0; -111; 0; 0; 0; 0]).

Lemma descriptors_balance_witness :
  (exists c, demo_accepts.1 = Ok [c] /\ open_fds demo_accepts.2 = conn_fds [c] ∪ {[0; 1; 2]})
  /\ (exists c, demo_connects.1 = Ok (Some c) /\ open_fds demo_connects.2 = connector_fd c ∪ {[0; 1; 2]}).
Proof.
  destruct (descriptors_balance (O := Script)) as (Hl & Ht & _ & _). split.
  - specialize (Hl 9000 3 2%nat (demo_net [0; 0; 0; 0; 1; 0; 0])).
    assert (exists c, demo_accepts.1 = Ok [c]) as [c Hc] by (eexists; vm_compute; reflexivity).
    exists c. split; [exact Hc|]. fold demo_accepts in Hl. destruct demo_accepts as [r o].
    cbn [fst snd] in *. rewrite Hc in Hl. exact (proj2 Hl).
  - specialize (Ht "10.0.0.1" 9000 2%nat (demo_net [0; -111; 0; 0; 0; 0])).
    assert (exists c, demo_connects.1 = Ok (Some c)) as [c Hc] by (eexists; vm_compute; reflexivity).
    exists c. split; [exact Hc|]. fold demo_connects in Ht. destruct demo_connects as [r o].
    cbn [fst snd] in *. rewrite Hc in Ht. exact (proj2 Ht).
Defined.
