(* ===== verification/Protocol.v ===== *)
(** * The protocol object of a connection

    Models [common/src/squidprotocol/squidprotocol.{hpp,cpp}]: sending and
    receiving frames over a channel, the sequence numbers and the reorder
    buffer, the requests a node makes ([createFile], [readFile], ...) and the
    dispatcher that answers them.  Generic in the channel. *)

From S2P Require Import Prelude Text Wire FileManager FileTransfer.

Definition MAX_PAYLOAD_SIZE : Z := 16 * 1024 * 1024.

Record SquidProtocol (C : Type) : Type := mkProtocol {
  alive : bool;
  processName : string;
  nodeType : string;
  channel : option C;
  nextSendSeq : Z;
  expectedRecvSeq : Z;
  lastDeliveredSeq : Z;
  reorderBuffer : gmap Z (list byte) }.
Arguments mkProtocol {C}.
Arguments alive {C}.
Arguments processName {C}.
Arguments nodeType {C}.
Arguments channel {C}.
Arguments nextSendSeq {C}.
Arguments expectedRecvSeq {C}.
Arguments lastDeliveredSeq {C}.
Arguments reorderBuffer {C}.

(** [SquidProtocol(fileManager, channel, nodeType, processName)]. *)
Definition newProtocol {C} (c : C) (nodeType processName : string) : SquidProtocol C :=
  mkProtocol true processName nodeType (Some c) 0 0 0 ∅.

Section protocol.
Context {C : Type} `{NetworkChannel C}.
Local Abbreviation P := (SquidProtocol C).
Implicit Types p : P.

Definition setIsAlive p (b : bool) : P :=
  mkProtocol b (processName p) (nodeType p) (channel p) (nextSendSeq p)
    (expectedRecvSeq p) (lastDeliveredSeq p) (reorderBuffer p).
Definition setChannel p (c : option C) : P :=
  mkProtocol (alive p) (processName p) (nodeType p) c (nextSendSeq p)
    (expectedRecvSeq p) (lastDeliveredSeq p) (reorderBuffer p).
Definition setNextSendSeq p (s : Z) : P :=
  mkProtocol (alive p) (processName p) (nodeType p) (channel p) s
    (expectedRecvSeq p) (lastDeliveredSeq p) (reorderBuffer p).
Definition setReorderBuffer p (b : gmap Z (list byte)) : P :=
  mkProtocol (alive p) (processName p) (nodeType p) (channel p) (nextSendSeq p)
    (expectedRecvSeq p) (lastDeliveredSeq p) b.
(** [lastDeliveredSeq_ = seq; ++expectedRecvSeq_]. *)
Definition deliver p (s : Z) : P :=
  mkProtocol (alive p) (processName p) (nodeType p) (channel p) (nextSendSeq p)
    (u32 (expectedRecvSeq p + 1)) s (reorderBuffer p).

(** The bytes still to come on the channel; they bound the reading loops. *)
Definition input p : list byte :=
  match channel p with Some c => inbound c | None => [] end.
Definition output p : list byte :=
  match channel p with Some c => outbound c | None => [] end.

Definition handleRecvError p (bytes : Z) : bool * P :=
  if (bytes =? 0) then (false, setIsAlive p false)
  else if (bytes <? 0) then (false, setIsAlive p false)
  else (true, p).

(** [recvExact(buf, n)]: the [n] bytes, or [None] for [false]. *)
Fixpoint recvExact_loop (fuel : nat) (n : Z) (buf : list byte) p : option (list byte) * P :=
  let total := Z.of_nat (length buf) in
  if (total <? n) then
    match channel p with
    | None => (None, p)
    | Some c =>
        match fuel with
        | O => (None, p)
        | S fuel =>
            let '(r, bs, c) := readBytes (n - total) c in
            let '(ok, p) := handleRecvError (setChannel p (Some c)) r in
            if ok then recvExact_loop fuel n (buf ++ bs) p else (None, p)
        end
    end
  else (Some buf, p).
Definition recvExact (n : Z) p : option (list byte) * P :=
  recvExact_loop (S (length (input p))) n [] p.

(** The write loop of [sendFrame]; at least one byte goes out per round. *)
Fixpoint sendFrame_loop (fuel : nat) (rest : list byte) p : P :=
  match rest with
  | [] => p
  | _ =>
      match channel p with
      | None => setIsAlive p false
      | Some c =>
          match fuel with
          | O => setIsAlive p false
          | S fuel =>
              let '(sent, c) := writeBytes rest c in
              let p := setChannel p (Some c) in
              if (sent <=? 0) then setIsAlive p false
              else sendFrame_loop fuel (drop (Z.to_nat sent) rest) p
          end
      end
  end.
Definition sendFrame (frame : list byte) p : P :=
  let frame := stampSeq frame (nextSendSeq p) in
  let p := setNextSendSeq p (u32 (nextSendSeq p + 1)) in
  sendFrame_loop (length frame) frame p.

(** The field loop of [receiveFrame]. *)
Fixpoint receiveFields (numFields : nat) (frame : list byte) p : option (list byte) * P :=
  match numFields with
  | O => (Some frame, p)
  | S numFields =>
      let '(fhdr, p) := recvExact 3 p in
      match fhdr with
      | None => (None, p)
      | Some fhdr =>
          let vlen := readU16 (drop 1 fhdr) in
          let frame := frame ++ fhdr in
          if (0 <? vlen) then
            let '(v, p) := recvExact vlen p in
            match v with
            | None => (None, p)
            | Some v => receiveFields numFields (frame ++ v) p
            end
          else receiveFields numFields frame p
      end
  end.

(** [receiveFrame]: the empty vector on any failure. *)
Definition receiveFrame p : list byte * P :=
  let '(header, p) := recvExact (Z.of_nat FRAME_HEADER_SIZE) p in
  match header with
  | None => ([], p)
  | Some header =>
      if negb (readU16 header =? SQUID_MAGIC) then ([], setIsAlive p false)
      else
        let numFields := at_ header 4 in
        let plen := readU32 (drop 9 header) in
        let '(frame, p) := receiveFields (Z.to_nat numFields) header p in
        match frame with
        | None => ([], p)
        | Some frame =>
            if (MAX_PAYLOAD_SIZE <? plen) then ([], setIsAlive p false)
            else if (0 <? plen) then
              let '(payload, p) := recvExact plen p in
              match payload with
              | None => ([], p)
              | Some payload => (frame ++ payload, p)
              end
            else (frame, p)
        end
  end.

Definition popNextBuffered p : option (list byte) * P :=
  match reorderBuffer p !! expectedRecvSeq p with
  | None => (None, p)
  | Some frame =>
      (Some frame, setReorderBuffer p (delete (expectedRecvSeq p) (reorderBuffer p)))
  end.

(** [emplace]: keeps the entry that is already there. *)
Definition emplace (s : Z) (raw : list byte) p : P :=
  match reorderBuffer p !! s with
  | Some _ => p
  | None => setReorderBuffer p (<[s := raw]> (reorderBuffer p))
  end.

(** The loop of [receiveAndParse]; [None] when the fuel runs out. *)
Fixpoint receiveAndParse_loop (fuel : nat) p : option (Message * P) :=
  match fuel with
  | O => None
  | S fuel =>
      let '(buffered, p) := popNextBuffered p in
      let '(raw, p) := match buffered with
                       | Some raw => (raw, p)
                       | None => receiveFrame p
                       end in
      match raw with
      | [] => Some (makeNack, p)
      | _ =>
          match parseMessage raw with
          | Throw _ => Some (makeNack, p)
          | Ok msg =>
              if (seq msg =? expectedRecvSeq p) then Some (msg, deliver p (seq msg))
              else if (expectedRecvSeq p <? seq msg)
              then receiveAndParse_loop fuel (emplace (seq msg) raw p)
              else receiveAndParse_loop fuel p
          end
      end
  end.
(** Every round but the last consumes a frame of the input. *)
Definition receiveAndParse p : Message * P :=
  match receiveAndParse_loop (S (length (input p))) p with
  | Some r => r
  | None => (makeNack, p)
  end.

(** ** Requests: the state threaded, exceptions of the formatter escaping *)

Definition M (A : Type) : Type := SE P A.

(** [sendFrame(formatter_.xxxFormat(...))]. *)
Definition send (fmt : result (list byte)) : M unit := fun p =>
  match fmt with
  | Throw e => (Throw e, p)
  | Ok frame => (Ok tt, sendFrame frame p)
  end.
Definition receive : M Message := lift receiveAndParse.
End protocol.
Arguments M C A : clear implicits.

Section requests.
Context {C : Type} `{NetworkChannel C}.
Local Abbreviation P := (SquidProtocol C).
Implicit Types p : P.

(** Running a transfer on the channel of the protocol, [false] without one. *)
Definition onChannel (f : C -> bool * C) : M C bool := fun p =>
  match channel p with
  | None => (Ok false, p)
  | Some c => let '(ok, c) := f c in (Ok ok, setChannel p (Some c))
  end.

Definition sendFileData (fileData : list byte) : M C bool := onChannel (sendFile fileData).
Definition receiveFileData : M C (bool * list byte) := fun p =>
  match channel p with
  | None => (Ok (false, []), p)
  | Some c => let '(ok, data, c) := receiveFile c in (Ok (ok, data), setChannel p (Some c))
  end.

Definition sendFileAfterAck (fileData : list byte) (ackMsg : Message) : M C bool :=
  if negb (isAck ackMsg) then ret false else sendFileData fileData.
Definition sendFileAfterAckPath (d : Disk) (filePath : string) (ackMsg : Message) : M C bool :=
  if negb (isAck ackMsg) then ret false else onChannel (sendFilePath d filePath).
Definition receiveFileAfterAck (ackMsg : Message) : M C (bool * list byte) :=
  if negb (isAck ackMsg) then ret (false, []) else receiveFileData.

Definition identify : M C Message := do* send identifyFormat in receive.
Definition connectServer : M C Message := do* send connectServerFormat in receive.
Definition closeConn : M C Message :=
  do* send closeFormat in
  do* modify (fun p => setChannel (setIsAlive p false) (close <$> channel p)) in
  ret makeAck.

Definition deleteFile (filePath : string) : M C Message :=
  do* send (deleteFileFormat filePath) in receive.
Definition acquireLock (filePath : string) : M C Message :=
  do* send (acquireLockFormat filePath) in receive.
Definition releaseLock (filePath : string) : M C Message :=
  do* send (releaseLockFormat filePath) in receive.
Definition heartbeat : M C Message := do* send heartbeatFormat in receive.

(** The common shape of the uploads: request, acknowledgement, data, result
    ([waitForAck], [sendFileAfterAck], [waitForTransferResult]). *)
Definition upload (request : result (list byte)) (transfer : Message -> M C bool) : M C Message :=
  do* send request in
  let* ack := receive in
  if negb (isAck ack) then ret ack
  else
    let* ok := transfer ack in
    if negb ok then ret makeNack else receive.

Definition createFile (d : Disk) (filePath : string) : M C Message :=
  upload (createFileFormat filePath) (sendFileAfterAckPath d filePath).
Definition createFileV (d : Disk) (filePath : string) (version : Z) : M C Message :=
  upload (createFileFormatV filePath version) (sendFileAfterAckPath d filePath).
Definition createFileData (filePath : string) (version : Z) (fileData : list byte) : M C Message :=
  upload (createFileFormatV filePath version) (sendFileAfterAck fileData).
Definition updateFile (d : Disk) (filePath : string) : M C Message :=
  upload (updateFileFormat filePath) (sendFileAfterAckPath d filePath).
Definition updateFileV (d : Disk) (filePath : string) (version : Z) : M C Message :=
  upload (updateFileFormatV filePath version) (sendFileAfterAckPath d filePath).
Definition updateFileData (filePath : string) (version : Z) (fileData : list byte) : M C Message :=
  upload (updateFileFormatV filePath version) (sendFileAfterAck fileData).

(** [readFile(filePath, fileData)] with [fileData] empty before the call. *)
Definition readFile (filePath : string) : M C (Message * list byte) :=
  do* send (readFileFormat filePath) in
  let* ack := receive in
  if negb (isAck ack) then ret (ack, [])
  else
    let* r := receiveFileAfterAck ack in
    if negb r.1 then ret (makeNack, r.2)
    else let* result := receive in ret (result, r.2).

(** ** Pushes and standby replication: no answer awaited *)

Definition pushCreateFile (filePath : string) (version : Z) (fileData : list byte) : M C unit :=
  do* send (pushCreateFileFormat filePath version) in
  do* sendFileData fileData in ret tt.
Definition pushUpdateFile (filePath : string) (version : Z) (fileData : list byte) : M C unit :=
  do* send (pushUpdateFileFormat filePath version) in
  do* sendFileData fileData in ret tt.
Definition pushDeleteFile (filePath : string) : M C unit := send (pushDeleteFileFormat filePath).

Definition sendStateSnap (versionMap : gmap string Z) (repMap : gmap string (gset string))
    (epoch : Z) : M C unit := send (stateSnapFormat versionMap repMap epoch).
Definition sendStateDelta (op : Z) (filePath : string) (version : Z)
    (datanodes : list string) (epoch : Z) : M C unit :=
  send (stateDeltaFormat op filePath version datanodes epoch).
Definition sendLeaderHb (epoch : Z) : M C unit := send (leaderHbFormat epoch).
Definition sendNackStaleEpoch (myEpoch : Z) : M C unit := send (nackStaleEpochFormat myEpoch).

(** ** Responses *)

Definition response (isAck : bool) : M C unit := send (responseAck isAck).
Definition responseV (isAck : bool) (version : Z) : M C unit :=
  send (responseAckWithVersion isAck version).
Definition responseOfPort (port : Z) : M C unit := send (responsePort port).
Definition responseText (ack : string) : M C unit := send (responseFormatText ack).
Definition responseOfIdentity (nodeType processName : string) : M C unit :=
  send (responseIdentity nodeType processName).
Definition responseMap (fileVersionMap : gmap string Z) : M C unit :=
  send (responseFileVersionMap fileVersionMap).
Definition responseTimes {T} (times : gmap string T) : M C unit := send (responseFormatTimes times).

(** [syncStatus]: pushes and heartbeats that come before the answer are
    consumed.  Every round reads a frame. *)
Fixpoint syncStatus_loop (fuel : nat) : M C Message :=
  match fuel with
  | O => ret makeNack
  | S fuel =>
      let* msg := receive in
      if isResponse msg || isAck msg then ret msg
      else match opcode msg with
           | PUSH_CREATE_FILE | PUSH_UPDATE_FILE =>
               do* receiveFileData in syncStatus_loop fuel
           | PUSH_DELETE_FILE => syncStatus_loop fuel
           | HEARTBEAT => do* response true in syncStatus_loop fuel
           | _ => do* modify (fun p => setIsAlive p false) in ret msg
           end
  end.
Definition syncStatus : M C Message :=
  do* send syncStatusFormat in fun p => syncStatus_loop (S (length (input p))) p.

(** ** [requestDispatcher] *)

(** [receiveFile] to [path] on the channel, [false] without one. *)
Definition receiveToDisk (d : Disk) (path : string) : M C (bool * Disk) := fun p =>
  match channel p with
  | None => (Ok (false, d), p)
  | Some c => let '(ok, d, c) := receiveFilePath d path c in (Ok (ok, d), setChannel p (Some c))
  end.

(** The disk is the argument and the result: a change of it comes before the
    response.  Of the responses here only those with a version map or a name
    can throw (a frame that is too large), and those branches change no file. *)
Definition requestDispatcher (message : Message) (d : Disk) : M C Disk :=
  let path := getString message FILE_PATH "" in
  let version := i32 (getUint32 message FILE_VERSION 0) in
  match opcode message with
  | CREATE_FILE =>
      do* response true in
      let* r := receiveToDisk d path in
      if (r.1 : bool) then let d := setFileVersion r.2 path version in do* response true in ret d
      else do* response false in ret r.2
  | READ_FILE =>
      do* response true in
      let* ok := onChannel (sendFilePath d path) in
      if ok then do* responseV true (getFileVersion d path) in ret d
      else do* response false in ret d
  | UPDATE_FILE =>
      do* response true in
      let* r := receiveToDisk d path in
      if (r.1 : bool) then let d := setFileVersion r.2 path version in do* responseV true version in ret d
      else do* response false in ret r.2
  | DELETE_FILE =>
      let d := (deleteFileAndVersion d path).2 in do* response true in ret d
  | ACQUIRE_LOCK => do* response false in ret d
  | RELEASE_LOCK => do* response true in ret d
  | HEARTBEAT => do* response true in ret d
  | SYNC_STATUS => do* responseMap (FileManager.getFileVersionMap d) in ret d
  | IDENTIFY => fun p => (do* responseOfIdentity (nodeType p) (processName p) in ret d) p
  | CONNECT_SERVER => do* response false in ret d
  | CLOSE =>
      do* response true in
      do* modify (fun p => setChannel (setIsAlive p false) (close <$> channel p)) in ret d
  | RESPONSE => do* modify (fun p => setIsAlive p false) in ret d
  | _ => ret d
  end.

Definition responseDispatcher (message : Message) (d : Disk) : M C Disk :=
  match opcode message with
  | PUSH_CREATE_FILE | PUSH_UPDATE_FILE | PUSH_DELETE_FILE => ret d
  | _ => requestDispatcher message d
  end.
End requests.

(** ** Reading from a byte stream *)

Section reading.
Context {C : Type} `{StreamChannel C}.
Local Abbreviation P := (SquidProtocol C).
Implicit Types p : P.

Definition can_write p : Prop :=
  match channel p with Some c => writable c | None => False end.

(** [p'] is [p] after reading [bs]: nothing else of the conversation moves. *)
Record rx p p' (bs : list byte) : Prop := mkRx {
  rx_input : input p = bs ++ input p';
  rx_output : output p' = output p;
  rx_channel : channel p <> None -> channel p' <> None;
  rx_writable : can_write p -> can_write p';
  rx_next : nextSendSeq p' = nextSendSeq p;
  rx_expected : expectedRecvSeq p' = expectedRecvSeq p;
  rx_buffer : reorderBuffer p' = reorderBuffer p;
  rx_process : processName p' = processName p;
  rx_node : nodeType p' = nodeType p }.

Lemma rx_refl p : rx p p [].
Proof. by constructor. Qed.

Lemma rx_trans p1 p2 p3 bs1 bs2 : rx p1 p2 bs1 -> rx p2 p3 bs2 -> rx p1 p3 (bs1 ++ bs2).
Proof.
  intros [] []. constructor; try congruence; [|auto..].
  rewrite <-app_assoc. congruence.
Qed.

Lemma rx_alive p p' bs b : rx p p' bs -> rx p (setIsAlive p' b) bs.
Proof. intros []. by constructor. Qed.

Lemma rx_length p p' bs : rx p p' bs -> length (input p) = (length bs + length (input p'))%nat.
Proof. intros []. by rewrite <-length_app, <-rx_input0. Qed.

(** A failed read: whatever was read, the connection is dead. *)
Definition rx_failure p (p' : P) : Prop :=
  (exists bs, rx p p' bs) /\ (channel p <> None -> alive p' = false).

Lemma recvExact_loop_spec fuel n buf p :
  Z.of_nat (length buf) <= n -> (length (input p) < fuel)%nat ->
  exists r p', recvExact_loop fuel n buf p = (r, p')
    /\ match r with
       | Some all => exists bs, all = buf ++ bs /\ Z.of_nat (length all) = n
                                /\ rx p p' bs /\ alive p' = alive p
       | None => Z.of_nat (length buf + length (input p)) < n /\ rx_failure p p'
       end.
Proof.
  revert buf p. induction fuel as [|fuel IH]; intros buf p Hn Hf; [lia|].
  cbn [recvExact_loop]. destruct (Z.ltb_spec (Z.of_nat (length buf)) n) as [Hlt|Hge].
  2: { exists (Some buf), p. split; [done|]. exists []. rewrite app_nil_r.
       split; [done|]. split; [lia|]. split; [apply rx_refl|done]. }
  unfold input in Hf |- *. destruct (channel p) as [c|] eqn:Hc.
  2: { exists None, p. simpl. split; [done|]. split; [lia|]. split; [exists []; apply rx_refl|congruence]. }
  assert (0 < n - Z.of_nat (length buf)) as Hpos by lia.
  destruct (readBytes (n - Z.of_nat (length buf)) c) as [[k bs] c1] eqn:Hr.
  destruct (read_keeps _ _ _ _ _ Hr) as [Hout Hw].
  unfold handleRecvError. destruct (Z.eqb_spec k 0) as [Hk0|Hk0];
    [|destruct (Z.ltb_spec k 0) as [Hk1|Hk1]].
  1,2: destruct (read_stop _ _ _ _ _ Hpos Hr ltac:(lia)) as [He He'];
    eexists None, _; split; [done|]; rewrite He; simpl; split; [lia|split; [|done]];
    exists []; constructor; unfold input, output, can_write; simpl; rewrite ?Hc; try done;
    by rewrite He, He'.
  destruct (read_data _ _ _ _ _ Hpos Hr ltac:(lia)) as (Hle & Hlb & Hsplit).
  assert (rx p (setChannel p (Some c1)) bs) as Hrx.
  { constructor; unfold input, output, can_write; simpl; by rewrite ?Hc. }
  pose proof (rx_length _ _ _ Hrx) as Hlen. unfold input in Hlen. rewrite Hc in Hlen. simpl in Hlen.
  destruct (IH (buf ++ bs) (setChannel p (Some c1))) as (r & p' & Hs & Hres);
    [rewrite length_app; lia|unfold input; simpl; lia|].
  exists r, p'. split; [done|]. destruct r as [all|].
  - destruct Hres as (bs' & -> & Hlen' & Hrx' & Hal). exists (bs ++ bs').
    rewrite app_assoc. split; [done|]. split; [done|]. split; [by eapply rx_trans|done].
  - destruct Hres as [Hshort [[bs' Hrx'] Hal]]. unfold input in Hshort. simpl in Hshort.
    rewrite length_app in Hshort. split; [lia|].
    split; [eexists; by eapply rx_trans|]. intros _. by apply Hal.
Qed.

Lemma recvExact_spec n p : 0 <= n ->
  exists r p', recvExact n p = (r, p')
    /\ match r with
       | Some bs => Z.of_nat (length bs) = n /\ rx p p' bs /\ alive p' = alive p
       | None => Z.of_nat (length (input p)) < n /\ rx_failure p p'
       end.
Proof.
  intros Hn. destruct (recvExact_loop_spec (S (length (input p))) n [] p) as (r & p' & Hs & Hr);
    [done|lia|].
  exists r, p'. split; [done|]. destruct r; [|done]. by destruct Hr as (bs & -> & ? & ? & ?).
Qed.

Lemma rx_failure_trans p1 p2 p3 bs :
  rx p1 p2 bs -> rx_failure p2 p3 -> rx_failure p1 p3.
Proof.
  intros Hrx [[bs' Hrx'] Hdead]. split; [eexists; by eapply rx_trans|].
  intros Hch. by apply Hdead, (rx_channel _ _ _ Hrx).
Qed.

Lemma recvExact_0 p : recvExact 0 p = (Some [], p).
Proof. done. Qed.

Lemma receiveFields_S nf frame p :
  receiveFields (S nf) frame p =
    let '(fhdr, p) := recvExact 3 p in
    match fhdr with
    | None => (None, p)
    | Some fhdr =>
        let '(v, p) := recvExact (readU16 (drop 1 fhdr)) p in
        match v with
        | None => (None, p)
        | Some v => receiveFields nf ((frame ++ fhdr) ++ v) p
        end
    end.
Proof.
  cbn [receiveFields]. destruct (recvExact 3 p) as [[fhdr|] p1]; [|done].
  destruct (Z.ltb_spec 0 (readU16 (drop 1 fhdr))) as [Hlt|Hge]; [done|].
  assert (readU16 (drop 1 fhdr) = 0) as ->.
  { unfold readU16 in *. pose proof (Z_of_byte_range (nth 0 (drop 1 fhdr) zero)).
    pose proof (Z_of_byte_range (nth 1 (drop 1 fhdr) zero)). unfold at_ in *.
    enough (0 <= Z.lor (Z.shiftl (Z_of_byte (nth 0 (drop 1 fhdr) zero)) 8)
                   (Z_of_byte (nth 1 (drop 1 fhdr) zero))) by lia.
    apply Z.lor_nonneg. rewrite Z.shiftl_nonneg. unfold in_u8 in *. lia. }
  by rewrite recvExact_0, app_nil_r.
Qed.

Lemma readU16_pair x y : 0 <= readU16 [x; y] < 65536 /\ be_bytes 2 (readU16 [x; y]) = [x; y].
Proof. rewrite readU16_be. split; [apply (be_value_bound [x; y])|apply be_bytes_value_2]. Qed.

Lemma receiveFields_spec nf frame p :
  exists r p', receiveFields nf frame p = (r, p')
    /\ match r with
       | Some f => exists fs, length fs = nf /\ forallb field_fits fs = true
           /\ fields_wf fs = true /\ f = frame ++ encodeFields fs
           /\ rx p p' (encodeFields fs) /\ alive p' = alive p
       | None => is_ok (parseFields nf (input p)) = false /\ rx_failure p p'
       end.
Proof.
  revert frame p. induction nf as [|nf IH]; intros frame p.
  { exists (Some frame), p. split; [done|]. exists []. cbn. rewrite app_nil_r.
    repeat split; try done. }
  rewrite receiveFields_S.
  destruct (recvExact_spec 3 p) as (r1 & p1 & -> & Hr1); [done|]. destruct r1 as [h|].
  2: { destruct Hr1 as [Hlen Hfail]. eexists None, _. split; [done|]. split; [|done].
       destruct (input p) as [|? [|? [|]]]; simpl in Hlen; (done || lia). }
  destruct Hr1 as (Hlen & Hrx1 & Hal1).
  destruct h as [|a [|x [|y [|]]]]; simpl in Hlen; try lia. clear Hlen.
  cbn [drop]. destruct (readU16_pair x y) as [Hv Hbe].
  pose proof (rx_input _ _ _ Hrx1) as Hin. cbn [app] in Hin.
  destruct (recvExact_spec (readU16 [x; y]) p1) as (r2 & p2 & -> & Hr2); [lia|].
  destruct r2 as [v|].
  2: { destruct Hr2 as [Hlen Hfail]. eexists None, _. split; [done|].
       split; [|by eapply rx_failure_trans].
       rewrite Hin, parseFields_step. cbv zeta. rewrite readU16_be, <-(readU16_be _ _ []).
       destruct (Nat.ltb_spec (length (input p1)) (Z.to_nat (readU16 [x; y]))); [done|lia]. }
  destruct Hr2 as (Hlen & Hrx2 & Hal2).
  destruct (IH ((frame ++ [a; x; y]) ++ v) p2) as (r3 & p3 & -> & Hr3).
  exists r3, p3. split; [done|]. destruct r3 as [f|].
  - destruct Hr3 as (fs & Hn & Hfit & Hwf & -> & Hrx3 & Hal3).
    exists (mkField (field_of_byte a) v :: fs).
    assert (encodeFields (mkField (field_of_byte a) v :: fs) = [a; x; y] ++ v ++ encodeFields fs) as Henc.
    { rewrite encodeFields_cons. unfold encodeField. cbn [id value].
      by rewrite field_code_of_byte, byte_of_Z_of_byte, Hlen, Hbe. }
    rewrite Henc. split; [by f_equal/=|]. split; [|split; [|split; [|split]]].
    + simpl. rewrite Hfit, andb_true_r. apply Z.leb_le. simpl. lia.
    + simpl. by rewrite field_of_byte_wf, Hwf.
    + by rewrite <-!app_assoc.
    + eapply rx_trans; [done|]. by eapply rx_trans.
    + congruence.
  - destruct Hr3 as [Hbad Hfail]. split;
      [|eapply rx_failure_trans; [exact Hrx1|]; by eapply rx_failure_trans].
    rewrite Hin, parseFields_step. cbv zeta. rewrite readU16_be, <-(readU16_be _ _ []).
    rewrite (rx_input _ _ _ Hrx2), drop_app_length' by lia.
    destruct (_ <? _)%nat; [done|]. by destruct (parseFields nf (input p2)).
Qed.

(** [raw] is the frame of [m] with its payload. *)
Record wellframed (raw : list byte) (m : Message) : Prop := mkFramed {
  fr_raw : exists payload,
    raw = frameHeader (opcode m) (flags m) (length (fields m)) (seq m) (payloadLen m)
            ++ encodeFields (fields m) ++ payload
    /\ payloadLen m = Z.of_nat (length payload);
  fr_payload : payloadLen m <= MAX_PAYLOAD_SIZE;
  fr_fits : frame_fits (fields m) = true;
  fr_fields : fields_wf (fields m) = true;
  fr_opcode : opcode_wf (opcode m) = true;
  fr_flags : in_u8 (flags m);
  fr_seq : in_u32 (seq m) }.

Lemma wellframed_plen raw m : wellframed raw m -> in_u32 (payloadLen m).
Proof.
  intros [(pl & _ & Hpl) Hmax]. unfold in_u32, MAX_PAYLOAD_SIZE in *. lia.
Qed.

Lemma wellframed_parse raw m : wellframed raw m -> parseMessage raw = Ok m.
Proof.
  intros Hw. pose proof (wellframed_plen _ _ Hw) as Hpl.
  destruct Hw as [(pl & -> & _) _ Hfit Hwf Hop Hfl Hsq].
  rewrite parseMessage_frame by done. by destruct m.
Qed.

Lemma wellframed_length raw m : wellframed raw m -> (13 <= length raw)%nat.
Proof. intros [(pl & -> & _)]. rewrite length_app, length_frameHeader. unfold FRAME_HEADER_SIZE. lia. Qed.

(** A header that [receiveFrame] has read is the header of some message. *)
Lemma header_inv h : length h = FRAME_HEADER_SIZE -> readU16 h = SQUID_MAGIC ->
  h = frameHeader (opcode_of_byte (nth 2 h zero)) (at_ h 3) (Z.to_nat (at_ h 4))
        (readU32 (drop 5 h)) (readU32 (drop 9 h)).
Proof.
  intros Hlen Hmagic. unfold FRAME_HEADER_SIZE in Hlen.
  do 13 (destruct h as [|? h]; [discriminate Hlen|]). destruct h; [|discriminate Hlen].
  unfold frameHeader, at_. cbn [nth drop]. rewrite readU16_be in Hmagic.
  rewrite <-Hmagic, be_bytes_value_2, !readU32_be, !be_bytes_value_4, opcode_code_of_byte.
  rewrite Z2Nat.id by (apply Z_of_byte_range). by rewrite !byte_of_Z_of_byte.
Qed.

Lemma readU32_range a b c d rest : in_u32 (readU32 (a :: b :: c :: d :: rest)).
Proof. rewrite readU32_be. apply (be_value_bound [a; b; c; d]). Qed.

Lemma header_readU32 h : length h = FRAME_HEADER_SIZE ->
  in_u32 (readU32 (drop 5 h)) /\ in_u32 (readU32 (drop 9 h)).
Proof.
  intros Hlen. unfold FRAME_HEADER_SIZE in Hlen.
  do 13 (destruct h as [|? h]; [discriminate Hlen|]). split; apply readU32_range.
Qed.

Lemma wellframed_parts h fs pl :
  length h = FRAME_HEADER_SIZE -> readU16 h = SQUID_MAGIC ->
  length fs = Z.to_nat (at_ h 4) -> forallb field_fits fs = true -> fields_wf fs = true ->
  readU32 (drop 9 h) = Z.of_nat (length pl) -> readU32 (drop 9 h) <= MAX_PAYLOAD_SIZE ->
  wellframed ((h ++ encodeFields fs) ++ pl)
    (mkMessage (opcode_of_byte (nth 2 h zero)) (at_ h 3) (readU32 (drop 5 h))
               (readU32 (drop 9 h)) fs).
Proof.
  intros Hlen Hm Hn Hfit Hwf Hpl Hmax.
  constructor; cbn [opcode flags seq payloadLen fields];
    [|exact Hmax| |exact Hwf|apply opcode_of_byte_wf|apply Z_of_byte_range
     |apply (header_readU32 h Hlen)].
  - exists pl. split; [|exact Hpl]. rewrite Hn, <-header_inv by done. by rewrite <-app_assoc.
  - unfold frame_fits. rewrite Hfit, andb_true_r, Hn. apply Z.leb_le.
    pose proof (Z_of_byte_range (nth 4 h zero)) as Hb. unfold in_u8 in Hb. unfold at_. lia.
Qed.

(** Whatever bytes arrive: [receiveFrame] returns exactly one well-formed
    frame, the next bytes of the stream, or nothing on a dead connection. *)
Lemma receiveFrame_spec p :
  exists raw p', receiveFrame p = (raw, p')
    /\ ((raw = [] /\ rx_failure p p')
        \/ (rx p p' raw /\ alive p' = alive p /\ exists m, wellframed raw m)).
Proof.
  unfold receiveFrame.
  destruct (recvExact_spec (Z.of_nat FRAME_HEADER_SIZE) p) as (r1 & p1 & -> & Hr1); [lia|].
  destruct r1 as [h|]; [|eexists [], _; split; [done|]; left; by destruct Hr1].
  destruct Hr1 as (Hlen & Hrx1 & Hal1). apply Nat2Z.inj in Hlen.
  destruct (Z.eqb_spec (readU16 h) SQUID_MAGIC) as [Hm|Hm]; cbn [negb].
  2: { eexists [], _. split; [done|]. left. split; [done|].
       split; [eexists; by apply rx_alive|done]. }
  destruct (receiveFields_spec (Z.to_nat (at_ h 4)) h p1) as (r2 & p2 & -> & Hr2).
  destruct r2 as [f|].
  2: { eexists [], _. split; [done|]. left. split; [done|].
       destruct Hr2 as [_ Hfail]. by eapply rx_failure_trans. }
  destruct Hr2 as (fs & Hn & Hfit & Hwf & -> & Hrx2 & Hal2).
  pose proof (rx_trans _ _ _ _ _ Hrx1 Hrx2) as Hrx.
  destruct (Z.ltb_spec MAX_PAYLOAD_SIZE (readU32 (drop 9 h))) as [Hbig|Hsmall].
  { eexists [], _. split; [done|]. left. split; [done|].
    split; [eexists; by apply rx_alive|done]. }
  pose proof (header_readU32 h Hlen) as [_ Hplen].
  assert (forall pl, readU32 (drop 9 h) = Z.of_nat (length pl) ->
            exists m, wellframed ((h ++ encodeFields fs) ++ pl) m) as Hframed.
  { intros pl Hpl. eexists. by apply wellframed_parts. }
  destruct (Z.ltb_spec 0 (readU32 (drop 9 h))) as [Hpl|Hpl].
  - destruct (recvExact_spec (readU32 (drop 9 h)) p2) as (r3 & p3 & -> & Hr3); [apply Hplen|].
    destruct r3 as [pl|].
    + destruct Hr3 as (Hlpl & Hrx3 & Hal3). eexists _, _. split; [done|]. right.
      split; [by eapply rx_trans|]. split; [congruence|]. by apply Hframed.
    + eexists [], _. split; [done|]. left. split; [done|].
      destruct Hr3 as [_ Hfail]. by eapply rx_failure_trans.
  - eexists _, _. split; [done|]. right. split; [done|]. split; [congruence|].
    rewrite <-(app_nil_r (_ ++ _)). apply Hframed. unfold in_u32 in Hplen. simpl. lia.
Qed.

Lemma recvExact_app bs rest p : input p = bs ++ rest ->
  exists p', recvExact (Z.of_nat (length bs)) p = (Some bs, p')
    /\ rx p p' bs /\ alive p' = alive p /\ input p' = rest.
Proof.
  intros Hin. destruct (recvExact_spec (Z.of_nat (length bs)) p) as (r & p' & -> & Hr); [lia|].
  destruct r as [bs'|].
  - destruct Hr as (Hlen & Hrx & Hal). pose proof (rx_input _ _ _ Hrx) as Hin'.
    rewrite Hin in Hin'. apply app_inj_1 in Hin' as [Hbs Hi]; [|lia]. subst bs'. eauto.
  - destruct Hr as [Hlen _]. rewrite Hin, length_app in Hlen. lia.
Qed.

Lemma receiveFields_app fs rest frame p :
  forallb field_fits fs = true -> fields_wf fs = true -> input p = encodeFields fs ++ rest ->
  exists p', receiveFields (length fs) frame p = (Some (frame ++ encodeFields fs), p')
    /\ rx p p' (encodeFields fs) /\ alive p' = alive p /\ input p' = rest.
Proof.
  intros Hfit Hwf Hin. pose proof (parseFields_encode fs rest Hfit Hwf) as Hparse.
  destruct (receiveFields_spec (length fs) frame p) as (r & p' & -> & Hr).
  destruct r as [f|].
  - destruct Hr as (fs' & Hn & Hfit' & Hwf' & -> & Hrx & Hal).
    pose proof (rx_input _ _ _ Hrx) as Hin'. rewrite Hin in Hin'.
    pose proof (parseFields_encode fs' (input p') Hfit' Hwf') as Hparse'.
    rewrite Hn, <-Hin', Hparse in Hparse'. injection Hparse' as ->.
    apply app_inv_head in Hin'. eauto.
  - destruct Hr as [Hbad _]. by rewrite Hin, Hparse in Hbad.
Qed.

Lemma frameHeader_reads op fl nf sq plen : (nf <= 255)%nat -> in_u32 plen ->
  let h := frameHeader op fl nf sq plen in
  readU16 h = SQUID_MAGIC /\ at_ h 4 = Z.of_nat nf /\ readU32 (drop 9 h) = plen.
Proof.
  intros Hnf Hpl h. unfold h, frameHeader. split; [|split].
  - apply readU16_be_bytes. unfold in_u16, SQUID_MAGIC. lia.
  - destruct (be_bytes_2_inv SQUID_MAGIC) as (x & y & ->). unfold at_. cbn [app nth].
    rewrite Z_of_byte_of_Z. apply Z.mod_small. lia.
  - destruct (be_bytes_2_inv SQUID_MAGIC) as (x & y & ->).
    destruct (be_bytes_4_inv sq) as (a & b & c & d & ->). cbn [app drop].
    change (readU32 (be_bytes 4 plen) = plen).
    rewrite <-(app_nil_r (be_bytes 4 plen)), readU32_be_bytes. by apply u32_small.
Qed.

Lemma receiveFrame_app raw m rest p :
  wellframed raw m -> input p = raw ++ rest ->
  exists p', receiveFrame p = (raw, p') /\ rx p p' raw /\ alive p' = alive p /\ input p' = rest.
Proof.
  intros Hw Hin. pose proof (wellframed_plen _ _ Hw) as Hpl32.
  destruct Hw as [(pl & -> & Hpl) Hmax Hfit Hwf _ _ _].
  unfold frame_fits in Hfit. apply andb_true_iff in Hfit as [Hnf Hfit]. apply Z.leb_le in Hnf.
  unfold receiveFrame. set (h := frameHeader _ _ _ _ _) in *.
  rewrite <-!app_assoc in Hin.
  destruct (recvExact_app h _ p Hin) as (p1 & Hs1 & Hrx1 & Hal1 & Hin1).
  unfold h in Hs1. rewrite length_frameHeader in Hs1. fold h in Hs1. rewrite Hs1.
  destruct (frameHeader_reads (opcode m) (flags m) (length (fields m)) (seq m) (payloadLen m))
    as (Hm & Hn & Hplen); [lia|done|]. fold h in Hm, Hn, Hplen.
  rewrite Hm, Z.eqb_refl, Hn, Hplen, Nat2Z.id. cbn [negb].
  destruct (receiveFields_app (fields m) _ h p1 Hfit Hwf Hin1) as (p2 & -> & Hrx2 & Hal2 & Hin2).
  destruct (Z.ltb_spec MAX_PAYLOAD_SIZE (payloadLen m)); [lia|].
  pose proof (rx_trans _ _ _ _ _ Hrx1 Hrx2) as Hrx. rewrite Hpl.
  destruct (Z.ltb_spec 0 (Z.of_nat (length pl))) as [Hpos|Hnone].
  - destruct (recvExact_app pl _ p2 Hin2) as (p3 & -> & Hrx3 & Hal3 & Hin3).
    exists p3. rewrite app_assoc. split; [done|]. split; [by eapply rx_trans|].
    split; [congruence|done].
  - destruct pl; [|simpl in Hnone; lia]. exists p2. rewrite app_nil_r.
    split; [done|]. split; [done|]. split; [congruence|done].
Qed.

(** ** Sequence numbers *)

Definition buffer_ok p : Prop :=
  forall s raw, reorderBuffer p !! s = Some raw -> exists m, wellframed raw m /\ seq m = s.

Lemma wellframed_cons raw m : wellframed raw m -> exists b l, raw = b :: l.
Proof. intros Hw%wellframed_length. destruct raw; [simpl in Hw; lia|eauto]. Qed.

Lemma buffer_ok_rx p p' bs : rx p p' bs -> buffer_ok p -> buffer_ok p'.
Proof. intros Hrx Hb s raw. rewrite (rx_buffer _ _ _ Hrx). apply Hb. Qed.

Lemma buffer_ok_emplace p raw m : wellframed raw m -> buffer_ok p -> buffer_ok (emplace (seq m) raw p).
Proof.
  intros Hw Hb s raw'. unfold emplace. destruct (reorderBuffer p !! seq m) eqn:E; [apply Hb|].
  simpl. intros [[<- <-]|[_ Hs]]%lookup_insert_Some; eauto.
Qed.

Lemma input_emplace s raw p : input (emplace s raw p) = input p.
Proof. unfold emplace. by destruct (reorderBuffer p !! s). Qed.
Lemma expected_emplace s raw p : expectedRecvSeq (emplace s raw p) = expectedRecvSeq p.
Proof. unfold emplace. by destruct (reorderBuffer p !! s). Qed.
Lemma channel_emplace s raw p : channel (emplace s raw p) = channel p.
Proof. unfold emplace. by destruct (reorderBuffer p !! s). Qed.

(** One round when the next frame is in the buffer, and when it is not. *)
Lemma receiveAndParse_buffered fuel p raw m :
  reorderBuffer p !! expectedRecvSeq p = Some raw -> wellframed raw m ->
  seq m = expectedRecvSeq p ->
  receiveAndParse_loop (S fuel) p =
    Some (m, deliver (setReorderBuffer p (delete (expectedRecvSeq p) (reorderBuffer p))) (seq m)).
Proof.
  intros Hb Hw Hs. cbn [receiveAndParse_loop]. unfold popNextBuffered. rewrite Hb.
  destruct (wellframed_cons _ _ Hw) as (b & l & E). rewrite (wellframed_parse _ _ Hw), E.
  cbn [expectedRecvSeq setReorderBuffer]. by rewrite Hs, Z.eqb_refl.
Qed.

Lemma receiveAndParse_wire fuel p raw m p1 :
  reorderBuffer p !! expectedRecvSeq p = None -> receiveFrame p = (raw, p1) -> wellframed raw m ->
  receiveAndParse_loop (S fuel) p =
    if (seq m =? expectedRecvSeq p1) then Some (m, deliver p1 (seq m))
    else if (expectedRecvSeq p1 <? seq m)
    then receiveAndParse_loop fuel (emplace (seq m) raw p1)
    else receiveAndParse_loop fuel p1.
Proof.
  intros Hb Hr Hw. cbn [receiveAndParse_loop]. unfold popNextBuffered. rewrite Hb, Hr.
  destruct (wellframed_cons _ _ Hw) as (b & l & E). by rewrite (wellframed_parse _ _ Hw), E.
Qed.

(** What a call may return: the message expected next, or a NACK made up for
    a dead connection. *)
Definition delivered p (msg : Message) (p' : P) : Prop :=
  seq msg = expectedRecvSeq p /\ expectedRecvSeq p' = u32 (expectedRecvSeq p + 1)
  /\ lastDeliveredSeq p' = seq msg.
Definition gave_up p (msg : Message) (p' : P) : Prop :=
  msg = makeNack /\ expectedRecvSeq p' = expectedRecvSeq p
  /\ (channel p <> None -> alive p' = false).

Lemma receiveAndParse_loop_spec fuel p :
  buffer_ok p -> (length (input p) < fuel)%nat ->
  exists msg p', receiveAndParse_loop fuel p = Some (msg, p') /\ buffer_ok p'
    /\ (delivered p msg p' \/ gave_up p msg p').
Proof.
  revert p. induction fuel as [|fuel IH]; intros p Hok Hf; [lia|].
  destruct (reorderBuffer p !! expectedRecvSeq p) as [raw|] eqn:Hb.
  { destruct (Hok _ _ Hb) as (m & Hw & Hs). rewrite (receiveAndParse_buffered _ _ _ _ Hb Hw Hs).
    eexists _, _. split; [done|]. split; [|by left].
    intros s raw'. simpl. intros [_ Hs']%lookup_delete_Some. eauto. }
  destruct (receiveFrame_spec p) as (raw & p1 & Hr & [[-> [[bs Hrx] Hdead]]|(Hrx & Hal & m & Hw)]).
  { cbn [receiveAndParse_loop]. unfold popNextBuffered. rewrite Hb, Hr.
    eexists _, _. split; [done|]. split; [by eapply buffer_ok_rx|]. right. split; [done|].
    split; [apply (rx_expected _ _ _ Hrx)|done]. }
  rewrite (receiveAndParse_wire _ _ _ _ _ Hb Hr Hw).
  pose proof (rx_expected _ _ _ Hrx) as He. pose proof (buffer_ok_rx _ _ _ Hrx Hok) as Hok1.
  pose proof (rx_length _ _ _ Hrx) as Hlen. pose proof (wellframed_length _ _ Hw) as H13.
  assert (forall p2, expectedRecvSeq p2 = expectedRecvSeq p1 -> channel p2 = channel p1 ->
    input p2 = input p1 -> buffer_ok p2 ->
    exists msg p', receiveAndParse_loop fuel p2 = Some (msg, p') /\ buffer_ok p'
    /\ (delivered p msg p' \/ gave_up p msg p')) as Hnext.
  { intros p2 He2 Hc2 Hi2 Hok2. destruct (IH p2 Hok2) as (msg & p' & Hs & Hok' & Hres);
      [rewrite Hi2; lia|]. exists msg, p'. split; [done|]. split; [done|].
    unfold delivered, gave_up in *. rewrite He2, He, Hc2 in Hres.
    destruct Hres as [Hres|(? & ? & Hd)]; [by left|right]. split; [done|]. split; [done|].
    intros Hch. by apply Hd, (rx_channel _ _ _ Hrx). }
  destruct (Z.eqb_spec (seq m) (expectedRecvSeq p1)) as [Heq|Hne].
  { eexists _, _. split; [done|]. split; [done|]. left. unfold delivered. simpl. by rewrite <-He. }
  destruct (Z.ltb_spec (expectedRecvSeq p1) (seq m)); apply Hnext; try done.
  - apply expected_emplace.
  - apply channel_emplace.
  - apply input_emplace.
  - by apply buffer_ok_emplace.
Qed.
End reading.

(** [n] calls of [receiveAndParse]. *)
Fixpoint receiveMany {C} `{NetworkChannel C} (n : nat) (p : SquidProtocol C)
  : list Message * SquidProtocol C :=
  match n with
  | O => ([], p)
  | S n => let '(m, p) := receiveAndParse p in
           let '(ms, p) := receiveMany n p in (m :: ms, p)
  end.

(** C28. [receiveAndParse] always returns, whatever bytes the peer sends: the
    loop ends within one round per input byte, with the message that carries
    the expected sequence number, which is then advanced, or with a NACK and
    the connection marked dead. *)
Theorem receive_returns {C} `{StreamChannel C} (p : SquidProtocol C) :
  buffer_ok p ->
  exists msg p', receiveAndParse_loop (S (length (input p))) p = Some (msg, p')
    /\ receiveAndParse p = (msg, p') /\ buffer_ok p'
    /\ ((seq msg = expectedRecvSeq p /\ expectedRecvSeq p' = u32 (expectedRecvSeq p + 1)
         /\ lastDeliveredSeq p' = seq msg)
        \/ (msg = makeNack /\ expectedRecvSeq p' = expectedRecvSeq p
            /\ (channel p <> None -> alive p' = false))).
Proof.
  intros Hok. destruct (receiveAndParse_loop_spec (S (length (input p))) p Hok ltac:(lia))
    as (msg & p' & Hs & Hok' & Hres).
  exists msg, p'. split; [done|]. split; [|done]. unfold receiveAndParse. by rewrite Hs.
Qed.

Definition demo_protocol (bytes : list byte) : SquidProtocol Pipe :=
  newProtocol (demo_pipe bytes) "DATANODE" "dn1".

Definition demo_junk : SquidProtocol Pipe := demo_protocol (bytes_of_string "junk!").

Lemma receive_returns_witness :
  exists msg p', receiveAndParse_loop (S (length (input demo_junk))) demo_junk = Some (msg, p')
    /\ receiveAndParse demo_junk = (msg, p') /\ buffer_ok p'
    /\ ((seq msg = expectedRecvSeq demo_junk
          /\ expectedRecvSeq p' = u32 (expectedRecvSeq demo_junk + 1)
          /\ lastDeliveredSeq p' = seq msg)
        \/ (msg = makeNack /\ expectedRecvSeq p' = expectedRecvSeq demo_junk
            /\ (channel demo_junk <> None -> alive p' = false))).
Proof.
  apply (receive_returns demo_junk).
  intros s raw Hs. cbn in Hs. by rewrite lookup_empty in Hs.
Defined.

(** Whatever [receiveFrame] returns is one complete frame, exactly the
    next bytes of the stream, and [parseMessage] accepts it: the catch of
    [receiveAndParse] is never taken.  Otherwise it returns nothing and the
    connection is dead. *)
Theorem received_frame_parses {C} `{StreamChannel C} (p : SquidProtocol C) :
  exists raw p', receiveFrame p = (raw, p')
    /\ ((raw = [] /\ (channel p <> None -> alive p' = false))
        \/ (input p = raw ++ input p' /\ (13 <= length raw)%nat
            /\ is_ok (parseMessage raw) = true /\ alive p' = alive p)).
Proof.
  destruct (receiveFrame_spec p) as (raw & p' & Hr & Hres). exists raw, p'. split; [done|].
  destruct Hres as [[-> [_ Hd]]|(Hrx & Hal & m & Hw)]; [by left|right].
  split; [apply (rx_input _ _ _ Hrx)|]. split; [by eapply wellframed_length|].
  by rewrite (wellframed_parse _ _ Hw).
Qed.

(** ** Reordered and repeated frames *)

Section reorder.
Context {C : Type} `{StreamChannel C}.
Variables (ms : list Message) (raws : list (list byte)) (rest : list byte).
Hypothesis ms_short : Z.of_nat (length ms) < 2 ^ 32.
Hypothesis framed : Forall2 wellframed raws ms.
Hypothesis numbered : forall i m, ms !! i = Some m -> seq m = Z.of_nat i.
Local Abbreviation P := (SquidProtocol C).
Implicit Types p : P.

Lemma raw_message i raw : raws !! i = Some raw ->
  exists m, ms !! i = Some m /\ wellframed raw m /\ seq m = Z.of_nat i.
Proof.
  intros Hi. destruct (Forall2_lookup_l _ _ _ _ _ framed Hi) as (m & Hm & Hw). eauto.
Qed.

Lemma raw_index i j raw : raws !! i = Some raw -> raws !! j = Some raw -> i = j.
Proof.
  intros (m & _ & Hw & Hi)%raw_message (m' & _ & Hw' & Hj)%raw_message.
  apply wellframed_parse in Hw, Hw'. rewrite Hw in Hw'. injection Hw' as <-. lia.
Qed.

(** After [e] messages: what is still to come is in the stream or buffered. *)
Record pending_inv (e : nat) p (arr : list (list byte)) : Prop := mkPending {
  pi_expected : expectedRecvSeq p = Z.of_nat e;
  pi_input : input p = concat arr ++ rest;
  pi_known : forall raw, raw ∈ arr -> raw ∈ raws;
  pi_buffer : forall s raw, reorderBuffer p !! s = Some raw ->
    exists i, s = Z.of_nat i /\ (e <= i)%nat /\ raws !! i = Some raw;
  pi_todo : forall i raw, (e <= i)%nat -> raws !! i = Some raw ->
    raw ∈ arr \/ reorderBuffer p !! Z.of_nat i = Some raw }.

Lemma pending_deliver_buffered e p arr raw s :
  (e < length ms)%nat -> pending_inv e p arr -> reorderBuffer p !! Z.of_nat e = Some raw ->
  pending_inv (S e) (deliver (setReorderBuffer p (delete (expectedRecvSeq p) (reorderBuffer p))) s) arr.
Proof.
  intros Hlt [He Hin Hk Hb Ht] Hraw. constructor; simpl; [|done|done| |].
  - rewrite He, u32_small; unfold in_u32; lia.
  - intros s' raw'. rewrite He. intros [Hne Hs]%lookup_delete_Some.
    destruct (Hb _ _ Hs) as (i & -> & Hi & Hr). exists i. split; [done|]. split; [|done].
    assert (i <> e) by congruence. lia.
  - intros i raw' Hi Hr. rewrite He, lookup_delete_ne by lia. apply Ht; [lia|done].
Qed.

Lemma pending_deliver_wire e p p1 arr raw s :
  (e < length ms)%nat -> pending_inv e p (raw :: arr) -> raws !! e = Some raw ->
  reorderBuffer p !! Z.of_nat e = None -> rx p p1 raw ->
  pending_inv (S e) (deliver p1 s) arr.
Proof.
  intros Hlt [He Hin Hk Hb Ht] Hraw Hnone Hrx. constructor; simpl.
  - rewrite (rx_expected _ _ _ Hrx), He, u32_small; unfold in_u32; lia.
  - pose proof (rx_input _ _ _ Hrx) as Hi. rewrite Hin in Hi. simpl in Hi.
    rewrite <-app_assoc in Hi. by apply app_inv_head in Hi.
  - set_solver.
  - intros s' raw'. rewrite (rx_buffer _ _ _ Hrx). intros Hs.
    destruct (Hb _ _ Hs) as (i & -> & Hi & Hr). exists i. split; [done|]. split; [|done].
    assert (i <> e) by congruence. lia.
  - intros i raw' Hi Hr. rewrite (rx_buffer _ _ _ Hrx).
    destruct (Ht i raw' ltac:(lia) Hr) as [[->|Hin']%elem_of_cons|?]; [|by left|by right].
    assert (i = e) by (by eapply raw_index). lia.
Qed.

(** A frame with another number: stored when it is early, dropped when late. *)
Lemma pending_skip e p p1 arr raw j :
  pending_inv e p (raw :: arr) -> raws !! j = Some raw -> j <> e -> rx p p1 raw ->
  pending_inv e (if (e <? j)%nat then emplace (Z.of_nat j) raw p1 else p1) arr.
Proof.
  intros [He Hin Hk Hb Ht] Hraw Hne Hrx.
  assert (Hin1 : input p1 = concat arr ++ rest).
  { pose proof (rx_input _ _ _ Hrx) as Hi. rewrite Hin in Hi. simpl in Hi.
    rewrite <-app_assoc in Hi. by apply app_inv_head in Hi. }
  assert (He1 : expectedRecvSeq p1 = Z.of_nat e) by by rewrite (rx_expected _ _ _ Hrx).
  pose proof (rx_buffer _ _ _ Hrx) as Hb1.
  destruct (Nat.ltb_spec e j) as [Hej|Hej].
  - unfold emplace. rewrite Hb1.
    destruct (reorderBuffer p !! Z.of_nat j) as [raw0|] eqn:Hj.
    + destruct (Hb _ _ Hj) as (j' & Hjj & _ & Hr0). apply Nat2Z.inj in Hjj as <-.
      assert (raw0 = raw) as -> by congruence.
      constructor; rewrite ?Hb1; [done|done|set_solver|done|].
      intros i raw' Hi Hr. destruct (Ht i raw' Hi Hr) as [[->|?]%elem_of_cons|?]; [|by left|by right].
      right. by rewrite (raw_index i j raw).
    + constructor; simpl; rewrite ?Hb1; [done|done|set_solver| |].
      * intros s raw' [[<- <-]|[_ Hs]]%lookup_insert_Some; [exists j; repeat split; [lia|done]|eauto].
      * intros i raw' Hi Hr. destruct (decide (i = j)) as [->|Hij].
        { right. rewrite lookup_insert_eq. congruence. }
        rewrite lookup_insert_ne by lia.
        destruct (Ht i raw' Hi Hr) as [[->|?]%elem_of_cons|?]; [|by left|by right].
        destruct Hij. by eapply raw_index.
  - constructor; rewrite ?Hb1; [done|done|set_solver|done|].
    intros i raw' Hi Hr. destruct (Ht i raw' Hi Hr) as [[->|?]%elem_of_cons|?]; [|by left|by right].
    assert (i = j) by (by eapply raw_index). lia.
Qed.

Lemma pending_receive fuel e p arr :
  (e < length ms)%nat -> pending_inv e p arr -> (length (input p) < fuel)%nat ->
  exists m p' arr', ms !! e = Some m /\ receiveAndParse_loop fuel p = Some (m, p')
    /\ pending_inv (S e) p' arr'.
Proof.
  revert p arr. induction fuel as [|fuel IH]; intros p arr Hlt Hinv Hf; [lia|].
  pose proof Hinv as [He Hin Hk Hb Ht].
  destruct (reorderBuffer p !! expectedRecvSeq p) as [raw|] eqn:Hnext; rewrite He in Hnext.
  { destruct (Hb _ _ Hnext) as (i & Hei & _ & Hraw). apply Nat2Z.inj in Hei as <-.
    destruct (raw_message _ _ Hraw) as (m & Hm & Hw & Hs). rewrite <-He in Hnext, Hs.
    eexists m, _, arr. split; [done|].
    split; [by eapply receiveAndParse_buffered|]. rewrite He in Hnext.
    by eapply pending_deliver_buffered. }
  destruct arr as [|raw arr].
  { exfalso. destruct (lookup_lt_is_Some_2 raws e) as [raw Hraw].
    { by rewrite (Forall2_length _ _ _ framed). }
    destruct (Ht e raw ltac:(lia) Hraw) as [?%elem_of_nil|?]; congruence. }
  destruct (list_elem_of_lookup_1 raws raw) as [j Hj]; [apply Hk; by left|].
  destruct (raw_message _ _ Hj) as (m & Hm & Hw & Hs). simpl in Hin. rewrite <-app_assoc in Hin.
  destruct (receiveFrame_app raw m _ p Hw Hin) as (p1 & Hr & Hrx & _ & Hin1).
  pose proof (rx_expected _ _ _ Hrx) as He1. rewrite <-He in Hnext.
  rewrite (receiveAndParse_wire _ _ _ _ _ Hnext Hr Hw), He1, He, Hs. rewrite He in Hnext.
  destruct (Z.eqb_spec (Z.of_nat j) (Z.of_nat e)) as [Hje|Hje].
  { apply Nat2Z.inj in Hje as ->. exists m. eexists _, arr. split; [done|]. split; [done|].
    by eapply pending_deliver_wire. }
  assert (j <> e) as Hne by congruence. pose proof (pending_skip _ _ _ _ _ _ Hinv Hj Hne Hrx) as Hinv'.
  pose proof (wellframed_length _ _ Hw). pose proof (rx_length _ _ _ Hrx).
  destruct (Nat.ltb_spec e j), (Z.ltb_spec (Z.of_nat e) (Z.of_nat j)); try lia;
    apply (IH _ arr); try done; rewrite ?input_emplace; lia.
Qed.

Lemma pending_receiveMany n e p arr :
  pending_inv e p arr -> (n + e = length ms)%nat ->
  exists p', receiveMany n p = (drop e ms, p').
Proof.
  revert e p arr. induction n as [|n IH]; intros e p arr Hinv Hn.
  - exists p. by rewrite drop_ge by lia.
  - destruct (pending_receive (S (length (input p))) e p arr ltac:(lia) Hinv ltac:(lia))
      as (m & p1 & arr1 & Hm & Hs & Hinv1).
    destruct (IH (S e) p1 arr1 Hinv1 ltac:(lia)) as [p' Hmany]. exists p'.
    cbn [receiveMany]. unfold receiveAndParse. rewrite Hs, Hmany.
    by rewrite <-(drop_S _ _ _ Hm).
Qed.
End reorder.

(** C9. Messages are delivered in the order they were sent: when the frames
    of [ms], numbered from 0, arrive in any order and any number of times,
    that many calls of [receiveAndParse] return exactly [ms]. *)
Theorem delivery_in_order {C} `{StreamChannel C} (p : SquidProtocol C)
    (ms : list Message) (raws arrivals : list (list byte)) (rest : list byte) :
  Z.of_nat (length ms) < 2 ^ 32 ->
  Forall2 wellframed raws ms ->
  (forall i m, ms !! i = Some m -> seq m = Z.of_nat i) ->
  expectedRecvSeq p = 0 -> reorderBuffer p = ∅ ->
  (forall raw, raw ∈ arrivals <-> raw ∈ raws) -> input p = concat arrivals ++ rest ->
  (receiveMany (length ms) p).1 = ms.
Proof.
  intros Hshort Hw Hnum He Hb Harr Hin.
  destruct (pending_receiveMany ms raws rest Hshort Hw Hnum (length ms) 0 p arrivals) as [p' ->];
    [|lia|done].
  constructor; [done|done|by intros raw ?%Harr| |].
  - intros s raw Hs. by rewrite Hb, lookup_empty in Hs.
  - intros i raw _ Hi. left. apply Harr. by eapply list_elem_of_lookup_2.
Qed.

Lemma buildFrame_wellframed op fl fs sq :
  frame_fits fs = true -> fields_wf fs = true -> opcode_wf op = true -> in_u8 fl -> in_u32 sq ->
  exists f, buildFrame op fl fs 0 = Ok f /\ wellframed (stampSeq f sq) (mkMessage op fl sq 0 fs).
Proof.
  intros Hfit Hwf Hop Hfl Hsq. eexists. split; [by apply buildFrame_ok|].
  rewrite stampSeq_spec. constructor; try done. exists []. by rewrite app_nil_r.
Qed.

Definition demo_frame (op : Opcode) (sq : Z) : list byte :=
  stampSeq (match buildFrame op 0 [] 0 with Ok f => f | Throw _ => [] end) sq.

Lemma demo_frame_wellframed op sq : opcode_wf op = true -> in_u32 sq ->
  wellframed (demo_frame op sq) (mkMessage op 0 sq 0 []).
Proof.
  intros Hop Hsq. unfold demo_frame.
  destruct (buildFrame_wellframed op 0 [] sq) as (f & -> & Hw); [done..| |done|done].
  unfold in_u8. lia.
Qed.

Lemma delivery_in_order_witness :
  (receiveMany 3 (demo_protocol (concat
     [demo_frame CLOSE 2; demo_frame IDENTIFY 0; demo_frame IDENTIFY 0; demo_frame HEARTBEAT 1] ++ []))).1
  = [mkMessage IDENTIFY 0 0 0 []; mkMessage HEARTBEAT 0 1 0 []; mkMessage CLOSE 0 2 0 []].
Proof.
  apply (delivery_in_order _ [mkMessage IDENTIFY 0 0 0 []; mkMessage HEARTBEAT 0 1 0 []; mkMessage CLOSE 0 2 0 []]
    [demo_frame IDENTIFY 0; demo_frame HEARTBEAT 1; demo_frame CLOSE 2]
    [demo_frame CLOSE 2; demo_frame IDENTIFY 0; demo_frame IDENTIFY 0; demo_frame HEARTBEAT 1] []).
  - reflexivity.
  - repeat constructor; apply demo_frame_wellframed; (reflexivity || (unfold in_u32; lia)).
  - intros [|[|[|i]]] m Hm; simpl in Hm; simplify_eq; reflexivity.
  - reflexivity.
  - reflexivity.
  - intros raw. rewrite !elem_of_cons, elem_of_nil. tauto.
  - reflexivity.
Defined.

(** ** Conversations *)

Section conversation.
Context {C : Type} `{StreamChannel C}.
Local Abbreviation P := (SquidProtocol C).
Implicit Types p : P.

(** A healthy connection: the next number to send and to expect, the bytes to
    come and the bytes sent. *)
Record conn p (out_seq in_seq : Z) (i o : list byte) : Prop := mkConn {
  co_alive : alive p = true;
  co_write : can_write p;
  co_next : nextSendSeq p = out_seq;
  co_expected : expectedRecvSeq p = in_seq;
  co_buffer : reorderBuffer p = ∅;
  co_input : input p = i;
  co_output : output p = o }.

Lemma sendFrame_loop_ok fuel bs p :
  (length bs <= fuel)%nat -> can_write p ->
  exists c, sendFrame_loop fuel bs p = setChannel p (Some c)
    /\ writable c /\ inbound c = input p /\ outbound c = output p ++ bs.
Proof.
  revert bs p. induction fuel as [|fuel IH]; intros bs p Hf Hw;
    unfold can_write in Hw; destruct (channel p) as [c|] eqn:Hc; try done.
  - destruct bs; [|simpl in Hf; lia]. exists c. unfold input, output. rewrite Hc, app_nil_r.
    destruct p; simpl in *. by subst.
  - destruct bs as [|b bs'].
    { exists c. unfold input, output. rewrite Hc, app_nil_r. destruct p; simpl in *. by subst. }
    set (bs := b :: bs') in *. cbn [sendFrame_loop]. fold bs. rewrite Hc.
    destruct (writeBytes bs c) as [n c1] eqn:Hwr.
    pose proof (write_up _ _ _ _ Hwr Hw ltac:(done)) as Hn.
    destruct (write_data _ _ _ _ Hwr Hn) as [Hle Hout].
    destruct (write_keeps _ _ _ _ Hwr) as [Hin Hw1].
    destruct (Z.leb_spec n 0); [lia|].
    destruct (IH (drop (Z.to_nat n) bs) (setChannel p (Some c1))) as (c' & Hs & Hw' & Hi & Ho);
      [rewrite length_drop; lia|by apply Hw1|].
    exists c'. split; [exact Hs|]. split; [done|]. unfold input, output in *. simpl in *.
    rewrite Hc, Hi, Ho, Hout, <-app_assoc, take_drop. by rewrite Hin.
Qed.

Lemma send_ok fmt frame p a b i o :
  fmt = Ok frame -> conn p a b i o ->
  exists p', send fmt p = (Ok tt, p') /\ conn p' (u32 (a + 1)) b i (o ++ stampSeq frame a).
Proof.
  intros -> [Hal Hw Hn He Hb Hi Ho]. unfold send. eexists. split; [done|].
  unfold sendFrame. set (p1 := setNextSendSeq p _).
  destruct (sendFrame_loop_ok (length (stampSeq frame (nextSendSeq p))) (stampSeq frame (nextSendSeq p)) p1)
    as (c & -> & Hwc & Hic & Hoc); [lia|exact Hw|].
  constructor; simpl; try done.
  - by rewrite Hn.
  - unfold input at 1. simpl. by rewrite Hic.
  - unfold output at 1. simpl. rewrite Hoc, Hn. by rewrite <-Ho.
Qed.

Lemma receive_ok raw m p a b i o :
  wellframed raw m -> seq m = b -> conn p a b (raw ++ i) o ->
  exists p', receive p = (Ok m, p') /\ conn p' a (u32 (b + 1)) i o.
Proof.
  intros Hw Hs [Hal Hwr Hn He Hb Hi Ho].
  destruct (receiveFrame_app raw m i p Hw Hi) as (p1 & Hr & [] & Hal1 & Hi1).
  unfold receive, lift, receiveAndParse.
  rewrite (receiveAndParse_wire _ p raw m p1); [|by rewrite Hb|done|done].
  rewrite rx_expected0, He, Hs, Z.eqb_refl. eexists. split; [done|].
  constructor; try (simpl; congruence);
    [exact (rx_writable0 Hwr)|exact Hi1|exact (eq_trans rx_output0 Ho)].
Qed.

Lemma sendFileData_ok data p a b i o :
  transferable data -> conn p a b i o ->
  exists p', sendFileData data p = (Ok true, p') /\ conn p' a b i (o ++ transferBytes data).
Proof.
  intros Hd [Hal Hw Hn He Hb Hi Ho]. unfold sendFileData, onChannel, can_write in *.
  unfold input, output in *. destruct (channel p) as [c|]; [|done].
  destruct (sendFile_ok data c Hd Hw) as (c' & -> & Ho' & Hi' & Hw'). eexists. split; [done|].
  constructor; try done; unfold input, output; simpl; congruence.
Qed.

Lemma receiveFileData_ok data p a b i o :
  transferable data -> conn p a b (transferBytes data ++ i) o ->
  exists p', receiveFileData p = (Ok (true, data), p') /\ conn p' a b i o.
Proof.
  intros Hd [Hal Hw Hn He Hb Hi Ho]. unfold receiveFileData, receiveFile, can_write in *.
  unfold input, output in *. destruct (channel p) as [c|]; [|done].
  destruct (receiveBytes_ok data i c Hd Hi) as (c' & -> & Hi' & Ho' & Hw'). eexists. split; [done|].
  constructor; try done; unfold can_write, input, output; simpl; [auto|congruence].
Qed.

Lemma receiveToDisk_ok d path data p a b i o :
  openable d (resolvePath (root d) path) = true -> transferable data ->
  conn p a b (transferBytes data ++ i) o ->
  exists p', receiveToDisk d path p
      = (Ok (true, write_file d (resolvePath (root d) path) data), p') /\ conn p' a b i o.
Proof.
  intros Hop Hd [Hal Hw Hn He Hb Hi Ho]. unfold receiveToDisk, can_write in *.
  unfold input, output in *. destruct (channel p) as [c|]; [|done].
  destruct (receiveFilePath_ok d path data i c Hop Hd Hi) as (c' & -> & Hi' & Ho' & Hw').
  eexists. split; [done|].
  constructor; try done; unfold can_write, input, output; simpl; [auto|congruence].
Qed.

(** The frames of the two sides of a request. *)
Lemma frame_ack (b : bool) sq : in_u32 sq ->
  exists f, responseAck b = Ok f
    /\ wellframed (stampSeq f sq) (mkMessage RESPONSE FLAG_RESPONSE sq 0 [fieldBool ACK b]).
Proof.
  intros Hsq. by apply buildFrame_wellframed.
Qed.

Lemma frame_ack_version (b : bool) v sq : in_u32 sq ->
  exists f, responseAckWithVersion b v = Ok f
    /\ wellframed (stampSeq f sq)
         (mkMessage RESPONSE FLAG_RESPONSE sq 0 [fieldBool ACK b; fieldUint32 FILE_VERSION (u32 v)]).
Proof.
  intros Hsq. by apply buildFrame_wellframed.
Qed.

Lemma frame_path op path sq : short path = true -> opcode_wf op = true -> in_u32 sq ->
  exists f, buildFrame op 0 [fieldString FILE_PATH path] 0 = Ok f
    /\ wellframed (stampSeq f sq) (mkMessage op 0 sq 0 [fieldString FILE_PATH path]).
Proof.
  intros Hp Hop Hsq. apply buildFrame_wellframed; try done.
  change (short path && true = true). by rewrite Hp.
Qed.

Lemma frame_path_version op path v sq : short path = true -> opcode_wf op = true -> in_u32 sq ->
  exists f, buildFrame op 0 [fieldString FILE_PATH path; fieldUint32 FILE_VERSION (u32 v)] 0 = Ok f
    /\ wellframed (stampSeq f sq)
         (mkMessage op 0 sq 0 [fieldString FILE_PATH path; fieldUint32 FILE_VERSION (u32 v)]).
Proof.
  intros Hp Hop Hsq. apply buildFrame_wellframed; try done.
  change (short path && (true && true) = true). by rewrite Hp.
Qed.

(** The final answer to an upload: an UPDATE_FILE reports the version. *)
Lemma frame_upload_ack (create : bool) v sq : in_i32 v -> in_u32 sq ->
  exists k m, (if create then responseAck true else responseAckWithVersion true v) = Ok k
    /\ wellframed (stampSeq k sq) m /\ seq m = sq /\ isAck m = true
    /\ (create = false -> i32 (getUint32 m FILE_VERSION 0) = v).
Proof.
  intros Hv Hsq. destruct create.
  - destruct (frame_ack true sq Hsq) as (k & Hk & Hw). eexists _, _.
    split_and!; [exact Hk|exact Hw|done..].
  - destruct (frame_ack_version true v sq Hsq) as (k & Hk & Hw). eexists _, _.
    split_and!; [exact Hk|exact Hw|done..|]. intros _. rewrite (getUint32_field _ _ (u32 v)) by done.
    rewrite u32_small by auto with squid. by apply i32_u32.
Qed.

(** The client's side of an upload, given the two answers. *)
Lemma upload_ok request f data p a b i o ack1 m1 ack2 m2 :
  request = Ok f -> transferable data ->
  wellframed ack1 m1 -> seq m1 = b -> isAck m1 = true ->
  wellframed ack2 m2 -> seq m2 = u32 (b + 1) ->
  conn p a b (ack1 ++ ack2 ++ i) o ->
  exists p', upload request (sendFileAfterAck data) p = (Ok m2, p')
    /\ conn p' (u32 (a + 1)) (u32 (u32 (b + 1) + 1)) i (o ++ stampSeq f a ++ transferBytes data).
Proof.
  intros Hreq Hd Hw1 Hs1 Hack Hw2 Hs2 Hc. unfold upload, bind.
  destruct (send_ok request f p a b _ o Hreq Hc) as (p1 & -> & Hc1).
  destruct (receive_ok _ _ _ _ _ _ _ Hw1 Hs1 Hc1) as (p2 & -> & Hc2).
  unfold sendFileAfterAck. rewrite Hack. cbn [negb].
  destruct (sendFileData_ok data _ _ _ _ _ Hd Hc2) as (p3 & -> & Hc3). cbn [negb].
  destruct (receive_ok _ _ _ _ _ _ _ Hw2 Hs2 Hc3) as (p4 & -> & Hc4).
  exists p4. by rewrite app_assoc.
Qed.
End conversation.

(** The request loop of a datanode, once. *)
Definition serveRequest {C} `{NetworkChannel C} (d : Disk) : M C Disk :=
  let* m := receive in requestDispatcher m d.

(** The disk after a stored upload. *)
Definition stored (d : Disk) (path : string) (v : Z) (data : list byte) : Disk :=
  setFileVersion (write_file d (resolvePath (root d) path) data) path v.

Lemma stored_spec d path v data :
  plain_path path -> in_i32 v -> openable d (resolvePath (root d) path) = true ->
  openable d (versionFilePath (root d)) = true ->
  resolvePath (root d) path <> versionFilePath (root d) ->
  files (stored d path v data) !! resolvePath (root d) path = Some data
  /\ version_store (stored d path v data) = <[path := v]> (version_store d)
  /\ forall q, q <> resolvePath (root d) path -> q <> versionFilePath (root d) ->
       files (stored d path v data) !! q = files d !! q.
Proof.
  intros Hp Hv Ho Hov Hne. unfold stored, write_file. rewrite Ho.
  set (d1 := set_files d _).
  assert (version_store d1 = version_store d) as Hvs.
  { unfold version_store, versionLines, read_text. simpl. by rewrite lookup_insert_ne. }
  split; [|split].
  - unfold setFileVersion, write_file. simpl. rewrite Hov. simpl.
    rewrite lookup_insert_ne by done. apply lookup_insert_eq.
  - rewrite (version_store_set d1) by done. by rewrite Hvs.
  - intros q Hq Hqv. unfold setFileVersion, write_file. simpl. rewrite Hov. simpl.
    by rewrite !lookup_insert_ne.
Qed.

Section rpc.
Context {D : Type} `{StreamChannel D}.
Variables (d : Disk) (path : string) (a b : Z).
Hypothesis path_short : short path = true.
Hypotheses (seq_a : in_u32 a) (seq_b : in_u32 b).

Lemma serve_upload (create : bool) v data :
  in_i32 v -> transferable data -> openable d (resolvePath (root d) path) = true ->
  exists f k1 ack1 ack2 m1 m2,
    (if create then createFileFormatV else updateFileFormatV) path v = Ok f
    /\ responseAck true = Ok k1 /\ ack1 = stampSeq k1 b
    /\ wellframed ack1 m1 /\ seq m1 = b /\ isAck m1 = true
    /\ wellframed ack2 m2 /\ seq m2 = u32 (b + 1) /\ isAck m2 = true
    /\ (create = false -> i32 (getUint32 m2 FILE_VERSION 0) = v)
    /\ (forall (ps : SquidProtocol D) inS outS,
        conn ps b a (stampSeq f a ++ transferBytes data ++ inS) outS ->
        exists ps', serveRequest d ps = (Ok (stored d path v data), ps')
          /\ conn ps' (u32 (u32 (b + 1) + 1)) (u32 (a + 1)) inS (outS ++ ack1 ++ ack2)).
Proof.
  intros Hv Hd Hop.
  destruct (frame_path_version (if create then CREATE_FILE else UPDATE_FILE) path v a path_short)
    as (f & Hf & Hwf); [by destruct create|done|].
  destruct (frame_ack true b seq_b) as (k1 & Hk1 & Hw1).
  assert (in_u32 (u32 (b + 1))) as Hb1 by auto with squid.
  set (version := i32 (getUint32 (mkMessage (if create then CREATE_FILE else UPDATE_FILE) 0 a 0
     [fieldString FILE_PATH path; fieldUint32 FILE_VERSION (u32 v)]) FILE_VERSION 0)).
  assert (version = v) as Hver.
  { unfold version. rewrite (getUint32_field _ _ (u32 v)) by done.
    rewrite u32_small by auto with squid. by apply i32_u32. }
  destruct (frame_upload_ack create v _ Hv Hb1) as (k2 & m2 & Hk2 & Hw2 & Hs2 & Ha2 & Hv2).
  exists f, k1, (stampSeq k1 b), (stampSeq k2 (u32 (b + 1))). eexists _, m2.
  split; [by destruct create|]. do 2 (split; [done|]). split; [exact Hw1|]. do 2 (split; [done|]).
  split; [exact Hw2|]. do 3 (split; [done|]). intros ps inS outS Hc.
  unfold serveRequest, bind at 1.
  destruct (receive_ok _ _ _ _ _ _ _ Hwf eq_refl Hc) as (p1 & -> & Hc1).
  unfold requestDispatcher. fold version. rewrite Hver, (getString_field _ _ path) by done.
  destruct (send_ok _ _ _ _ _ _ _ Hk1 Hc1) as (p2 & Hs2' & Hc2).
  destruct (receiveToDisk_ok d path data _ _ _ _ _ Hop Hd Hc2) as (p3 & Hr3 & Hc3).
  destruct (send_ok _ _ _ _ _ _ _ Hk2 Hc3) as (p4 & Hs4 & Hc4). rewrite <-app_assoc in Hc4.
  exists p4. split; [|exact Hc4].
  destruct create; cbn [opcode]; unfold bind, response, responseV; rewrite Hs2', Hr3;
    cbn [fst snd]; by rewrite Hs4.
Qed.
End rpc.

(** C13. An upload end to end.  The client's [createFile] / [updateFile] and
    the datanode's dispatcher agree on one conversation: there are bytes
    [request] and [reply] such that the client, receiving [reply], sends
    exactly [request] and returns an acknowledgement (with the version, for an
    update), and the datanode, receiving [request], sends exactly [reply] and
    ends with the data stored under the path and the version recorded, all
    other files and versions unchanged.  Both leave the connection in step.
    The path has no white space (otherwise no version is found afterwards,
    [space_path_has_no_version]), fits a frame and is not the version file; the
    data is at most 1 GiB; the datanode can open both files. *)
Theorem upload_rpc {C D} `{StreamChannel C, StreamChannel D}
    (create : bool) d path v data a b :
  plain_path path -> short path = true -> in_i32 v -> in_u32 a -> in_u32 b ->
  Z.of_nat (length data) <= FILETRANSFER_MAX_SIZE ->
  openable d (resolvePath (root d) path) = true -> openable d (versionFilePath (root d)) = true ->
  resolvePath (root d) path <> versionFilePath (root d) ->
  exists request reply,
    (forall (pc : SquidProtocol C) inC outC, conn pc a b (reply ++ inC) outC ->
       exists m pc', (if create then createFileData else updateFileData) path v data pc = (Ok m, pc')
         /\ isAck m = true /\ (create = false -> i32 (getUint32 m FILE_VERSION 0) = v)
         /\ conn pc' (u32 (a + 1)) (u32 (u32 (b + 1) + 1)) inC (outC ++ request))
    /\ (forall (ps : SquidProtocol D) inS outS, conn ps b a (request ++ inS) outS ->
       exists d' ps', serveRequest d ps = (Ok d', ps')
         /\ files d' !! resolvePath (root d) path = Some data
         /\ version_store d' = <[path := v]> (version_store d)
         /\ (forall q, q <> resolvePath (root d) path -> q <> versionFilePath (root d) ->
               files d' !! q = files d !! q)
         /\ conn ps' (u32 (u32 (b + 1) + 1)) (u32 (a + 1)) inS (outS ++ reply)).
Proof.
  intros Hp Hs Hv Ha Hb Hd Ho Hov Hne.
  destruct (serve_upload (D := D) d path a b Hs Ha Hb create v data Hv Hd Ho)
    as (f & k1 & ack1 & ack2 & m1 & m2 & Hf & _ & _ & Hw1 & Hs1 & Ha1 & Hw2 & Hs2 & Ha2 & Hv2 & Hserve).
  exists (stampSeq f a ++ transferBytes data), (ack1 ++ ack2). split.
  - intros pc inC outC Hc. exists m2. rewrite <-app_assoc in Hc.
    destruct (upload_ok _ f data pc a b inC outC ack1 m1 ack2 m2 Hf Hd Hw1 Hs1 Ha1 Hw2 Hs2 Hc)
      as (pc' & Hup & Hc'). exists pc'. split_and!; try done. by destruct create.
  - intros ps inS outS Hc. rewrite <-app_assoc in Hc.
    destruct (Hserve ps inS outS Hc) as (ps' & Hps & Hc'). eexists _, ps'. split; [exact Hps|].
    destruct (stored_spec d path v data) as (? & ? & ?); try done.
Qed.

Lemma upload_rpc_witness :
  exists request reply,
    (forall (pc : SquidProtocol Pipe) inC outC, conn pc 0 0 (reply ++ inC) outC ->
       exists m pc', updateFileData "a.txt" 5 (bytes_of_string "new") pc = (Ok m, pc')
         /\ isAck m = true /\ (false = false -> i32 (getUint32 m FILE_VERSION 0) = 5)
         /\ conn pc' (u32 (0 + 1)) (u32 (u32 (0 + 1) + 1)) inC (outC ++ request))
    /\ (forall (ps : SquidProtocol Pipe) inS outS, conn ps 0 0 (request ++ inS) outS ->
       exists d' ps', serveRequest demo_disk ps = (Ok d', ps')
         /\ files d' !! resolvePath (root demo_disk) "a.txt" = Some (bytes_of_string "new")
         /\ version_store d' = <["a.txt" := 5]> (version_store demo_disk)
         /\ (forall q, q <> resolvePath (root demo_disk) "a.txt" -> q <> versionFilePath (root demo_disk) ->
               files d' !! q = files demo_disk !! q)
         /\ conn ps' (u32 (u32 (0 + 1) + 1)) (u32 (0 + 1)) inS (outS ++ reply)).
Proof.
  apply (upload_rpc false demo_disk "a.txt" 5 (bytes_of_string "new") 0 0).
  - split; [done|]. apply (bool_decide_unpack _). reflexivity.
  - reflexivity.
  - unfold in_i32; lia.
  - unfold in_u32; lia.
  - unfold in_u32; lia.
  - vm_compute. discriminate.
  - reflexivity.
  - reflexivity.
  - vm_compute. discriminate.
Defined.

(** The same exchange, run: what the client sends makes the datanode answer
    with the bytes the client was given. *)
Definition demo_replies : list byte :=
  stampSeq (match responseAck true with Ok f => f | _ => [] end) 0
  ++ stampSeq (match responseAckWithVersion true 5 with Ok f => f | _ => [] end) 1.

Example upload_demo :
  let client := newProtocol (demo_pipe demo_replies) "CLIENT" "alice" in
  let '(r, client') := updateFileData "a.txt" 5 (bytes_of_string "new") client in
  let '(d, server') := serveRequest demo_disk (demo_protocol (output client')) in
  is_ok r = true /\ input client' = [] /\ input server' = []
  /\ output server' = demo_replies
  /\ match d with Ok d => getFileVersion d "a.txt" = 5 | Throw _ => False end.
Proof. vm_compute. repeat split. Qed.

(** ** Downloads *)

Section download.
Context {C D : Type} `{StreamChannel C, StreamChannel D}.
Variables (d : Disk) (path : string) (a b : Z).
Hypothesis path_short : short path = true.
Hypotheses (seq_a : in_u32 a) (seq_b : in_u32 b).

Lemma serve_read content :
  files d !! resolvePath (root d) path = Some content -> transferable content ->
  exists f ack1 ack2 m1 m2,
    readFileFormat path = Ok f
    /\ wellframed ack1 m1 /\ seq m1 = b /\ isAck m1 = true
    /\ wellframed ack2 m2 /\ seq m2 = u32 (b + 1) /\ isAck m2 = true
    /\ i32 (getUint32 m2 FILE_VERSION 0) = i32 (getFileVersion d path)
    /\ (forall (ps : SquidProtocol D) inS outS, conn ps b a (stampSeq f a ++ inS) outS ->
        exists ps', serveRequest d ps = (Ok d, ps')
          /\ conn ps' (u32 (u32 (b + 1) + 1)) (u32 (a + 1)) inS
               (outS ++ ack1 ++ transferBytes content ++ ack2)).
Proof.
  intros Hc Hd.
  destruct (frame_path READ_FILE path a path_short eq_refl seq_a) as (f & Hf & Hwf).
  destruct (frame_ack true b seq_b) as (k1 & Hk1 & Hw1).
  destruct (frame_ack_version true (getFileVersion d path) (u32 (b + 1))) as (k2 & Hk2 & Hw2);
    [auto with squid|].
  exists f, (stampSeq k1 b), (stampSeq k2 (u32 (b + 1))). eexists _, _.
  split_and!; [exact Hf|exact Hw1|done|done|exact Hw2|done|done| |].
  { rewrite (getUint32_field _ _ (u32 (getFileVersion d path))) by done. by rewrite !i32_of_u32. }
  intros ps inS outS Hcn. unfold serveRequest, bind at 1.
  destruct (receive_ok _ _ _ _ _ _ _ Hwf eq_refl Hcn) as (p1 & -> & Hc1).
  unfold requestDispatcher. cbn [opcode]. rewrite (getString_field _ _ path) by done.
  unfold bind, response, responseV.
  destruct (send_ok _ _ _ _ _ _ _ Hk1 Hc1) as (p2 & -> & Hc2).
  destruct (sendFileData_ok content _ _ _ _ _ Hd Hc2) as (p3 & Hs3 & Hc3).
  unfold sendFileData, onChannel in *. unfold sendFilePath. rewrite Hc. rewrite Hs3.
  destruct (send_ok _ _ _ _ _ _ _ Hk2 Hc3) as (p4 & -> & Hc4). exists p4.
  by rewrite <-!app_assoc in Hc4.
Qed.

Lemma readFile_ok f data p i o ack1 m1 ack2 m2 :
  readFileFormat path = Ok f -> transferable data ->
  wellframed ack1 m1 -> seq m1 = b -> isAck m1 = true ->
  wellframed ack2 m2 -> seq m2 = u32 (b + 1) ->
  conn p a b (ack1 ++ transferBytes data ++ ack2 ++ i) o ->
  exists p' : SquidProtocol C, readFile path p = (Ok (m2, data), p')
    /\ conn p' (u32 (a + 1)) (u32 (u32 (b + 1) + 1)) i (o ++ stampSeq f a).
Proof.
  intros Hf Hd Hw1 Hs1 Hack Hw2 Hs2 Hc. unfold readFile, bind.
  destruct (send_ok _ _ _ _ _ _ _ Hf Hc) as (p1 & -> & Hc1).
  destruct (receive_ok _ _ _ _ _ _ _ Hw1 Hs1 Hc1) as (p2 & -> & Hc2).
  unfold receiveFileAfterAck. rewrite Hack. cbn [negb].
  destruct (receiveFileData_ok data _ _ _ _ _ Hd Hc2) as (p3 & -> & Hc3). cbn [negb fst snd].
  destruct (receive_ok _ _ _ _ _ _ _ Hw2 Hs2 Hc3) as (p4 & -> & Hc4). by exists p4.
Qed.
End download.

(** C22. A download end to end: the client's [readFile] and the datanode's
    dispatcher agree on one conversation, in which the client returns an
    acknowledgement with the recorded version and exactly the contents of the
    file, and the datanode changes nothing. *)
Theorem read_rpc {C D} `{StreamChannel C, StreamChannel D} d path content a b :
  short path = true -> in_u32 a -> in_u32 b ->
  files d !! resolvePath (root d) path = Some content ->
  Z.of_nat (length content) <= FILETRANSFER_MAX_SIZE ->
  exists request reply,
    (forall (pc : SquidProtocol C) inC outC, conn pc a b (reply ++ inC) outC ->
       exists m pc', readFile path pc = (Ok (m, content), pc') /\ isAck m = true
         /\ i32 (getUint32 m FILE_VERSION 0) = i32 (getFileVersion d path)
         /\ conn pc' (u32 (a + 1)) (u32 (u32 (b + 1) + 1)) inC (outC ++ request))
    /\ (forall (ps : SquidProtocol D) inS outS, conn ps b a (request ++ inS) outS ->
       exists ps', serveRequest d ps = (Ok d, ps')
         /\ conn ps' (u32 (u32 (b + 1) + 1)) (u32 (a + 1)) inS (outS ++ reply)).
Proof.
  intros Hs Ha Hb Hc Hd.
  destruct (serve_read (D := D) d path a b Hs Ha Hb content Hc Hd)
    as (f & ack1 & ack2 & m1 & m2 & Hf & Hw1 & Hs1 & Ha1 & Hw2 & Hs2 & Ha2 & Hv2 & Hserve).
  exists (stampSeq f a), (ack1 ++ transferBytes content ++ ack2). split; [|done].
  intros pc inC outC Hcn. rewrite <-!app_assoc in Hcn.
  destruct (readFile_ok path a b f content pc inC outC ack1 m1 ack2 m2 Hf Hd Hw1 Hs1 Ha1 Hw2 Hs2 Hcn)
    as (pc' & Hr & Hc'). by exists m2, pc'.
Qed.

Lemma read_rpc_witness :
  exists request reply,
    (forall (pc : SquidProtocol Pipe) inC outC, conn pc 0 0 (reply ++ inC) outC ->
       exists m pc', readFile "a.txt" pc = (Ok (m, bytes_of_string "hi"), pc') /\ isAck m = true
         /\ i32 (getUint32 m FILE_VERSION 0) = i32 (getFileVersion demo_disk "a.txt")
         /\ conn pc' (u32 (0 + 1)) (u32 (u32 (0 + 1) + 1)) inC (outC ++ request))
    /\ (forall (ps : SquidProtocol Pipe) inS outS, conn ps 0 0 (request ++ inS) outS ->
       exists ps', serveRequest demo_disk ps = (Ok demo_disk, ps')
         /\ conn ps' (u32 (u32 (0 + 1) + 1)) (u32 (0 + 1)) inS (outS ++ reply)).
Proof.
  apply (read_rpc demo_disk "a.txt" (bytes_of_string "hi") 0 0).
  - reflexivity.
  - unfold in_u32; lia.
  - unfold in_u32; lia.
  - reflexivity.
  - vm_compute. discriminate.
Defined.

(** ** A read of a missing file *)

Section missing.
Context {C D : Type} `{StreamChannel C, StreamChannel D}.

(** The bytes of a refusal, split where [receiveFile] splits them. *)
Lemma nack_bytes sq f : responseAck false = Ok f ->
  exists hd s tl, stampSeq f sq = hd ++ s :: zero :: tl /\ length hd = 8%nat
    /\ length tl = 7%nat /\ FILETRANSFER_MAX_SIZE < decodeSize hd.
Proof.
  intros [_ ->]%buildFrame_inv. rewrite stampSeq_spec. unfold frameHeader.
  destruct (be_bytes_4_inv sq) as (x1 & x2 & x3 & x4 & ->).
  exists (be_bytes 2 SQUID_MAGIC ++ [byte_of_Z (opcode_code RESPONSE); byte_of_Z FLAG_RESPONSE;
            byte_of_Z (Z.of_nat (length [fieldBool ACK false])); x1; x2; x3]), x4, (drop 1 (be_bytes 4 0) ++ encodeFields [fieldBool ACK false]).
  split; [reflexivity|]. split; [reflexivity|]. split; [reflexivity|].
  unfold decodeSize. rewrite <-(app_nil_r (_ ++ _)), readU64_be by done.
  unfold be_value, FILETRANSFER_MAX_SIZE. change (be_bytes 2 SQUID_MAGIC) with (map byte_of_Z [0x53; 0x51]).
  cbn [map app fold_left]. rewrite !Z_of_byte_of_Z. byte_bounds.
  change (u8 0x53) with 0x53. change (u8 0x51) with 0x51. rewrite Z.shiftl_mul_pow2 by lia.
  pose proof (Z.mod_pos_bound (opcode_code RESPONSE) (2 ^ 8) ltac:(lia)).
  pose proof (Z.mod_pos_bound FLAG_RESPONSE (2 ^ 8) ltac:(lia)).
  pose proof (Z.mod_pos_bound (Z.of_nat (length [fieldBool ACK false])) (2 ^ 8) ltac:(lia)).
  unfold u8, wrap. lia.
Qed.

(** A stream whose second byte is not the magic's is dead. *)
Lemma receive_bad_magic (p : SquidProtocol C) x rest :
  reorderBuffer p = ∅ -> input p = x :: zero :: rest ->
  exists p', receiveAndParse p = (makeNack, p') /\ alive p' = false.
Proof.
  intros Hb Hin. unfold receiveAndParse. cbn [receiveAndParse_loop]. unfold popNextBuffered.
  rewrite Hb, lookup_empty.
  destruct (receiveFrame_spec p) as (raw & p1 & -> & [[-> [_ Hdead]]|(Hrx & _ & m & Hw)]).
  - exists p1. split; [done|]. apply Hdead. unfold input in Hin. by destruct (channel p).
  - exfalso. pose proof (rx_input _ _ _ Hrx) as Hi. rewrite Hin in Hi.
    destruct Hw as [(pl & -> & _)]. unfold frameHeader in Hi.
    change (be_bytes 2 SQUID_MAGIC) with (map byte_of_Z [0x53; 0x51]) in Hi.
    cbn [map app] in Hi. by injection Hi.
Qed.

Lemma receiveFileData_oversize (p : SquidProtocol C) a b hd rest o :
  length hd = 8%nat -> FILETRANSFER_MAX_SIZE < decodeSize hd -> conn p a b (hd ++ rest) o ->
  exists p', receiveFileData p = (Ok (false, []), p') /\ conn p' a b rest o.
Proof.
  intros Hlen Hbig [Hal Hw Hn He Hb Hi Ho]. unfold receiveFileData, receiveFile, can_write in *.
  unfold input, output in *. destruct (channel p) as [c|]; [|done].
  destruct (receiveBytes_oversize c hd rest Hlen Hi Hbig) as (c' & -> & Hi' & Ho' & Hw').
  eexists. split; [done|].
  constructor; try done; unfold can_write, input, output; simpl; [auto|congruence].
Qed.

(** The datanode's side: acknowledged, then refused. *)
Lemma serve_missing d path req f a b k1 k2 (ps : SquidProtocol D) inS outS :
  files d !! resolvePath (root d) path = None ->
  req = stampSeq f a -> wellframed req (mkMessage READ_FILE 0 a 0 [fieldString FILE_PATH path]) ->
  responseAck true = Ok k1 -> responseAck false = Ok k2 ->
  conn ps b a (req ++ inS) outS ->
  exists ps', serveRequest d ps = (Ok d, ps')
    /\ conn ps' (u32 (u32 (b + 1) + 1)) (u32 (a + 1)) inS
         (outS ++ stampSeq k1 b ++ stampSeq k2 (u32 (b + 1))).
Proof.
  intros Hnone Hreq Hwf Hk1 Hk2 Hc. unfold serveRequest, bind at 1.
  destruct (receive_ok _ _ _ _ _ _ _ Hwf eq_refl Hc) as (p1 & -> & Hc1).
  unfold requestDispatcher. cbn [opcode]. rewrite (getString_field _ _ path) by done.
  unfold bind, response, responseV, onChannel, sendFilePath. rewrite Hnone.
  destruct (send_ok _ _ _ _ _ _ _ Hk1 Hc1) as (p2 & -> & Hc2).
  destruct (channel p2) as [c2|] eqn:Hch2;
    [|destruct Hc2 as [_ Hw _ _ _ _ _]; unfold can_write in Hw; by rewrite Hch2 in Hw].
  assert (setChannel p2 (Some c2) = p2) as Hp2 by (destruct p2; simpl in *; by subst).
  rewrite Hp2. destruct (send_ok _ _ _ _ _ _ _ Hk2 Hc2) as (p3 & -> & Hc3).
  exists p3. by rewrite <-!app_assoc in Hc3.
Qed.

(** The client's side: the refusal is read as a size. *)
Lemma read_refused path f a b k1 m1 k2 sq (pc : SquidProtocol C) inC outC :
  readFileFormat path = Ok f -> wellframed k1 m1 -> seq m1 = b -> isAck m1 = true ->
  responseAck false = Ok k2 -> conn pc a b (k1 ++ stampSeq k2 sq ++ inC) outC ->
  exists pc' left, readFile path pc = (Ok (makeNack, []), pc')
    /\ length left = 9%nat /\ input pc' = left ++ inC
    /\ exists pc'', receiveAndParse pc' = (makeNack, pc'') /\ alive pc'' = false.
Proof.
  intros Hf Hw1 Hs1 Hack Hk2 Hc. unfold readFile, bind.
  destruct (send_ok _ _ _ _ _ _ _ Hf Hc) as (p1 & -> & Hc1).
  destruct (receive_ok _ _ _ _ _ _ _ Hw1 Hs1 Hc1) as (p2 & -> & Hc2).
  destruct (nack_bytes sq k2 Hk2) as (hd & s & tl & Hsplit & Hhd & Htl & Hbig).
  rewrite Hsplit, <-app_assoc in Hc2. unfold receiveFileAfterAck. rewrite Hack. cbn [negb].
  destruct (receiveFileData_oversize _ _ _ _ _ _ Hhd Hbig Hc2) as (p3 & -> & Hc3). cbn [negb fst snd].
  exists p3, (s :: zero :: tl). split; [done|]. split; [simpl; lia|].
  split; [apply (co_input _ _ _ _ _ Hc3)|].
  eapply receive_bad_magic; [apply (co_buffer _ _ _ _ _ Hc3)|apply (co_input _ _ _ _ _ Hc3)].
Qed.
End missing.

(** Reading a file the datanode does not have breaks the connection.  The
    dispatcher acknowledges before it opens the file, so its refusal arrives
    where the client expects file data: [readFile] takes the first eight bytes
    of the refusal for a size over 1 GiB and returns a NACK, the other nine
    stay in the stream, and the next [receiveAndParse] finds no frame and
    marks the connection dead. *)
Theorem read_missing_breaks_connection {C D} `{StreamChannel C, StreamChannel D} d path a b :
  short path = true -> in_u32 a -> in_u32 b ->
  files d !! resolvePath (root d) path = None ->
  exists request reply,
    (forall (ps : SquidProtocol D) inS outS, conn ps b a (request ++ inS) outS ->
       exists ps', serveRequest d ps = (Ok d, ps')
         /\ conn ps' (u32 (u32 (b + 1) + 1)) (u32 (a + 1)) inS (outS ++ reply))
    /\ (forall (pc : SquidProtocol C) inC outC, conn pc a b (reply ++ inC) outC ->
       exists pc' left, readFile path pc = (Ok (makeNack, []), pc')
         /\ length left = 9%nat /\ input pc' = left ++ inC
         /\ exists pc'', receiveAndParse pc' = (makeNack, pc'') /\ alive pc'' = false).
Proof.
  intros Hs Ha Hb Hnone.
  destruct (frame_path READ_FILE path a Hs eq_refl Ha) as (f & Hf & Hwf).
  destruct (frame_ack true b Hb) as (k1 & Hk1 & Hw1).
  destruct (frame_ack false (u32 (b + 1))) as (k2 & Hk2 & Hw2); [auto with squid|].
  exists (stampSeq f a), (stampSeq k1 b ++ stampSeq k2 (u32 (b + 1))). split.
  - intros ps inS outS Hc. by apply (serve_missing d path (stampSeq f a) f a b k1 k2 ps inS outS).
  - intros pc inC outC Hc. rewrite <-app_assoc in Hc.
    by apply (read_refused path f a b _ _ k2 _ pc inC outC Hf Hw1 eq_refl eq_refl Hk2 Hc).
Qed.

Lemma read_missing_breaks_connection_witness :
  exists request reply,
    (forall (ps : SquidProtocol Pipe) inS outS, conn ps 4 7 (request ++ inS) outS ->
       exists ps', serveRequest demo_disk ps = (Ok demo_disk, ps')
         /\ conn ps' (u32 (u32 (4 + 1) + 1)) (u32 (7 + 1)) inS (outS ++ reply))
    /\ (forall (pc : SquidProtocol Pipe) inC outC, conn pc 7 4 (reply ++ inC) outC ->
       exists pc' left, readFile "gone.txt" pc = (Ok (makeNack, []), pc')
         /\ length left = 9%nat /\ input pc' = left ++ inC
         /\ exists pc'', receiveAndParse pc' = (makeNack, pc'') /\ alive pc'' = false).
Proof.
  apply (read_missing_breaks_connection demo_disk "gone.txt" 7 4).
  - reflexivity.
  - unfold in_u32; lia.
  - unfold in_u32; lia.
  - reflexivity.
Defined.
