(* ===== verification/SyncPlanner.v ===== *)
(** * Planning a synchronisation

    Models [common/src/filesystem/syncplanner.hpp]: which files a node has to
    upload, download or create remotely, given the two version maps. *)

From S2P Require Import Prelude.

Inductive SyncAction : Set := UPLOAD | DOWNLOAD | CREATE_REMOTE.

#[export] Instance SyncAction_eq_dec : EqDecision SyncAction.
Proof. solve_decision. Defined.

Record SyncOp : Set := mkSyncOp { action : SyncAction; filePath : string; version : Z }.

(** The first loop of [planSync]: what the local entries ask for, and the
    remote entries that are left. *)
Fixpoint planLocal (locals : list (string * Z)) (remote : gmap string Z)
  : list SyncOp * gmap string Z :=
  match locals with
  | [] => ([], remote)
  | (path, v) :: locals =>
      match remote !! path with
      | Some w =>
          let op := if (w <? v) then [mkSyncOp UPLOAD path v]
                    else if (v <? w) then [mkSyncOp DOWNLOAD path w]
                    else [] in
          let '(ops, remote) := planLocal locals (delete path remote) in
          (op ++ ops, remote)
      | None =>
          let '(ops, remote) := planLocal locals remote in
          (mkSyncOp CREATE_REMOTE path v :: ops, remote)
      end
  end.

Definition planSync (localMap remoteMap : gmap string Z) : list SyncOp :=
  let '(ops, remote) := planLocal (map_entries localMap) remoteMap in
  ops ++ map (fun r => mkSyncOp DOWNLOAD r.1 r.2) (map_entries remote).

(** ** What the plan says of one path *)

Definition planned (v w : option Z) : option (SyncAction * Z) :=
  match v, w with
  | Some v, Some w => if (w <? v) then Some (UPLOAD, v)
                      else if (v <? w) then Some (DOWNLOAD, w) else None
  | Some v, None => Some (CREATE_REMOTE, v)
  | None, Some w => Some (DOWNLOAD, w)
  | None, None => None
  end.

Definition op_key (op : SyncOp) : string * (SyncAction * Z) := (filePath op, (action op, version op)).

Lemma planLocal_remote locals remote :
  (planLocal locals remote).2 = filter (fun kv => kv.1 ∉ locals.*1) remote.
Proof.
  revert remote. induction locals as [|[path v] locals IH]; intros remote.
  - simpl. symmetry. apply map_filter_id. intros k x _. simpl. apply not_elem_of_nil.
  - csimpl.
    assert (filter (fun kv => kv.1 ∉ path :: locals.*1) remote
            = filter (fun kv => kv.1 ∉ locals.*1) (delete path remote)) as ->.
    { apply map_eq. intros k. apply option_eq. intros x.
      rewrite !map_lookup_filter_Some, lookup_delete_Some, not_elem_of_cons. naive_solver. }
    destruct (remote !! path) eqn:E.
    + rewrite <-IH. by destruct (planLocal locals (delete path remote)).
    + rewrite delete_id by done. rewrite <-IH. by destruct (planLocal locals remote).
Qed.

(** With no path twice, each entry is decided by itself. *)
Lemma planLocal_ops locals remote :
  NoDup locals.*1 ->
  map op_key (planLocal locals remote).1 =
    omap (fun kv => pair kv.1 <$> planned (Some kv.2) (remote !! kv.1)) locals.
Proof.
  revert remote. induction locals as [|[path v] locals IH]; intros remote Hnd; [done|].
  apply NoDup_cons in Hnd as [Hpath Hnd]. csimpl.
  assert (omap (fun kv => pair kv.1 <$> planned (Some kv.2) (delete path remote !! kv.1)) locals
          = omap (fun kv => pair kv.1 <$> planned (Some kv.2) (remote !! kv.1)) locals) as Hdel.
  { clear IH. induction locals as [|[k w] locals IHl]; [done|]. csimpl in *.
    rewrite lookup_delete_ne by set_solver. rewrite IHl; [done|set_solver|].
    by apply NoDup_cons in Hnd as []. }
  destruct (remote !! path) as [w|] eqn:E.
  - specialize (IH (delete path remote) Hnd). rewrite Hdel in IH.
    destruct (planLocal locals (delete path remote)) as [ops r]. simpl in *.
    destruct (w <? v); [|destruct (v <? w)]; csimpl; by rewrite IH.
  - specialize (IH remote Hnd). destruct (planLocal locals remote) as [ops r]. csimpl in *.
    by rewrite IH.
Qed.

(** The whole plan: the local entries, then what is only remote. *)
Lemma planSync_keys l r :
  map op_key (planSync l r) =
    omap (fun kv => pair kv.1 <$> planned (Some kv.2) (r !! kv.1)) (map_entries l)
    ++ map (fun kv => (kv.1, (DOWNLOAD, kv.2)))
           (map_entries (filter (fun kv => kv.1 ∉ (map_entries l).*1) r)).
Proof.
  unfold planSync. pose proof (planLocal_remote (map_entries l) r) as Hr.
  pose proof (planLocal_ops (map_entries l) r (NoDup_map_keys l)) as Ho.
  destruct (planLocal (map_entries l) r) as [ops rest]. simpl in *. subst rest.
  rewrite map_app, map_map, Ho. done.
Qed.

Lemma elem_of_keys {V} (m : gmap string V) k : k ∈ (map_entries m).*1 <-> is_Some (m !! k).
Proof.
  rewrite list_elem_of_fmap. split.
  - intros ([k' v] & -> & H%elem_of_map_entries). eauto.
  - intros [v Hv]. exists (k, v). by rewrite elem_of_map_entries.
Qed.

Lemma planSync_spec l r path a v :
  (path, (a, v)) ∈ map op_key (planSync l r) <-> planned (l !! path) (r !! path) = Some (a, v).
Proof.
  rewrite planSync_keys, elem_of_app, list_elem_of_omap. split.
  - intros [([k x] & Hk%elem_of_map_entries & Hp)|Hr].
    + simpl in Hp. apply fmap_Some in Hp as ([a' v'] & Hp & [= -> -> ->]). by rewrite Hk.
    + apply list_elem_of_In, List.in_map_iff in Hr as ([k x] & [= -> <- <-] & Hk).
      apply list_elem_of_In, elem_of_map_entries, map_lookup_filter_Some in Hk as [Hk Hn].
      simpl in Hn. rewrite elem_of_keys in Hn. apply eq_None_not_Some in Hn. by rewrite Hn, Hk.
  - intros Hp. destruct (l !! path) as [x|] eqn:Hl.
    + left. exists (path, x). rewrite elem_of_map_entries. split; [done|].
      cbn [fst snd]. by rewrite Hp.
    + right. destruct (r !! path) as [w|] eqn:Hr; [|done]. simpl in Hp. injection Hp as <- <-.
      apply list_elem_of_In, List.in_map_iff. exists (path, w). split; [done|].
      apply list_elem_of_In, elem_of_map_entries, map_lookup_filter_Some. split; [done|].
      simpl. rewrite elem_of_keys, Hl. by intros [? ?].
Qed.

Lemma NoDup_omap_keys {A} (f : string * Z -> option A) (kvs : list (string * Z)) :
  NoDup kvs.*1 -> NoDup (omap (fun kv => pair kv.1 <$> f kv) kvs).*1.
Proof.
  induction kvs as [|[k v] kvs IH]; intros Hnd; [constructor|]. csimpl in *.
  apply NoDup_cons in Hnd as [Hk Hnd]. destruct (f (k, v)) as [x|]; csimpl; [|auto].
  apply NoDup_cons. split; [|auto]. intros ([k' y] & -> & Hin)%list_elem_of_fmap. csimpl in *.
  apply list_elem_of_omap in Hin as ([k2 w] & Hin & Hf). csimpl in *.
  apply fmap_Some in Hf as (z & _ & [= -> ->]). apply Hk, list_elem_of_fmap. by exists (k2, w).
Qed.

Lemma planSync_NoDup l r : NoDup (map filePath (planSync l r)).
Proof.
  assert (map filePath (planSync l r) = (map op_key (planSync l r)).*1) as ->.
  { rewrite <-list_fmap_compose. by apply list_fmap_ext. }
  rewrite planSync_keys, fmap_app. apply NoDup_app. split; [|split].
  - apply (NoDup_omap_keys (fun kv => planned (Some kv.2) (r !! kv.1))), NoDup_map_keys.
  - intros k ([k' y] & -> & Hin)%list_elem_of_fmap Hk. csimpl in *.
    apply list_elem_of_omap in Hin as ([k2 w] & Hin & Hf). csimpl in *.
    apply fmap_Some in Hf as (z & _ & [= -> ->]).
    apply list_elem_of_fmap in Hk as ([k3 y3] & -> & H3).
    apply list_elem_of_In, List.in_map_iff in H3 as ([k4 y4] & [= -> <-] & H4). csimpl in *.
    apply list_elem_of_In, elem_of_map_entries, map_lookup_filter_Some in H4 as [_ Hn].
    apply Hn, list_elem_of_fmap. by exists (k3, w).
  - rewrite <-list_fmap_compose. apply NoDup_map_keys.
Qed.

(** ** Carrying out the plan *)

(** The two version maps after one operation. *)
Definition applyOp (st : gmap string Z * gmap string Z) (op : SyncOp)
  : gmap string Z * gmap string Z :=
  let '(l, r) := st in
  match action op with
  | DOWNLOAD => (<[filePath op := version op]> l, r)
  | UPLOAD | CREATE_REMOTE => (l, <[filePath op := version op]> r)
  end.

Definition applyOps (st : gmap string Z * gmap string Z) (ops : list SyncOp) :=
  fold_left applyOp ops st.

Lemma applyOps_other st ops path :
  path ∉ map filePath ops ->
  (applyOps st ops).1 !! path = st.1 !! path /\ (applyOps st ops).2 !! path = st.2 !! path.
Proof.
  revert st. induction ops as [|op ops IH]; intros [l r] Hp; [done|].
  apply not_elem_of_cons in Hp as [Hne Hp].
  change (applyOps (l, r) (op :: ops)) with (applyOps (applyOp (l, r) op) ops).
  destruct (IH (applyOp (l, r) op) Hp) as [-> ->]. unfold applyOp.
  destruct (action op); simpl; split; (done || by apply lookup_insert_ne).
Qed.

Lemma applyOps_in st ops op :
  NoDup (map filePath ops) -> op ∈ ops ->
  (applyOps st ops).1 !! filePath op =
    (if decide (action op = DOWNLOAD) then Some (version op) else st.1 !! filePath op)
  /\ (applyOps st ops).2 !! filePath op =
    (if decide (action op = DOWNLOAD) then st.2 !! filePath op else Some (version op)).
Proof.
  revert st. induction ops as [|o ops IH]; intros [l r] Hnd Hin; [set_solver|].
  apply NoDup_cons in Hnd as [Hno Hnd].
  change (applyOps (l, r) (o :: ops)) with (applyOps (applyOp (l, r) o) ops).
  apply elem_of_cons in Hin as [->|Hin].
  - destruct (applyOps_other (applyOp (l, r) o) ops (filePath o) Hno) as [H1 H2].
    rewrite H1, H2. unfold applyOp.
    destruct (action o); simpl; by rewrite lookup_insert_eq.
  - assert (filePath op <> filePath o) as Hne.
    { intros E. apply Hno. rewrite <-E. apply list_elem_of_In, List.in_map, list_elem_of_In, Hin. }
    destruct (IH (applyOp (l, r) o) Hnd Hin) as [H1 H2]. rewrite H1, H2.
    unfold applyOp. destruct (action o); simpl; by rewrite lookup_insert_ne.
Qed.

(** The newer of two versions, present when either is. *)
Definition newest (v w : option Z) : option Z := union_with (fun a b => Some (Z.max a b)) v w.

Lemma applyOps_plan l r path :
  (applyOps (l, r) (planSync l r)).1 !! path = newest (l !! path) (r !! path)
  /\ (applyOps (l, r) (planSync l r)).2 !! path = newest (l !! path) (r !! path).
Proof.
  destruct (planned (l !! path) (r !! path)) as [[a v]|] eqn:Hp.
  - pose proof Hp as Hin. apply planSync_spec in Hin.
    apply list_elem_of_In, List.in_map_iff in Hin as (op & [= <- <- <-] & Hop%list_elem_of_In).
    destruct (applyOps_in (l, r) _ op (planSync_NoDup l r) Hop) as [-> ->]. simpl.
    destruct (l !! filePath op) as [x|], (r !! filePath op) as [w|]; simpl in Hp; try done.
    + destruct (Z.ltb_spec w x); [|destruct (Z.ltb_spec x w)]; [| |done];
        injection Hp as <- <-; simpl; split; do 2 f_equal; lia.
    + by injection Hp as <- <-.
    + by injection Hp as <- <-.
  - destruct (applyOps_other (l, r) (planSync l r) path) as [-> ->]; simpl.
    { intros (op & -> & Hop)%list_elem_of_fmap.
      assert ((filePath op, (action op, version op)) ∈ map op_key (planSync l r)) as Hin
        by apply list_elem_of_In, (List.in_map op_key), list_elem_of_In, Hop.
      apply planSync_spec in Hin. congruence. }
    destruct (l !! path) as [x|], (r !! path) as [w|]; simpl in Hp; try done.
    destruct (Z.ltb_spec w x); [done|]; destruct (Z.ltb_spec x w); [done|].
    simpl. split; do 2 f_equal; lia.
Qed.

(** C26. The plan is exact and synchronises: a path gets at most one operation,
    and gets [a] with version [v] exactly when the versions ask for it;
    carrying the operations out leaves both sides with the same map, the newer
    version of every file either side had. *)
Theorem plan_synchronises localMap remoteMap :
  NoDup (map filePath (planSync localMap remoteMap))
  /\ (forall path a v, mkSyncOp a path v ∈ planSync localMap remoteMap <->
        planned (localMap !! path) (remoteMap !! path) = Some (a, v))
  /\ applyOps (localMap, remoteMap) (planSync localMap remoteMap)
     = (union_with (fun v w => Some (Z.max v w)) localMap remoteMap,
        union_with (fun v w => Some (Z.max v w)) localMap remoteMap).
Proof.
  split; [apply planSync_NoDup|]. split.
  - intros path a v. rewrite <-planSync_spec, (list_elem_of_In (map op_key _)), List.in_map_iff. split.
    + intros H%list_elem_of_In. by exists (mkSyncOp a path v).
    + intros ([a' p' v'] & [= -> -> ->] & H). by apply list_elem_of_In.
  - rewrite (surjective_pairing (applyOps _ _)). f_equal; apply map_eq; intros path;
      destruct (applyOps_plan localMap remoteMap path) as [H1 H2]; rewrite lookup_union_with; done.
Qed.

Example plan_demo :
  planSync {["a" := 3; "b" := 1; "c" := 2]} {["b" := 4; "c" := 2; "d" := 1]}
  = [mkSyncOp CREATE_REMOTE "a" 3; mkSyncOp DOWNLOAD "b" 4; mkSyncOp DOWNLOAD "d" 1].
Proof. vm_compute. reflexivity. Qed.
