(* ===== verification/StateStore.v ===== *)
(** * Durable state of a server

    Models [server/src/state_manager.hpp] (the version map and the replication
    map on disk) and [common/src/filesystem/epoch_store.hpp] (the leadership
    epoch), with the writes as sequences of file-system operations, so that a
    crash between any two of them is a prefix of the sequence, and with what a
    power failure does to files that were written and not synced. *)

From S2P Require Import Prelude Text Wire FileManager.

(** ** File-system operations *)

Inductive FsOp : Type :=
| Trunc (p : string)
| Append (p : string) (bytes : list byte)
| Sync (p : string)
| Rename (src dst : string)
| Remove (p : string).

(** What the running program sees of an operation. *)
Definition applyFs (d : Disk) (op : FsOp) : Disk :=
  match op with
  | Trunc p => set_files d (<[p := []]> (files d))
  | Append p bytes => set_files d (<[p := read_text d p ++ bytes]> (files d))
  | Sync p => d
  | Rename src dst =>
      match files d !! src with
      | Some content => set_files d (<[dst := content]> (delete src (files d)))
      | None => d
      end
  | Remove p => set_files d (delete p (files d))
  end.

Definition runFs (d : Disk) (ops : list FsOp) : Disk := fold_left applyFs ops d.

Definition tmpPath (dst : string) : string := dst +:+ ".tmp".

(** What of the pieces reaches a file that takes [room] bytes: once a stream
    has failed, it ignores what is written to it. *)
Fixpoint cut (room : nat) (pieces : list (list byte)) : list (list byte) :=
  match pieces with
  | [] => []
  | b :: pieces =>
      if (length b <=? room)%nat then b :: cut (room - length b) pieces else [take room b]
  end.
Definition reached (room : option nat) (pieces : list (list byte)) : list (list byte) :=
  match room with None => pieces | Some n => cut n pieces end.

(** [atomicWrite(dst, fn)]: the pieces [fn] writes go to a temporary file that
    is synced, if it can be opened for that, and renamed.  The state of the
    stream is not asked.  When [fs::rename] throws, the file is removed. *)
Definition atomicWrite (d : Disk) (dst : string) (pieces : list (list byte)) : list FsOp :=
  let tmp := tmpPath dst in
  if openable d tmp
  then Trunc tmp :: map (Append tmp) (reached (io_room (io d tmp)) pieces)
       ++ (if io_syncs (io d tmp) then [Sync tmp] else [])
       ++ [if io_renames (io d tmp) then Rename tmp dst else Remove tmp]
  else [].

(** ** [StateManager] *)

Definition replicationPath (root : string) : string := metaPath root "replicationMap.txt".

Definition versionPieces (m : gmap string Z) : list (list byte) :=
  map (fun kv => bytes_of_string kv.1 ++ space :: decimal kv.2 ++ [newline]) (map_entries m).

Definition saveVersionMap (d : Disk) (m : gmap string Z) : list FsOp :=
  atomicWrite d (versionFilePath (root d)) (versionPieces m).

Definition hash : byte := "#"%char.

(** [line.empty() || line[0] == '#'], then the last space. *)
Definition splitStateLine (line : list byte) : option (list byte * list byte) :=
  match line with
  | [] => None
  | c :: _ =>
      if decide (c = hash) then None
      else match rfind_char space line with
           | None => None
           | Some sp => Some (take sp line, drop (S sp) line)
           end
  end.

Definition versionStateEntry (line : list byte) : option (string * Z) :=
  match splitStateLine line with
  | Some (path, rest) =>
      match stoi rest with
      | Some v => Some (string_of_bytes path, v)
      | None => None
      end
  | None => None
  end.

Definition loadVersionMap (d : Disk) : gmap string Z :=
  store_all (omap versionStateEntry (getlines (read_text d (versionFilePath (root d))))) ∅.

Definition repPieces (m : gmap string (gset string)) : list (list byte) :=
  map (fun kv => bytes_of_string kv.1 ++ space :: join comma (map bytes_of_string (set_elems kv.2))
                 ++ [newline]) (map_entries m).

Definition saveReplicationMap (d : Disk) (m : gmap string (gset string)) : list FsOp :=
  atomicWrite d (replicationPath (root d)) (repPieces m).

Definition repStateEntry (line : list byte) : option (string * gset string) :=
  match splitStateLine line with
  | Some (path, rest) =>
      Some (string_of_bytes path,
            list_to_set (map string_of_bytes
              (List.filter (fun dn => negb (bool_decide (dn = []))) (split_at comma [] rest))))
  | None => None
  end.

Definition loadReplicationMap (d : Disk) : gmap string (gset string) :=
  store_all (omap repStateEntry (getlines (read_text d (replicationPath (root d))))) ∅.

(** ** [EpochStore] *)

Definition epochPath (root : string) : string := metaPath root "epoch.txt".

Definition EpochStore_load (d : Disk) : Z := read_u32 (read_text d (epochPath (root d))).

Definition EpochStore_save (d : Disk) (epoch : Z) : list FsOp :=
  atomicWrite d (epochPath (root d)) [decimal epoch; [newline]].

(** ** Crash safety *)

Lemma tmpPath_ne dst : tmpPath dst <> dst.
Proof.
  unfold tmpPath. intros E. apply (f_equal (fun s => length (bytes_of_string s))) in E.
  rewrite bytes_of_string_app, length_app in E. simpl in E. lia.
Qed.

Lemma runFs_app d ops1 ops2 : runFs d (ops1 ++ ops2) = runFs (runFs d ops1) ops2.
Proof. apply fold_left_app. Qed.

Lemma applyFs_root d op : root (applyFs d op) = root d /\ openable (applyFs d op) = openable d.
Proof. destruct op; simpl; try done. by destruct (files d !! src). Qed.

Lemma runFs_root ops d : root (runFs d ops) = root d.
Proof.
  revert d. induction ops as [|op ops IH]; intros d; [done|]. simpl.
  unfold runFs in *. simpl. rewrite IH. apply applyFs_root.
Qed.

(** Appending to [p] touches no other file and collects the pieces. *)
Lemma runFs_append d p pieces :
  runFs d (map (Append p) pieces) =
    match pieces with
    | [] => d
    | _ => set_files d (<[p := read_text d p ++ concat pieces]> (files d))
    end.
Proof.
  revert d. induction pieces as [|b pieces IH]; intros d; [done|].
  unfold runFs in *. cbn [map fold_left]. rewrite IH. destruct pieces as [|b' pieces].
  - simpl. by rewrite app_nil_r.
  - unfold applyFs, read_text, set_files. cbn [files root openable].
    rewrite lookup_insert_eq. cbn [default from_option]. unfold id. rewrite insert_insert_eq.
    simpl. by rewrite <-!app_assoc.
Qed.

(** The temporary file while the pieces are being written. *)
Lemma runFs_tmp d p pieces :
  runFs d (Trunc p :: map (Append p) pieces) = set_files d (<[p := concat pieces]> (files d)).
Proof.
  change (runFs d (Trunc p :: ?ops)) with (runFs (applyFs d (Trunc p)) ops).
  rewrite runFs_append. destruct pieces; [done|].
  unfold applyFs, read_text, set_files. cbn [files root openable].
  rewrite lookup_insert_eq, insert_insert_eq. done.
Qed.

(** Operations on one file. *)
Definition op_on (p : string) (op : FsOp) : Prop :=
  match op with
  | Trunc q | Append q _ | Sync q | Remove q => q = p
  | Rename _ _ => False
  end.

Lemma runFs_only p ops d q : Forall (op_on p) ops -> q <> p -> files (runFs d ops) !! q = files d !! q.
Proof.
  intros Hops Hq. revert d. induction Hops as [|op ops Hop _ IH]; intros d; [done|].
  unfold runFs in *. simpl. rewrite IH. destruct op; simpl in *; subst; try done.
  - by rewrite lookup_insert_ne.
  - by rewrite lookup_insert_ne.
  - by rewrite lookup_delete_ne.
Qed.

(** *** Power failures

    The contents of a file that was written and not synced may be anything
    after a power failure.  A rename moves the contents as they are; one that
    is lost with the failure is a failure before it. *)
Definition unsynced1 (dirty : gset string) (op : FsOp) : gset string :=
  match op with
  | Trunc p | Append p _ => {[ p ]} ∪ dirty
  | Sync p | Remove p => dirty ∖ {[ p ]}
  | Rename src dst =>
      if decide (src ∈ dirty) then {[ dst ]} ∪ dirty ∖ {[ src ]} else dirty ∖ {[ dst ]}
  end.
Definition unsynced (ops : list FsOp) : gset string := fold_left unsynced1 ops ∅.

(** [d'] is what may be found on the disk when the power fails after [ops]. *)
Definition after_crash (d : Disk) (ops : list FsOp) (d' : Disk) : Prop :=
  root d' = root d /\ forall p, p ∉ unsynced ops -> files d' !! p = files (runFs d ops) !! p.

Lemma unsynced_only p ops : Forall (op_on p) ops -> unsynced ops ⊆ {[ p ]}.
Proof.
  intros Hops. unfold unsynced. assert (∅ ⊆ ({[ p ]} : gset string)) as Hs by set_solver. revert Hs.
  generalize (∅ : gset string). induction Hops as [|op ops Hop _ IH]; intros s Hs; [done|].
  simpl. apply IH. destruct op; simpl in *; subst; set_solver.
Qed.

(** The operations of a save before the last one. *)
Definition savePrefix (d : Disk) (tmp : string) (pieces : list (list byte)) : list FsOp :=
  (Trunc tmp :: map (Append tmp) (reached (io_room (io d tmp)) pieces))
  ++ (if io_syncs (io d tmp) then [Sync tmp] else []).

Lemma savePrefix_on d tmp pieces : Forall (op_on tmp) (savePrefix d tmp pieces).
Proof.
  unfold savePrefix. apply Forall_app. split.
  - constructor; [done|]. apply Forall_map, Forall_forall. done.
  - destruct (io_syncs _); repeat constructor.
Qed.

Lemma runFs_savePrefix d tmp pieces :
  runFs d (savePrefix d tmp pieces)
  = set_files d (<[tmp := concat (reached (io_room (io d tmp)) pieces)]> (files d)).
Proof. unfold savePrefix. rewrite runFs_app, runFs_tmp. by destruct (io_syncs _). Qed.

Lemma atomicWrite_shape d dst pieces :
  atomicWrite d dst pieces =
  if openable d (tmpPath dst)
  then savePrefix d (tmpPath dst) pieces
       ++ [if io_renames (io d (tmpPath dst)) then Rename (tmpPath dst) dst else Remove (tmpPath dst)]
  else [].
Proof. unfold atomicWrite, savePrefix. destruct (openable d _); [|done]. simpl. by rewrite app_assoc. Qed.

(** The last operation. *)
Lemma runFs_save d dst pieces :
  openable d (tmpPath dst) = true ->
  files (runFs d (atomicWrite d dst pieces))
  = if io_renames (io d (tmpPath dst))
    then <[dst := concat (reached (io_room (io d (tmpPath dst))) pieces)]> (delete (tmpPath dst) (files d))
    else delete (tmpPath dst) (files d).
Proof.
  intros Ho. rewrite atomicWrite_shape, Ho, runFs_app, runFs_savePrefix. simpl.
  destruct (io_renames _); simpl; rewrite ?lookup_insert_eq; simpl; by rewrite delete_insert_eq.
Qed.

(** A prefix of a save is part of the writing of the temporary file, or all. *)
Lemma save_prefix_cases d dst pieces n :
  let ops := take n (atomicWrite d dst pieces) in
  Forall (op_on (tmpPath dst)) ops
  \/ (ops = atomicWrite d dst pieces /\ openable d (tmpPath dst) = true).
Proof.
  cbv zeta. rewrite atomicWrite_shape. destruct (openable d (tmpPath dst)); [|rewrite take_nil; by left].
  set (pre := savePrefix _ _ _). destruct (decide (n <= length pre)%nat) as [Hle|Hgt].
  - left. rewrite take_app_le by done. apply Forall_take, savePrefix_on.
  - right. split; [|done]. apply take_ge. rewrite length_app. cbn [length]. lia.
Qed.

(** At any point of a save, [dst] is what it was or what was written, and no
    file but [dst] and the temporary one has changed. *)
Lemma atomicWrite_prefix d dst pieces n :
  let d' := runFs d (take n (atomicWrite d dst pieces)) in
  (files d' !! dst = files d !! dst
   \/ files d' !! dst = Some (concat (reached (io_room (io d (tmpPath dst))) pieces)))
  /\ root d' = root d
  /\ forall q, q <> dst -> q <> tmpPath dst -> files d' !! q = files d !! q.
Proof.
  intros d'. unfold d'. rewrite runFs_root. pose proof (tmpPath_ne dst) as Hne.
  destruct (save_prefix_cases d dst pieces n) as [Hon|[-> Ho]].
  - split; [left; by eapply runFs_only|]. split; [done|]. intros q _ Hq. by eapply runFs_only.
  - rewrite (runFs_save _ _ _ Ho). destruct (io_renames _).
    + split; [right; apply lookup_insert_eq|]. split; [done|]. intros q Hq Hqt.
      by rewrite lookup_insert_ne, lookup_delete_ne.
    + split; [left; by rewrite lookup_delete_ne|]. split; [done|]. intros q Hq Hqt. by rewrite lookup_delete_ne.
Qed.

(** With the sync, a power failure at any point touches the temporary file at
    most: the contents that are renamed are on the medium. *)
Lemma atomicWrite_unsynced d dst pieces n :
  io_syncs (io d (tmpPath dst)) = true -> unsynced (take n (atomicWrite d dst pieces)) ⊆ {[ tmpPath dst ]}.
Proof.
  intros Hs. destruct (save_prefix_cases d dst pieces n) as [Hon|[-> Ho]]; [by apply unsynced_only|].
  rewrite atomicWrite_shape, Ho. unfold unsynced, savePrefix. rewrite Hs, !fold_left_app. simpl.
  pose proof (unsynced_only (tmpPath dst) (Trunc (tmpPath dst) :: map (Append (tmpPath dst))
    (reached (io_room (io d (tmpPath dst))) pieces))) as Hsub.
  unfold unsynced in Hsub. simpl in Hsub. specialize (Hsub ltac:(constructor; [done|];
    apply Forall_map, Forall_forall; done)).
  set (s := fold_left _ _ _) in *. destruct (io_renames _); simpl; [|set_solver].
  rewrite decide_False by set_solver. set_solver.
Qed.

Lemma atomicWrite_crash d dst pieces n d' :
  io_syncs (io d (tmpPath dst)) = true -> io_room (io d (tmpPath dst)) = None ->
  after_crash d (take n (atomicWrite d dst pieces)) d' ->
  files d' !! dst = files d !! dst \/ files d' !! dst = Some (concat pieces).
Proof.
  intros Hs Hr [_ Hf]. pose proof (tmpPath_ne dst). pose proof (atomicWrite_unsynced d dst pieces n Hs).
  rewrite Hf by set_solver. destruct (atomicWrite_prefix d dst pieces n) as (Hd & _). by rewrite Hr in Hd.
Qed.

Lemma atomicWrite_done d dst pieces :
  sound d ->
  files (runFs d (atomicWrite d dst pieces)) !! dst = Some (concat pieces)
  /\ files (runFs d (atomicWrite d dst pieces)) !! tmpPath dst = None.
Proof.
  intros Hd. destruct (Hd (tmpPath dst)) as [Ho Hio]. pose proof (tmpPath_ne dst) as Hne.
  rewrite (runFs_save _ _ _ Ho), Hio. simpl. rewrite lookup_insert_eq, lookup_insert_ne by done.
  by rewrite lookup_delete_eq.
Qed.

(** ** Round trips *)

(** Paths that survive a text file: no newline, no leading hash. *)
Definition line_path (path : string) : Prop :=
  free_of newline (bytes_of_string path) /\ head (bytes_of_string path) <> Some hash.

#[export] Instance line_path_dec path : Decision (line_path path).
Proof. unfold line_path. apply _. Defined.

Lemma splitStateLine_back path rest :
  line_path path -> free_of space rest ->
  splitStateLine (bytes_of_string path ++ space :: rest) = Some (bytes_of_string path, rest).
Proof.
  intros [_ Hh] Hr. unfold splitStateLine.
  assert (rfind_char space (bytes_of_string path ++ space :: rest)
          = Some (length (bytes_of_string path))) as Hf by by apply rfind_char_app.
  assert (take (length (bytes_of_string path)) (bytes_of_string path ++ space :: rest)
            = bytes_of_string path) as Ht by apply take_app_length.
  assert (drop (S (length (bytes_of_string path))) (bytes_of_string path ++ space :: rest)
            = rest) as Hd.
  { rewrite drop_app_ge by lia. by replace (_ - _)%nat with 1%nat by lia. }
  destruct (bytes_of_string path ++ space :: rest) as [|c l] eqn:E; [by destruct (bytes_of_string path)|].
  rewrite Hf, Ht, Hd. rewrite decide_False; [done|]. intros ->.
  destruct (bytes_of_string path); simpl in *; simplify_eq.
Qed.

Lemma concat_lines {V} (f : string * V -> list byte) kvs :
  concat (map (fun kv => f kv ++ [newline]) kvs) = unlines (map f kvs).
Proof. unfold unlines. by rewrite map_map. Qed.

Lemma omap_map_Some {A B} (f : A -> B) (g : B -> option A) xs :
  Forall (fun x => g (f x) = Some x) xs -> omap g (map f xs) = xs.
Proof. intros H. induction H as [|x xs Hx _ IH]; [done|]. csimpl. by rewrite Hx, IH. Qed.

(** A map written line by line and read back entry by entry. *)
Lemma load_lines {V} (f : string * V -> list byte) (g : list byte -> option (string * V))
    (m : gmap string V) :
  map_Forall (fun k v => free_of newline (f (k, v)) /\ g (f (k, v)) = Some (k, v)) m ->
  store_all (omap g (getlines (unlines (map f (map_entries m))))) ∅ = m.
Proof.
  intros Hm. rewrite getlines_unlines.
  - rewrite omap_map_Some; [apply store_all_entries|].
    apply Forall_forall. intros [k v] H%elem_of_map_entries. by apply (Hm k v).
  - apply Forall_map, Forall_forall. intros [k v] H%elem_of_map_entries. by apply (Hm k v).
Qed.

Definition version_state_ok (m : gmap string Z) : Prop :=
  map_Forall (fun path v => line_path path /\ in_i32 v) m.
Definition rep_state_ok (m : gmap string (gset string)) : Prop :=
  map_Forall (fun path nodes => line_path path /\ set_Forall word_ok nodes) m.

Lemma versionPieces_lines m :
  concat (versionPieces m)
  = unlines (map (fun kv => bytes_of_string kv.1 ++ space :: decimal kv.2) (map_entries m)).
Proof.
  unfold versionPieces. rewrite <-concat_lines. f_equal.
  apply List.map_ext. intros kv. by rewrite <-app_assoc.
Qed.

Lemma load_versionPieces m :
  version_state_ok m ->
  store_all (omap versionStateEntry (getlines (concat (versionPieces m)))) ∅ = m.
Proof.
  intros Hm. rewrite versionPieces_lines. apply (load_lines _ _ m). intros path v Hp.
  destruct (Hm _ _ Hp) as [Hl Hv]. simpl.
  pose proof (decimal_no_space v) as Hd. split.
  - apply Forall_app. split; [apply Hl|]. constructor; [done|]. by apply no_space_free_of.
  - unfold versionStateEntry.
    rewrite splitStateLine_back by (done || by apply no_space_free_of).
    by rewrite stoi_decimal, string_of_bytes_of_string.
Qed.

Lemma repPieces_lines m :
  concat (repPieces m)
  = unlines (map (fun kv => bytes_of_string kv.1 ++ space :: join comma (map bytes_of_string (set_elems kv.2)))
                 (map_entries m)).
Proof.
  unfold repPieces. rewrite <-concat_lines. f_equal.
  apply List.map_ext. intros kv. by rewrite <-app_assoc.
Qed.

Lemma names_no_space (nodes : gset string) :
  set_Forall word_ok nodes -> no_space (join comma (map bytes_of_string (set_elems nodes))).
Proof.
  intros Hn. apply no_space_join; [done|]. apply Forall_map, Forall_forall.
  intros x Hx%elem_of_set_elems. by apply (Hn x).
Qed.

Lemma load_repPieces m :
  rep_state_ok m ->
  store_all (omap repStateEntry (getlines (concat (repPieces m)))) ∅ = m.
Proof.
  intros Hm. rewrite repPieces_lines. apply (load_lines _ _ m). intros path nodes Hp.
  destruct (Hm _ _ Hp) as [Hl Hn]. simpl. pose proof (names_no_space _ Hn) as Hj. split.
  - apply Forall_app. split; [apply Hl|]. constructor; [done|]. by apply no_space_free_of.
  - unfold repStateEntry.
    rewrite splitStateLine_back by (done || by apply no_space_free_of).
    rewrite string_of_bytes_of_string, parse_names, list_to_set_elems; [done|].
    apply Forall_forall. intros x Hx%elem_of_set_elems. by apply (Hn x).
Qed.

(** C15. A power failure while the server saves its state leaves each of the
    three files old or new.  At any point of [saveVersionMap] the contents of
    whatever was written and not synced may be lost or garbled, and still
    [loadVersionMap] gives the map that was on disk before or exactly the map
    being saved; the same for the replication map and for the epoch, and
    whether or not the rename succeeds.  This needs that the writes and the
    syncs themselves do not fail, paths without line breaks that do not start
    with a hash, and node names that are words.  A save in which nothing fails
    is read back exactly.  Otherwise see [short_write_replaces_state] and
    [hash_path_forgotten]. *)
Theorem state_survives_crash d (vm : gmap string Z) (rm : gmap string (gset string)) epoch n d' :
  version_state_ok vm -> rep_state_ok rm -> in_u32 epoch ->
  (forall p, io_room (io d p) = None /\ io_syncs (io d p) = true) ->
  (after_crash d (take n (saveVersionMap d vm)) d' -> loadVersionMap d' ∈ [loadVersionMap d; vm])
  /\ (after_crash d (take n (saveReplicationMap d rm)) d' ->
       loadReplicationMap d' ∈ [loadReplicationMap d; rm])
  /\ (after_crash d (take n (EpochStore_save d epoch)) d' -> EpochStore_load d' ∈ [EpochStore_load d; epoch])
  /\ (sound d ->
       loadVersionMap (runFs d (saveVersionMap d vm)) = vm
       /\ loadReplicationMap (runFs d (saveReplicationMap d rm)) = rm
       /\ EpochStore_load (runFs d (EpochStore_save d epoch)) = epoch).
Proof.
  intros Hvm Hrm He Hio.
  pose proof (load_versionPieces vm Hvm) as Lv. pose proof (load_repPieces rm Hrm) as Lr.
  assert (read_u32 (concat [decimal epoch; [newline]]) = epoch) as Le.
  { simpl. by apply read_u32_decimal. }
  unfold loadVersionMap, loadReplicationMap, EpochStore_load, read_text. rewrite !runFs_root.
  unfold saveVersionMap, saveReplicationMap, EpochStore_save. split_and!.
  - intros Hc. rewrite (proj1 Hc). destruct (atomicWrite_crash _ _ _ _ _ (proj2 (Hio _)) (proj1 (Hio _)) Hc) as [-> | ->];
      [by left|]. right. apply list_elem_of_singleton, Lv.
  - intros Hc. rewrite (proj1 Hc). destruct (atomicWrite_crash _ _ _ _ _ (proj2 (Hio _)) (proj1 (Hio _)) Hc) as [-> | ->];
      [by left|]. right. apply list_elem_of_singleton, Lr.
  - intros Hc. rewrite (proj1 Hc). destruct (atomicWrite_crash _ _ _ _ _ (proj2 (Hio _)) (proj1 (Hio _)) Hc) as [-> | ->];
      [by left|]. right. apply list_elem_of_singleton, Le.
  - intros Hd. split_and!.
    + by destruct (atomicWrite_done d (versionFilePath (root d)) (versionPieces vm) Hd) as [-> _].
    + by destruct (atomicWrite_done d (replicationPath (root d)) (repPieces rm) Hd) as [-> _].
    + by destruct (atomicWrite_done d (epochPath (root d)) [decimal epoch; [newline]] Hd) as [-> _].
Qed.

Definition demo_vm : gmap string Z := {["a.txt" := 5; "my notes.txt" := 2]}.
Definition demo_rm : gmap string (gset string) := {["a.txt" := {["dn1"; "dn2"]}]}.

Lemma demo_vm_ok : version_state_ok demo_vm.
Proof.
  unfold demo_vm. intros k v [[<- <-]|[_ [<- <-]%lookup_singleton_Some]]%lookup_insert_Some;
    (split; [apply (bool_decide_unpack _); reflexivity|unfold in_i32; lia]).
Qed.
Lemma demo_rm_ok : rep_state_ok demo_rm.
Proof.
  unfold demo_rm. intros k v [<- <-]%lookup_singleton_Some.
  split; apply (bool_decide_unpack _); vm_compute; exact I.
Qed.

(** The power fails when the new map has been written and not synced: the
    temporary file is garbage. *)
Definition demo_crashed : Disk := set_files demo_disk (<["/data/.squid/fileVersions.txt.tmp" := [zero]]> (files demo_disk)).

Lemma state_survives_crash_witness :
  loadVersionMap demo_crashed ∈ [loadVersionMap demo_disk; demo_vm]
  /\ (sound demo_disk -> loadVersionMap (runFs demo_disk (saveVersionMap demo_disk demo_vm)) = demo_vm).
Proof.
  destruct (state_survives_crash demo_disk demo_vm demo_rm 7 3 demo_crashed) as (Hv & _ & _ & Hd).
  - exact demo_vm_ok.
  - exact demo_rm_ok.
  - unfold in_u32. lia.
  - by split.
  - split; [|intros Hs; by apply Hd]. apply Hv. split; [reflexivity|]. intros p Hp.
    assert (unsynced (take 3 (saveVersionMap demo_disk demo_vm)) = {["/data/.squid/fileVersions.txt.tmp"]}) as E
      by (vm_compute; reflexivity).
    rewrite E in Hp. apply not_elem_of_singleton in Hp. unfold demo_crashed. cbn [files set_files].
    rewrite lookup_insert_ne by done. symmetry. apply (runFs_only "/data/.squid/fileVersions.txt.tmp"); [|done].
    repeat constructor.
Defined.

(** The stream is not asked whether it took everything: when the disk fills
    up during a save, the part that fits is renamed over the good file. *)
Theorem short_write_replaces_state :
  let full := mkDisk (root demo_disk) (files demo_disk) (fun _ => true) (fun _ => mkIo (Some 5%nat) true true) in
  loadVersionMap full = {["a.txt" := 4]}
  /\ loadVersionMap (runFs full (saveVersionMap full demo_vm)) = ∅.
Proof. vm_compute. split; reflexivity. Qed.

(** [loadVersionMap] takes a line that starts with a hash for a comment,
    but [saveVersionMap] writes such lines: a file whose name starts with [#]
    is dropped from the server's state at the next restart. *)
Theorem hash_path_forgotten :
  loadVersionMap (runFs demo_disk (saveVersionMap demo_disk {["#todo#" := 4; "b" := 1]}))
  = {["b" := 1]}.
Proof. vm_compute. reflexivity. Qed.
