(* ===== verification/ClusterConfig.v ===== *)
(** * The cluster configuration

    Models [common/src/config/ClusterConfig.hpp]: the ordered list of servers,
    the priority queries on it, and the parser of the configuration file. *)

From S2P Require Import Prelude Text.

Record ServerEntry : Type := mkServer { name : string; ip : string; port : Z }.

Record ClusterConfig : Type := mkConfig {
  servers : list ServerEntry;
  replication_factor : Z;
  heartbeat_interval_ms : Z;
  heartbeat_timeout_ms : Z;
  reconnect_attempts : Z;
  reconnect_delay_ms : Z;
  promotion_probe_attempts : Z;
  promotion_probe_delay_ms : Z }.

(** The default member initialisers. *)
Definition defaultConfig : ClusterConfig := mkConfig [] 2 500 1500 3 500 3 200.

(** ** Queries *)

Fixpoint priorityFrom (i : Z) (ss : list ServerEntry) (n : string) : Z :=
  match ss with
  | [] => -1
  | s :: ss => if decide (name s = n) then i else priorityFrom (i + 1) ss n
  end.
Definition priorityOf (cfg : ClusterConfig) (n : string) : Z := priorityFrom 0 (servers cfg) n.

Fixpoint higherIn (ss : list ServerEntry) (n : string) : list ServerEntry :=
  match ss with
  | [] => []
  | s :: ss => if decide (name s = n) then [] else s :: higherIn ss n
  end.
Definition higherPriorityThan (cfg : ClusterConfig) (n : string) : list ServerEntry :=
  higherIn (servers cfg) n.

Definition find (cfg : ClusterConfig) (n : string) : option ServerEntry :=
  List.find (fun s => bool_decide (name s = n)) (servers cfg).

Definition valid (cfg : ClusterConfig) : bool :=
  match servers cfg with [] => false | _ => true end.

Definition isPrimary (cfg : ClusterConfig) (n : string) : bool :=
  match servers cfg with [] => false | s :: _ => bool_decide (name s = n) end.

Definition standalone (ip : string) (port : Z) (n : string) : ClusterConfig :=
  mkConfig [mkServer n ip port] 2 500 1500 3 500 3 200.

(** ** The parser *)

Definition ltrim (s : list byte) : list byte := skip_ws s.
Definition rtrim (s : list byte) : list byte := reverse (skip_ws (reverse s)).
Definition trim (s : list byte) : list byte := rtrim (ltrim s).

(** [s.rfind(" ;")]: the last place of a two-character marker. *)
Fixpoint rfind2 (a b : byte) (l : list byte) : option nat :=
  match l with
  | [] => None
  | c :: l' =>
      match rfind2 a b l' with
      | Some i => Some (S i)
      | None => match l' with
                | c' :: _ => if decide (c = a /\ c' = b) then Some 0%nat else None
                | [] => None
                end
      end
  end.

Definition strip_comment (marker : byte) (v : list byte) : list byte :=
  match rfind2 space marker v with
  | Some pos => rtrim (take pos v)
  | None => v
  end.

Definition semicolon : byte := ";"%char.
Definition hash : byte := "#"%char.
Definition equals : byte := "="%char.
Definition colon : byte := ":"%char.
Definition lbracket : byte := "["%char.
Definition rbracket : byte := "]"%char.

Definition addServer (cfg : ClusterConfig) (e : ServerEntry) : ClusterConfig :=
  mkConfig (servers cfg ++ [e]) (replication_factor cfg) (heartbeat_interval_ms cfg)
    (heartbeat_timeout_ms cfg) (reconnect_attempts cfg) (reconnect_delay_ms cfg)
    (promotion_probe_attempts cfg) (promotion_probe_delay_ms cfg).

(** The field a key names; an unknown key changes nothing. *)
Definition setKey (cfg : ClusterConfig) (key : string) (v : Z) : ClusterConfig :=
  let '(mkConfig ss rf hi ht ra rd pa pd) := cfg in
  if decide (key = "replication_factor") then mkConfig ss v hi ht ra rd pa pd
  else if decide (key = "heartbeat_interval_ms") then mkConfig ss rf v ht ra rd pa pd
  else if decide (key = "heartbeat_timeout_ms") then mkConfig ss rf hi v ra rd pa pd
  else if decide (key = "reconnect_attempts") then mkConfig ss rf hi ht v rd pa pd
  else if decide (key = "reconnect_delay_ms") then mkConfig ss rf hi ht ra v pa pd
  else if decide (key = "promotion_probe_attempts") then mkConfig ss rf hi ht ra rd v pd
  else if decide (key = "promotion_probe_delay_ms") then mkConfig ss rf hi ht ra rd pa v
  else cfg.

(** [parseInt(cfg.key)]: a value [stoi] refuses changes nothing. *)
Definition setReplicationKey (cfg : ClusterConfig) (key : string) (value : list byte)
  : ClusterConfig :=
  match stoi value with
  | None => cfg
  | Some v => setKey cfg key v
  end.

Definition parseServer (cfg : ClusterConfig) (key value : list byte) : ClusterConfig :=
  match rfind_char colon value with
  | None => cfg
  | Some i =>
      match stoi (drop (S i) value) with
      | None => cfg
      | Some p => addServer cfg (mkServer (string_of_bytes key) (string_of_bytes (take i value)) p)
      end
  end.

(** One turn of the loop of [fromFile]: the configuration so far and the
    current section. *)
Definition parseLine (st : ClusterConfig * list byte) (line : list byte)
  : ClusterConfig * list byte :=
  let '(cfg, section) := st in
  let line := trim line in
  match line with
  | [] => st
  | c :: _ =>
      if decide (c = hash \/ c = semicolon) then st
      else if decide (c = lbracket /\ last line = Some rbracket)
      then (cfg, take (length line - 2) (drop 1 line))
      else match find_char equals line with
           | None => st
           | Some eq =>
               let key := trim (take eq line) in
               let value := trim (drop (S eq) line) in
               let value := strip_comment hash (strip_comment semicolon value) in
               if decide (section = bytes_of_string "servers") then (parseServer cfg key value, section)
               else if decide (section = bytes_of_string "replication")
               then (setReplicationKey cfg (string_of_bytes key) value, section)
               else st
           end
  end.

(** [fromFile], on the text of the file; [None] when it cannot be opened. *)
Definition fromFile (text : option (list byte)) : result ClusterConfig :=
  match text with
  | None => Throw "ClusterConfig: cannot open"
  | Some text => Ok (fold_left parseLine (getlines text) (defaultConfig, [])).1
  end.

(** ** Priorities *)

Lemma priorityFrom_spec i ss n :
  0 <= i ->
  match List.find (fun s => bool_decide (name s = n)) ss with
  | Some s => exists k, priorityFrom i ss n = i + Z.of_nat k /\ ss !! k = Some s /\ name s = n
                /\ higherIn ss n = take k ss /\ Forall (fun s' => name s' <> n) (take k ss)
  | None => priorityFrom i ss n = -1 /\ higherIn ss n = ss /\ Forall (fun s' => name s' <> n) ss
  end.
Proof.
  revert i. induction ss as [|s ss IH]; intros i Hi; [done|]. simpl.
  case_bool_decide as E.
  - exists 0%nat. rewrite !decide_True by done. split_and!; [lia|done|done|done|constructor].
  - rewrite !decide_False by done. specialize (IH (i + 1) ltac:(lia)).
    destruct (List.find _ ss) as [s'|].
    + destruct IH as (k & -> & Hk & Hn & -> & Hall). exists (S k). split_and!; [lia|done|done|done|].
      by constructor.
    + destruct IH as (-> & -> & Hall). split_and!; [done|done|by constructor].
Qed.

(** The declaration order is the priority order: the priority of a server
    is its position, the servers of higher priority are exactly those before
    it, priority 0 is being primary; for a name that is not configured the
    priority is -1 and every server counts as higher. *)
Theorem priority_is_position cfg n :
  (forall s, find cfg n = Some s ->
     exists k, priorityOf cfg n = Z.of_nat k /\ servers cfg !! k = Some s /\ name s = n
       /\ higherPriorityThan cfg n = take k (servers cfg)
       /\ Forall (fun s' => name s' <> n) (higherPriorityThan cfg n))
  /\ (find cfg n = None -> priorityOf cfg n = -1 /\ higherPriorityThan cfg n = servers cfg)
  /\ (isPrimary cfg n = true <-> priorityOf cfg n = 0)
  /\ (isPrimary cfg n = true -> higherPriorityThan cfg n = []).
Proof.
  pose proof (priorityFrom_spec 0 (servers cfg) n ltac:(lia)) as Hs.
  unfold find, priorityOf, higherPriorityThan, isPrimary. split; [|split; [|split]].
  - intros s Hf. rewrite Hf in Hs. destruct Hs as (k & -> & Hk & Hn & -> & Hall).
    exists k. split_and!; [lia|done|done|done|done].
  - intros Hf. rewrite Hf in Hs. by destruct Hs as (-> & -> & _).
  - destruct (servers cfg) as [|s ss]; [done|]. rewrite bool_decide_eq_true.
    cbn [priorityFrom]. split.
    + intros Hn. by rewrite decide_True.
    + case_decide; [done|]. pose proof (priorityFrom_spec (0 + 1) ss n ltac:(lia)) as H1.
      destruct (List.find _ ss) as [s'|]; [destruct H1 as (k & -> & _)|destruct H1 as (-> & _)]; lia.
  - destruct (servers cfg) as [|s ss]; [done|]. intros Hn%bool_decide_eq_true. simpl.
    by rewrite decide_True.
Qed.

Definition demo_config : ClusterConfig :=
  mkConfig [mkServer "server1" "10.0.0.1" 9000; mkServer "server2" "10.0.0.2" 9000]
           3 500 1500 3 500 3 200.

Lemma priority_is_position_witness :
  find demo_config "server2" = Some (mkServer "server2" "10.0.0.2" 9000)
  /\ exists k, priorityOf demo_config "server2" = Z.of_nat k
       /\ servers demo_config !! k = Some (mkServer "server2" "10.0.0.2" 9000)
       /\ name (mkServer "server2" "10.0.0.2" 9000) = "server2"
       /\ higherPriorityThan demo_config "server2" = take k (servers demo_config)
       /\ Forall (fun s' => name s' <> "server2") (higherPriorityThan demo_config "server2").
Proof. split; [reflexivity|]. apply (priority_is_position demo_config "server2"). reflexivity. Defined.

(** ** Reading back a printed configuration *)

Definition setting (key value : list byte) : list byte :=
  key ++ bytes_of_string " = " ++ value.

Definition serverLine (s : ServerEntry) : list byte :=
  setting (bytes_of_string (name s)) (bytes_of_string (ip s) ++ colon :: decimal (port s)).

(** A configuration file in the format of the header comment. *)
Definition configLines (cfg : ClusterConfig) : list (list byte) :=
  [bytes_of_string "[servers]"] ++ map serverLine (servers cfg)
  ++ [bytes_of_string "[replication]"]
  ++ map (fun kv => setting (bytes_of_string kv.1) (decimal kv.2))
       [("replication_factor", replication_factor cfg);
        ("heartbeat_interval_ms", heartbeat_interval_ms cfg);
        ("heartbeat_timeout_ms", heartbeat_timeout_ms cfg);
        ("reconnect_attempts", reconnect_attempts cfg);
        ("reconnect_delay_ms", reconnect_delay_ms cfg);
        ("promotion_probe_attempts", promotion_probe_attempts cfg);
        ("promotion_probe_delay_ms", promotion_probe_delay_ms cfg)].

Definition key_ok (key : list byte) : Prop :=
  key <> [] /\ no_space key /\ free_of equals key
  /\ head key <> Some hash /\ head key <> Some semicolon /\ head key <> Some lbracket.

#[export] Instance key_ok_dec key : Decision (key_ok key).
Proof. unfold key_ok. apply _. Defined.

Definition server_ok (s : ServerEntry) : Prop :=
  key_ok (bytes_of_string (name s)) /\ no_space (bytes_of_string (ip s)) /\ in_i32 (port s).

Definition config_ok (cfg : ClusterConfig) : Prop :=
  Forall server_ok (servers cfg)
  /\ Forall in_i32 [replication_factor cfg; heartbeat_interval_ms cfg; heartbeat_timeout_ms cfg;
       reconnect_attempts cfg; reconnect_delay_ms cfg; promotion_probe_attempts cfg;
       promotion_probe_delay_ms cfg].

Lemma skip_ws_id l : match l with [] => True | c :: _ => is_space c = false end -> skip_ws l = l.
Proof. destruct l as [|c l]; [done|]. simpl. by intros ->. Qed.

Lemma no_space_head l : no_space l -> match l with [] => True | c :: _ => is_space c = false end.
Proof. intros H. destruct H; [done|done]. Qed.

Lemma trim_id a b : a <> [] -> no_space a -> b <> [] -> no_space b ->
  forall mid, trim (a ++ mid ++ b) = a ++ mid ++ b.
Proof.
  intros Ha Hna Hb Hnb mid. unfold trim, ltrim, rtrim. rewrite (skip_ws_id (a ++ mid ++ b)).
  - rewrite skip_ws_id; [apply reverse_involutive|]. rewrite !reverse_app.
    assert (no_space (reverse b)) as Hr by by apply Forall_reverse.
    destruct (reverse b) as [|c rb] eqn:E.
    + by apply (f_equal reverse) in E; rewrite reverse_involutive in E.
    + simpl. by apply (no_space_head (c :: rb)).
  - destruct a as [|c a]; [done|]. simpl. by apply (no_space_head (c :: a)).
Qed.

Lemma trim_word w : no_space w -> trim w = w.
Proof.
  intros Hw. unfold trim, ltrim, rtrim. rewrite (skip_ws_id w) by by apply no_space_head.
  rewrite skip_ws_id; [apply reverse_involutive|]. apply no_space_head. by apply Forall_reverse.
Qed.

Lemma trim_space_l w : no_space w -> trim (space :: w) = w.
Proof. intros Hw. exact (trim_word w Hw). Qed.

Lemma trim_space_r w : w <> [] -> no_space w -> trim (w ++ [space]) = w.
Proof.
  intros Hne Hw. unfold trim, ltrim. rewrite skip_ws_id.
  - unfold rtrim. rewrite reverse_app. simpl. rewrite skip_ws_id; [apply reverse_involutive|].
    apply no_space_head. by apply Forall_reverse.
  - destruct w as [|c w]; [done|]. simpl. by apply (no_space_head (c :: w)).
Qed.

Lemma rfind2_no_space b l : no_space l -> rfind2 space b l = None.
Proof.
  intros H. induction H as [|c l Hc Hl IH]; [done|]. simpl. rewrite IH. destruct l; [done|].
  rewrite decide_False; [done|]. by intros [-> _].
Qed.

Lemma strip_comment_word b v : no_space v -> strip_comment b v = v.
Proof. intros Hv. unfold strip_comment. by rewrite rfind2_no_space. Qed.

(** A canonical setting is understood in the current section. *)
Lemma parseLine_setting cfg section key value :
  key_ok key -> value <> [] -> no_space value ->
  parseLine (cfg, section) (setting key value) =
    (if decide (section = bytes_of_string "servers") then parseServer cfg key value
     else if decide (section = bytes_of_string "replication")
     then setReplicationKey cfg (string_of_bytes key) value else cfg, section).
Proof.
  intros (Hne & Hk & Heq & Hh & Hs & Hl) Hv Hnv. unfold parseLine, setting.
  rewrite trim_id by done.
  assert (find_char equals (key ++ bytes_of_string " = " ++ value) = Some (S (length key))) as Hfind.
  { replace (key ++ bytes_of_string " = " ++ value)
      with ((key ++ [space]) ++ equals :: (space :: value)) by by rewrite <-app_assoc.
    rewrite find_char_app; [rewrite length_app; simpl; f_equal; lia|].
    apply Forall_app. split; [done|]. by repeat constructor. }
  rewrite Hfind. destruct key as [|c key]; [done|]. cbn [app].
  rewrite decide_False by (intros [->| ->]; done).
  rewrite decide_False by (intros [-> _]; done).
  assert (take (S (length (c :: key))) (c :: key ++ bytes_of_string " = " ++ value)
          = (c :: key) ++ [space]) as ->.
  { change (c :: key ++ bytes_of_string " = " ++ value)
      with ((c :: key) ++ [space] ++ equals :: space :: value).
    rewrite app_assoc. rewrite take_app_length'; [done|]. rewrite length_app. simpl. lia. }
  assert (drop (S (S (length (c :: key)))) (c :: key ++ bytes_of_string " = " ++ value)
          = space :: value) as ->.
  { change (c :: key ++ bytes_of_string " = " ++ value)
      with ((c :: key) ++ [space; equals] ++ space :: value).
    rewrite app_assoc. rewrite drop_app_length'; [done|]. rewrite length_app. simpl. lia. }
  rewrite trim_space_r, trim_space_l by done. rewrite (strip_comment_word semicolon), (strip_comment_word hash) by done.
  do 2 (case_decide; [done|]). done.
Qed.

Definition servers_section : list byte := bytes_of_string "servers".
Definition replication_section : list byte := bytes_of_string "replication".

Lemma parse_server_lines ss cfg :
  Forall server_ok ss ->
  fold_left parseLine (map serverLine ss) (cfg, servers_section)
  = (fold_left addServer ss cfg, servers_section).
Proof.
  intros H. revert cfg. induction H as [|s ss (Hn & Hip & Hp) Hss IH]; intros cfg; [done|].
  cbn [map fold_left]. unfold serverLine at 2.
  rewrite parseLine_setting; [|done|by destruct (bytes_of_string (ip s))|].
  - rewrite decide_True by done. unfold parseServer.
    assert (free_of colon (decimal (port s))) as Hfree.
    { eapply Forall_impl; [apply decimal_chars|]. intros c [Hc|Hc] ->; [by vm_compute in Hc|done]. }
    rewrite rfind_char_app by done. rewrite take_app_length.
    replace (drop (S (length (bytes_of_string (ip s)))) (bytes_of_string (ip s) ++ colon :: decimal (port s)))
      with (decimal (port s)).
    + rewrite stoi_decimal, !string_of_bytes_of_string by done. rewrite IH. by destruct s.
    + rewrite drop_app_ge by lia. by replace (_ - _)%nat with 1%nat by lia.
  - apply Forall_app. split; [done|]. constructor; [done|]. apply decimal_no_space.
Qed.

Lemma fold_addServer ss cfg :
  fold_left addServer ss cfg =
  mkConfig (servers cfg ++ ss) (replication_factor cfg) (heartbeat_interval_ms cfg)
    (heartbeat_timeout_ms cfg) (reconnect_attempts cfg) (reconnect_delay_ms cfg)
    (promotion_probe_attempts cfg) (promotion_probe_delay_ms cfg).
Proof.
  revert cfg. induction ss as [|s ss IH]; intros cfg; simpl.
  - rewrite app_nil_r. by destruct cfg.
  - rewrite IH. simpl. by rewrite <-app_assoc.
Qed.

Lemma parse_key_line cfg key v :
  key_ok (bytes_of_string key) -> in_i32 v ->
  parseLine (cfg, replication_section) (setting (bytes_of_string key) (decimal v))
  = (setKey cfg key v, replication_section).
Proof.
  intros Hk Hv. rewrite parseLine_setting; [|done|apply decimal_not_nil|apply decimal_no_space].
  rewrite string_of_bytes_of_string. unfold setReplicationKey. by rewrite stoi_decimal.
Qed.

(** A configuration file in the documented format means what it says:
    [fromFile] on the printed form of a configuration returns exactly that
    configuration, servers in order and every parameter set. *)
Theorem config_roundtrip cfg :
  config_ok cfg -> fromFile (Some (unlines (configLines cfg))) = Ok cfg.
Proof.
  intros [Hss Hv]. unfold fromFile. f_equal. rewrite getlines_unlines.
  - unfold configLines. rewrite !fold_left_app. cbn [fold_left].
    change (parseLine (defaultConfig, []) (bytes_of_string "[servers]")) with (defaultConfig, servers_section).
    rewrite parse_server_lines, fold_addServer by done.
    change (parseLine (?c, servers_section) (bytes_of_string "[replication]")) with (c, replication_section).
    cbn [map fold_left fst snd]. repeat (apply Forall_cons in Hv as [? Hv]).
    assert (forall key, bool_decide (key_ok (bytes_of_string key)) = true -> key_ok (bytes_of_string key)) as Hk
      by (intros key; apply bool_decide_eq_true_1).
    rewrite !parse_key_line by (first [apply Hk; reflexivity | done]).
    by destruct cfg.
  - unfold configLines. repeat (apply Forall_app; split); try (by repeat constructor).
    + apply Forall_map. eapply Forall_impl; [exact Hss|]. intros s (Hn & Hip & _). simpl.
      repeat (apply Forall_app; split); try (apply no_space_free_of; [done|]; first [apply Hn|done]).
      * by repeat constructor.
      * constructor; [done|]. apply no_space_free_of; [done|apply decimal_no_space].
    + repeat constructor; simpl; repeat (apply Forall_app; split);
        try (by repeat constructor); (apply no_space_free_of; [done|apply decimal_no_space]).
Qed.

Lemma config_roundtrip_witness :
  fromFile (Some (unlines (configLines demo_config))) = Ok demo_config.
Proof.
  apply config_roundtrip. split.
  - repeat constructor; try (apply (bool_decide_unpack _); reflexivity); simpl; lia.
  - repeat constructor; simpl; lia.
Defined.
