(* ===== verification/Session.v ===== *)
(** * Connection sessions

    Models [common/src/networking/ConnectionSession.hpp]: the worker's task
    queue, [post] and [call], and the requests a server makes through a
    session.  The class [Session] is what the managers of the server use of a
    session; [ConnectionSession] over any channel is an instance of it.  The
    class [DataNodeSession] adds what a server may rely on when the peer is a
    datanode, and [Node] is an in-memory datanode that satisfies it. *)

From S2P Require Import Prelude Text Wire FileManager FileTransfer Protocol.

(** ** Calls that may not return

    [call] waits on a future without a timeout: when the worker of the session
    is gone it waits for ever. *)
Inductive outcome (A : Type) : Type :=
| Done (r : result A)
| Hang.
Arguments Done {A} r.
Arguments Hang {A}.

Definition SO (S A : Type) : Type := S -> outcome A * S.

Definition sret {S A} (a : A) : SO S A := fun s => (Done (Ok a), s).
Definition sbind {S A B} (m : SO S A) (k : A -> SO S B) : SO S B := fun s =>
  let '(r, s) := m s in
  match r with
  | Done (Ok a) => k a s
  | Done (Throw e) => (Done (Throw e), s)
  | Hang => (Hang, s)
  end.
Definition smodify {S} (f : S -> S) : SO S unit := fun s => (Done (Ok tt), f s).
Definition sgets {S A} (f : S -> A) : SO S A := fun s => (Done (Ok (f s)), s).

Lemma sbind_done {S A B} (m : SO S A) (k : A -> SO S B) s a s1 :
  m s = (Done (Ok a), s1) -> sbind m k s = k a s1.
Proof. unfold sbind. by intros ->. Qed.
Lemma sbind_modify {S B} f (k : unit -> SO S B) s : sbind (smodify f) k s = k tt (f s).
Proof. done. Qed.
Lemma sbind_gets {S A B} (f : S -> A) (k : A -> SO S B) s : sbind (sgets f) k s = k (f s) s.
Proof. done. Qed.

Notation "'let!' x := m 'in' k" := (sbind m (fun x => k))
  (at level 10, x name, m at level 100, k at level 200,
   format "'let!'  x  :=  m  'in' '//' k") : squid_scope.
Notation "'do!' m 'in' k" := (sbind m (fun _ => k))
  (at level 10, m at level 100, k at level 200,
   format "'do!'  m  'in' '//' k") : squid_scope.

Fixpoint sfor_each {S A} (xs : list A) (body : A -> SO S unit) : SO S unit :=
  match xs with
  | [] => sret tt
  | x :: xs => do! body x in sfor_each xs body
  end.

(** ** [ConnectionSession] *)

Record ConnectionSession (C : Type) : Type := mkSession {
  alive_ : bool;
  protocol_ : SquidProtocol C;
  tasks_ : list (SE (SquidProtocol C) unit);
  readSuspended_ : bool }.
Arguments mkSession {C}.
Arguments alive_ {C}.
Arguments protocol_ {C}.
Arguments tasks_ {C}.
Arguments readSuspended_ {C}.

Section session.
Context {C : Type} `{NetworkChannel C}.
Local Abbreviation CS := (ConnectionSession C).
Local Abbreviation P := (SquidProtocol C).

(** The constructor: the worker does not run yet. *)
Definition makeSession (c : C) (nodeType processName : string) : CS :=
  mkSession false (newProtocol c nodeType processName) [] false.
Definition start (s : CS) : CS := mkSession true (protocol_ s) (tasks_ s) (readSuspended_ s).
Definition newSession (c : C) (nodeType processName : string) : CS :=
  start (makeSession c nodeType processName).

Definition cs_isAlive (s : CS) : bool := alive_ s && alive (protocol_ s).
Definition cs_setIsAlive (b : bool) (s : CS) : CS :=
  mkSession b (setIsAlive (protocol_ s) b) (tasks_ s) (readSuspended_ s).
Definition suspendReads (s : CS) : CS := mkSession (alive_ s) (protocol_ s) (tasks_ s) true.
Definition resumeReads (s : CS) : CS := mkSession (alive_ s) (protocol_ s) (tasks_ s) false.

Definition post (fn : SE P unit) (s : CS) : CS :=
  mkSession (alive_ s) (protocol_ s) (tasks_ s ++ [fn]) (readSuspended_ s).

(** [drainQueue]: all tasks, oldest first.  An exception of a posted task
    leaves the worker. *)
Definition drainQueue : SE CS unit := fun s =>
  let '(r, p) := for_each (tasks_ s) (fun task => task) (protocol_ s) in
  (r, mkSession (alive_ s) p [] (readSuspended_ s)).

(** [call(fn)] from another thread: the worker, if it runs, empties the
    queue, [fn] last. *)
Definition call {A} (fn : SE P A) : SO CS A := fun s =>
  if cs_isAlive s then
    let '(r, s) := drainQueue s in
    match r with
    | Throw e => (Done (Throw e), s)
    | Ok _ => let '(a, p) := fn (protocol_ s) in
              (Done a, mkSession (alive_ s) p (tasks_ s) (readSuspended_ s))
    end
  else (Hang, s).

(** What the server's handlers of CREATE and UPDATE hand to [call]: tell the
    peer to go on, then read its data. *)
Definition acceptUpload : SE P (bool * list byte) :=
  do* response true in receiveFileData.

(** The worker's loop condition after a call: when the protocol has died it
    leaves [run] and sets [alive_]. *)
Definition workerStep (s : CS) : CS :=
  if cs_isAlive s then s else mkSession false (protocol_ s) (tasks_ s) (readSuspended_ s).

(** One turn of [run] on the worker thread: the queue, then, for a session
    that reads, the next message when [select] finds the socket [ready] and
    reads are not suspended.  A closed socket or a dead protocol ends the
    loop. *)
Definition workerTurn (readLoop ready : bool) (handle : Message -> SE CS unit) : SE CS unit := fun s =>
  if negb (cs_isAlive s) then (Ok tt, workerStep s)
  else
    let '(r, s) := drainQueue s in
    match r with
    | Throw e => (Throw e, s)
    | Ok _ =>
        if negb readLoop then (Ok tt, s)
        else if negb match channel (protocol_ s) with Some c => isOpen c | None => false end
        then (Ok tt, mkSession false (protocol_ s) (tasks_ s) (readSuspended_ s))
        else if negb ready || readSuspended_ s then (Ok tt, s)
        else
          let '(mex, p) := receiveAndParse (protocol_ s) in
          if negb (alive p) then (Ok tt, mkSession false p (tasks_ s) (readSuspended_ s))
          else handle mex (mkSession (alive_ s) p (tasks_ s) (readSuspended_ s))
    end.

(** [stop]. *)
Definition stop (s : CS) : CS :=
  mkSession false (setChannel (protocol_ s) (close <$> channel (protocol_ s)))
            (tasks_ s) (readSuspended_ s).
End session.

(** ** What the server uses of a session *)

Class Session (S : Type) : Type := {
  sess_isAlive : S -> bool;
  sess_setIsAlive : bool -> S -> S;
  sess_createFile : string -> Z -> list byte -> SO S Message;
  sess_updateFile : string -> Z -> list byte -> SO S Message;
  sess_readFile : string -> SO S (Message * list byte);
  sess_deleteFile : string -> SO S Message;
  sess_syncStatus : SO S Message;
  sess_heartbeat : SO S Message;
  sess_response : bool -> SO S unit;
  sess_responseV : bool -> Z -> SO S unit;
  sess_responseMap : gmap string Z -> SO S unit;
  sess_sendFileData : list byte -> SO S bool;
  sess_acceptUpload : SO S (bool * list byte);
  sess_suspendReads : S -> S;
  sess_resumeReads : S -> S;
  sess_sendStateSnap : gmap string Z -> gmap string (gset string) -> Z -> SO S unit }.

#[export] Instance ConnectionSession_session {C} `{NetworkChannel C} : Session (ConnectionSession C) := {
  sess_isAlive := cs_isAlive;
  sess_setIsAlive := cs_setIsAlive;
  sess_createFile path v data := call (createFileData path v data);
  sess_updateFile path v data := call (updateFileData path v data);
  sess_readFile path := call (readFile path);
  sess_deleteFile path := call (deleteFile path);
  sess_syncStatus := call syncStatus;
  sess_heartbeat := call heartbeat;
  sess_response b := call (response b);
  sess_responseV b v := call (responseV b v);
  sess_responseMap m := call (responseMap m);
  sess_sendFileData data := call (sendFileData data);
  sess_acceptUpload := call acceptUpload;
  sess_suspendReads := suspendReads;
  sess_resumeReads := resumeReads;
  sess_sendStateSnap vm rm ep := call (sendStateSnap vm rm ep) }.

(** ** What a server may rely on of a datanode

    [holds] is the version and the contents the datanode has recorded for a
    path.  An acknowledged write is stored, an acknowledged read is current,
    a request touches no other path; a refused write may leave anything under
    its own path.  [dn_path] are the paths that name different files of their
    own on the datanode; versions are ints. *)
Class DataNodeSession (S : Type) `{Session S} : Type := {
  dn_path : string -> Prop;
  holds : S -> string -> option (Z * list byte);
  dn_create s path v data r s' :
    dn_path path -> in_i32 v -> sess_createFile path v data s = (r, s') ->
    (forall m, r = Done (Ok m) -> isAck m = true -> holds s' path = Some (v, data))
    /\ (forall q, dn_path q -> q <> path -> holds s' q = holds s q);
  dn_update s path v data r s' :
    dn_path path -> in_i32 v -> sess_updateFile path v data s = (r, s') ->
    (forall m, r = Done (Ok m) -> isAck m = true -> holds s' path = Some (v, data))
    /\ (forall q, dn_path q -> q <> path -> holds s' q = holds s q);
  dn_read s path r s' :
    dn_path path -> sess_readFile path s = (r, s') ->
    (forall m data, r = Done (Ok (m, data)) -> isAck m = true ->
       exists v, holds s path = Some (v, data) /\ i32 (getUint32 m FILE_VERSION 0) = v)
    /\ (forall q, dn_path q -> holds s' q = holds s q);
  dn_delete s path r s' :
    dn_path path -> sess_deleteFile path s = (r, s') ->
    (forall m, r = Done (Ok m) -> isAck m = true -> holds s' path = None)
    /\ (forall q, dn_path q -> q <> path -> holds s' q = holds s q);
  dn_sync s r s' : sess_syncStatus s = (r, s') -> forall q, dn_path q -> holds s' q = holds s q;
  dn_heartbeat s r s' : sess_heartbeat s = (r, s') -> forall q, dn_path q -> holds s' q = holds s q }.

(** ** A peer in memory

    As a datanode it serves requests: [n_answers] says of each coming request
    whether the node serves it; when it is used up every request is served.  As
    a client it has [n_upload] to send, and [n_sent] is what it was answered. *)
Record Node : Type := mkPeer {
  n_alive : bool;
  n_files : gmap string (Z * list byte);
  n_answers : list bool;
  n_upload : list byte;
  n_suspended : bool;
  n_sent : list Message }.

Definition mkNode (alive : bool) (files : gmap string (Z * list byte)) (answers : list bool) : Node :=
  mkPeer alive files answers [] false [].
Definition mkClient (upload : list byte) : Node := mkPeer true ∅ [] upload false [].

Definition set_files (fs : gmap string (Z * list byte)) (answers : list bool) (n : Node) : Node :=
  mkPeer (n_alive n) fs answers (n_upload n) (n_suspended n) (n_sent n).
Definition set_suspended (b : bool) (n : Node) : Node :=
  mkPeer (n_alive n) (n_files n) (n_answers n) (n_upload n) b (n_sent n).

(** The peer is told [m]. *)
Definition node_told {A} (m : Message) (a : A) : SO Node A := fun n =>
  if n_alive n
  then (Done (Ok a), mkPeer true (n_files n) (n_answers n) (n_upload n) (n_suspended n) (n_sent n ++ [m]))
  else (Hang, n).

Definition node_ack (v : Z) : Message :=
  mkMessage RESPONSE FLAG_RESPONSE 0 0 [fieldBool ACK true; fieldUint32 FILE_VERSION (u32 v)].

Definition node_request {A} (serve : gmap string (Z * list byte) -> A * gmap string (Z * list byte))
    (refuse : A) : SO Node A := fun n =>
  if n_alive n then
    match n_answers n with
    | false :: more => (Done (Ok refuse), set_files (n_files n) more n)
    | answers =>
        let '(a, fs) := serve (n_files n) in (Done (Ok a), set_files fs (tail answers) n)
    end
  else (Hang, n).

#[export] Instance Node_session : Session Node := {
  sess_isAlive := n_alive;
  sess_setIsAlive b n := mkPeer b (n_files n) (n_answers n) (n_upload n) (n_suspended n) (n_sent n);
  sess_createFile path v data :=
    node_request (fun fs => (makeAck, <[path := (v, data)]> fs)) makeNack;
  sess_updateFile path v data :=
    node_request (fun fs => (node_ack v, <[path := (v, data)]> fs)) makeNack;
  sess_readFile path :=
    node_request (fun fs => match fs !! path with
                            | Some (v, data) => if decide (i32 v = v) then (node_ack v, data, fs)
                                                else (makeNack, [], fs)
                            | None => (makeNack, [], fs)
                            end) (makeNack, []);
  sess_deleteFile path := node_request (fun fs => (makeAck, delete path fs)) makeNack;
  sess_syncStatus :=
    node_request (fun fs => (mkMessage RESPONSE FLAG_RESPONSE 0 0 (versionMapFields (fst <$> fs)), fs))
                 makeNack;
  sess_heartbeat := node_request (fun fs => (makeAck, fs)) makeNack;
  sess_response b := node_told (if b then makeAck else makeNack) tt;
  sess_responseV b v := node_told (if b then node_ack v else makeNack) tt;
  sess_responseMap m := node_told (mkMessage RESPONSE FLAG_RESPONSE 0 0 (versionMapFields m)) tt;
  sess_sendFileData data := sret true;
  sess_acceptUpload := fun n => node_told makeAck (true, n_upload n) n;
  sess_suspendReads := set_suspended true;
  sess_resumeReads := set_suspended false;
  sess_sendStateSnap vm rm ep := sret tt }.

(** What a request to a node does, served or refused. *)
Lemma node_request_spec {A} serve (refuse : A) n r n' :
  node_request serve refuse n = (r, n') ->
  (n_files n' = n_files n /\ (r = Hang \/ r = Done (Ok refuse)))
  \/ (r = Done (Ok (serve (n_files n)).1) /\ n_files n' = (serve (n_files n)).2).
Proof.
  unfold node_request. destruct (n_alive n); [|intros [= <- <-]; auto].
  destruct (n_answers n) as [|[] more]; try (intros [= <- <-]; by auto);
    destruct (serve (n_files n)) as [a fs]; intros [= <- <-]; auto.
Qed.

Lemma isAck_makeNack : isAck makeNack = false.
Proof. reflexivity. Qed.

#[export] Program Instance Node_datanode : DataNodeSession Node := {
  dn_path _ := True;
  holds n path := n_files n !! path }.
Next Obligation.
  simpl. intros n path v data r n' _ _ Hr. apply node_request_spec in Hr as [[-> Hr]|[-> ->]]; simpl.
  - split; [|done]. by intros m -> Hm; destruct Hr as [?|[= ->]].
  - split; [by rewrite lookup_insert_eq|]. intros q _ Hq. by rewrite lookup_insert_ne.
Qed.
Next Obligation.
  simpl. intros n path v data r n' _ _ Hr. apply node_request_spec in Hr as [[-> Hr]|[-> ->]]; simpl.
  - split; [|done]. by intros m -> Hm; destruct Hr as [?|[= ->]].
  - split; [by rewrite lookup_insert_eq|]. intros q _ Hq. by rewrite lookup_insert_ne.
Qed.
Next Obligation.
  simpl. intros n path r n' _ Hr. apply node_request_spec in Hr as [[Hf Hr]|[-> ->]]; simpl.
  - split; [|by rewrite Hf]. intros m data -> Hm. by destruct Hr as [?|[= -> ->]].
  - destruct (n_files n !! path) as [[v data]|] eqn:E; [|split; [by intros m data [= <- <-]|done]].
    case_decide as Hv; simpl; [|split; [by intros m d [= <- <-]|done]].
    split; [|done]. intros m data' [= <- <-] _. exists v. split; [done|].
    unfold node_ack. rewrite (getUint32_field _ _ (u32 v)) by done. by rewrite !i32_of_u32.
Qed.
Next Obligation.
  simpl. intros n path r n' _ Hr. apply node_request_spec in Hr as [[-> Hr]|[-> ->]]; simpl.
  - split; [|done]. by intros m -> Hm; destruct Hr as [?|[= ->]].
  - split; [by rewrite lookup_delete_eq|]. intros q _ Hq. by rewrite lookup_delete_ne.
Qed.
Next Obligation.
  simpl. intros n r n' Hr q _. apply node_request_spec in Hr as [[-> _]|[-> ->]]; done.
Qed.
Next Obligation.
  simpl. intros n r n' Hr q _. apply node_request_spec in Hr as [[-> _]|[-> ->]]; done.
Qed.

(** ** Calls on a session whose peer is gone *)

Lemma receive_at_end {C} `{StreamChannel C} (p : SquidProtocol C) :
  channel p <> None -> reorderBuffer p = ∅ -> input p = [] ->
  exists p', receive p = (Ok makeNack, p') /\ alive p' = false.
Proof.
  intros Hch Hb Hin. unfold receive, lift, receiveAndParse.
  cbn [receiveAndParse_loop]. unfold popNextBuffered. rewrite Hb, lookup_empty.
  destruct (receiveFrame_spec p) as (raw & p1 & -> & [[-> [_ Hdead]]|(Hrx & _ & m & Hw)]).
  - exists p1. auto.
  - pose proof (rx_input _ _ _ Hrx) as Hi. rewrite Hin in Hi. symmetry in Hi.
    apply app_eq_nil in Hi as [-> _]. apply wellframed_length in Hw. simpl in Hw. lia.
Qed.

Lemma call_idle {C} `{NetworkChannel C} {A} (fn : SE (SquidProtocol C) A) s :
  cs_isAlive s = true -> tasks_ s = [] ->
  call fn s = let '(a, p) := fn (protocol_ s) in
              (Done a, mkSession (alive_ s) p [] (readSuspended_ s)).
Proof. intros Ha Ht. unfold call, drainQueue. rewrite Ha, Ht. done. Qed.

(** A request to a peer that has gone away costs the session: [createFile]
    (the other requests alike) comes back with a NACK and the worker leaves its
    loop, and from then on every [call] on the session waits for ever, as no
    timeout is ever set.  [HeartbeatManager] calls without looking at
    [isAlive] first. *)
Theorem call_after_disconnect_hangs {C} `{StreamChannel C} (s : ConnectionSession C) path v data a b o :
  cs_isAlive s = true -> tasks_ s = [] -> conn (protocol_ s) a b [] o -> short path = true ->
  exists s', sess_createFile path v data s = (Done (Ok makeNack), s')
    /\ sess_isAlive s' = false
    /\ forall A (fn : SE (SquidProtocol C) A), (call fn (workerStep s')).1 = Hang.
Proof.
  intros Ha Ht Hc Hs. cbn [sess_createFile ConnectionSession_session].
  rewrite call_idle by done. unfold createFileData, upload, bind.
  pose proof (buildFrame_ok CREATE_FILE 0
    [fieldString FILE_PATH path; fieldUint32 FILE_VERSION (u32 v)] 0) as Hf.
  specialize (Hf ltac:(change (short path && (true && true) = true); by rewrite Hs)).
  destruct (send_ok _ _ _ _ _ _ _ Hf Hc) as (p1 & Hsend & Hc1).
  unfold createFileFormatV. rewrite Hsend. destruct Hc1 as [Hal Hw _ _ Hb Hi _].
  destruct (receive_at_end p1) as (p2 & -> & Hdead);
    [unfold can_write in Hw; by destruct (channel p1)|done|done|].
  eexists. split; [reflexivity|]. unfold ret. cbn [sess_isAlive ConnectionSession_session].
  assert (cs_isAlive (mkSession (alive_ s) p2 [] (readSuspended_ s)) = false) as Hd
    by (unfold cs_isAlive; simpl; by rewrite Hdead, andb_false_r).
  split; [exact Hd|]. intros A fn. unfold workerStep. rewrite Hd. done.
Qed.

Definition demo_session : ConnectionSession Pipe := newSession (demo_pipe []) "DATANODE" "dn1".

Lemma call_after_disconnect_hangs_witness :
  exists s', sess_createFile "a.txt" 1 [] demo_session = (Done (Ok makeNack), s')
    /\ sess_isAlive s' = false
    /\ forall A (fn : SE (SquidProtocol Pipe) A), (call fn (workerStep s')).1 = Hang.
Proof.
  apply (call_after_disconnect_hangs demo_session "a.txt" 1 [] 0 0 []).
  - reflexivity.
  - reflexivity.
  - constructor; reflexivity.
  - reflexivity.
Defined.
