(* ===== verification/Worker.v ===== *)
(** * The worker of a session and its callers

    [common/src/networking/ConnectionSession.hpp] as a transition system: the
    worker thread in [run] and [drainQueue], with the request handler it runs
    on itself, and other threads that [call] and [post], wait for futures, time
    out, mark the session dead or stop it, and the pool threads that resume
    reading.  A task is a program of single operations on the protocol, so that
    the others also act in the middle of a task.  [Session] treats a [call] as
    one step; the theorems here say that a session is nevertheless a sequential
    object. *)

From S2P Require Import Prelude Text Utils Wire FileManager FileTransfer Protocol Session.

Section worker.
Context {C : Type} `{NetworkChannel C} {R : Type}.
Local Abbreviation P := (SquidProtocol C).

(** Code that runs on the protocol: an operation, and what follows, which may
    depend on the state the operation found. *)
Inductive prog (X : Type) : Type :=
| Ret (r : result X)
| Op (f : P -> P) (k : P -> prog X).
Arguments Ret {X} r.
Arguments Op {X} f k.

(** A request of the protocol as one operation. *)
Definition whole {X} (fn : SE P X) : prog X := Op (fun p => (fn p).2) (fun p => Ret (fn p).1).

(** A task of [call] fulfils a future with the result or the exception; an
    exception of a posted task leaves the thread function. *)
Inductive QTask : Type :=
| CallTask (fn : prog R)
| PostTask (fn : prog unit).

(** What a request handler does with the session it is given: [call], [post],
    [setIsAlive], [suspendReads], and handing work to the pool. *)
Inductive hcode : Type :=
| HRet
| HThrow
| HCall (fn : prog R) (k : result R -> hcode)
| HPost (fn : prog unit) (k : hcode)
| HAlive (b : bool) (k : hcode)
| HSuspend (k : hcode)
| HSpawn (k : hcode).

(** Where the worker is: before it has set [ownerThreadId_], at the loop
    condition, in [drainQueue] between two tasks or in one, past it, in the
    handler of a message, in a function the handler has called, waiting for a
    future, out of the loop, or ended by an exception. *)
Inductive Pc : Type :=
| AtStart
| AtHead
| AtDrain
| RunningCall (n : nat) (fn rest : prog R)
| RunningPost (n : nat) (fn rest : prog unit)
| AtRead
| InHandler (m : Message) (h : hcode)
| InCall (m : Message) (rest : prog R) (k : result R -> hcode)
| Awaiting (m : Message) (n : nat) (k : result R -> hcode)
| Left
| Crashed.

(** What the worker has finished. *)
Inductive Deed : Type :=
| Ran (ticket : nat) (t : QTask)
| Handled (m : Message)
| ReadEnd.

(** [w_submitted] and [w_log] only record; the program has the rest.  Threads
    are numbers; the worker is 0. *)
Record Worker : Type := mkWorker {
  w_alive : bool;
  w_protocol : P;
  w_queue : list (nat * QTask);
  w_suspended : bool;
  w_owner : option nat;
  w_pc : Pc;
  w_futures : gmap nat (result R);
  w_handling : nat;
  w_submitted : list QTask;
  w_log : list Deed }.

Definition workerThread : nat := 0.

Definition startWorker (p : P) : Worker := mkWorker true p [] false None AtStart ∅ 0 [] [].

Definition set_pc (pc : Pc) (w : Worker) : Worker :=
  mkWorker (w_alive w) (w_protocol w) (w_queue w) (w_suspended w) (w_owner w) pc (w_futures w) (w_handling w)
    (w_submitted w) (w_log w).
Definition set_protocol (p : P) (w : Worker) : Worker :=
  mkWorker (w_alive w) p (w_queue w) (w_suspended w) (w_owner w) (w_pc w) (w_futures w) (w_handling w)
    (w_submitted w) (w_log w).
Definition set_alive (b : bool) (w : Worker) : Worker :=
  mkWorker b (w_protocol w) (w_queue w) (w_suspended w) (w_owner w) (w_pc w) (w_futures w) (w_handling w)
    (w_submitted w) (w_log w).
Definition set_queue (q : list (nat * QTask)) (w : Worker) : Worker :=
  mkWorker (w_alive w) (w_protocol w) q (w_suspended w) (w_owner w) (w_pc w) (w_futures w) (w_handling w)
    (w_submitted w) (w_log w).
Definition set_owner (o : option nat) (w : Worker) : Worker :=
  mkWorker (w_alive w) (w_protocol w) (w_queue w) (w_suspended w) o (w_pc w) (w_futures w) (w_handling w)
    (w_submitted w) (w_log w).
Definition set_reading (suspended : bool) (handling : nat) (w : Worker) : Worker :=
  mkWorker (w_alive w) (w_protocol w) (w_queue w) suspended (w_owner w) (w_pc w) (w_futures w) handling
    (w_submitted w) (w_log w).
Definition fulfil (n : nat) (r : result R) (w : Worker) : Worker :=
  mkWorker (w_alive w) (w_protocol w) (w_queue w) (w_suspended w) (w_owner w) (w_pc w) (<[n := r]> (w_futures w))
    (w_handling w) (w_submitted w) (w_log w).
Definition record (deed : Deed) (w : Worker) : Worker :=
  mkWorker (w_alive w) (w_protocol w) (w_queue w) (w_suspended w) (w_owner w) (w_pc w) (w_futures w)
    (w_handling w) (w_submitted w) (w_log w ++ [deed]).

(** [break], then [alive_ = false]. *)
Definition leave (w : Worker) : Worker := set_pc Left (set_alive false w).

Definition closeChannel (p : P) : P := setChannel p (close <$> channel p).

(** [tasks_.emplace]. *)
Definition enqueue (t : QTask) (w : Worker) : Worker :=
  mkWorker (w_alive w) (w_protocol w) (w_queue w ++ [(length (w_submitted w), t)]) (w_suspended w) (w_owner w)
    (w_pc w) (w_futures w) (w_handling w) (w_submitted w ++ [t]) (w_log w).

(** The test of [call]: is the caller the worker? *)
Definition onOwner (self : nat) (w : Worker) : bool := bool_decide (w_owner w = Some self).

(** What other threads do to the protocol. *)
Inductive Out : Type := SetAlive (b : bool) | ClosedChannel.
Definition out (o : Out) (p : P) : P :=
  match o with SetAlive b => setIsAlive p b | ClosedChannel => closeChannel p end.

(** [readLoop]: whether the session reads by itself; [timeout]: whether a
    timeout for calls is set; [handler]: the request handler. *)
Variables (readLoop timeout : bool) (handler : Message -> hcode).

(** A step of the handler on the worker.  A [call] there runs the function
    where it is; were the caller another thread, it would wait for its future. *)
Definition handlerMove (m : Message) (h : hcode) (w : Worker) : Worker :=
  match h with
  | HRet => record (Handled m) (set_pc AtHead w)
  | HThrow => record (Handled m) (set_pc Crashed w)
  | HCall fn k =>
      if onOwner workerThread w then set_pc (InCall m fn k) w
      else set_pc (Awaiting m (length (w_submitted w)) k) (enqueue (CallTask fn) w)
  | HPost fn k => set_pc (InHandler m k) (enqueue (PostTask fn) w)
  | HAlive b k => set_pc (InHandler m k) (set_alive b (set_protocol (setIsAlive (w_protocol w) b) w))
  | HSuspend k => set_pc (InHandler m k) (set_reading true (w_handling w) w)
  | HSpawn k => set_pc (InHandler m k) (set_reading (w_suspended w) (S (w_handling w)) w)
  end.

(** [select], then the next message, if one is there and reads are not
    suspended. *)
Definition readMove (ready : bool) (w : Worker) : Worker :=
  if negb readLoop then set_pc AtHead w
  else if negb match channel (w_protocol w) with Some c => isOpen c | None => false end then leave w
  else if negb ready || w_suspended w then set_pc AtHead w
  else
    let '(m, p) := receiveAndParse (w_protocol w) in
    let w := set_protocol p w in
    if alive p then set_pc (InHandler m (handler m)) w else leave (record ReadEnd w).

(** The next step of the worker; [ready] is what [select] finds. *)
Definition workerMove (ready : bool) (w : Worker) : Worker :=
  match w_pc w with
  | AtStart => set_pc AtHead (set_owner (Some workerThread) w)
  | AtHead => if w_alive w && alive (w_protocol w) then set_pc AtDrain w else leave w
  | AtDrain =>
      match w_queue w with
      | [] => set_pc AtRead w
      | (n, CallTask fn) :: rest => set_pc (RunningCall n fn fn) (set_queue rest w)
      | (n, PostTask fn) :: rest => set_pc (RunningPost n fn fn) (set_queue rest w)
      end
  | RunningCall n fn (Op f k) => set_pc (RunningCall n fn (k (w_protocol w))) (set_protocol (f (w_protocol w)) w)
  | RunningCall n fn (Ret r) => record (Ran n (CallTask fn)) (fulfil n r (set_pc AtDrain w))
  | RunningPost n fn (Op f k) => set_pc (RunningPost n fn (k (w_protocol w))) (set_protocol (f (w_protocol w)) w)
  | RunningPost n fn (Ret r) =>
      record (Ran n (PostTask fn)) (set_pc (if is_ok r then AtDrain else Crashed) w)
  | AtRead => readMove ready w
  | InHandler m h => handlerMove m h w
  | InCall m (Op f k') k => set_pc (InCall m (k' (w_protocol w)) k) (set_protocol (f (w_protocol w)) w)
  | InCall m (Ret r) k => set_pc (InHandler m (k r)) w
  | Awaiting m n k => match w_futures w !! n with Some r => set_pc (InHandler m (k r)) w | None => w end
  | Left | Crashed => w
  end.

(** A function run from start to end. *)
Fixpoint finish {X} (t : prog X) (p : P) : result X * P :=
  match t with
  | Ret r => (r, p)
  | Op f k => finish (k p) (f p)
  end.

(** What happens: thread [S t] calls or posts, the worker steps, a pool thread
    resumes reads, a call times out, [setIsAlive], [stop]. *)
Inductive Event : Type :=
| Call (t : nat) (fn : prog R)
| Post (fn : prog unit)
| Step (ready : bool)
| Resume
| TimedOut
| MarkAlive (b : bool)
| StopNow.

Definition happen (e : Event) (w : Worker) : Worker :=
  match e with
  | Call t fn =>
      if onOwner (S t) w then set_protocol (finish fn (w_protocol w)).2 w
      else enqueue (CallTask fn) w
  | Post fn => enqueue (PostTask fn) w
  | Step ready => workerMove ready w
  | Resume => match w_handling w with O => w | S k => set_reading false k w end
  | TimedOut =>
      if timeout then set_alive false (set_protocol (out ClosedChannel (w_protocol w)) w) else w
  | MarkAlive b => set_alive b (set_protocol (out (SetAlive b) (w_protocol w)) w)
  | StopNow => set_alive false (set_protocol (out ClosedChannel (w_protocol w)) w)
  end.

Inductive reachable (p0 : P) : Worker -> Prop :=
| reach_start : reachable p0 (startWorker p0)
| reach_event w e : reachable p0 w -> reachable p0 (happen e w).

Definition runEvents (es : list Event) (w : Worker) : Worker := fold_left (fun w e => happen e w) es w.
End worker.
Arguments prog C X : clear implicits.
Arguments Ret {C X} r.
Arguments Op {C X} f k.
Arguments QTask C R : clear implicits.
Arguments hcode C R : clear implicits.
Arguments Pc C R : clear implicits.
Arguments Deed C R : clear implicits.
Arguments Worker C R : clear implicits.
Arguments Event C R : clear implicits.

(** The handler of a client's session on the server: reads are suspended and
    the request goes to the pool. *)
Definition pooledHandler {C R} (m : Message) : hcode C R := HSuspend (HSpawn HRet).
(** The handler of a session that is given none. *)
Definition noHandler {C R} (m : Message) : hcode C R := HRet.

(** ** The session is a sequential object *)

Section sequential.
Context {C : Type} `{NetworkChannel C} {R : Type}.
Local Abbreviation P := (SquidProtocol C).
Variables (readLoop timeout : bool) (handler : Message -> hcode C R).
Local Abbreviation W := (Worker C R).
Local Abbreviation happen := (happen readLoop timeout handler).
Local Abbreviation runEvents := (runEvents readLoop timeout handler).
Local Abbreviation workerMove := (workerMove readLoop handler).

(** A function run to its end, other threads closing the channel or setting
    [isAlive] anywhere in between. *)
Inductive runs {X} : prog C X -> P -> result X -> P -> Prop :=
| runs_ret r p : runs (Ret r) p r p
| runs_op f k p r p' : runs (k p) (f p) r p' -> runs (Op f k) p r p'
| runs_out o t p r p' : runs t (out o p) r p' -> runs t p r p'.

(** A handler run to its end, the functions it calls in their place. *)
Inductive handles : hcode C R -> P -> P -> Prop :=
| handles_ret p : handles HRet p p
| handles_throw p : handles HThrow p p
| handles_call fn k p r p1 p2 : runs fn p r p1 -> handles (k r) p1 p2 -> handles (HCall fn k) p p2
| handles_post fn k p p' : handles k p p' -> handles (HPost fn k) p p'
| handles_alive b k p p' : handles k (setIsAlive p b) p' -> handles (HAlive b k) p p'
| handles_suspend k p p' : handles k p p' -> handles (HSuspend k) p p'
| handles_spawn k p p' : handles k p p' -> handles (HSpawn k) p p'
| handles_out o h p p' : handles h (out o p) p' -> handles h p p'.

(** A message read and handled. *)
Definition serves (p : P) (m : Message) (p' : P) : Prop :=
  exists p1, receiveAndParse p = (m, p1) /\ alive p1 = true /\ handles (handler m) p1 p'.

(** The deeds done one after the other, each from its start to its end before
    the next: the protocol and the futures afterwards. *)
Inductive executes (p0 : P) : list (Deed C R) -> P -> gmap nat (result R) -> Prop :=
| ex_nil : executes p0 [] p0 ∅
| ex_call log n fn p r p' fu :
    executes p0 log p fu -> runs fn p r p' -> executes p0 (log ++ [Ran n (CallTask fn)]) p' (<[n := r]> fu)
| ex_post log n fn p r p' fu :
    executes p0 log p fu -> runs fn p r p' -> executes p0 (log ++ [Ran n (PostTask fn)]) p' fu
| ex_handle log m p p' fu :
    executes p0 log p fu -> serves p m p' -> executes p0 (log ++ [Handled m]) p' fu
| ex_end log m p p' fu :
    executes p0 log p fu -> receiveAndParse p = (m, p') -> alive p' = false ->
    executes p0 (log ++ [ReadEnd]) p' fu
| ex_out log o p fu : executes p0 log p fu -> executes p0 log (out o p) fu.

(** The ways in which what the worker is doing now may end, and what is then
    done.  There is none for a worker that waits for a future. *)
Inductive finishes (w : W) : list (Deed C R) -> P -> gmap nat (result R) -> Prop :=
| fin_between : w_pc w ∈ [AtStart; AtHead; AtDrain; AtRead; Left; Crashed] ->
    finishes w (w_log w) (w_protocol w) (w_futures w)
| fin_call n fn rest r p : w_pc w = RunningCall n fn rest -> runs rest (w_protocol w) r p ->
    finishes w (w_log w ++ [Ran n (CallTask fn)]) p (<[n := r]> (w_futures w))
| fin_post n fn rest r p : w_pc w = RunningPost n fn rest -> runs rest (w_protocol w) r p ->
    finishes w (w_log w ++ [Ran n (PostTask fn)]) p (w_futures w)
| fin_handler m h p : w_pc w = InHandler m h -> handles h (w_protocol w) p ->
    finishes w (w_log w ++ [Handled m]) p (w_futures w)
| fin_direct m rest k r p1 p : w_pc w = InCall m rest k -> runs rest (w_protocol w) r p1 -> handles (k r) p1 p ->
    finishes w (w_log w ++ [Handled m]) p (w_futures w).

Definition ran (deeds : list (Deed C R)) : list (nat * QTask C R) :=
  omap (fun deed => match deed with Ran n t => Some (n, t) | _ => None end) deeds.

(** The task being run. *)
Definition current (w : W) : list (nat * QTask C R) :=
  match w_pc w with
  | RunningCall n fn _ => [(n, CallTask fn)]
  | RunningPost n fn _ => [(n, PostTask fn)]
  | _ => []
  end.

Definition in_order (w : W) : Prop :=
  ran (w_log w) ++ current w ++ w_queue w = imap pair (w_submitted w).

(** What the worker is in the middle of continues what the deeds before it
    have left at [p]. *)
Definition pending (p : P) (w : W) : Prop :=
  match w_pc w with
  | RunningCall _ fn rest => forall r p', runs rest (w_protocol w) r p' -> runs fn p r p'
  | RunningPost _ fn rest => forall r p', runs rest (w_protocol w) r p' -> runs fn p r p'
  | InHandler m h => forall p', handles h (w_protocol w) p' -> serves p m p'
  | InCall m rest k => forall r p1 p', runs rest (w_protocol w) r p1 -> handles (k r) p1 p' -> serves p m p'
  | Awaiting _ _ _ => False
  | _ => w_protocol w = p
  end.

(** Only the worker is ever the owner, from its first step on. *)
Definition owned (w : W) : Prop :=
  match w_pc w with AtStart => w_owner w = None | _ => w_owner w = Some workerThread end.

Definition serial (p0 : P) (w : W) : Prop :=
  owned w /\ exists p, executes p0 (w_log w) p (w_futures w) /\ pending p w.

Lemma runs_finish {X} (t : prog C X) p : runs t p (finish t p).1 (finish t p).2.
Proof. revert p. induction t as [r|f k IH]; intros p; [apply runs_ret|]. apply runs_op, IH. Qed.

Lemma handles_total (h : hcode C R) p : exists p', handles h p p'.
Proof.
  revert p. induction h as [| |fn k IH|fn k IH|b k IH|k IH|k IH]; intros p; try (eexists; constructor; fail).
  - destruct (IH (finish fn p).1 (finish fn p).2) as [p' Hp']. eexists. eapply handles_call; [apply runs_finish|done].
  - destruct (IH p) as [p' Hp']. eexists. by apply handles_post.
  - destruct (IH (setIsAlive p b)) as [p' Hp']. eexists. by apply handles_alive.
  - destruct (IH p) as [p' Hp']. eexists. by apply handles_suspend.
  - destruct (IH p) as [p' Hp']. eexists. by apply handles_spawn.
Qed.

(** Another thread acts on the protocol. *)
Lemma serial_out p0 o b (w : W) :
  serial p0 w -> serial p0 (set_alive b (set_protocol (out o (w_protocol w)) w)).
Proof.
  intros [Hown (p & Hex & Hpe)]. split; [done|].
  unfold pending in *. cbn [w_pc w_protocol w_log w_futures set_alive set_protocol].
  destruct (w_pc w); try done; try (subst p; eexists; split; [by apply ex_out|done]);
    exists p; (split; [done|]).
  - intros r p' Hr. by apply Hpe, (runs_out o).
  - intros r p' Hr. by apply Hpe, (runs_out o).
  - intros p' Hh. by apply Hpe, (handles_out o).
  - intros r p1 p' Hr. by apply Hpe, (runs_out o).
Qed.

Lemma serial_handler p0 m h (w : W) :
  w_pc w = InHandler m h -> serial p0 w -> serial p0 (handlerMove m h w).
Proof.
  intros Hpc [Hown (p & Hex & Hpe)]. unfold owned, pending in *. rewrite Hpc in *.
  destruct h as [| |fn k|fn k|b k|k|k]; cbn [handlerMove].
  - split; [done|]. exists (w_protocol w). split; [|done]. eapply ex_handle; [done|]. apply Hpe, handles_ret.
  - split; [done|]. exists (w_protocol w). split; [|done]. eapply ex_handle; [done|]. apply Hpe, handles_throw.
  - unfold onOwner. rewrite bool_decide_eq_true_2 by done. split; [done|]. exists p. split; [done|].
    unfold pending. simpl. intros r p1 p' Hr Hh. apply Hpe. by eapply handles_call.
  - split; [done|]. exists p. split; [done|]. intros p' Hh. by apply Hpe, handles_post.
  - split; [done|]. exists p. split; [done|]. intros p' Hh. by apply Hpe, handles_alive.
  - split; [done|]. exists p. split; [done|]. intros p' Hh. by apply Hpe, handles_suspend.
  - split; [done|]. exists p. split; [done|]. intros p' Hh. by apply Hpe, handles_spawn.
Qed.

Lemma serial_read p0 ready (w : W) :
  w_pc w = AtRead -> serial p0 w -> serial p0 (readMove readLoop handler ready w).
Proof.
  intros Hpc [Hown (p & Hex & Hpe)]. unfold owned, pending in *. rewrite Hpc in *. subst p.
  unfold readMove. destruct (negb readLoop); [split; [done|by eexists]|].
  destruct (negb _); [split; [done|by eexists]|]. destruct (_ || _); [split; [done|by eexists]|].
  destruct (receiveAndParse (w_protocol w)) as [m p] eqn:E. destruct (alive p) eqn:Ha.
  - split; [done|]. exists (w_protocol w). split; [done|]. intros p' Hh. by exists p.
  - split; [done|]. exists p. split; [|done]. by eapply ex_end.
Qed.

Lemma serial_move p0 ready (w : W) : serial p0 w -> serial p0 (workerMove ready w).
Proof.
  intros Hw. unfold workerMove. destruct (w_pc w) as [| | |n fn [r|f k]|n fn [r|f k]| |m h|m [r|f k'] k|m n k| |] eqn:Hpc;
    try done; [| | | | | | |by apply serial_read|by apply serial_handler| | |];
    destruct Hw as [Hown (p & Hex & Hpe)]; unfold owned, pending in *; rewrite Hpc in *.
  - split; [done|]. by exists p.
  - destruct (w_alive w && alive (w_protocol w)); (split; [done|]; by exists p).
  - destruct (w_queue w) as [|[n [fn|fn]] rest]; (split; [done|]); subst p; exists (w_protocol w);
      (split; [done|]); unfold pending; simpl; auto.
  - split; [done|]. exists (w_protocol w). split; [|done]. simpl. eapply ex_call; [done|]. apply Hpe, runs_ret.
  - split; [done|]. exists p. split; [done|]. intros r p' Hr. by apply Hpe, runs_op.
  - split; [by destruct (is_ok r)|]. exists (w_protocol w). split; [|by destruct (is_ok r)].
    simpl. eapply ex_post; [done|]. apply Hpe, runs_ret.
  - split; [done|]. exists p. split; [done|]. intros r p' Hr. by apply Hpe, runs_op.
  - split; [done|]. exists p. split; [done|]. intros p' Hh. eapply Hpe; [apply runs_ret|done].
  - split; [done|]. exists p. split; [done|]. intros r p1 p' Hr Hh. eapply Hpe; [by apply runs_op|done].
  - done.
Qed.

(** No other thread takes the direct path. *)
Lemma not_onOwner t (w : W) : owned w -> onOwner (S t) w = false.
Proof.
  unfold owned, onOwner. intros Ho. apply bool_decide_eq_false_2. intros E.
  destruct (w_pc w); rewrite Ho in E; discriminate.
Qed.

Lemma serial_happen p0 e (w : W) : serial p0 w -> serial p0 (happen e w).
Proof.
  intros Hw. destruct e as [t fn|fn|ready| | |b|]; simpl.
  - rewrite not_onOwner by apply Hw. exact Hw.
  - exact Hw.
  - by apply serial_move.
  - by destruct (w_handling w).
  - destruct timeout; [|done]. by apply (serial_out p0 ClosedChannel).
  - by apply (serial_out p0 (SetAlive b)).
  - by apply (serial_out p0 ClosedChannel).
Qed.

Lemma ran_record deeds deed : ran (deeds ++ [deed]) = ran deeds ++ ran [deed].
Proof. apply omap_app. Qed.

Lemma order_enqueue t (w : W) : in_order w -> in_order (enqueue t w).
Proof.
  unfold in_order, current. cbn [enqueue w_log w_pc w_queue w_submitted]. intros Ho.
  rewrite imap_app, <-Ho, <-!app_assoc. simpl. by rewrite Nat.add_0_r.
Qed.

Lemma order_handler m h (w : W) :
  w_pc w = InHandler m h -> in_order w -> in_order (handlerMove m h w).
Proof.
  intros Hpc Ho. assert (forall pc, current (set_pc pc w) = [] -> in_order (set_pc pc w)) as Hsame.
  { unfold in_order in *. intros pc ->. unfold current in Ho. by rewrite Hpc in Ho. }
  assert (forall t pc, current (set_pc pc (enqueue t w)) = [] -> in_order (set_pc pc (enqueue t w))) as Hmore.
  { intros t pc Hc. pose proof (order_enqueue t w Ho) as Ho'. unfold in_order in *. rewrite Hc.
    unfold current in Ho'. cbn [enqueue w_pc] in Ho'. by rewrite Hpc in Ho'. }
  assert (forall pc, current (set_pc pc w) = [] -> in_order (record (Handled m) (set_pc pc w))) as Hlog.
  { intros pc Hc. specialize (Hsame pc Hc). unfold in_order, current in *. cbn [record w_log w_pc set_pc] in *.
    rewrite ran_record. cbn [ran]. by rewrite app_nil_r. }
  destruct h as [| |fn k|fn k|b k|k|k]; cbn [handlerMove]; try (by apply Hlog); try (by apply Hsame); try by apply Hmore.
  destruct (onOwner workerThread w); [by apply Hsame|by apply Hmore].
Qed.

Lemma order_move ready (w : W) : in_order w -> in_order (workerMove ready w).
Proof.
  intros Ho. unfold workerMove. destruct (w_pc w) as [| | |n fn [r|f k]|n fn [r|f k]| |m h|m [r|f k'] k|m n k| |] eqn:Hpc;
    try (by apply order_handler); unfold in_order, current in *; rewrite Hpc in Ho.
  - exact Ho.
  - by destruct (w_alive w && alive (w_protocol w)).
  - destruct (w_queue w) as [|[n [fn|fn]] rest] eqn:Hq; simpl; rewrite ?Hq; exact Ho.
  - simpl. by rewrite ran_record, <-app_assoc.
  - exact Ho.
  - simpl. destruct (is_ok r); by rewrite ran_record, <-app_assoc.
  - exact Ho.
  - unfold readMove. destruct (negb readLoop); [done|]. destruct (negb _); [done|]. destruct (_ || _); [done|].
    destruct (receiveAndParse (w_protocol w)) as [m p]. destruct (alive p); [done|]. simpl.
    rewrite ran_record. cbn [ran]. by rewrite app_nil_r.
  - exact Ho.
  - exact Ho.
  - destruct (w_futures w !! n); simpl; by rewrite ?Hpc.
  - by rewrite Hpc.
  - by rewrite Hpc.
Qed.

Lemma order_happen e (w : W) : in_order w -> in_order (happen e w).
Proof.
  intros Ho. destruct e as [t fn|fn|ready| | |b|]; simpl.
  - destruct (onOwner (S t) w); [done|by apply order_enqueue].
  - by apply order_enqueue.
  - by apply order_move.
  - by destruct (w_handling w).
  - by destruct timeout.
  - done.
  - done.
Qed.

Lemma serial_finishes p0 (w : W) :
  serial p0 w ->
  (exists log p fu, finishes w log p fu)
  /\ (forall log p fu, finishes w log p fu -> executes p0 log p fu).
Proof.
  intros [_ (p & Hex & Hpe)]. unfold pending in Hpe. split.
  - destruct (w_pc w) as [| | |n fn rest|n fn rest| |m h|m rest k|m n k| |] eqn:Hpc; try done;
      try (do 3 eexists; apply fin_between; rewrite Hpc; set_solver).
    + do 3 eexists. eapply fin_call; [done|apply runs_finish].
    + do 3 eexists. eapply fin_post; [done|apply runs_finish].
    + destruct (handles_total h (w_protocol w)) as [p' Hh]. do 3 eexists. by eapply fin_handler.
    + destruct (handles_total (k (finish rest (w_protocol w)).1) (finish rest (w_protocol w)).2) as [p' Hh].
      do 3 eexists. eapply fin_direct; [done|apply runs_finish|done].
  - intros log p1 fu Hf. destruct Hf as [Hpc|n fn rest r p1 Hpc Hr|n fn rest r p1 Hpc Hr|m h p1 Hpc Hh|m rest k r p1 p2 Hpc Hr Hh].
    + destruct (w_pc w); try set_solver; by rewrite Hpe.
    + rewrite Hpc in Hpe. eapply ex_call; [done|]. by apply Hpe.
    + rewrite Hpc in Hpe. eapply ex_post; [done|]. by apply Hpe.
    + rewrite Hpc in Hpe. eapply ex_handle; [done|]. by apply Hpe.
    + rewrite Hpc in Hpe. eapply ex_handle; [done|]. by eapply Hpe.
Qed.

(** A function that takes at most [b] operations and then returns a result of
    which [Q] holds, whatever it finds. *)
Fixpoint within {X} (Q : result X -> Prop) (b : nat) (t : prog C X) {struct t} : Prop :=
  match t with
  | Ret r => Q r
  | Op f k => match b with O => False | S b => forall p, within Q b (k p) end
  end.

(** A task of at most [b] operations that does not end the worker. *)
Definition task_within (b : nat) (t : QTask C R) : Prop :=
  match t with
  | CallTask fn => within (fun _ => True) b fn
  | PostTask fn => within (fun r => is_ok r = true) b fn
  end.

Definition is_step (e : Event C R) : bool := match e with Step _ => true | _ => false end.
Definition moves (es : list (Event C R)) : nat := length (List.filter is_step es).

(** What the worker needs for a task: to take it, its operations, and to leave
    it. *)
Definition cost (bs : list nat) : nat := sum_list_with (fun b => S (S b)) bs.

(** Call [n] is in the queue, and the worker needs at most [c] steps up to it. *)
Definition queued (n c : nat) (w : W) : Prop :=
  exists j fn bs, w_queue w !! j = Some (n, CallTask fn)
    /\ Forall2 (fun q b => task_within b q.2) (take (S j) (w_queue w)) bs /\ (cost bs <= c)%nat.

(** Call [n] is answered, or in the queue, or being run, [c] steps at most from
    its end. *)
Definition due (n c : nat) (w : W) : Prop :=
  is_Some (w_futures w !! n)
  \/ match w_pc w with
     | AtDrain => queued n c w
     | RunningCall i fn rest =>
         exists b c', within (fun _ => True) b rest /\ (S b + c' <= c)%nat /\ (i = n \/ queued n c' w)
     | RunningPost i fn rest =>
         exists b c', within (fun r => is_ok r = true) b rest /\ (S b + c' <= c)%nat /\ queued n c' w
     | _ => False
     end.

Lemma futures_stay ready n (w : W) :
  is_Some (w_futures w !! n) -> is_Some (w_futures (workerMove ready w) !! n).
Proof.
  intros Hn. unfold workerMove.
  destruct (w_pc w) as [| | |i fn [r|f k]|i fn [r|f k]| |m h|m [r|f k'] k|m i k| |]; try done.
  - by destruct (_ && _).
  - by destruct (w_queue w) as [|[i [fn|fn]] rest].
  - simpl. rewrite lookup_insert. case_decide; [by eexists|done].
  - unfold readMove. destruct (negb readLoop); [done|]. destruct (negb _); [done|]. destruct (_ || _); [done|].
    destruct (receiveAndParse (w_protocol w)) as [m p]. by destruct (alive p).
  - destruct h; simpl; try done. by destruct (onOwner workerThread w).
  - by destruct (w_futures w !! i).
Qed.

(** The task at the head is taken. *)
Lemma take_head n c i t rest (w : W) :
  w_queue w = (i, t) :: rest -> queued n c w ->
  exists b c', task_within b t /\ (S (S b) + c' <= c)%nat
    /\ ((i = n /\ exists fn, t = CallTask fn) \/ queued n c' (set_queue rest w)).
Proof.
  intros Hq (j & fn & bs & Hj & Hbs & Hc). rewrite Hq in *. cbn [take] in Hbs.
  apply Forall2_cons_inv_l in Hbs as (b & bs' & Hb & Hbs & ->). exists b, (cost bs').
  split; [done|]. split; [exact Hc|]. destruct j as [|j].
  - left. injection Hj as -> ->. split; [done|by eexists].
  - right. exists j, fn, bs'. by split_and!.
Qed.

Lemma due_move n c ready (w : W) : due n (S c) w -> due n c (workerMove ready w).
Proof.
  intros [Hs|Hd]; [left; by apply futures_stay|]. unfold workerMove.
  destruct (w_pc w) as [| | |i fn [r|f k]|i fn [r|f k]| |m h|m [r|f k'] k|m i k| |] eqn:Hpc; try done.
  - destruct (w_queue w) as [|[i t] rest] eqn:Hq.
    { destruct Hd as (j & fn & bs & Hj & _). by rewrite Hq in Hj. }
    destruct (take_head n (S c) i t rest w Hq Hd) as (b & c' & Hb & Hc & Hn).
    destruct t as [fn|fn]; right; cbn [w_pc set_pc]; exists b, c'; (split; [done|]).
    + split; [lia|]. destruct Hn as [[-> _]|Hn]; [by left|by right].
    + split; [lia|]. destruct Hn as [[_ [fn' E]]|Hn]; [done|done].
  - destruct Hd as (b & c' & _ & Hc & [->|Hq]).
    + left. simpl. rewrite lookup_insert_eq. by eexists.
    + right. simpl. destruct Hq as (j & fn' & bs & Hj & Hbs & Hle). exists j, fn', bs. split_and!; [done|done|lia].
  - destruct Hd as ([|b] & c' & Hb & Hc & Hq); [done|]. right. simpl. exists b, c'. split_and!; [apply Hb|lia|done].
  - destruct Hd as (b & c' & Hr & Hc & Hq). cbn [within] in Hr. right.
    cbn [record set_pc w_pc]. rewrite Hr.
    destruct Hq as (j & fn' & bs & Hj & Hbs & Hle). exists j, fn', bs. split_and!; [done|done|lia].
  - destruct Hd as ([|b] & c' & Hb & Hc & Hq); [done|]. right. simpl. exists b, c'. split_and!; [apply Hb|lia|done].
Qed.

Lemma queued_enqueue n c t (w : W) : queued n c w -> queued n c (enqueue t w).
Proof.
  intros (j & fn & bs & Hj & Hbs & Hc). exists j, fn, bs. cbn [enqueue w_queue]. split_and!; [|  |done].
  - by apply lookup_app_l_Some.
  - rewrite take_app_le; [done|]. apply lookup_lt_Some in Hj. lia.
Qed.

Lemma due_enqueue n c t (w : W) : due n c w -> due n c (enqueue t w).
Proof.
  intros [Hs|Hd]; [by left|]. right. cbn [enqueue w_pc]. destruct (w_pc w); try done.
  - by apply queued_enqueue.
  - destruct Hd as (b & c' & Hb & Hc & [->|Hq]); exists b, c'; (split_and!; [done|done|]); [by left|].
    right. by apply queued_enqueue.
  - destruct Hd as (b & c' & Hb & Hc & Hq). exists b, c'. split_and!; [done|done|]. by apply queued_enqueue.
Qed.

(** What the other threads do leaves it where it is. *)
Lemma due_other n c e (w : W) : is_step e = false -> due n c w -> due n c (happen e w).
Proof.
  intros He Hd. destruct e as [t fn|fn|ready| | |b|]; simpl in *; try done.
  - destruct (onOwner (S t) w); [done|by apply due_enqueue].
  - by apply due_enqueue.
  - by destruct (w_handling w).
  - by destruct timeout.
Qed.

Lemma due_runs es n c (w : W) : due n c w -> (c <= moves es)%nat -> is_Some (w_futures (runEvents es w) !! n).
Proof.
  revert c w. induction es as [|e es IH]; intros c w Hd Hle.
  { assert (c = 0%nat) as -> by (unfold moves in Hle; simpl in Hle; lia). destruct Hd as [Hs|Hd]; [done|].
    destruct (w_pc w); try done.
    - destruct Hd as (j & fn & bs & Hj & Hbs & Hc). apply Forall2_length in Hbs as Hl. destruct bs; [|simpl in Hc; lia].
      destruct (w_queue w); [done|]. done.
    - destruct Hd as (b & c' & _ & Hc & _). lia.
    - destruct Hd as (b & c' & _ & Hc & _). lia. }
  change (runEvents (e :: es) w) with (runEvents es (happen e w)). destruct (is_step e) eqn:He.
  - destruct e; try done. assert (moves (Step ready :: es) = S (moves es)) as Hm by done. rewrite Hm in Hle.
    apply (IH (pred c)); [|lia]. apply due_move. destruct c as [|c]; [|done].
    destruct Hd as [Hs|Hd]; [by left|]. right. destruct (w_pc w); try done.
    + destruct Hd as (j & fn & bs & ? & ? & Hc). exists j, fn, bs. split_and!; [done|done|simpl; lia].
    + destruct Hd as (b & c' & _ & Hc & _). lia.
    + destruct Hd as (b & c' & _ & Hc & _). lia.
  - apply (IH c); [by apply due_other|]. unfold moves in *. simpl in Hle. by rewrite He in Hle.
Qed.

(** A worker that has left its loop does nothing any more. *)
Lemma left_stays e (w : W) : w_pc w = Left -> w_owner w = Some workerThread ->
  w_pc (happen e w) = Left /\ w_owner (happen e w) = Some workerThread /\ w_futures (happen e w) = w_futures w.
Proof.
  intros Hl Ho. destruct e as [t fn|fn|ready| | |b|]; simpl; unfold workerMove; rewrite ?Hl; try done.
  - unfold onOwner. rewrite Ho. by rewrite bool_decide_eq_false_2.
  - by destruct (w_handling w).
  - by destruct timeout.
Qed.
Lemma left_answers_nothing es (w : W) : w_pc w = Left -> w_owner w = Some workerThread ->
  w_futures (runEvents es w) = w_futures w.
Proof.
  revert w. induction es as [|e es IH]; intros w Hl Ho; [done|].
  destruct (left_stays e w Hl Ho) as (Hl' & Ho' & <-). by apply IH.
Qed.
End sequential.

(** C8. A session is a sequential object.  Other threads call, post, time out,
    close and mark the session dead at any time, also in the middle of a task,
    and the worker runs the request handler itself, whose calls do not go
    through the queue.  Still, in every state that can be reached, what the
    worker is doing can end; and however it ends, the protocol and the futures
    are then what one gets by doing the tasks and the handling of messages one
    after the other, each to its end before the next, a function that a handler
    calls being run in its place in the handler.  The tasks done, the one being
    run and the queue are the tasks submitted, in their order; each future
    holds the result of its own task. *)
Theorem session_is_sequential {C} `{NetworkChannel C} {R} readLoop timeout (handler : Message -> hcode C R)
    (p0 : SquidProtocol C) (w : Worker C R) :
  reachable readLoop timeout handler p0 w ->
  (exists log p fu, finishes w log p fu)
  /\ (forall log p fu, finishes w log p fu -> executes handler p0 log p fu)
  /\ ran (w_log w) ++ current w ++ w_queue w = imap pair (w_submitted w).
Proof.
  intros Hw. assert (serial handler p0 w /\ in_order w) as [Hs Ho].
  { induction Hw as [|w e _ [IHs IHo]].
    - split; [|done]. split; [done|]. exists p0. split; [apply ex_nil|done].
    - split; [by apply serial_happen|by apply order_happen]. }
  destruct (serial_finishes handler p0 w Hs) as [He Hf]. by split_and!.
Qed.

Definition demo_end : SquidProtocol Pipe := demo_protocol [].
Definition demo_beat : prog Pipe Message := whole heartbeat.

(** A handler that answers a message by a call of its own. *)
Definition demo_handler (m : Message) : hcode Pipe Message :=
  HCall demo_beat (fun r => if is_ok r then HRet else HThrow).

(** A session that is asked for a heartbeat by another thread, which marks the
    session dead in the middle of it. *)
Definition demo_events : list (Event Pipe Message) :=
  [Call 0 demo_beat; Step false; Step false; Step false; Step false; MarkAlive false; Call 1 demo_beat].
Definition demo_worker : Worker Pipe Message := runEvents true false demo_handler demo_events (startWorker demo_end).

Lemma session_is_sequential_witness :
  (exists log p fu, finishes demo_worker log p fu)
  /\ (forall log p fu, finishes demo_worker log p fu -> executes demo_handler demo_end log p fu)
  /\ ran (w_log demo_worker) ++ current demo_worker ++ w_queue demo_worker = imap pair (w_submitted demo_worker).
Proof.
  apply (session_is_sequential true false demo_handler demo_end demo_worker).
  unfold demo_worker, demo_events, runEvents. cbn [fold_left]. do 7 apply reach_event. apply reach_start.
Defined.

(** ** One request of a client at a time *)

Section one_handler.
Context {C : Type} `{NetworkChannel C} {R : Type}.
Variables (readLoop timeout : bool).
Local Abbreviation W := (Worker C R).

Definition free_slot (w : W) : Prop := (w_handling w <= 1)%nat /\ (w_handling w = 1%nat -> w_suspended w = true).

Definition one_handler (w : W) : Prop :=
  match w_pc w with
  | InHandler _ (HSuspend (HSpawn HRet)) => w_handling w = 0%nat
  | InHandler _ (HSpawn HRet) => w_handling w = 0%nat /\ w_suspended w = true
  | InHandler _ HRet => free_slot w
  | InHandler _ _ | InCall _ _ _ | Awaiting _ _ _ => False
  | _ => free_slot w
  end.

Lemma one_handler_move ready (w : W) : one_handler w -> one_handler (workerMove readLoop pooledHandler ready w).
Proof.
  unfold one_handler, workerMove.
  destruct (w_pc w) as [| | |i fn [r|f k]|i fn [r|f k]| |m h|m [r|f k'] k|m i k| |] eqn:Hpc;
    try rewrite !Hpc; try done; intros Hw.
  - by destruct (_ && _).
  - by destruct (w_queue w) as [|[i [fn|fn]] rest].
  - by destruct (is_ok r).
  - unfold readMove. destruct (negb readLoop); [done|]. destruct (negb _); [done|].
    destruct (negb ready || w_suspended w) eqn:Hready; [done|].
    destruct (receiveAndParse (w_protocol w)) as [m p]. destruct (alive p); [|done]. simpl.
    apply orb_false_iff in Hready as [_ Hs]. destruct Hw as [Hle Hsus].
    destruct (w_handling w) as [|[|k]]; [done| |lia]. by rewrite Hsus in Hs.
  - destruct h as [| |fn k|fn k|b k|[| | | | | |[]]|[]]; simpl in *; try done. split; simpl; [lia|]. by destruct Hw.
Qed.

Lemma one_handler_happen e (w : W) : one_handler w -> one_handler (happen readLoop timeout pooledHandler e w).
Proof.
  intros Hw. destruct e as [t fn|fn|ready| | |b|]; simpl; try done.
  - by destruct (onOwner (S t) w).
  - by apply one_handler_move.
  - destruct (w_handling w) as [|k] eqn:E; [done|]. unfold one_handler, free_slot in *. simpl.
    destruct (w_pc w) as [| | |i fn [r|f k']|i fn [r|f k']| |m h|m [r|f k''] k'|m i k'| |]; try (split; lia); try done.
    destruct h as [| |fn k'|fn k'|b k'|[| | | | | |[]]|[]]; try done; try lia.
  - by destruct timeout.
Qed.
End one_handler.

(** C39. The handlers of one client never overlap: when the handler of a session
    hands messages to the pool, at most one is being handled, and while one is
    the worker reads no other. *)
Theorem one_request_at_a_time {C} `{NetworkChannel C} {R} readLoop timeout
    (p0 : SquidProtocol C) (w : Worker C R) :
  reachable readLoop timeout pooledHandler p0 w ->
  (w_handling w <= 1)%nat /\ (w_handling w = 1%nat -> w_suspended w = true).
Proof.
  intros Hr. assert (one_handler w) as Hw.
  { induction Hr as [|w e _ IH]; [split; simpl; [lia|done]|]. by apply one_handler_happen. }
  unfold one_handler, free_slot in Hw. destruct (w_pc w) as [| | | | | |m h| | | |]; try done.
  destruct h as [| |fn k'|fn k'|b k'|[| | | | | |[]]|[]]; try done; try (split; [lia|]; rewrite Hw; done).
  destruct Hw as [-> _]. split; [lia|done].
Qed.

(** A client that sends two requests at once: the second waits. *)
Definition demo_asked : SquidProtocol Pipe :=
  demo_protocol (match heartbeatFormat with Ok f => f ++ stampSeq f 1 | Throw _ => [] end).
Definition demo_reads : list (Event Pipe Message) := repeat (Step true) 12.
Definition demo_serving : Worker Pipe Message := runEvents true false pooledHandler demo_reads (startWorker demo_asked).

Lemma one_request_at_a_time_witness :
  w_handling demo_serving = 1%nat /\ (w_handling demo_serving <= 1)%nat /\ w_suspended demo_serving = true.
Proof.
  split; [vm_compute; reflexivity|].
  destruct (one_request_at_a_time true false demo_asked demo_serving) as [Hle Hs].
  - unfold demo_serving, demo_reads, runEvents. cbn [repeat fold_left]. do 12 apply reach_event. apply reach_start.
  - split; [exact Hle|]. apply Hs. vm_compute. reflexivity.
Defined.

(** ** Calls are answered, or not *)

(** C21. A queued call is answered.  Let the worker be draining its queue, a
    call in it, and let the call and the tasks before it take at most [bs]
    operations each, no posted one among them throwing.  Then the call is
    fulfilled once the worker has made two steps for each of these tasks and
    one for each operation, whatever the other threads do meanwhile: they may
    submit more, time out, mark the session dead or stop it. *)
Theorem queued_call_is_served {C} `{NetworkChannel C} {R} readLoop timeout (handler : Message -> hcode C R)
    (es : list (Event C R)) (w : Worker C R) j n fn bs :
  w_pc w = AtDrain -> w_queue w !! j = Some (n, CallTask fn) ->
  Forall2 (fun q b => task_within b q.2) (take (S j) (w_queue w)) bs -> (cost bs <= moves es)%nat ->
  is_Some (w_futures (runEvents readLoop timeout handler es w) !! n).
Proof.
  intros Hpc Hj Hbs Hc. apply (due_runs readLoop timeout handler es n (cost bs)); [|done].
  right. rewrite Hpc. by exists j, fn, bs.
Qed.

Definition demo_drain : Worker Pipe Message :=
  runEvents false false noHandler [Call 0 demo_beat; Call 1 demo_beat; Step false; Step false] (startWorker demo_end).
Definition demo_disturbed : list (Event Pipe Message) :=
  [MarkAlive false; Step false; Step false; Call 2 demo_beat; StopNow; Step false; Step false; Step false; Step false].

Lemma queued_call_is_served_witness :
  is_Some (w_futures (runEvents false false noHandler demo_disturbed demo_drain) !! 1%nat).
Proof.
  apply (queued_call_is_served false false noHandler demo_disturbed demo_drain 1 1%nat demo_beat [1%nat; 1%nat]).
  - reflexivity.
  - reflexivity.
  - by repeat constructor.
  - apply Nat.leb_le. vm_compute. reflexivity.
Defined.

(** Asking [isAlive] before [call] does not help.  A session is alive when
    a thread asks; before it submits, the worker finds the peer gone in another
    call and has looked at its queue for the last time; then the call is never
    answered, whatever happens later, as no timeout is set. *)
Theorem checked_call_can_hang :
  let asked := runEvents false false noHandler [Call 0 demo_beat; Step false; Step false] (startWorker demo_end) in
  let submitted := runEvents false false noHandler
    [Step false; Step false; Step false; Step false; Call 1 demo_beat; Step false; Step false] asked in
  w_alive asked && alive (w_protocol asked) = true
  /\ map fst (w_queue submitted) = [1%nat]
  /\ forall es, w_futures (runEvents false false noHandler es submitted) !! 1%nat = None.
Proof.
  cbv zeta. split; [reflexivity|]. split; [reflexivity|]. intros es.
  rewrite left_answers_nothing by reflexivity. reflexivity.
Qed.

(** ** The call of [Session]

    [Session.call] runs what is posted and then the function, as one step. *)

Section call.
Context {C : Type} `{NetworkChannel C} {R : Type}.
Variables (readLoop timeout : bool) (handler : Message -> hcode C R).
Local Abbreviation run := (runEvents readLoop timeout handler).

(** Three steps for a task that is one operation. *)
Lemma drain_one n (t : SE (SquidProtocol C) unit) rest p1 (w : Worker C R) :
  w_pc w = AtDrain -> w_queue w = (n, PostTask (whole t)) :: rest -> t (w_protocol w) = (Ok tt, p1) ->
  run (repeat (Step false) 3) w
  = record (Ran n (PostTask (whole t))) (set_pc AtDrain (set_protocol p1 (set_queue rest w))).
Proof.
  intros Hpc Hq Ht. unfold runEvents. cbn [repeat fold_left happen]. unfold workerMove at 3. rewrite Hpc, Hq.
  unfold workerMove at 2. cbn [w_pc set_pc whole]. unfold workerMove. cbn [w_pc set_pc w_protocol set_queue].
  rewrite Ht. reflexivity.
Qed.

Lemma drain_posts (ts : list (SE (SquidProtocol C) unit)) (fn : SE (SquidProtocol C) R) n q (w : Worker C R) p1 :
  w_pc w = AtDrain -> w_queue w = q ++ [(n, CallTask (whole fn))] ->
  map snd q = map (fun t => PostTask (whole t)) ts ->
  for_each ts (fun task => task) (w_protocol w) = (Ok tt, p1) ->
  let w' := run (repeat (Step false) (3 * length ts + 3)) w in
  w_futures w' !! n = Some (fn p1).1 /\ w_protocol w' = (fn p1).2 /\ w_queue w' = [].
Proof.
  revert q w. induction ts as [|t ts IH]; intros q w Hpc Hq Hts Hrun.
  - destruct q; [|done]. injection Hrun as <-. cbv zeta. unfold runEvents.
    cbn [repeat length Nat.mul Nat.add fold_left happen]. unfold workerMove at 3 6 9. rewrite Hpc, Hq.
    unfold workerMove. cbn. by rewrite lookup_insert_eq.
  - destruct q as [|[k t'] q]; [done|]. cbn [map snd] in Hts. injection Hts as -> Hts.
    cbn [for_each] in Hrun. unfold bind in Hrun. destruct (t (w_protocol w)) as [[[]|e] p] eqn:E; [|done].
    replace (3 * length (t :: ts) + 3)%nat with (3 + (3 * length ts + 3))%nat by (cbn [length]; lia).
    rewrite repeat_app. cbv zeta. unfold runEvents. rewrite fold_left_app.
    change (fold_left _ (repeat (Step false) 3) w) with (run (repeat (Step false) 3) w).
    rewrite (drain_one k t (q ++ [(n, CallTask (whole fn))]) p w Hpc Hq E). by apply (IH q).
Qed.
End call.

(** The one-step call of [Session] is what the worker does.  When the
    posted tasks do not throw, a call on a live session gives the caller the
    result, and the protocol the state, that the worker reaches by draining the
    queue with the call at its end. *)
Theorem call_is_drain {C} `{NetworkChannel C} {R} readLoop timeout (handler : Message -> hcode C R)
    (s : ConnectionSession C) (fn : SE (SquidProtocol C) R) r s' :
  cs_isAlive s = true -> is_ok (drainQueue s).1 = true -> call fn s = (Done r, s') ->
  let w := mkWorker true (protocol_ s) (imap (fun n t => (n, PostTask (whole t))) (tasks_ s)) (readSuspended_ s)
             (Some workerThread) AtDrain ∅ 0 (map (fun t => PostTask (whole t)) (tasks_ s)) [] in
  let w' := runEvents readLoop timeout handler
              (Call 0 (whole fn) :: repeat (Step false) (3 * length (tasks_ s) + 3)) w in
  w_futures w' !! length (tasks_ s) = Some r /\ w_protocol w' = protocol_ s' /\ w_queue w' = [].
Proof.
  intros Hal Hok Hc w w'. unfold call in Hc. rewrite Hal in Hc. unfold drainQueue in *.
  destruct (for_each (tasks_ s) (fun task => task) (protocol_ s)) as [[[]|e] p1] eqn:E; [|done].
  cbn [protocol_ alive_ tasks_] in Hc.
  set (w1 := enqueue (CallTask (whole fn)) w).
  destruct (drain_posts readLoop timeout handler (tasks_ s) fn (length (tasks_ s))
    (imap (fun n t => (n, PostTask (whole t))) (tasks_ s)) w1 p1) as (Hf & Hp & Hq); [done| | |exact E|].
  { simpl. by rewrite length_map. }
  { change (map snd) with (fmap (M := list) (snd (A := nat) (B := QTask C R))).
    rewrite fmap_imap. apply (imap_const (fun t => PostTask (R := R) (whole t)) (tasks_ s)). }
  destruct (fn p1) as [r1 p2]. injection Hc as -> <-. done.
Qed.

(** A push that was posted goes out before the heartbeat. *)
Definition demo_posted : ConnectionSession Pipe := post (pushDeleteFile "a.txt") demo_session.

Lemma call_is_drain_witness :
  let w := mkWorker true (protocol_ demo_posted) (imap (fun n t => (n, PostTask (whole t))) (tasks_ demo_posted)) false
             (Some workerThread) AtDrain ∅ 0 (map (fun t => PostTask (whole t)) (tasks_ demo_posted)) [] in
  let w' := runEvents false false noHandler (Call 0 (whole heartbeat) :: repeat (Step false) 6) w in
  w_futures w' !! 1%nat = Some (Ok makeNack)
  /\ w_protocol w' = protocol_ (call heartbeat demo_posted).2 /\ w_queue w' = [].
Proof.
  apply (call_is_drain false false noHandler demo_posted heartbeat (Ok makeNack) (call heartbeat demo_posted).2).
  - reflexivity.
  - vm_compute. reflexivity.
  - transitivity ((call heartbeat demo_posted).1, (call heartbeat demo_posted).2); [apply surjective_pairing|].
    f_equal.
Defined.

(** ** Who destroys the session

    The thread function holds a [shared_ptr] to the session ([start]), as do
    the maps of the server.  The destructor calls [stop], which joins the
    worker, and then destroys the [ScopedThread] of [Utils]. *)

Section ownership.
Context {C : Type} `{NetworkChannel C} {R : Type}.
Variables (readLoop timeout : bool) (handler : Message -> hcode C R).

(** [~ConnectionSession] on thread [self], [worker_] being the handle of the
    worker: [stop], then the member.  An exception in a destructor terminates. *)
Definition destructor (self : nat) (returned : bool) (worker_ : handle) : effect unit :=
  let joined := if joinable worker_ then join self (fun _ => returned) worker_ else Returns worker_ in
  match joined with
  | Returns worker_ => destroy self (fun _ => returned) worker_
  | Throws => Terminates
  | Waits => Waits
  | Terminates => Terminates
  end.

Inductive Fate : Type := Held | Freed | Terminated.
Definition fate (e : effect unit) : Fate :=
  match e with Returns _ => Freed | Waits => Held | Throws | Terminates => Terminated end.

(** [ob_owners]: the pointers outside; [ob_thread]: the thread function still
    has its own. *)
Record Object : Type := mkObject {
  ob_worker : Worker C R;
  ob_owners : nat;
  ob_thread : bool;
  ob_fate : Fate }.

Inductive OEvent : Type :=
| Inner (e : Event C R)
| Release
| ThreadEnds.

(** The last pointer that goes runs the destructor on its own thread: another
    one, or the worker when it drops [self], which is before it has returned. *)
Definition objectStep (o : Object) (e : OEvent) : Object :=
  match ob_fate o with
  | Held =>
      match e with
      | Inner e => mkObject (happen readLoop timeout handler e (ob_worker o)) (ob_owners o) (ob_thread o) Held
      | Release =>
          match ob_owners o with
          | O => o
          | S k => mkObject (ob_worker o) k (ob_thread o)
                     (if bool_decide (k = 0%nat) && negb (ob_thread o)
                      then fate (destructor 1 true (Some workerThread)) else Held)
          end
      | ThreadEnds =>
          match w_pc (ob_worker o) with
          | Left => if ob_thread o
                    then mkObject (ob_worker o) (ob_owners o) false
                           (if bool_decide (ob_owners o = 0%nat)
                            then fate (destructor workerThread false (Some workerThread)) else Held)
                    else o
          | _ => o
          end
      end
  | _ => o
  end.

Definition objectRun (es : list OEvent) (o : Object) : Object := fold_left objectStep es o.

Lemma release_all k (w : Worker C R) :
  objectRun (repeat Release k) (mkObject w k true Held) = mkObject w 0 true Held.
Proof. induction k as [|k IH]; [done|]. cbn. by rewrite andb_false_r. Qed.
End ownership.

(** Dropping a dead datanode ends the server.  The failure detector marks
    the session dead and takes it out of the maps; [setIsAlive] does not wake
    the worker, which still waits in its loop.  When all other pointers are
    gone before the worker leaves the loop, the worker holds the last one: the
    destructor runs on the worker, joins itself, and the process terminates. *)
Theorem released_session_terminates {C} `{NetworkChannel C} {R} timeout (handler : Message -> hcode C R)
    (w : Worker C R) k :
  w_pc w = AtRead ->
  ob_fate (objectRun false timeout handler
    (Inner (MarkAlive false) :: repeat Release k ++ [Inner (Step false); Inner (Step false); ThreadEnds])
    (mkObject w k true Held)) = Terminated.
Proof.
  intros Hpc. unfold objectRun. cbn [fold_left objectStep ob_fate ob_worker ob_owners ob_thread].
  rewrite fold_left_app. set (w1 := happen false timeout handler (MarkAlive false) w).
  pose proof (release_all false timeout handler k w1) as Hrel. unfold objectRun in Hrel. rewrite Hrel.
  unfold w1. cbn. unfold workerMove, readMove. cbn. rewrite Hpc. reflexivity.
Qed.

(** The session of a datanode that has gone, while its worker waits. *)
Definition demo_waiting : Worker Pipe Message :=
  runEvents false false noHandler (Call 0 demo_beat :: repeat (Step false) 6) (startWorker demo_end).

Lemma released_session_terminates_witness :
  ob_fate (objectRun false false noHandler
    (Inner (MarkAlive false) :: repeat Release 2 ++ [Inner (Step false); Inner (Step false); ThreadEnds])
    (mkObject demo_waiting 2 true Held)) = Terminated.
Proof. apply (released_session_terminates false noHandler demo_waiting 2). reflexivity. Defined.
