(* ===== verification/ThreadPool.v ===== *)
(** * The pool of request threads

    Models [server/src/thread_pool.hpp]: [submit] appends to the queue, each
    worker takes the front task, runs it and comes back, and after the
    destructor has set [stopping_] a worker leaves when the queue is empty.
    The steps of the workers interleave freely; [started] and [finished] record
    the order in which tasks begin and end.  A task that throws ends like any
    other, as its [packaged_task] keeps the exception for the future. *)

From S2P Require Import Prelude.

Inductive worker (T : Type) : Type :=
| Waiting
| Running (t : T)
| Left.
Arguments Waiting {T}.
Arguments Running {T} t.
Arguments Left {T}.

Record ThreadPool (T : Type) : Type := mkPool {
  workers_ : list (worker T);
  tasks_ : list T;
  stopping_ : bool;
  submitted : list T;
  started : list T;
  finished : list T }.
Arguments mkPool {T}.
Arguments workers_ {T}.
Arguments tasks_ {T}.
Arguments stopping_ {T}.
Arguments submitted {T}.
Arguments started {T}.
Arguments finished {T}.

Section pool.
Context {T : Type}.
Local Abbreviation P := (ThreadPool T).
Implicit Types p : P.

(** The constructor: at least one worker. *)
Definition newPool (workerCount : nat) : P :=
  mkPool (replicate (if decide (workerCount = 0)%nat then 1 else workerCount) Waiting) [] false [] [] [].

Definition submit (t : T) p : P :=
  mkPool (workers_ p) (tasks_ p ++ [t]) (stopping_ p) (submitted p ++ [t]) (started p) (finished p).

(** The destructor up to the joins. *)
Definition stopPool p : P :=
  mkPool (workers_ p) (tasks_ p) true (submitted p) (started p) (finished p).

(** One turn of [workerLoop] of the worker [i]: nothing when the condition of
    the wait is false; otherwise leave, or take the front task. *)
Definition workerTake (i : nat) p : option P :=
  match workers_ p !! i with
  | Some Waiting =>
      match tasks_ p with
      | [] => if stopping_ p
              then Some (mkPool (<[i := Left]> (workers_ p)) [] true (submitted p) (started p) (finished p))
              else None
      | t :: rest =>
          Some (mkPool (<[i := Running t]> (workers_ p)) rest (stopping_ p) (submitted p) (started p ++ [t]) (finished p))
      end
  | _ => None
  end.

(** The task of the worker [i] returns. *)
Definition workerDone (i : nat) p : option P :=
  match workers_ p !! i with
  | Some (Running t) =>
      Some (mkPool (<[i := Waiting]> (workers_ p)) (tasks_ p) (stopping_ p) (submitted p) (started p) (finished p ++ [t]))
  | _ => None
  end.

(** Any thread may submit at any time, a task that runs included.  [returns]
    are the tasks that come back. *)
Inductive pool_step (returns : T -> Prop) p : P -> Prop :=
| pool_submit t : pool_step returns p (submit t p)
| pool_stop : pool_step returns p (stopPool p)
| pool_take i p' : workerTake i p = Some p' -> pool_step returns p p'
| pool_done i t p' : workers_ p !! i = Some (Running t) -> returns t -> workerDone i p = Some p' ->
    pool_step returns p p'.

Definition running p : list T :=
  omap (fun w => match w with Running t => Some t | _ => None end) (workers_ p).

Record pool_inv p : Prop := {
  pi_fifo : submitted p = started p ++ tasks_ p;
  pi_once : started p ≡ₚ finished p ++ running p;
  pi_left : Left ∈ workers_ p -> stopping_ p = true;
  pi_workers : workers_ p <> [] }.

(** What replacing a worker does to the running tasks. *)
Lemma running_insert ws i (w w' : worker T) :
  ws !! i = Some w ->
  omap (fun w => match w with Running t => Some t | _ => None end) (<[i := w']> ws)
    ++ (match w with Running t => [t] | _ => [] end)
  ≡ₚ (match w' with Running t => [t] | _ => [] end)
    ++ omap (fun w => match w with Running t => Some t | _ => None end) ws.
Proof.
  intros Hi. rewrite insert_take_drop by (by eapply lookup_lt_Some).
  rewrite <- (take_drop_middle ws i w Hi) at 3. rewrite !omap_app. csimpl.
  destruct w, w'; csimpl; solve_Permutation.
Qed.

Lemma new_pool_inv n : pool_inv (newPool n).
Proof.
  split; try done.
  - simpl. unfold running. simpl. by induction (if decide (n = 0)%nat then 1%nat else n).
  - intros Hl. simpl in Hl. by apply elem_of_replicate in Hl as [? _].
  - simpl. by destruct (decide (n = 0)%nat), n.
Qed.

Lemma insert_not_nil (ws : list (worker T)) i w : ws <> [] -> <[i := w]> ws <> [].
Proof. by destruct ws, i. Qed.

#[export] Instance left_dec (ws : list (worker T)) : Decision (Left ∈ ws).
Proof.
  induction ws as [|w ws IH]; [right; apply not_elem_of_nil|].
  destruct w; [|  |left; apply list_elem_of_here];
    (destruct IH as [Hin|Hn]; [left; by apply list_elem_of_further|]; right; by intros [?|?]%elem_of_cons).
Defined.

Lemma left_insert (ws : list (worker T)) i w : w <> Left -> Left ∈ <[i := w]> ws -> Left ∈ ws.
Proof.
  intros Hw [j Hj]%list_elem_of_lookup. apply list_lookup_insert_Some in Hj as [(_ & ? & _)|[_ Hj]]; [done|].
  by eapply list_elem_of_lookup_2.
Qed.

Lemma take_inv i p p' : pool_inv p -> workerTake i p = Some p' -> pool_inv p'.
Proof.
  intros [Hf Ho Hl Hw] Ht. unfold workerTake in Ht. destruct (workers_ p !! i) as [[| |]|] eqn:Ei; try done.
  pose proof (running_insert _ _ _ Left Ei) as Hleft. pose proof (fun t => running_insert _ _ _ (Running t) Ei) as Hrun.
  csimpl in *. destruct (tasks_ p) as [|t rest] eqn:Et.
  - destruct (stopping_ p) eqn:Es; [|done]. injection Ht as <-. split; cbn; try done.
    + unfold running. cbn. rewrite app_nil_r in Hleft. by rewrite Hleft.
    + by apply insert_not_nil.
  - injection Ht as <-. split; cbn.
    + by rewrite <- app_assoc.
    + unfold running in *. cbn. specialize (Hrun t). rewrite app_nil_r in Hrun. rewrite Hrun, Ho.
      csimpl. solve_Permutation.
    + intros Hin%left_insert; [|done]. by apply Hl.
    + by apply insert_not_nil.
Qed.

Lemma done_inv i p p' : pool_inv p -> workerDone i p = Some p' -> pool_inv p'.
Proof.
  intros [Hf Ho Hl Hw] Ht. unfold workerDone in Ht. destruct (workers_ p !! i) as [[|t|]|] eqn:Ei; try done.
  injection Ht as <-. pose proof (running_insert _ _ _ Waiting Ei) as Hrun. csimpl in Hrun. split; cbn; try done.
  - rewrite Ho. unfold running in *. cbn. rewrite <- Hrun, <- app_assoc. solve_Permutation.
  - intros Hin%left_insert; [|done]. by apply Hl.
  - by apply insert_not_nil.
Qed.

Lemma step_inv returns p p' : pool_step returns p p' -> pool_inv p -> pool_inv p'.
Proof.
  intros Hs Hi. destruct Hs as [t| |i p' Ht|i t p' _ _ Ht].
  - destruct Hi as [Hf Ho Hl Hw]. split; cbn; try done. by rewrite Hf, app_assoc.
  - destruct Hi as [Hf Ho Hl Hw]. by split.
  - by eapply take_inv.
  - by eapply done_inv.
Qed.

(** The step in which the first worker leaves finds the queue empty. *)
Lemma step_leaves returns p p' :
  pool_step returns p p' -> Left ∉ workers_ p -> Left ∈ workers_ p' -> stopping_ p = true /\ tasks_ p = [].
Proof.
  intros Hs Hn Hin. destruct Hs as [t| |i p' Ht|i t p' _ _ Ht]; try done.
  - unfold workerTake in Ht. destruct (workers_ p !! i) as [[| |]|]; try done.
    destruct (tasks_ p); [by destruct (stopping_ p)|]. injection Ht as <-. by apply left_insert in Hin.
  - unfold workerDone in Ht. destruct (workers_ p !! i) as [[| |]|]; try done. injection Ht as <-.
    by apply left_insert in Hin.
Qed.

Lemma run_inv returns p p' : rtc (pool_step returns) p p' -> pool_inv p -> pool_inv p'.
Proof. induction 1; eauto using step_inv. Qed.

(** *** Shutting down *)

(** The work left: three for a task in the queue, two for one that runs, one
    for a worker that waits. *)
Definition worker_work (w : worker T) : nat :=
  match w with
  | Waiting => 1
  | Running _ => 2
  | Left => 0
  end.
Definition work p : nat := 3 * length (tasks_ p) + sum_list_with worker_work (workers_ p).

Lemma sum_insert ws i w w' : ws !! i = Some w ->
  (sum_list_with worker_work (<[i := w']> ws) + worker_work w
   = sum_list_with worker_work ws + worker_work w')%nat.
Proof.
  revert i. induction ws as [|x ws IH]; intros [|i] Hi; simplify_eq/=; [lia|].
  specialize (IH i Hi). lia.
Qed.

Lemma take_work i p p' : workerTake i p = Some p' -> (work p' < work p)%nat.
Proof.
  unfold workerTake, work. destruct (workers_ p !! i) as [[| |]|] eqn:Ei; try done.
  destruct (tasks_ p) as [|t rest]; [destruct (stopping_ p); [|done]|]; intros [= <-]; cbn [workers_ tasks_ length].
  - pose proof (sum_insert _ _ _ Left Ei). simpl in *. lia.
  - pose proof (sum_insert _ _ _ (Running t) Ei). simpl in *. lia.
Qed.

Lemma done_work i p p' : workerDone i p = Some p' -> (work p' < work p)%nat.
Proof.
  unfold workerDone, work. destruct (workers_ p !! i) as [[|t|]|] eqn:Ei; try done.
  intros [= <-]. cbn [workers_ tasks_]. pose proof (sum_insert _ _ _ Waiting Ei). simpl in *. lia.
Qed.

(** What the destructor waits for. *)
Definition all_left p : Prop := Forall (fun w => w = Left) (workers_ p).
#[export] Instance all_left_dec p : Decision (all_left p).
Proof. unfold all_left. apply Forall_dec. intros []; [right|right|left]; done. Defined.

(** A pool that is stopping and whose workers have not all left can go on. *)
Lemma stopping_progress p : stopping_ p = true -> ~ all_left p ->
  exists i p', workerTake i p = Some p' \/ workerDone i p = Some p'.
Proof.
  intros Hs Hn. assert (exists i w, workers_ p !! i = Some w /\ w <> Left) as (i & w & Hi & Hw).
  { apply not_Forall_Exists in Hn; [|intros []; [right|right|left]; done].
    apply Exists_exists in Hn as (w & [i Hi]%list_elem_of_lookup & Hw). eauto. }
  exists i. unfold workerTake, workerDone. rewrite Hi, Hs. destruct w; [|by eexists; right|done].
  destruct (tasks_ p); by eexists; left.
Qed.
End pool.

(** C31. The pool runs every task it is given exactly once, and starts them in
    the order of [submit]: what was submitted is what was started followed by
    the queue, and what was started is what has ended and what runs.  A worker
    has left only if the pool is stopping and there was a moment at which it
    was stopping, no worker had left and the queue was empty: what is in the
    queue now came after that. *)
Theorem pool_runs_each_once {T} (returns : T -> Prop) n p :
  rtc (pool_step returns) (newPool n) p ->
  submitted p = started p ++ tasks_ p /\ started p ≡ₚ finished p ++ running p
  /\ (Left ∈ workers_ p -> stopping_ p = true
      /\ exists p0, rtc (pool_step returns) (newPool n) p0 /\ rtc (pool_step returns) p0 p
           /\ (Left ∉ workers_ p0) /\ stopping_ p0 = true /\ tasks_ p0 = []).
Proof.
  intros Hr. destruct (run_inv returns _ _ Hr (new_pool_inv n)) as [Hf Ho Hl _].
  do 2 (split; [done|]). intros Hin. split; [by apply Hl|]. clear Hf Ho Hl.
  revert Hin. pattern p. refine (rtc_ind_r _ _ _ _ p Hr).
  { intros [? _]%elem_of_replicate. done. }
  clear p Hr. intros p1 p2 Hr Hs IH Hin. destruct (decide (Left ∈ workers_ p1)) as [H1|H1].
  - destruct (IH H1) as (p0 & H0 & H01 & Hp0). exists p0. split; [done|]. split; [by eapply rtc_r|done].
  - exists p1. split; [done|]. split; [by apply rtc_once|]. split; [done|]. by eapply step_leaves.
Qed.

(** What happens while the destructor waits: the workers take their turns, all
    tasks returning, and a task that runs may submit others.  The numbers count
    the turns and the submissions. *)
Inductive shutdown {T} : nat -> nat -> ThreadPool T -> ThreadPool T -> Prop :=
| shut_refl p : shutdown 0 0 p p
| shut_take k c p p1 p2 i : shutdown k c p p1 -> workerTake i p1 = Some p2 -> shutdown (S k) c p p2
| shut_done k c p p1 p2 i : shutdown k c p p1 -> workerDone i p1 = Some p2 -> shutdown (S k) c p p2
| shut_nested k c p p1 i t t' : shutdown k c p p1 -> workers_ p1 !! i = Some (Running t) ->
    shutdown k (S c) p (submit t' p1).

(** A pool in which nothing is left to do. *)
Definition drained {T} (p : ThreadPool T) : Prop := all_left p -> tasks_ p = [].

Lemma running_not_left {T} (p : ThreadPool T) i t : workers_ p !! i = Some (Running t) -> ~ all_left p.
Proof. intros Hi Hall. unfold all_left in Hall. rewrite Forall_lookup in Hall. by specialize (Hall i _ Hi). Qed.

Lemma take_drained {T} (p p' : ThreadPool T) i : workerTake i p = Some p' -> drained p' /\ stopping_ p' = stopping_ p.
Proof.
  unfold workerTake. destruct (workers_ p !! i) as [[| |]|] eqn:Ei; try done.
  destruct (tasks_ p) as [|t rest].
  - destruct (stopping_ p) eqn:Es; [|done]. by intros [= <-].
  - intros [= <-]. split; [|done]. intros Hall. exfalso. revert Hall. eapply (running_not_left _ i t).
    cbn [workers_]. apply list_lookup_insert_eq. by eapply lookup_lt_Some.
Qed.

Lemma done_drained {T} (p p' : ThreadPool T) i : workerDone i p = Some p' -> drained p' /\ stopping_ p' = stopping_ p.
Proof.
  unfold workerDone. destruct (workers_ p !! i) as [[|t|]|] eqn:Ei; try done. intros [= <-]. split; [|done].
  intros Hall. exfalso. unfold all_left in Hall. rewrite Forall_lookup in Hall. cbn [workers_] in Hall.
  assert (<[i := Waiting]> (workers_ p) !! i = Some Waiting) as Hi.
  { apply list_lookup_insert_eq. by eapply lookup_lt_Some. }
  by specialize (Hall i _ Hi).
Qed.

Lemma shutdown_inv {T} k c (p p' : ThreadPool T) :
  shutdown k c p p' -> pool_inv p -> drained p ->
  pool_inv p' /\ drained p' /\ stopping_ p' = stopping_ p /\ (k + work p' <= work p + 3 * c)%nat.
Proof.
  intros Hs Hi Hd. induction Hs as [p|k c p p1 p2 i _ IH Ht|k c p p1 p2 i _ IH Ht|k c p p1 i t t' _ IH Hrun].
  - split_and!; [done|done|done|lia].
  - destruct (IH Hi Hd) as (Hi1 & _ & Hs1 & Hw1). destruct (take_drained _ _ _ Ht) as [Hd2 Hs2].
    pose proof (take_work _ _ _ Ht). split_and!; [by eapply take_inv|done|congruence|lia].
  - destruct (IH Hi Hd) as (Hi1 & _ & Hs1 & Hw1). destruct (done_drained _ _ _ Ht) as [Hd2 Hs2].
    pose proof (done_work _ _ _ Ht). split_and!; [by eapply done_inv|done|congruence|lia].
  - destruct (IH Hi Hd) as (Hi1 & _ & Hs1 & Hw1). split_and!.
    + eapply step_inv; [|done]. apply (pool_submit (fun _ => True)).
    + intros Hall. exfalso. by eapply (running_not_left p1).
    + done.
    + unfold work in *. cbn [submit tasks_ workers_]. rewrite length_app. cbn [length]. lia.
Qed.

Lemma all_left_drained {T} (p : ThreadPool T) : pool_inv p -> tasks_ p = [] -> all_left p -> finished p ≡ₚ submitted p.
Proof.
  intros [Hf Ho _ _] Ht Hall. rewrite Hf, Ht, app_nil_r, Ho.
  enough (running p = []) as ->; [by rewrite app_nil_r|].
  unfold running, all_left in *. revert Hall. generalize (workers_ p). by induction 1 as [|w ws -> _ IH].
Qed.

(** C32. Destroying the pool ends, when every task returns and only tasks of
    the pool itself submit to it from then on (the server has stopped its other
    threads): from the moment [stopping_] is set, the workers make at most
    [work p] turns and three for each task submitted meanwhile, and when they
    can make no more, all of them have left, no task is in the queue, and every
    task that was ever submitted, before or during the shutdown, has been run. *)
Theorem shutdown_drains {T} n (p : ThreadPool T) k c p' :
  rtc (pool_step (fun _ => True)) (newPool n) p -> stopping_ p = false -> shutdown k c (stopPool p) p' ->
  (k <= work p + 3 * c)%nat
  /\ ((forall i, workerTake i p' = None /\ workerDone i p' = None) ->
      all_left p' /\ tasks_ p' = [] /\ finished p' ≡ₚ submitted p').
Proof.
  intros Hr Hs Hsh. pose proof (run_inv _ _ _ Hr (new_pool_inv n)) as Hi.
  assert (drained (stopPool p)) as Hd.
  { intros Hall. exfalso. destruct Hi as [_ _ Hl Hw]. unfold all_left in Hall. cbn [stopPool workers_] in Hall.
    destruct (workers_ p) as [|w ws] eqn:E; [done|]. apply Forall_cons in Hall as [-> _].
    rewrite Hl in Hs; [done|]. apply list_elem_of_here. }
  assert (pool_inv (stopPool p)) as Hi' by (eapply step_inv; [apply (pool_stop (fun _ => True))|done]).
  destruct (shutdown_inv _ _ _ _ Hsh Hi' Hd) as (Hi2 & Hd2 & Hs2 & Hw2).
  split; [change (work (stopPool p)) with (work p) in Hw2; lia|]. intros Hend.
  assert (all_left p') as Hall.
  { destruct (decide (all_left p')) as [|Hn]; [done|]. exfalso.
    destruct (stopping_progress p' Hs2 Hn) as (i & p'' & Hp). destruct (Hend i) as [E1 E2].
    rewrite E1, E2 in Hp. by destruct Hp. }
  split; [done|]. split; [by apply Hd2|]. apply all_left_drained; [done|by apply Hd2|done].
Qed.

(** A task submitted when the workers have left is never run: [submit] does
    not ask [stopping_]. *)
Theorem late_task_is_lost {T} (returns : T -> Prop) (p p' : ThreadPool T) :
  all_left p -> rtc (pool_step returns) p p' -> started p' = started p /\ workers_ p' = workers_ p.
Proof.
  intros Hall Hr. induction Hr as [|p1 p2 p3 Hstep _ IH]; [done|].
  enough (started p2 = started p1 /\ workers_ p2 = workers_ p1) as [E1 E2].
  { unfold all_left in *. rewrite E2 in IH. destruct (IH Hall) as [-> ->]. done. }
  unfold all_left in Hall. rewrite Forall_lookup in Hall. destruct Hstep as [t| |i p2 Ht|i t p2 Hi Hret Ht]; try done.
  - unfold workerTake in Ht. destruct (workers_ p1 !! i) as [w|] eqn:Ei; [|done]. by rewrite (Hall i w Ei) in Ht.
  - by specialize (Hall i _ Hi).
Qed.

(** Tasks that never return use the pool up: when every worker runs such
    a task, no task is started any more, however many are submitted. *)
Theorem stuck_tasks_block_pool {T} (returns : T -> Prop) (p p' : ThreadPool T) :
  Forall (fun w => exists t, w = Running t /\ ~ returns t) (workers_ p) ->
  rtc (pool_step returns) p p' -> started p' = started p /\ workers_ p' = workers_ p.
Proof.
  intros Hall Hr. induction Hr as [|p1 p2 p3 Hstep _ IH]; [done|].
  enough (started p2 = started p1 /\ workers_ p2 = workers_ p1) as [E1 E2].
  { rewrite E2 in IH. destruct (IH Hall) as [-> ->]. done. }
  rewrite Forall_lookup in Hall. destruct Hstep as [t| |i p2 Ht|i t p2 Hi Hret Ht]; try done.
  - unfold workerTake in Ht. destruct (workers_ p1 !! i) as [w|] eqn:Ei; [|done].
    destruct (Hall i w Ei) as (t & -> & _). done.
  - destruct (Hall i _ Hi) as (t' & [= <-] & Hn). done.
Qed.

Definition demo_busy_pool : ThreadPool nat := submit 7%nat (submit 5%nat (newPool 1)).
Definition demo_pool1 : ThreadPool nat := default demo_busy_pool (workerTake 0 demo_busy_pool).

Lemma pool_runs_each_once_witness :
  submitted demo_pool1 = started demo_pool1 ++ tasks_ demo_pool1
  /\ started demo_pool1 ≡ₚ finished demo_pool1 ++ running demo_pool1
  /\ (Left ∈ workers_ demo_pool1 -> stopping_ demo_pool1 = true
      /\ exists p0, rtc (pool_step (fun _ => True)) (newPool 1) p0 /\ rtc (pool_step (fun _ => True)) p0 demo_pool1
           /\ (Left ∉ workers_ p0) /\ stopping_ p0 = true /\ tasks_ p0 = []).
Proof.
  apply (pool_runs_each_once (fun _ => True) 1).
  eapply rtc_l; [by apply (pool_submit _ _ 5%nat)|]. eapply rtc_l; [by apply (pool_submit _ _ 7%nat)|].
  apply rtc_once. by apply (pool_take _ _ 0).
Defined.

(** One worker, one task, which submits another: both are taken and end, then
    the worker leaves. *)
Definition demo_running : ThreadPool nat := submit 5%nat (newPool 1).
Definition demo_drained : ThreadPool nat :=
  mkPool [Left] [] true [5%nat; 6%nat] [5%nat; 6%nat] [5%nat; 6%nat].

Lemma shutdown_drains_witness :
  (5 <= work demo_running + 3 * 1)%nat
  /\ ((forall i, workerTake i demo_drained = None /\ workerDone i demo_drained = None) ->
      all_left demo_drained /\ tasks_ demo_drained = [] /\ finished demo_drained ≡ₚ submitted demo_drained).
Proof.
  apply (shutdown_drains 1 demo_running 5 1 demo_drained).
  - apply rtc_once. apply (pool_submit _ _ 5%nat).
  - reflexivity.
  - eapply (shut_take _ _ _ _ _ 0); [eapply (shut_done _ _ _ _ _ 0); [eapply (shut_take _ _ _ _ _ 0);
      [eapply (shut_done _ _ _ _ _ 0); [eapply (shut_nested _ _ _ _ 0 5%nat 6%nat); [eapply (shut_take _ _ _ _ _ 0);
      [apply shut_refl|]|]|]|]|]|]; reflexivity.
Defined.

Lemma stuck_tasks_block_pool_witness :
  started (submit 9%nat demo_pool1) = started demo_pool1 /\ workers_ (submit 9%nat demo_pool1) = workers_ demo_pool1.
Proof.
  apply (stuck_tasks_block_pool (fun t => t <> 5%nat) demo_pool1).
  - repeat constructor. exists 5%nat. split; [reflexivity|]. intros Hn. apply Hn. reflexivity.
  - apply rtc_once. by apply (pool_submit _ _ 9%nat).
Defined.
