(* ===== verification/ServerState.v ===== *)
(** * The state of a server

    The data members of [Server], [LockManager], [ReplicationManager] and
    [StandbyReplicaManager] ([server/src/*.hpp]) as one record, since the
    managers share the endpoint maps, the file manager and the sessions by
    reference.  A [shared_ptr<ConnectionSession>] is the identifier of a
    session in [sessions], so that two maps that hold the same pointer see the
    same session.  Work handed to another thread ([post], [submit]) is recorded
    in [posted], in order. *)

From S2P Require Import Prelude Text Wire FileManager StateStore Session.

Abbreviation sid := positive.

(** What is posted to a session or submitted to the pool. *)
Inductive Task : Type :=
| PushCreate (path : string) (version : Z) (data : list byte)
| PushUpdate (path : string) (version : Z) (data : list byte)
| PushDelete (path : string)
| ReleaseLock (path : string)
| RollbackDelete (path : string)
| StateDelta (op : Z) (path : string) (version : Z) (datanodes : list string) (epoch : Z)
| LeaderHb (epoch : Z)
| EraseClient (name : string).

Record Server (S : Type) : Type := mkServer {
  replicationFactor : Z;
  epoch : Z;
  dataNodeEndpointMap : gmap string sid;
  clientEndpointMap : gmap string sid;
  fileLockMap : gmap string FileLock;
  dataNodeReplicationMap : gmap string (gmap string sid);
  persistedVersionMap : gmap string Z;
  roundRobinCursor : Z;
  standbys : option (gmap string sid);
  disk : Disk;
  sessions : gmap sid S;
  posted : list (sid * Task) }.
Arguments mkServer {S}.
Arguments replicationFactor {S}.
Arguments epoch {S}.
Arguments dataNodeEndpointMap {S}.
Arguments clientEndpointMap {S}.
Arguments fileLockMap {S}.
Arguments dataNodeReplicationMap {S}.
Arguments persistedVersionMap {S}.
Arguments roundRobinCursor {S}.
Arguments standbys {S}.
Arguments disk {S}.
Arguments sessions {S}.
Arguments posted {S}.

Section setters.
Context {S : Type}.
Implicit Types st : Server S.

Definition set_endpoints (m : gmap string sid) st : Server S :=
  mkServer (replicationFactor st) (epoch st) m (clientEndpointMap st) (fileLockMap st)
    (dataNodeReplicationMap st) (persistedVersionMap st) (roundRobinCursor st) (standbys st)
    (disk st) (sessions st) (posted st).
Definition set_clients (m : gmap string sid) st : Server S :=
  mkServer (replicationFactor st) (epoch st) (dataNodeEndpointMap st) m (fileLockMap st)
    (dataNodeReplicationMap st) (persistedVersionMap st) (roundRobinCursor st) (standbys st)
    (disk st) (sessions st) (posted st).
Definition set_locks (m : gmap string FileLock) st : Server S :=
  mkServer (replicationFactor st) (epoch st) (dataNodeEndpointMap st) (clientEndpointMap st) m
    (dataNodeReplicationMap st) (persistedVersionMap st) (roundRobinCursor st) (standbys st)
    (disk st) (sessions st) (posted st).
Definition set_repMap (m : gmap string (gmap string sid)) st : Server S :=
  mkServer (replicationFactor st) (epoch st) (dataNodeEndpointMap st) (clientEndpointMap st)
    (fileLockMap st) m (persistedVersionMap st) (roundRobinCursor st) (standbys st)
    (disk st) (sessions st) (posted st).
Definition set_versions (m : gmap string Z) st : Server S :=
  mkServer (replicationFactor st) (epoch st) (dataNodeEndpointMap st) (clientEndpointMap st)
    (fileLockMap st) (dataNodeReplicationMap st) m (roundRobinCursor st) (standbys st)
    (disk st) (sessions st) (posted st).
Definition set_cursor (c : Z) st : Server S :=
  mkServer (replicationFactor st) (epoch st) (dataNodeEndpointMap st) (clientEndpointMap st)
    (fileLockMap st) (dataNodeReplicationMap st) (persistedVersionMap st) c (standbys st)
    (disk st) (sessions st) (posted st).
Definition set_standbys (m : option (gmap string sid)) st : Server S :=
  mkServer (replicationFactor st) (epoch st) (dataNodeEndpointMap st) (clientEndpointMap st)
    (fileLockMap st) (dataNodeReplicationMap st) (persistedVersionMap st) (roundRobinCursor st) m
    (disk st) (sessions st) (posted st).
Definition set_disk (d : Disk) st : Server S :=
  mkServer (replicationFactor st) (epoch st) (dataNodeEndpointMap st) (clientEndpointMap st)
    (fileLockMap st) (dataNodeReplicationMap st) (persistedVersionMap st) (roundRobinCursor st)
    (standbys st) d (sessions st) (posted st).
Definition set_sessions (m : gmap sid S) st : Server S :=
  mkServer (replicationFactor st) (epoch st) (dataNodeEndpointMap st) (clientEndpointMap st)
    (fileLockMap st) (dataNodeReplicationMap st) (persistedVersionMap st) (roundRobinCursor st)
    (standbys st) (disk st) m (posted st).
Definition set_posted (l : list (sid * Task)) st : Server S :=
  mkServer (replicationFactor st) (epoch st) (dataNodeEndpointMap st) (clientEndpointMap st)
    (fileLockMap st) (dataNodeReplicationMap st) (persistedVersionMap st) (roundRobinCursor st)
    (standbys st) (disk st) (sessions st) l.
End setters.

Section sessions.
Context {S : Type} `{Session S}.
Implicit Types st : Server S.

(** [session && session->isAlive()]. *)
Definition session_alive (i : sid) st : bool :=
  match sessions st !! i with Some s => sess_isAlive s | None => false end.

(** A call on the session [i]. *)
Definition on_session {A} (i : sid) (m : SO S A) : SO (Server S) A := fun st =>
  match sessions st !! i with
  | Some s => let '(r, s) := m s in (r, set_sessions (<[i := s]> (sessions st)) st)
  | None => (Hang, st)
  end.

Definition post_task (i : sid) (t : Task) : SO (Server S) unit :=
  smodify (fun st => set_posted (posted st ++ [(i, t)]) st).

(** The common loop of the propagations: the request to every live node in
    turn, and whether it acknowledged. *)
Fixpoint fanout (req : SO S Message) (nodes : list (string * sid))
  : SO (Server S) (list ((string * sid) * bool)) :=
  match nodes with
  | [] => sret []
  | (name, i) :: nodes =>
      let! live := sgets (session_alive i) in
      if (live : bool) then
        let! m := on_session i req in
        let! more := fanout req nodes in
        sret ((name, i, isAck m) :: more)
      else fanout req nodes
  end.

Definition ackedNodes (answers : list ((string * sid) * bool)) : list (string * sid) :=
  (List.filter (fun a => a.2) answers).*1.

(** [client.second->pushXxx(...)] for every client but the origin. *)
Definition push_others (clients : list (string * sid)) (origin : string) (t : Task)
  : SO (Server S) unit :=
  sfor_each clients (fun c => if decide (c.1 = origin) then sret tt else post_task c.2 t).

(** [StandbyReplicaManager::sendDelta] through the [standby_] pointer. *)
Definition sendDelta (op : Z) (path : string) (version : Z) (names : list string)
  : SO (Server S) unit :=
  let! sb := sgets standbys in
  match sb with
  | None => sret tt
  | Some m =>
      sfor_each (map_entries m) (fun e =>
        let! live := sgets (session_alive e.2) in
        let! ep := sgets epoch in
        if (live : bool) then post_task e.2 (StateDelta op path version names ep) else sret tt)
  end.

Definition buildPersistableRepMap st : gmap string (gset string) :=
  (fun holders : gmap string sid => dom holders) <$> dataNodeReplicationMap st.

(** [persistState]: both files, each saved as the disk lets it ([io]). *)
Definition persistState : SO (Server S) unit :=
  smodify (fun st =>
    let d := runFs (disk st) (saveVersionMap (disk st) (persistedVersionMap st)) in
    set_disk (runFs d (saveReplicationMap d (buildPersistableRepMap st))) st).

Definition setVersionOnDisk (path : string) (v : Z) : SO (Server S) unit :=
  smodify (fun st => set_disk (setFileVersion (disk st) path v) st).
End sessions.

(** A small cluster: three datanodes that hold nothing yet, two clients, and
    one lock entry. *)
Definition demo_node : Node := mkNode true ∅ [].
Definition demo_server : Server Node :=
  mkServer 3 0 {["dn1" := 1%positive; "dn2" := 2%positive; "dn3" := 3%positive]}
    {["alice" := 10%positive; "bob" := 11%positive]}
    {["a.txt" := newFileLock "a.txt" 0]} ∅ ∅ 0 None demo_disk
    {[1%positive := demo_node; 2%positive := demo_node; 3%positive := demo_node]} [].
