(* ===== verification/LockManager.v ===== *)
(** * File locks

    Models [server/src/lock_manager.{hpp,cpp}].  Time is in minutes of
    [system_clock], passed in as [now]. *)

From S2P Require Import Prelude Text Wire FileManager StateStore Session ServerState.

Definition DEFAULT_LOCK_INTERVAL : Z := 5.

Section operations.
Context {S : Type} `{Session S}.
Local Abbreviation St := (Server S).

(** One entry a datanode reported. *)
Definition learnFile (now : Z) (file : string * Z) : SO St unit :=
  do! smodify (fun st : St =>
        match fileLockMap st !! file.1 with
        | None => set_locks (<[file.1 := newFileLock file.1 now]> (fileLockMap st)) st
        | Some _ => st
        end) in
  smodify (fun st : St =>
    if (getFileVersion (disk st) file.1 <? file.2)
    then set_disk (setFileVersion (disk st) file.1 file.2) st else st).

Definition buildFileLockMap (now : Z) : SO St unit :=
  let! nodes := sgets (fun st : St => map_entries (dataNodeEndpointMap st)) in
  sfor_each nodes (fun node =>
    let! live := sgets (session_alive node.2) in
    if negb live then sret tt
    else
      let! files := on_session node.2 sess_syncStatus in
      if negb (isResponse files) then sret tt
      else sfor_each (map_entries (Wire.getFileVersionMap files)) (learnFile now)).

(** The entry of [path], after asking the datanodes when there is none. *)
Definition findLock (path : string) (now : Z) : SO St (option FileLock) :=
  let! l := sgets (fun st : St => fileLockMap st !! path) in
  match l with
  | Some l => sret (Some l)
  | None =>
      do! buildFileLockMap now in
      sgets (fun st : St => fileLockMap st !! path)
  end.

Definition grant (l : FileLock) (client : string) (now : Z) : FileLock :=
  setExpiration (setClientHolder (setIsLocked l true) client) (now + DEFAULT_LOCK_INTERVAL).

Definition acquireLock (path client : string) (now : Z) : SO St bool :=
  let! l := findLock path now in
  match l with
  | None => sret false
  | Some l =>
      if negb (locked l) then
        do! smodify (fun st : St =>
              set_locks (<[path := grant l client now]> (fileLockMap st)) st) in
        sret true
      else sret false
  end.

Definition releaseLock (path : string) (now : Z) : SO St bool :=
  let! l := sgets (fun st : St => fileLockMap st !! path) in
  match l with
  | None => do! buildFileLockMap now in sret false
  | Some l =>
      do! smodify (fun st : St =>
            set_locks (<[path := setIsLocked l false]> (fileLockMap st)) st) in
      sret true
  end.

(** The first half of [checkFileLockExpiration], under the shared lock. *)
Definition expiredLocks (now : Z) (st : St) : list (string * string) :=
  omap (fun e => if locked e.2 && (expirationTime e.2 <? now)
                 then Some (e.1, clientHolder e.2) else None) (map_entries (fileLockMap st)).

(** The body of its second loop: tell the holder, then unlock. *)
Definition expireOne (expired : string * string) : SO St unit :=
  let! holder := sgets (fun st : St => clientEndpointMap st !! expired.2) in
  do! match holder with Some i => post_task i (ReleaseLock expired.1) | None => sret tt end in
  smodify (fun st : St =>
    match fileLockMap st !! expired.1 with
    | Some l => set_locks (<[expired.1 := setIsLocked l false]> (fileLockMap st)) st
    | None => st
    end).

Definition checkFileLockExpiration (now : Z) : SO St unit :=
  let! expired := sgets (expiredLocks now) in
  sfor_each expired expireOne.

(** [std::map::insert] keeps an entry that is there. *)
Definition insertLock (path : string) (now : Z) : SO St unit :=
  smodify (fun st : St =>
    match fileLockMap st !! path with
    | Some _ => st
    | None => set_locks (<[path := newFileLock path now]> (fileLockMap st)) st
    end).

Definition eraseLock (path : string) : SO St unit :=
  smodify (fun st : St => set_locks (delete path (fileLockMap st)) st).
End operations.

(** ** Leases *)

(** The operations other threads may run on the locks. *)
Inductive LockOp : Type :=
| OpAcquire (path client : string) (now : Z)
| OpRelease (path : string) (now : Z)
| OpExpire (now : Z)
| OpInsert (path : string) (now : Z)
| OpErase (path : string)
| OpBuild (now : Z).

Section leases.
Context {S : Type} `{Session S}.
Local Abbreviation St := (Server S).
Implicit Types st : St.

Definition exec (op : LockOp) : SO St unit :=
  match op with
  | OpAcquire path client now => do! acquireLock path client now in sret tt
  | OpRelease path now => do! releaseLock path now in sret tt
  | OpExpire now => checkFileLockExpiration now
  | OpInsert path now => insertLock path now
  | OpErase path => eraseLock path
  | OpBuild now => buildFileLockMap now
  end.

(** The state after running operations one after the other; an operation
    that throws or hangs does not stop the other threads. *)
Definition execAll (ops : list LockOp) (st : St) : St :=
  fold_left (fun st op => (exec op st).2) ops st.

(** [op] leaves the lease on [path] that runs until [until] alone. *)
Definition respects (path : string) (until : Z) (op : LockOp) : Prop :=
  match op with
  | OpRelease p _ => p <> path
  | OpErase p => p <> path
  | OpExpire now => now <= until
  | _ => True
  end.

(** What an operation may do to the lock table: [path] keeps its entry. *)
Definition keeps_lock (path : string) (l : FileLock) {A} (m : SO St A) : Prop :=
  forall st, fileLockMap st !! path = Some l -> fileLockMap (m st).2 !! path = Some l.

Lemma keeps_bind path l {A B} (m : SO St A) (k : A -> SO St B) :
  keeps_lock path l m -> (forall a, keeps_lock path l (k a)) -> keeps_lock path l (sbind m k).
Proof.
  intros Hm Hk st Hl. unfold sbind. specialize (Hm st Hl).
  destruct (m st) as [[[a|e]|] st1]; simpl in *; [by apply Hk|done|done].
Qed.

Lemma keeps_for_each path l {A} (xs : list A) (body : A -> SO St unit) :
  (forall x, x ∈ xs -> keeps_lock path l (body x)) -> keeps_lock path l (sfor_each xs body).
Proof.
  induction xs as [|x xs IH]; intros Hb; [by intros st Hl|]. simpl. apply keeps_bind.
  - apply Hb. by left.
  - intros _. apply IH. intros y Hy. apply Hb. by right.
Qed.

Lemma keeps_ret path l {A} (a : A) : keeps_lock path l (sret a).
Proof. by intros st Hl. Qed.
Lemma keeps_gets path l {A} (f : St -> A) : keeps_lock path l (sgets f).
Proof. by intros st Hl. Qed.
Lemma keeps_on_session path l i {A} (m : SO S A) : keeps_lock path l (on_session i m).
Proof.
  intros st Hl. unfold on_session. destruct (sessions st !! i) as [s|]; [|done].
  by destruct (m s).
Qed.
Lemma keeps_post path l i t : keeps_lock path l (post_task i t).
Proof. by intros st Hl. Qed.
End leases.

#[export] Hint Resolve keeps_ret keeps_gets keeps_on_session keeps_post : squid.

Section lease_proofs.
Context {S : Type} `{Session S}.
Local Abbreviation St := (Server S).
Implicit Types st : St.

Lemma keeps_learnFile path l now file : keeps_lock path l (learnFile (S := S) now file).
Proof.
  apply keeps_bind; [intros st Hl|intros _ st Hl]; simpl.
  - destruct (fileLockMap st !! file.1) eqn:E; [done|]. simpl.
    rewrite lookup_insert_ne; [done|]. intros <-. congruence.
  - by destruct (_ <? _).
Qed.

Lemma keeps_build path l now : keeps_lock path l (buildFileLockMap (S := S) now).
Proof.
  apply keeps_bind; [auto with squid|]. intros nodes. apply keeps_for_each. intros node _.
  apply keeps_bind; [auto with squid|]. intros live. destruct live; simpl; [|auto with squid].
  apply keeps_bind; [auto with squid|]. intros files. destruct (isResponse files); simpl; [|auto with squid].
  apply keeps_for_each. intros file _. apply keeps_learnFile.
Qed.

Lemma keeps_set_other path l (g : St -> gmap string FileLock) :
  (forall st, fileLockMap st !! path = Some l -> g st !! path = Some l) ->
  keeps_lock path l (smodify (fun st : St => set_locks (g st) st)).
Proof. intros Hg st Hl. simpl. auto. Qed.

(** A held lock survives [acquireLock], by anyone and for any path. *)
Lemma keeps_acquire path l p client now :
  locked l = true -> keeps_lock path l (acquireLock (S := S) p client now).
Proof.
  intros Hlk st Hl. unfold acquireLock, findLock, sbind at 1 2, sgets at 1.
  assert (forall st' l', fileLockMap st' !! path = Some l -> (p = path -> l' = l) ->
    fileLockMap ((if negb (locked l') then
        do! smodify (fun st : St => set_locks (<[p := grant l' client now]> (fileLockMap st)) st)
        in sret true else sret false) st').2 !! path = Some l) as Hgrant.
  { intros st' l' Hl' Heq. destruct (decide (p = path)) as [->|Hne].
    - rewrite Heq, Hlk by done. done.
    - destruct (negb (locked l')); [|done]. simpl. by rewrite lookup_insert_ne. }
  destruct (fileLockMap st !! p) as [l0|] eqn:Hp; simpl.
  - apply Hgrant; [done|]. intros ->. congruence.
  - unfold sbind at 1. pose proof (keeps_build path l now st Hl) as Hb.
    destruct (buildFileLockMap now st) as [[[[]|e]|] st1]; simpl in *; [|done|done].
    destruct (fileLockMap st1 !! p) as [l1|] eqn:Hp1; [|done].
    apply Hgrant; [done|]. intros ->. congruence.
Qed.

Lemma keeps_release path l p now :
  p <> path -> keeps_lock path l (releaseLock (S := S) p now).
Proof.
  intros Hne. apply keeps_bind; [auto with squid|]. intros [l0|].
  - apply keeps_bind; [|auto with squid]. apply keeps_set_other. intros st Hl.
    by rewrite lookup_insert_ne.
  - apply keeps_bind; [apply keeps_build|auto with squid].
Qed.

Lemma keeps_expireOne path l expired :
  expired.1 <> path -> keeps_lock path l (expireOne (S := S) expired).
Proof.
  intros Hne. apply keeps_bind; [auto with squid|]. intros holder.
  apply keeps_bind; [destruct holder; auto with squid|]. intros _ st Hl. simpl.
  destruct (fileLockMap st !! expired.1); [|done]. simpl. by rewrite lookup_insert_ne.
Qed.

Lemma keeps_expire path l now st :
  now <= expirationTime l -> fileLockMap st !! path = Some l ->
  fileLockMap (checkFileLockExpiration now st).2 !! path = Some l.
Proof.
  intros Hnow Hl. unfold checkFileLockExpiration, sbind, sgets.
  apply (keeps_for_each path l (expiredLocks now st)); [|done].
  intros [p h] Hp. apply keeps_expireOne. simpl. intros ->. unfold expiredLocks in Hp.
  apply list_elem_of_omap in Hp as ([k l'] & Hk%elem_of_map_entries & Hsome). simpl in *.
  destruct (locked l' && (expirationTime l' <? now)) eqn:E; [|done].
  injection Hsome as -> _. assert (l' = l) as -> by congruence. to_prop. lia.
Qed.

Lemma exec_keeps path l op st :
  locked l = true -> respects path (expirationTime l) op ->
  fileLockMap st !! path = Some l -> fileLockMap (exec op st).2 !! path = Some l.
Proof.
  intros Hlk Hr Hl. destruct op as [p c now|p now|now|p now|p|now]; simpl in *.
  - apply (keeps_bind path l (acquireLock p c now)); auto with squid. by apply keeps_acquire.
  - apply (keeps_bind path l (releaseLock p now)); auto with squid. by apply keeps_release.
  - by apply keeps_expire.
  - destruct (fileLockMap st !! p) eqn:E; [done|]. simpl. rewrite lookup_insert_ne; [done|congruence].
  - by rewrite lookup_delete_ne.
  - by apply keeps_build.
Qed.

Lemma execAll_keeps path l ops st :
  locked l = true -> Forall (respects path (expirationTime l)) ops ->
  fileLockMap st !! path = Some l -> fileLockMap (execAll ops st) !! path = Some l.
Proof.
  intros Hlk Hr. revert st. induction Hr as [|op ops Hop _ IH]; intros st Hl; [done|].
  apply IH. by apply exec_keeps.
Qed.

(** What a successful [acquireLock] leaves. *)
Lemma acquire_granted path client now st st' :
  acquireLock path client now st = (Done (Ok true), st') ->
  exists l, fileLockMap st' !! path = Some l /\ locked l = true /\ clientHolder l = client
    /\ expirationTime l = now + DEFAULT_LOCK_INTERVAL.
Proof.
  unfold acquireLock, sbind. destruct (findLock path now st) as [[[[l|]|e]|] st1]; [|done..].
  destruct (negb (locked l)); [|done]. simpl. intros [= <-]. simpl.
  eexists. rewrite lookup_insert_eq. done.
Qed.

(** [acquireLock] on a held lock says no and changes nothing. *)
Lemma acquire_refused path client now l st :
  fileLockMap st !! path = Some l -> locked l = true ->
  acquireLock path client now st = (Done (Ok false), st).
Proof.
  intros Hl Hlk. unfold acquireLock, findLock, sbind, sgets. rewrite Hl. simpl. by rewrite Hlk.
Qed.
End lease_proofs.

(** C18. Mutual exclusion for the length of a lease: once [acquireLock] has
    granted [path] to [client] at time [now], no sequence of lock operations of
    other threads that does not release or delete [path], with expiry checks
    up to [now] + 5 minutes, lets anyone acquire it again; the holder stays
    [client]. *)
Theorem lease_is_exclusive {S} `{Session S} (st st' : Server S) path client now ops other later :
  acquireLock path client now st = (Done (Ok true), st') ->
  Forall (respects path (now + DEFAULT_LOCK_INTERVAL)) ops ->
  acquireLock path other later (execAll ops st') = (Done (Ok false), execAll ops st')
  /\ clientHolder <$> fileLockMap (execAll ops st') !! path = Some client.
Proof.
  intros (l & Hl & Hlk & Hh & He)%acquire_granted Hops. rewrite <-He in Hops.
  pose proof (execAll_keeps path l ops st' Hlk Hops Hl) as Hend.
  split; [by eapply acquire_refused|]. by rewrite Hend, <-Hh.
Qed.

Definition demo_locked : Server Node := (acquireLock "a.txt" "alice" 10 demo_server).2.
Definition demo_ops : list LockOp :=
  [OpAcquire "a.txt" "bob" 11; OpExpire 15; OpRelease "b.txt" 12; OpErase "c.txt"].

Lemma lease_is_exclusive_witness :
  acquireLock "a.txt" "bob" 14 (execAll demo_ops demo_locked)
    = (Done (Ok false), execAll demo_ops demo_locked)
  /\ clientHolder <$> fileLockMap (execAll demo_ops demo_locked) !! "a.txt" = Some "alice".
Proof.
  apply (lease_is_exclusive demo_server demo_locked "a.txt" "alice" 10 demo_ops "bob" 14).
  - vm_compute. reflexivity.
  - repeat constructor; simpl; (discriminate || (unfold DEFAULT_LOCK_INTERVAL; lia)).
Defined.

(** [releaseLock] does not ask who calls: a lock held by anyone is free
    after it, and the next client that asks gets it. *)
Theorem release_ignores_holder {S} `{Session S} (st : Server S) path l thief now later :
  fileLockMap st !! path = Some l ->
  exists st', releaseLock path now st = (Done (Ok true), st')
    /\ exists st'', acquireLock path thief later st' = (Done (Ok true), st'')
      /\ clientHolder <$> fileLockMap st'' !! path = Some thief.
Proof.
  intros Hl. unfold releaseLock, sbind, sgets. rewrite Hl. eexists. split; [reflexivity|].
  unfold acquireLock, findLock, sbind, sgets, smodify. simpl. rewrite lookup_insert_eq. simpl.
  eexists. split; [reflexivity|]. simpl. by rewrite lookup_insert_eq.
Qed.

Lemma release_ignores_holder_witness :
  exists st', releaseLock "a.txt" 11 demo_locked = (Done (Ok true), st')
    /\ exists st'', acquireLock "a.txt" "bob" 11 st' = (Done (Ok true), st'')
      /\ clientHolder <$> fileLockMap st'' !! "a.txt" = Some "bob".
Proof.
  apply (release_ignores_holder demo_locked "a.txt"
           (grant (newFileLock "a.txt" 0) "alice" 10) "bob" 11 11).
  vm_compute. reflexivity.
Defined.

(** The expiry check is not atomic: it collects the expired locks, gives
    up the mutex, and then unlocks them without looking again.  When the old
    holder releases and [other] acquires in between, [other]'s fresh lock is
    taken away. *)
Theorem expiry_unlocks_new_holder {S} `{Session S} (st : Server S) path l other now :
  fileLockMap st !! path = Some l -> locked l = true -> expirationTime l < now ->
  (path, clientHolder l) ∈ expiredLocks now st
  /\ exists st1 st2,
       releaseLock path now st = (Done (Ok true), st1)
       /\ acquireLock path other now st1 = (Done (Ok true), st2)
       /\ (exists l2, fileLockMap st2 !! path = Some l2 /\ locked l2 = true
             /\ clientHolder l2 = other /\ now < expirationTime l2)
       /\ exists l3, fileLockMap (expireOne (path, clientHolder l) st2).2 !! path = Some l3
             /\ locked l3 = false.
Proof.
  intros Hl Hlk He. split.
  - apply list_elem_of_omap. exists (path, l). rewrite elem_of_map_entries. split; [done|].
    simpl. rewrite Hlk. destruct (Z.ltb_spec (expirationTime l) now); [done|lia].
  - unfold releaseLock, sbind, sgets at 1. rewrite Hl. eexists _, _. split; [reflexivity|].
    unfold acquireLock, findLock, sbind, sgets, smodify. simpl. rewrite lookup_insert_eq. simpl.
    split; [reflexivity|]. simpl. rewrite lookup_insert_eq. split.
    + eexists. split; [done|]. simpl. unfold DEFAULT_LOCK_INTERVAL. split_and!; [done|done|lia].
    + unfold expireOne, sbind, sgets. simpl.
      destruct (clientEndpointMap st !! clientHolder l); simpl; rewrite lookup_insert_eq; simpl;
        rewrite lookup_insert_eq; eexists; done.
Qed.

Lemma expiry_unlocks_new_holder_witness :
  ("a.txt", "alice") ∈ expiredLocks 20 demo_locked
  /\ exists st1 st2,
       releaseLock "a.txt" 20 demo_locked = (Done (Ok true), st1)
       /\ acquireLock "a.txt" "bob" 20 st1 = (Done (Ok true), st2)
       /\ (exists l2, fileLockMap st2 !! "a.txt" = Some l2 /\ locked l2 = true
             /\ clientHolder l2 = "bob" /\ 20 < expirationTime l2)
       /\ exists l3, fileLockMap (expireOne ("a.txt", "alice") st2).2 !! "a.txt" = Some l3
             /\ locked l3 = false.
Proof.
  apply (expiry_unlocks_new_holder demo_locked "a.txt"
           (grant (newFileLock "a.txt" 0) "alice" 10) "bob" 20).
  - vm_compute. reflexivity.
  - reflexivity.
  - reflexivity.
Defined.
