(* ===== verification/Replication.v ===== *)
(** * Replication

    Models [server/src/replication_manager.{hpp,cpp}] and
    [server/src/heartbeat_manager.{hpp,cpp}]: which datanodes hold a file, the
    fan-out of writes with a write quorum, reads that skip stale holders,
    rebalancing, and the detection of dead datanodes.  Each operation is one
    uninterrupted run; the mutex is released between its parts in the code, and
    [Concurrent] lets other threads run in between. *)

From S2P Require Import Prelude Text Wire FileManager FileTransfer Protocol StateStore Session ServerState LockManager.

Section operations.
Context {S : Type} `{Session S}.
Local Abbreviation St := (Server S).
Implicit Types st : St.

(** [quorum_], a [size_t]. *)
Definition quorum st : Z := u64 (Z.quot (replicationFactor st) 2 + 1).

(** The constructor, with the state read back from disk.  The replication map
    is loaded only to be counted. *)
Definition newServer (rf ep : Z) (d : Disk) : St :=
  mkServer rf ep ∅ ∅ ∅ ∅ (loadVersionMap d) 0 None d ∅ [].

Definition holdersOf (path : string) st : gmap string sid :=
  default ∅ (dataNodeReplicationMap st !! path).

Definition addHolder (path name : string) (i : sid) st : St :=
  set_repMap (<[path := <[name := i]> (holdersOf path st)]> (dataNodeReplicationMap st)) st.

(** ** Registration *)

Definition registerFile (name : string) (i : sid) (file : string * Z) : SO St unit :=
  do! smodify (addHolder file.1 name i) in
  let! cur := sgets (fun st : St => default 0 (persistedVersionMap st !! file.1)) in
  if (cur <? file.2) then
    do! smodify (fun st : St => set_versions (<[file.1 := file.2]> (persistedVersionMap st)) st) in
    setVersionOnDisk file.1 file.2
  else sret tt.

Definition registerDataNodeFiles (name : string) (i : sid) (fileVersionMap : gmap string Z)
  : SO St unit :=
  do! sfor_each (map_entries fileVersionMap) (registerFile name i) in
  persistState.

(** ** Reads *)

Fixpoint tryHolders (path : string) (expected : Z) (holders : list sid)
  : SO St (bool * list byte) :=
  match holders with
  | [] => sret (false, [])
  | h :: rest =>
      let! r := on_session h (sess_readFile path) in
      if negb (isAck r.1) then tryHolders path expected rest
      else if (expected <? 0) || (expected <=? i32 (getUint32 r.1 FILE_VERSION 0))
      then sret (true, r.2)
      else match rest with
           | [] => sret (false, [])
           | _ => tryHolders path expected rest
           end
  end.

Definition liveHolders (path : string) st : list sid :=
  List.filter (fun i => session_alive i st) (map_values (holdersOf path st)).

Definition getFileFromDataNode (path : string) : SO St (bool * list byte) := fun st =>
  match dataNodeReplicationMap st !! path with
  | None => (Done (Ok (false, [])), st)
  | Some _ =>
      match liveHolders path st with
      | [] => (Done (Ok (false, [])), st)
      | holders => tryHolders path (default (-1) (persistedVersionMap st !! path)) holders st
      end
  end.

Definition getKnownVersion (path : string) st : Z :=
  default (-1) (persistedVersionMap st !! path).

(** ** Writes *)

Definition propagateCreateFile (path : string) (version : Z) (origin : string)
    (data : list byte) (now : Z) : SO St bool :=
  let! datanodes := sgets (fun st : St => map_entries (dataNodeEndpointMap st)) in
  let! clients := sgets (fun st : St => map_entries (clientEndpointMap st)) in
  let! answers := fanout (sess_createFile path version data) datanodes in
  let acked := ackedNodes answers in
  let! q := sgets quorum in
  if (Z.of_nat (length acked) <? q) then
    do! sfor_each acked (fun node => post_task node.2 (RollbackDelete path)) in
    sret false
  else
    do! sfor_each acked (fun node => smodify (addHolder path node.1 node.2)) in
    do! smodify (fun st : St => set_versions (<[path := version]> (persistedVersionMap st)) st) in
    do! insertLock path now in
    do! setVersionOnDisk path version in
    do! persistState in
    do! sendDelta 0 path version acked.*1 in
    do! push_others clients origin (PushCreate path version data) in
    sret true.

(** The new version, or -1 without a quorum. *)
Definition propagateUpdateFile (path : string) (clientSeenVersion : Z) (origin : string)
    (data : list byte) : SO St Z :=
  let! newVersion := sgets (fun st : St =>
    i32 (default clientSeenVersion (persistedVersionMap st !! path) + 1)) in
  let! datanodes := sgets (fun st : St => map_entries (holdersOf path st)) in
  let! clients := sgets (fun st : St => map_entries (clientEndpointMap st)) in
  let! answers := fanout (sess_updateFile path newVersion data) datanodes in
  let acked := ackedNodes answers in
  let! q := sgets quorum in
  let effectiveQuorum := Z.min q (Z.of_nat (length datanodes)) in
  if (Z.of_nat (length acked) <? effectiveQuorum) then sret (-1)
  else
    do! smodify (fun st : St => set_versions (<[path := newVersion]> (persistedVersionMap st)) st) in
    do! setVersionOnDisk path newVersion in
    do! persistState in
    let! names := sgets (fun st : St => map_keys (holdersOf path st)) in
    do! sendDelta 0 path newVersion names in
    do! push_others clients origin (PushUpdate path newVersion data) in
    sret newVersion.

Definition propagateDeleteFile (path origin : string) : SO St unit :=
  let! datanodes := sgets (fun st : St => map_entries (holdersOf path st)) in
  let! clients := sgets (fun st : St => map_entries (clientEndpointMap st)) in
  let! answers := fanout (sess_deleteFile path) datanodes in
  let acks := Z.of_nat (length (ackedNodes answers)) in
  let total := Z.of_nat (length answers) in
  let! q := sgets quorum in
  if (0 <? total) && (acks <? Z.min q total) then sret tt
  else
    do! push_others clients origin (PushDelete path) in
    do! eraseLock path in
    do! smodify (fun st : St => set_versions (delete path (persistedVersionMap st))
                     (set_repMap (delete path (dataNodeReplicationMap st)) st)) in
    do! smodify (fun st : St => set_disk (deleteFileAndVersion (disk st) path).2 st) in
    do! persistState in
    sendDelta 1 path 0 [].

(** ** Maintenance *)

Fixpoint offer (path : string) (data : list byte) (candidates : list (string * sid))
    (holders : gmap string sid) : SO St (gmap string sid) :=
  match candidates with
  | [] => sret holders
  | (name, i) :: rest =>
      let! v := sgets (fun st : St => getFileVersion (disk st) path) in
      let! m := on_session i (sess_createFile path v data) in
      if isAck m then
        let holders := <[name := i]> holders in
        let! rf := sgets replicationFactor in
        if (u64 rf <=? Z.of_nat (size holders)) then sret holders
        else offer path data rest holders
      else offer path data rest holders
  end.

Definition rebalanceFileReplication (path : string) (holders : gmap string sid) : SO St unit :=
  match map_values holders with
  | [] => sret tt
  | source :: _ =>
      let! r := on_session source (sess_readFile path) in
      if negb (isAck r.1) then sret tt
      else
        let! candidates := sgets (fun st : St =>
          List.filter (fun e => bool_decide (holders !! e.1 = None) && session_alive e.2 st)
                      (map_entries (dataNodeEndpointMap st))) in
        let! holders := offer path r.2 candidates holders in
        do! smodify (fun st : St =>
              set_repMap (<[path := holders ∪ holdersOf path st]> (dataNodeReplicationMap st)) st) in
        persistState
  end.

(** The files that lose a holder and fall below the quorum. *)
Definition rebalanceTargets (name : string) st : list (string * gmap string sid) :=
  omap (fun e => match e.2 !! name with
                 | None => None
                 | Some _ => let left := delete name e.2 in
                             if (Z.of_nat (size left) <? quorum st) then Some (e.1, left) else None
                 end) (map_entries (dataNodeReplicationMap st)).

Definition eraseFromReplicationMap (name : string) : SO St unit :=
  let! targets := sgets (rebalanceTargets name) in
  do! smodify (fun st : St => set_repMap (delete name <$> dataNodeReplicationMap st) st) in
  do! persistState in
  sfor_each targets (fun t => rebalanceFileReplication t.1 t.2).

Definition eraseAllFromReplicationMap (names : list string) : SO St unit :=
  sfor_each names eraseFromReplicationMap.

(** ** Queries *)

Definition mergeMax (m : gmap string Z) (e : string * Z) : gmap string Z :=
  match m !! e.1 with
  | None => <[e.1 := e.2]> m
  | Some v => <[e.1 := Z.max v e.2]> m
  end.

Fixpoint collectVersions (nodes : list sid) (m : gmap string Z) : SO St (gmap string Z) :=
  match nodes with
  | [] => sret m
  | i :: rest =>
      let! live := sgets (session_alive i) in
      if (live : bool) then
        let! mex := on_session i sess_syncStatus in
        collectVersions rest (fold_left mergeMax (map_entries (Wire.getFileVersionMap mex)) m)
      else collectVersions rest m
  end.

Definition getFileVersionMap : SO St (gmap string Z) :=
  let! m := sgets persistedVersionMap in
  let! nodes := sgets (fun st : St => map_values (dataNodeEndpointMap st)) in
  collectVersions nodes m.

(** [pickDataNodes]: round robin over the sorted names. *)
Definition pickDataNodes (count : Z) : SO St (list string) := fun st =>
  let nodes := map_keys (dataNodeEndpointMap st) in
  let n := Z.of_nat (length nodes) in
  if (n =? 0) then (Done (Ok []), st)
  else
    let cursor := roundRobinCursor st mod n in
    (Done (Ok (map (fun i => nth (Z.to_nat ((cursor + Z.of_nat i) mod n)) nodes "")
                   (List.seq 0 (Z.to_nat (Z.min count n))))),
     set_cursor ((cursor + count) mod n) st).

(** ** [HeartbeatManager::sendHeartbeats] *)

Fixpoint probeAll (nodes : list (string * sid)) : SO St (list string) :=
  match nodes with
  | [] => sret []
  | (name, i) :: rest =>
      let! m := on_session i sess_heartbeat in
      do! (if isAck m then sret tt
           else smodify (fun st : St => set_sessions (alter (sess_setIsAlive false) i (sessions st)) st)) in
      let! dead := probeAll rest in
      sret (if isAck m then dead else name :: dead)
  end.

Definition sendHeartbeats : SO St unit :=
  let! nodes := sgets (fun st : St => map_entries (dataNodeEndpointMap st)) in
  let! dead := probeAll nodes in
  do! smodify (fun st : St => set_endpoints (foldr delete (dataNodeEndpointMap st) dead) st) in
  eraseAllFromReplicationMap dead.
End operations.

(** ** The fan-out *)

Section fanout.
Context {S : Type} `{Session S}.
Local Abbreviation St := (Server S).
Implicit Types st : St.

(** Only sessions differ. *)
Definition only_sessions st st' : Prop := st' = set_sessions (sessions st') st.

Lemma only_sessions_refl st : only_sessions st st.
Proof. by destruct st. Qed.
Lemma only_sessions_trans st1 st2 st3 :
  only_sessions st1 st2 -> only_sessions st2 st3 -> only_sessions st1 st3.
Proof. unfold only_sessions. intros H12 H23. by rewrite H23, H12. Qed.
Lemma only_sessions_set ss st : only_sessions st (set_sessions ss st).
Proof. done. Qed.

(** What one node was asked and answered, between [st] and [st']. *)
Definition answered (req : SO S Message) st st' (a : (string * sid) * bool) : Prop :=
  exists s s' m, sessions st !! a.1.2 = Some s /\ sess_isAlive s = true
    /\ req s = (Done (Ok m), s') /\ a.2 = isAck m /\ sessions st' !! a.1.2 = Some s'.

Lemma on_session_ok {A} i (m : SO S A) st r st' :
  on_session i m st = (Done r, st') ->
  exists s s', sessions st !! i = Some s /\ m s = (Done r, s')
    /\ st' = set_sessions (<[i := s']> (sessions st)) st.
Proof.
  unfold on_session. destruct (sessions st !! i) as [s|] eqn:E; [|done].
  destruct (m s) as [r' s'] eqn:Hm. intros [= -> <-]. eauto.
Qed.

Lemma sbind_ok {A B} (m : SO St A) (k : A -> SO St B) st b st' :
  sbind m k st = (Done (Ok b), st') ->
  exists a st1, m st = (Done (Ok a), st1) /\ k a st1 = (Done (Ok b), st').
Proof.
  unfold sbind. destruct (m st) as [[[a|e]|] st1] eqn:E; try done. eauto.
Qed.

Lemma fanout_spec req nodes st answers st' :
  NoDup nodes.*2 -> fanout req nodes st = (Done (Ok answers), st') ->
  only_sessions st st'
  /\ answers.*1 `sublist_of` nodes
  /\ Forall (answered req st st') answers
  /\ (forall i, i ∉ answers.*1.*2 -> sessions st' !! i = sessions st !! i)
  /\ (forall n, n ∈ nodes -> n ∉ answers.*1 -> session_alive n.2 st = false).
Proof.
  revert st answers st'. induction nodes as [|[name i] nodes IH]; intros st answers st' Hnd Hf.
  { injection Hf as <- <-. split_and!; [apply only_sessions_refl|done|constructor|done|].
    by intros n ?%elem_of_nil. }
  csimpl in Hnd. apply NoDup_cons in Hnd as [Hi Hnd]. cbn [fanout] in Hf.
  unfold sbind at 1, sgets in Hf. destruct (session_alive i st) eqn:Hal.
  - apply sbind_ok in Hf as (m & st1 & Hon & Hf).
    apply sbind_ok in Hf as (more & st2 & Hmore & Hret). injection Hret as <- <-.
    apply on_session_ok in Hon as (s & s' & Hs & Hreq & ->).
    destruct (IH _ _ _ Hnd Hmore) as (Hos & Hsub & Hans & Hrest & Hdead). csimpl.
    assert (i ∉ more.*1.*2) as Hinot.
    { intros Hin. apply Hi. eapply elem_of_sublist; [exact Hin|]. by apply fmap_sublist. }
    split_and!.
    + eapply only_sessions_trans; [apply only_sessions_set|exact Hos].
    + by apply sublist_skip.
    + constructor.
      * exists s, s', m. simpl. split_and!; [done| |done|done|].
        { unfold session_alive in Hal. by rewrite Hs in Hal. }
        rewrite Hrest by done. simpl. apply lookup_insert_eq.
      * eapply Forall_impl; [eapply Forall_and; split; [exact Hans|apply Forall_forall; intros x Hx; exact Hx]|].
        intros [[nm j] b] [(s0 & s0' & m0 & H0 & Ha0 & Hr0 & Hb0 & Hs0) Hin]. simpl in *.
        exists s0, s0', m0. split_and!; try done.
        assert (j <> i) by (intros ->; apply Hinot, list_elem_of_fmap; exists (nm, i); split; [done|];
                            apply list_elem_of_fmap; by exists (nm, i, b)).
        rewrite lookup_insert_ne in H0 by done. done.
    + intros j Hj. apply not_elem_of_cons in Hj as [Hji Hj]. rewrite Hrest by done. simpl.
      by rewrite lookup_insert_ne.
    + intros n [->|Hn]%elem_of_cons Hnot; [destruct Hnot; by left|].
      apply not_elem_of_cons in Hnot as [_ Hnot]. specialize (Hdead n Hn Hnot).
      unfold session_alive in *. simpl in Hdead. rewrite lookup_insert_ne in Hdead; [done|].
      intros E. apply Hi, list_elem_of_fmap. by exists n.
  - destruct (IH _ _ _ Hnd Hf) as (Hos & Hsub & Hans & Hrest & Hdead).
    split_and!; [done|by apply sublist_cons|done|done|].
    intros n [->|Hn]%elem_of_cons Hnot; [done|auto].
Qed.

Lemma elem_of_acked node answers : node ∈ ackedNodes answers <-> (node, true) ∈ answers.
Proof.
  unfold ackedNodes. rewrite list_elem_of_fmap. split.
  - intros ([n b] & -> & Hin). apply list_elem_of_In, List.filter_In in Hin as [Hin Hb].
    simpl in Hb. subst b. by apply list_elem_of_In.
  - intros Hin. exists (node, true). split; [done|].
    apply list_elem_of_In, List.filter_In. split; [by apply list_elem_of_In|done].
Qed.

Lemma acked_sublist answers : ackedNodes answers `sublist_of` answers.*1.
Proof.
  unfold ackedNodes. apply fmap_sublist.
  induction answers as [|[n b] l IH]; [done|]. simpl. destruct b; by constructor.
Qed.

Lemma length_acked answers : (length (ackedNodes answers) <= length answers)%nat.
Proof. unfold ackedNodes. rewrite length_fmap. apply List.filter_length_le. Qed.
End fanout.

(** ** Steps that only post or only write the disk *)

Section effects.
Context {S : Type} `{Session S}.
Local Abbreviation St := (Server S).
Implicit Types st : St.

Definition add_posted (l : list (sid * Task)) st : St := set_posted (posted st ++ l) st.

Lemma add_posted_nil st : add_posted [] st = st.
Proof. unfold add_posted. rewrite app_nil_r. by destruct st. Qed.
Lemma add_posted_app l k st : add_posted k (add_posted l st) = add_posted (l ++ k) st.
Proof. unfold add_posted. simpl. by rewrite app_assoc. Qed.

(** A loop whose body only posts. *)
Lemma sfor_each_posts {A} (xs : list A) (body : A -> SO St unit) (g : A -> St -> list (sid * Task)) st :
  (forall x st, body x st = (Done (Ok tt), add_posted (g x st) st)) ->
  (forall x l st, g x (add_posted l st) = g x st) ->
  sfor_each xs body st = (Done (Ok tt), add_posted (concat (map (fun x => g x st) xs)) st).
Proof.
  intros Hb Hg. revert st. induction xs as [|x xs IH]; intros st; simpl.
  - by rewrite add_posted_nil.
  - unfold sbind. rewrite Hb, IH, add_posted_app. do 4 f_equal.
    apply List.map_ext. intros y. apply Hg.
Qed.

(** The deltas [sendDelta] posts: one per live standby. *)
Definition deltas (op : Z) (path : string) (v : Z) (names : list string) st : list (sid * Task) :=
  match standbys st with
  | None => []
  | Some m => concat (map (fun e => if session_alive e.2 st
                                    then [(e.2, StateDelta op path v names (epoch st))] else [])
                          (map_entries m))
  end.

Lemma sendDelta_spec op path v names st :
  sendDelta op path v names st = (Done (Ok tt), add_posted (deltas op path v names st) st).
Proof.
  unfold sendDelta, deltas, sbind at 1, sgets at 1. destruct (standbys st) as [m|].
  - rewrite (sfor_each_posts _ _ (fun e st => if session_alive e.2 st
      then [(e.2, StateDelta op path v names (epoch st))] else [])); [done| |done].
    intros e st'. unfold sbind, sgets. destruct (session_alive e.2 st'); simpl; [done|].
    by rewrite add_posted_nil.
  - by rewrite add_posted_nil.
Qed.

Definition pushes (clients : list (string * sid)) (origin : string) (t : Task) : list (sid * Task) :=
  concat (map (fun c => if decide (c.1 = origin) then [] else [(c.2, t)]) clients).

Lemma push_others_spec clients origin t st :
  push_others clients origin t st = (Done (Ok tt), add_posted (pushes clients origin t) st).
Proof.
  unfold push_others, pushes.
  rewrite (sfor_each_posts _ _ (fun c _ => if decide (c.1 = origin) then [] else [(c.2, t)]));
    [done| |done].
  intros c st'. case_decide; [by rewrite add_posted_nil|done].
Qed.

Lemma rollback_spec (acked : list (string * sid)) path st :
  sfor_each acked (fun node => post_task node.2 (RollbackDelete path)) st
  = (Done (Ok tt), add_posted (map (fun node => (node.2, RollbackDelete path)) acked) st).
Proof.
  rewrite (sfor_each_posts _ _ (fun node _ => [(node.2, RollbackDelete path)])); [|done|done].
  do 2 f_equal. induction acked as [|n acked IH]; [done|]. simpl. by rewrite IH.
Qed.

(** Registering the nodes that acknowledged. *)
Definition registerAll (path : string) (nodes : list (string * sid)) st : St :=
  fold_left (fun st n => addHolder path n.1 n.2 st) nodes st.

Lemma registerAll_spec path nodes st :
  sfor_each nodes (fun node => smodify (addHolder path node.1 node.2)) st
  = (Done (Ok tt), registerAll path nodes st).
Proof.
  revert st. induction nodes as [|n nodes IH]; intros st; [done|]. simpl.
  unfold sbind, smodify. simpl. apply IH.
Qed.

Lemma holdersOf_add path name i q st :
  holdersOf q (addHolder path name i st) =
    if decide (q = path) then <[name := i]> (holdersOf path st) else holdersOf q st.
Proof.
  unfold holdersOf at 1, addHolder. simpl. case_decide as E.
  - subst. by rewrite lookup_insert_eq.
  - by rewrite lookup_insert_ne.
Qed.

Lemma registerAll_holders path nodes q st :
  holdersOf q (registerAll path nodes st) =
    if decide (q = path) then store_all nodes (holdersOf path st) else holdersOf q st.
Proof.
  revert st. unfold registerAll. induction nodes as [|[n i] nodes IH]; intros st; simpl.
  - case_decide; by subst.
  - rewrite IH, !holdersOf_add. rewrite (decide_True (P := path = path)) by done.
    by case_decide.
Qed.

(** [registerAll] changes the replication map only. *)
Lemma registerAll_repMap path nodes st :
  registerAll path nodes st = set_repMap (dataNodeReplicationMap (registerAll path nodes st)) st.
Proof.
  revert st. unfold registerAll. induction nodes as [|n nodes IH]; intros st; simpl; [by destruct st|].
  rewrite IH. by destruct st.
Qed.
End effects.

(** ** Creating a file *)

Section create.
Context {S : Type} `{DataNodeSession S}.
Local Abbreviation St := (Server S).
Implicit Types st : St.

(** After the requests, every node that acknowledged holds the data. *)
Lemma acked_hold req path v data st st' answers :
  (forall s r s', req s = (r, s') -> forall m, r = Done (Ok m) -> isAck m = true ->
     holds s' path = Some (v, data)) ->
  Forall (answered req st st') answers ->
  forall n, n ∈ ackedNodes answers ->
    exists s, sessions st' !! n.2 = Some s /\ holds s path = Some (v, data).
Proof.
  intros Hreq Hans n Hn%elem_of_acked. rewrite Forall_forall in Hans.
  destruct (Hans _ Hn) as (s & s' & m & _ & _ & Hr & Hack & Hs'). simpl in *. exists s'.
  split; [done|]. by eapply Hreq.
Qed.

Lemma create_inv path v origin data now st ok st' :
  propagateCreateFile path v origin data now st = (Done (Ok ok), st') ->
  exists answers st1,
    fanout (sess_createFile path v data) (map_entries (dataNodeEndpointMap st)) st
      = (Done (Ok answers), st1)
    /\ let acked := ackedNodes answers in
       if (Z.of_nat (length acked) <? quorum st1)
       then ok = false
            /\ st' = add_posted (map (fun node => (node.2, RollbackDelete path)) acked) st1
       else ok = true
            /\ sessions st' = sessions st1
            /\ persistedVersionMap st' = <[path := v]> (persistedVersionMap st1)
            /\ dataNodeReplicationMap st' = dataNodeReplicationMap (registerAll path acked st1)
            /\ is_Some (fileLockMap st' !! path)
            /\ posted st' = posted st1 ++ deltas 0 path v acked.*1 st1
                 ++ pushes (map_entries (clientEndpointMap st)) origin (PushCreate path v data).
Proof.
  unfold propagateCreateFile. rewrite !sbind_gets.
  intros (answers & st1 & Hf & Hk)%sbind_ok. exists answers, st1. split; [done|].
  cbv zeta in *. rewrite sbind_gets in Hk.
  destruct (Z.of_nat (length (ackedNodes answers)) <? quorum st1).
  - rewrite (sbind_done _ _ _ _ _ (rollback_spec _ _ _)) in Hk. by injection Hk as <- <-.
  - rewrite (sbind_done _ _ _ _ _ (registerAll_spec _ _ _)), registerAll_repMap in Hk.
    set (rep := dataNodeReplicationMap (registerAll path (ackedNodes answers) st1)) in *.
    unfold insertLock, setVersionOnDisk, persistState in Hk. rewrite !sbind_modify in Hk.
    rewrite (sbind_done _ _ _ _ _ (sendDelta_spec _ _ _ _ _)) in Hk.
    rewrite (sbind_done _ _ _ _ _ (push_others_spec _ _ _ _)) in Hk.
    injection Hk as <- <-. rewrite add_posted_app.
    destruct (fileLockMap _ !! path) eqn:El; simpl in El; simpl; rewrite ?El, ?lookup_insert_eq;
      split_and!; try done; by rewrite ?app_assoc.
Qed.
End create.

(** Different names, different sessions. *)
Definition distinct_sessions (m : gmap string sid) : Prop := NoDup (map_values m).

#[export] Instance distinct_sessions_dec m : Decision (distinct_sessions m).
Proof. unfold distinct_sessions. apply _. Defined.

(** C10. A file is created exactly when a quorum of the live datanodes has
    stored it.  Whatever the outcome, every datanode that acknowledged holds
    the data with its version.  On success the version is recorded, exactly
    those datanodes are added as holders, and the file has a lock entry; on
    failure no version, holder or file of the server changes, and a deletion
    is handed to the pool for each datanode that had stored the file. *)
Theorem create_needs_quorum {S} `{DataNodeSession S} (st : Server S) path v origin data now ok st' :
  dn_path path -> in_i32 v -> distinct_sessions (dataNodeEndpointMap st) ->
  propagateCreateFile path v origin data now st = (Done (Ok ok), st') ->
  exists acked : list (string * sid),
    acked `sublist_of` map_entries (dataNodeEndpointMap st)
    /\ ok = (quorum st <=? Z.of_nat (length acked))
    /\ (forall n, n ∈ acked ->
          exists s, sessions st' !! n.2 = Some s /\ holds s path = Some (v, data))
    /\ (ok = true ->
          persistedVersionMap st' = <[path := v]> (persistedVersionMap st)
          /\ holdersOf path st' = store_all acked (holdersOf path st)
          /\ (forall q, q <> path -> holdersOf q st' = holdersOf q st)
          /\ is_Some (fileLockMap st' !! path))
    /\ (ok = false ->
          persistedVersionMap st' = persistedVersionMap st
          /\ dataNodeReplicationMap st' = dataNodeReplicationMap st /\ disk st' = disk st
          /\ posted st' = posted st ++ map (fun n => (n.2, RollbackDelete path)) acked).
Proof.
  intros Hp Hvr Hnd Hc. apply create_inv in Hc as (answers & st1 & Hf & Hres).
  destruct (fanout_spec _ _ _ _ _ Hnd Hf) as (Hos & Hsub & Hans & _ & _).
  exists (ackedNodes answers). cbv zeta in Hres. unfold only_sessions in Hos.
  assert (quorum st1 = quorum st) as Hq by by rewrite Hos.
  assert (forall n, n ∈ ackedNodes answers ->
            exists s, sessions st1 !! n.2 = Some s /\ holds s path = Some (v, data)) as Hhold.
  { eapply acked_hold; [|exact Hans]. intros s r s' Hr. apply (dn_create _ _ _ _ _ _ Hp Hvr Hr). }
  rewrite Hq in Hres. split; [|split].
  - transitivity (answers.*1); [apply acked_sublist|done].
  - rewrite Z.leb_antisym. destruct (_ <? quorum st); by destruct Hres as [-> _].
  - destruct (_ <? quorum st).
    + destruct Hres as [-> ->]. split; [done|]. split; [done|]. intros _. by rewrite Hos.
    + destruct Hres as (-> & Hs & Hv & Hr & Hl & _). split; [by rewrite Hs|]. split; [|done].
      intros _. assert (forall q, holdersOf q st' = holdersOf q (registerAll path (ackedNodes answers) st1)) as Hh
        by (intros q; unfold holdersOf; by rewrite Hr).
      split_and!; [by rewrite Hv, Hos| | |done].
      * rewrite Hh, registerAll_holders, decide_True by done. by rewrite Hos.
      * intros q Hne. rewrite Hh, registerAll_holders, decide_False by done. by rewrite Hos.
Qed.

Lemma create_needs_quorum_witness :
  exists acked : list (string * sid),
    acked `sublist_of` map_entries (dataNodeEndpointMap demo_server)
    /\ true = (quorum demo_server <=? Z.of_nat (length acked))
    /\ (forall n, n ∈ acked -> exists s,
          sessions (propagateCreateFile "b.txt" 0 "alice" [zero] 0 demo_server).2 !! n.2 = Some s
          /\ holds s "b.txt" = Some (0, [zero]))
    /\ (true = true ->
          persistedVersionMap (propagateCreateFile "b.txt" 0 "alice" [zero] 0 demo_server).2
            = <["b.txt" := 0]> (persistedVersionMap demo_server)
          /\ holdersOf "b.txt" (propagateCreateFile "b.txt" 0 "alice" [zero] 0 demo_server).2
             = store_all acked (holdersOf "b.txt" demo_server)
          /\ (forall q, q <> "b.txt" ->
                holdersOf q (propagateCreateFile "b.txt" 0 "alice" [zero] 0 demo_server).2
                = holdersOf q demo_server)
          /\ is_Some (fileLockMap (propagateCreateFile "b.txt" 0 "alice" [zero] 0 demo_server).2 !! "b.txt"))
    /\ (true = false ->
          persistedVersionMap (propagateCreateFile "b.txt" 0 "alice" [zero] 0 demo_server).2
            = persistedVersionMap demo_server
          /\ dataNodeReplicationMap (propagateCreateFile "b.txt" 0 "alice" [zero] 0 demo_server).2
             = dataNodeReplicationMap demo_server
          /\ disk (propagateCreateFile "b.txt" 0 "alice" [zero] 0 demo_server).2 = disk demo_server
          /\ posted (propagateCreateFile "b.txt" 0 "alice" [zero] 0 demo_server).2
             = posted demo_server ++ map (fun n => (n.2, RollbackDelete "b.txt")) acked).
Proof.
  apply (create_needs_quorum demo_server "b.txt" 0 "alice" [zero] 0).
  - exact I.
  - unfold in_i32; lia.
  - apply (bool_decide_unpack _). vm_compute. exact I.
  - vm_compute. reflexivity.
Defined.

(** ** Updating a file *)

Section update.
Context {S : Type} `{DataNodeSession S}.
Local Abbreviation St := (Server S).
Implicit Types st : St.

(** The version an update gets. *)
Definition nextVersion (path : string) (seen : Z) st : Z :=
  i32 (default seen (persistedVersionMap st !! path) + 1).

Lemma update_inv path seen origin data st nv st' :
  propagateUpdateFile path seen origin data st = (Done (Ok nv), st') ->
  exists answers st1,
    fanout (sess_updateFile path (nextVersion path seen st) data) (map_entries (holdersOf path st)) st
      = (Done (Ok answers), st1)
    /\ if (Z.of_nat (length (ackedNodes answers))
             <? Z.min (quorum st1) (Z.of_nat (size (holdersOf path st))))
       then nv = -1 /\ st' = st1
       else nv = nextVersion path seen st
            /\ sessions st' = sessions st1
            /\ persistedVersionMap st' = <[path := nv]> (persistedVersionMap st1)
            /\ dataNodeReplicationMap st' = dataNodeReplicationMap st1
            /\ posted st' = posted st1 ++ deltas 0 path nv (map_keys (holdersOf path st1)) st1
                 ++ pushes (map_entries (clientEndpointMap st)) origin (PushUpdate path nv data).
Proof.
  unfold propagateUpdateFile. rewrite !sbind_gets.
  intros (answers & st1 & Hf & Hk)%sbind_ok. exists answers, st1. split; [done|].
  cbv zeta in Hk. rewrite sbind_gets, length_map_entries in Hk.
  destruct (_ <? Z.min _ _); [by injection Hk as <- <-|].
  unfold setVersionOnDisk, persistState in Hk. rewrite !sbind_modify in Hk.
  rewrite sbind_gets in Hk.
  rewrite (sbind_done _ _ _ _ _ (sendDelta_spec _ _ _ _ _)) in Hk.
  rewrite (sbind_done _ _ _ _ _ (push_others_spec _ _ _ _)) in Hk.
  injection Hk as <- <-. rewrite add_posted_app. simpl. split_and!; done.
Qed.
End update.

(** The server numbers the updates: a committed update has the version
    after the recorded one and is stored on a quorum of the holders (all of
    them, when fewer than a quorum hold the file); the recorded version is the
    new one, other files and the holders stay.  A refused update returns -1 and
    leaves every record of the server as it was. *)
Theorem update_needs_quorum {S} `{DataNodeSession S} (st : Server S) path seen origin data nv st' :
  dn_path path -> distinct_sessions (holdersOf path st) ->
  propagateUpdateFile path seen origin data st = (Done (Ok nv), st') ->
  exists acked : list (string * sid),
    acked `sublist_of` map_entries (holdersOf path st)
    /\ (forall n, n ∈ acked -> exists s, sessions st' !! n.2 = Some s
          /\ holds s path = Some (nextVersion path seen st, data))
    /\ dataNodeReplicationMap st' = dataNodeReplicationMap st
    /\ ((Z.min (quorum st) (Z.of_nat (size (holdersOf path st))) <= Z.of_nat (length acked)
         /\ nv = nextVersion path seen st
         /\ persistedVersionMap st' = <[path := nv]> (persistedVersionMap st))
        \/ (Z.of_nat (length acked) < Z.min (quorum st) (Z.of_nat (size (holdersOf path st)))
            /\ nv = -1 /\ persistedVersionMap st' = persistedVersionMap st
            /\ disk st' = disk st /\ posted st' = posted st)).
Proof.
  intros Hp Hnd Hu. apply update_inv in Hu as (answers & st1 & Hf & Hres).
  destruct (fanout_spec _ _ _ _ _ Hnd Hf) as (Hos & Hsub & Hans & _ & _).
  exists (ackedNodes answers). unfold only_sessions in Hos.
  assert (quorum st1 = quorum st) as Hq by by rewrite Hos. rewrite Hq in Hres.
  assert (forall n, n ∈ ackedNodes answers ->
    exists s, sessions st1 !! n.2 = Some s /\ holds s path = Some (nextVersion path seen st, data)) as Hhold.
  { eapply acked_hold; [|exact Hans]. intros s r s' Hr.
    apply (dn_update _ _ _ _ _ _ Hp (i32_range _) Hr). }
  split.
  { transitivity (answers.*1); [apply acked_sublist|done]. }
  destruct (Z.ltb_spec (Z.of_nat (length (ackedNodes answers)))
              (Z.min (quorum st) (Z.of_nat (size (holdersOf path st))))) as [Hlt|Hge].
  - destruct Hres as [-> ->]. split; [done|]. split; [by rewrite Hos|]. right. by rewrite Hos.
  - destruct Hres as (Hnv & Hs & Hv & Hr & _). split; [by rewrite Hs|].
    split; [by rewrite Hr, Hos|]. left. split_and!; [done|done|]. by rewrite Hv, Hos.
Qed.

(** The cluster after [b.txt] has been created with version 0. *)
Definition demo_created : Server Node :=
  (propagateCreateFile "b.txt" 0 "alice" [zero] 0 demo_server).2.

Lemma update_needs_quorum_witness :
  exists acked : list (string * sid),
    acked `sublist_of` map_entries (holdersOf "b.txt" demo_created)
    /\ (forall n, n ∈ acked -> exists s,
          sessions (propagateUpdateFile "b.txt" 0 "bob" [one] demo_created).2 !! n.2 = Some s
          /\ holds s "b.txt" = Some (nextVersion "b.txt" 0 demo_created, [one]))
    /\ dataNodeReplicationMap (propagateUpdateFile "b.txt" 0 "bob" [one] demo_created).2
       = dataNodeReplicationMap demo_created
    /\ ((Z.min (quorum demo_created) (Z.of_nat (size (holdersOf "b.txt" demo_created)))
           <= Z.of_nat (length acked)
         /\ 1 = nextVersion "b.txt" 0 demo_created
         /\ persistedVersionMap (propagateUpdateFile "b.txt" 0 "bob" [one] demo_created).2
            = <["b.txt" := 1]> (persistedVersionMap demo_created))
        \/ (Z.of_nat (length acked)
              < Z.min (quorum demo_created) (Z.of_nat (size (holdersOf "b.txt" demo_created)))
            /\ 1 = -1
            /\ persistedVersionMap (propagateUpdateFile "b.txt" 0 "bob" [one] demo_created).2
               = persistedVersionMap demo_created
            /\ disk (propagateUpdateFile "b.txt" 0 "bob" [one] demo_created).2 = disk demo_created
            /\ posted (propagateUpdateFile "b.txt" 0 "bob" [one] demo_created).2 = posted demo_created)).
Proof.
  apply (update_needs_quorum demo_created "b.txt" 0 "bob" [one]).
  - exact I.
  - apply (bool_decide_unpack _). vm_compute. exact I.
  - vm_compute. reflexivity.
Defined.

(** ** Reading a file *)

Section read.
Context {S : Type} `{DataNodeSession S}.
Local Abbreviation St := (Server S).
Implicit Types st : St.

Lemma tryHolders_spec path expected hs st ok d st' :
  dn_path path ->
  tryHolders path expected hs st = (Done (Ok (ok, d)), st') ->
  only_sessions st st'
  /\ (ok = true -> exists i s v, i ∈ hs /\ sessions st !! i = Some s
        /\ holds s path = Some (v, d) /\ (0 <= expected -> expected <= v)).
Proof.
  intros Hp. revert st. induction hs as [|h hs IH]; intros st Hr.
  { injection Hr as <- <- <-. split; [apply only_sessions_refl|done]. }
  cbn [tryHolders] in Hr. apply sbind_ok in Hr as ([m data] & st1 & Hon & Hr).
  apply on_session_ok in Hon as (s & s' & Hs & Hread & ->). cbn [fst snd] in Hr.
  destruct (dn_read _ _ _ _ Hp Hread) as [Hcur Hsame].
  assert (tryHolders path expected hs (set_sessions (<[h := s']> (sessions st)) st)
            = (Done (Ok (ok, d)), st') ->
          only_sessions st st'
          /\ (ok = true -> exists i s v, i ∈ h :: hs /\ sessions st !! i = Some s
                /\ holds s path = Some (v, d) /\ (0 <= expected -> expected <= v))) as Hnext.
  { intros Hr'. destruct (IH _ Hr') as [Hos Hok].
    split; [eapply only_sessions_trans; [apply only_sessions_set|exact Hos]|].
    intros E. destruct (Hok E) as (i & s1 & v & Hi & Hs1 & Hh & Hv). cbn [sessions set_sessions] in Hs1.
    destruct (decide (i = h)) as [->|Hne].
    - rewrite lookup_insert_eq in Hs1. injection Hs1 as <-. rewrite Hsame in Hh by done.
      exists h, s, v. split_and!; [by left|done..].
    - rewrite lookup_insert_ne in Hs1 by done. exists i, s1, v. split_and!; [by right|done..]. }
  destruct (isAck m) eqn:Hack; cbn [negb] in Hr; [|by apply Hnext].
  destruct ((expected <? 0) || (expected <=? i32 (getUint32 m FILE_VERSION 0))) eqn:Hfresh.
  - injection Hr as <- <- <-. split; [apply only_sessions_set|]. intros _.
    destruct (Hcur m data eq_refl Hack) as (v & Hh & Hv). exists h, s, v.
    split_and!; [by left|done|done|]. intros Hpos. rewrite Hv in Hfresh.
    apply orb_true_iff in Hfresh as [Hneg|Hle]; to_prop; lia.
  - destruct hs; [|by apply Hnext]. injection Hr as <- <- <-. split; [apply only_sessions_set|done].
Qed.

Lemma read_inv path st d st' :
  dn_path path ->
  getFileFromDataNode path st = (Done (Ok (true, d)), st') ->
  only_sessions st st'
  /\ exists i s v, i ∈ liveHolders path st /\ sessions st !! i = Some s
       /\ holds s path = Some (v, d)
       /\ (forall e, persistedVersionMap st !! path = Some e -> 0 <= e -> e <= v).
Proof.
  intros Hp. unfold getFileFromDataNode. destruct (dataNodeReplicationMap st !! path); [|done].
  destruct (liveHolders path st) as [|h hs]; [done|]. intros Hr.
  destruct (tryHolders_spec _ _ _ _ _ _ _ Hp Hr) as [Hos Hok]. split; [done|].
  destruct (Hok eq_refl) as (i & s & v & Hi & Hs & Hh & Hv). exists i, s, v.
  split_and!; [done|done|done|]. intros e He. by rewrite He in Hv.
Qed.

Lemma liveHolders_holder path st i : i ∈ liveHolders path st ->
  exists name, (name, i) ∈ map_entries (holdersOf path st).
Proof.
  intros [Hi _]%list_elem_of_In%List.filter_In. apply list_elem_of_In, list_elem_of_fmap in Hi
    as ([name j] & -> & Hin). eauto.
Qed.
End read.

(** A read never goes back in time: what [getFileFromDataNode] returns is
    what some live holder has stored, at a version not below the recorded one,
    and reading changes no record of the server. *)
Theorem read_is_current {S} `{DataNodeSession S} (st : Server S) path d st' :
  dn_path path -> getFileFromDataNode path st = (Done (Ok (true, d)), st') ->
  only_sessions st st'
  /\ exists i s v, i ∈ liveHolders path st /\ sessions st !! i = Some s
       /\ holds s path = Some (v, d)
       /\ (forall e, persistedVersionMap st !! path = Some e -> 0 <= e -> e <= v).
Proof. apply read_inv. Qed.

Lemma read_is_current_witness :
  only_sessions demo_created (getFileFromDataNode "b.txt" demo_created).2
  /\ exists i s v, i ∈ liveHolders "b.txt" demo_created /\ sessions demo_created !! i = Some s
       /\ holds s "b.txt" = Some (v, [zero])
       /\ (forall e, persistedVersionMap demo_created !! "b.txt" = Some e -> 0 <= e -> e <= v).
Proof. apply (read_is_current demo_created "b.txt" [zero]); [exact I|]. vm_compute. reflexivity. Defined.

(** C19. Reads see the last committed update when the quorum covers the
    holders: after an update that was not refused, every successful read
    returns exactly the data written. *)
Theorem read_your_update {S} `{DataNodeSession S} (st : Server S) path seen origin data nv st' d st'' :
  dn_path path -> distinct_sessions (holdersOf path st) ->
  Z.of_nat (size (holdersOf path st)) <= quorum st ->
  propagateUpdateFile path seen origin data st = (Done (Ok nv), st') -> 0 <= nv ->
  getFileFromDataNode path st' = (Done (Ok (true, d)), st'') ->
  d = data /\ persistedVersionMap st'' !! path = Some nv.
Proof.
  intros Hp Hnd Hsize Hu Hnv Hr. apply update_inv in Hu as (answers & st1 & Hf & Hres).
  destruct (fanout_spec _ _ _ _ _ Hnd Hf) as (Hos & Hsub & Hans & _ & _). unfold only_sessions in Hos.
  assert (quorum st1 = quorum st) as Hq by by rewrite Hos. rewrite Hq in Hres.
  destruct (Z.ltb_spec (Z.of_nat (length (ackedNodes answers)))
              (Z.min (quorum st) (Z.of_nat (size (holdersOf path st))))) as [Hlt|Hge].
  { destruct Hres as [-> _]. lia. }
  destruct Hres as (Hv & Hs & Hvm & Hrep & _).
  apply read_inv in Hr as (Hos' & i & s & v & Hi & Hsi & Hh & _); [|done].
  apply liveHolders_holder in Hi as [name Hin].
  assert (holdersOf path st' = holdersOf path st) as Hho by (unfold holdersOf; by rewrite Hrep, Hos).
  assert (ackedNodes answers = map_entries (holdersOf path st)) as Hall.
  { apply sublist_all; [transitivity (answers.*1); [apply acked_sublist|done]|].
    rewrite length_map_entries. lia. }
  rewrite Hho, <-Hall in Hin.
  destruct (acked_hold (sess_updateFile path (nextVersion path seen st) data) path
    (nextVersion path seen st) data st st1 answers) with (n := (name, i)) as (s1 & Hs1 & Hh1); [|done..|].
  { intros s0 r s0' Hr0. apply (dn_update _ _ _ _ _ _ Hp (i32_range _) Hr0). }
  simpl in Hs1. rewrite Hs in Hsi. assert (s1 = s) as -> by congruence.
  split; [congruence|]. unfold only_sessions in Hos'. rewrite Hos'. simpl. rewrite Hvm.
  apply lookup_insert_eq.
Qed.

(** Two holders and a replication factor of 2, so that the quorum is both. *)
Definition demo_pair : Server Node :=
  mkServer 2 0 {["dn1" := 1%positive; "dn2" := 2%positive]} {["bob" := 11%positive]} ∅
    {["b.txt" := {["dn1" := 1%positive; "dn2" := 2%positive]}]} {["b.txt" := 0]} 0 None demo_disk
    {[1%positive := mkNode true {["b.txt" := (0, [zero])]} [];
      2%positive := mkNode true {["b.txt" := (0, [zero])]} []]} [].

Definition demo_pair_updated : Server Node :=
  (propagateUpdateFile "b.txt" 0 "bob" [one] demo_pair).2.

Lemma read_your_update_witness :
  [one] = [one]
  /\ persistedVersionMap (getFileFromDataNode "b.txt" demo_pair_updated).2 !! "b.txt" = Some 1.
Proof.
  apply (read_your_update demo_pair "b.txt" 0 "bob" [one] 1 demo_pair_updated [one]).
  - exact I.
  - apply (bool_decide_unpack _). vm_compute. exact I.
  - vm_compute. discriminate.
  - vm_compute. reflexivity.
  - lia.
  - vm_compute. reflexivity.
Defined.

(** Three holders of [b.txt] at version 0; [dn2] and [dn3] refuse the first
    update, [dn1] the second. *)
Definition demo_flaky : Server Node :=
  let node answers := mkNode true {["b.txt" := (0, [])]} answers in
  mkServer 3 0 {["dn1" := 1%positive; "dn2" := 2%positive; "dn3" := 3%positive]} ∅ ∅
    {["b.txt" := {["dn1" := 1%positive; "dn2" := 2%positive; "dn3" := 3%positive]}]}
    {["b.txt" := 0]} 0 None demo_disk
    {[1%positive := node [true; false]; 2%positive := node [false]; 3%positive := node [false]]} [].

(** A refused update is not undone, and its version number is used again:
    a datanode that stored it answers later reads with it although another
    update was committed since.  Here the update to [zero] is refused, the one
    to [one] is committed as version 1, and the read returns [zero]. *)
Theorem refused_update_resurfaces :
  let first := propagateUpdateFile "b.txt" 0 "bob" [zero] demo_flaky in
  let second := propagateUpdateFile "b.txt" 0 "bob" [one] first.2 in
  first.1 = Done (Ok (-1)) /\ second.1 = Done (Ok 1)
  /\ (getFileFromDataNode "b.txt" second.2).1 = Done (Ok (true, [zero])).
Proof. vm_compute. repeat split. Qed.

(** An update of a file that no datanode holds is committed: with no
    holders the effective quorum is 0, the new version is recorded, the client
    is told so, and the data is nowhere: a read afterwards fails. *)
Theorem update_without_holders_commits {S} `{DataNodeSession S} (st : Server S) path seen origin data :
  dataNodeReplicationMap st !! path = None ->
  exists st', propagateUpdateFile path seen origin data st = (Done (Ok (nextVersion path seen st)), st')
    /\ sessions st' = sessions st
    /\ persistedVersionMap st' !! path = Some (nextVersion path seen st)
    /\ getFileFromDataNode path st' = (Done (Ok (false, [])), st').
Proof.
  intros Hnone. assert (holdersOf path st = ∅) as Hh by (unfold holdersOf; by rewrite Hnone).
  unfold propagateUpdateFile. rewrite !sbind_gets, Hh, map_entries_empty. cbn [fanout].
  rewrite (sbind_done (sret []) _ _ _ _ eq_refl). cbv zeta. rewrite sbind_gets.
  replace (Z.of_nat (length (ackedNodes [])) <? Z.min (quorum st) (Z.of_nat (length ([] : list (string * sid)))))
    with false by (symmetry; apply Z.ltb_ge; simpl; lia).
  unfold setVersionOnDisk, persistState. rewrite !sbind_modify. rewrite sbind_gets.
  rewrite (sbind_done _ _ _ _ _ (sendDelta_spec _ _ _ _ _)).
  rewrite (sbind_done _ _ _ _ _ (push_others_spec _ _ _ _)).
  eexists. split; [reflexivity|]. split_and!; [done|apply lookup_insert_eq|].
  unfold getFileFromDataNode. simpl. by rewrite Hnone.
Qed.

Lemma update_without_holders_commits_witness :
  exists st', propagateUpdateFile "ghost.txt" 4 "bob" [one] demo_created
      = (Done (Ok (nextVersion "ghost.txt" 4 demo_created)), st')
    /\ sessions st' = sessions demo_created
    /\ persistedVersionMap st' !! "ghost.txt" = Some (nextVersion "ghost.txt" 4 demo_created)
    /\ getFileFromDataNode "ghost.txt" st' = (Done (Ok (false, [])), st').
Proof.
  apply (update_without_holders_commits demo_created "ghost.txt" 4 "bob" [one]).
  vm_compute. reflexivity.
Defined.

(** ** Heartbeats *)

Section heartbeats.
Context {S : Type} `{Session S}.
Local Abbreviation St := (Server S).
Implicit Types st : St.

Lemma sbind_inv {A B} (m : SO St A) (k : A -> SO St B) st r st' :
  sbind m k st = (r, st') ->
  (exists a st1, m st = (Done (Ok a), st1) /\ k a st1 = (r, st'))
  \/ (exists r1, m st = (r1, st') /\ (forall a, r1 <> Done (Ok a)) /\ forall b, r <> Done (Ok b)).
Proof.
  unfold sbind. destruct (m st) as [[[a|e]|] st1]; [eauto|..]; intros [= <- <-]; right; eauto.
Qed.

Lemma probe_others j st r st' i s :
  j <> i -> sessions st !! i = Some s -> on_session j sess_heartbeat st = (r, st') ->
  only_sessions st st' /\ sessions st' !! i = Some s.
Proof.
  intros Hne Hs. unfold on_session. destruct (sessions st !! j) as [t|].
  - destruct (sess_heartbeat t) as [r' t']. intros [= <- <-]. split; [apply only_sessions_set|].
    simpl. by rewrite lookup_insert_ne.
  - intros [= <- <-]. split; [apply only_sessions_refl|done].
Qed.

Lemma probeAll_stuck nodes st name i s r st' :
  NoDup nodes.*2 -> (name, i) ∈ nodes -> sessions st !! i = Some s -> (sess_heartbeat s).1 = Hang ->
  probeAll nodes st = (r, st') -> (forall dead, r <> Done (Ok dead)) /\ only_sessions st st'.
Proof.
  intros Hnd Hin Hs Hhang. revert st r st' Hnd Hin Hs.
  induction nodes as [|[n j] nodes IH]; intros st r st' Hnd Hin Hs Hp; [by apply elem_of_nil in Hin|].
  csimpl in Hnd. apply NoDup_cons in Hnd as [Hj Hnd]. cbn [probeAll] in Hp.
  destruct (decide (j = i)) as [->|Hne].
  { unfold sbind at 1, on_session in Hp. rewrite Hs in Hp.
    destruct (sess_heartbeat s) as [r1 s1]. simpl in Hhang. subst r1. injection Hp as <- <-.
    split; [done|apply only_sessions_set]. }
  apply elem_of_cons in Hin as [[= -> ->]|Hin]; [done|].
  apply sbind_inv in Hp as [(m & st1 & Hon & Hp)|(r1 & Hon & _ & Hbad)].
  2: { by destruct (probe_others _ _ _ _ _ _ Hne Hs Hon). }
  destruct (probe_others _ _ _ _ _ _ Hne Hs Hon) as [Hos Hs1].
  assert (exists st2, (if isAck m then sret tt else smodify (fun st : St =>
      set_sessions (alter (sess_setIsAlive false) j (sessions st)) st)) st1 = (Done (Ok tt), st2)
      /\ only_sessions st1 st2 /\ sessions st2 !! i = Some s) as (st2 & Hm & Hos2 & Hs2).
  { destruct (isAck m); eexists; (split; [reflexivity|]); (split; [|]); try done.
    - apply only_sessions_refl.
    - simpl. by rewrite lookup_alter_ne. }
  rewrite (sbind_done _ _ _ _ _ Hm) in Hp.
  apply sbind_inv in Hp as [(dead & st3 & Hp3 & Hp)|(r1 & Hp3 & _ & Hbad)].
  - destruct (IH _ _ _ Hnd Hin Hs2 Hp3) as [Hstuck _]. by destruct (Hstuck dead).
  - destruct (IH _ _ _ Hnd Hin Hs2 Hp3) as [_ Hos3]. split; [done|].
    eapply only_sessions_trans; [exact Hos|]. by eapply only_sessions_trans.
Qed.
End heartbeats.

(** One dead session stops the failure detector.  When the worker of a
    datanode's session has ended before the round of heartbeats (the usual fate
    of a session whose peer disappears during any other request), the round
    never finishes, so no datanode is ever removed or rebalanced again. *)
Theorem dead_session_stops_heartbeats {C} `{NetworkChannel C}
    (st : Server (ConnectionSession C)) name i s :
  distinct_sessions (dataNodeEndpointMap st) -> dataNodeEndpointMap st !! name = Some i ->
  sessions st !! i = Some s -> cs_isAlive s = false ->
  (sendHeartbeats st).1 <> Done (Ok tt)
  /\ dataNodeEndpointMap (sendHeartbeats st).2 = dataNodeEndpointMap st
  /\ dataNodeReplicationMap (sendHeartbeats st).2 = dataNodeReplicationMap st.
Proof.
  intros Hnd Hname Hs Hdead. destruct (sendHeartbeats st) as [r st'] eqn:E. simpl.
  unfold sendHeartbeats in E. rewrite sbind_gets in E.
  assert ((sess_heartbeat s).1 = Hang) as Hhang by (simpl; unfold call; by rewrite Hdead).
  apply elem_of_map_entries in Hname.
  apply sbind_inv in E as [(dead & st1 & Hp & _)|(r1 & Hp & _ & Hbad)];
    destruct (probeAll_stuck _ _ _ _ _ _ _ Hnd Hname Hs Hhang Hp) as [Hstuck Hos].
  - by destruct (Hstuck dead).
  - split; [apply Hbad|]. unfold only_sessions in Hos. by rewrite Hos.
Qed.

Definition demo_half_dead : Server (ConnectionSession Pipe) :=
  mkServer 3 0 {["dn1" := 1%positive]} ∅ ∅ ∅ ∅ 0 None demo_disk
    {[1%positive := cs_setIsAlive false demo_session]} [].

Lemma dead_session_stops_heartbeats_witness :
  (sendHeartbeats demo_half_dead).1 <> Done (Ok tt)
  /\ dataNodeEndpointMap (sendHeartbeats demo_half_dead).2 = dataNodeEndpointMap demo_half_dead
  /\ dataNodeReplicationMap (sendHeartbeats demo_half_dead).2 = dataNodeReplicationMap demo_half_dead.
Proof.
  apply (dead_session_stops_heartbeats demo_half_dead "dn1" 1%positive (cs_setIsAlive false demo_session)).
  - apply (bool_decide_unpack _). vm_compute. exact I.
  - reflexivity.
  - reflexivity.
  - reflexivity.
Defined.

(** ** Registration *)

Section register.
Context {S : Type} `{Session S}.
Local Abbreviation St := (Server S).
Implicit Types st : St.

Definition versionOf (path : string) st : Z := default 0 (persistedVersionMap st !! path).

Lemma registerFile_spec name i file st :
  exists st', registerFile name i file st = (Done (Ok tt), st')
    /\ (forall q, versionOf q st' = if decide (q = file.1) then Z.max (versionOf q st) file.2
                                    else versionOf q st)
    /\ (forall q, holdersOf q st' = if decide (q = file.1) then <[name := i]> (holdersOf q st)
                                    else holdersOf q st).
Proof.
  unfold registerFile. rewrite sbind_modify, sbind_gets.
  change (default 0 (persistedVersionMap (addHolder file.1 name i st) !! file.1)) with (versionOf file.1 st).
  assert (forall q, holdersOf q (addHolder file.1 name i st)
            = if decide (q = file.1) then <[name := i]> (holdersOf q st) else holdersOf q st) as Hh.
  { intros q. rewrite holdersOf_add. by case_decide as E; subst. }
  destruct (Z.ltb_spec (versionOf file.1 st) file.2) as [Hlt|Hge].
  - rewrite sbind_modify. eexists. split; [reflexivity|]. split; [|exact Hh].
    intros q. unfold versionOf. simpl. case_decide as E; subst.
    + rewrite lookup_insert_eq. simpl. unfold versionOf in Hlt. lia.
    + by rewrite lookup_insert_ne.
  - eexists. split; [reflexivity|]. split; [|exact Hh].
    intros q. change (versionOf q (addHolder file.1 name i st)) with (versionOf q st).
    case_decide; subst; [lia|done].
Qed.

Lemma registerFiles_spec name i files st :
  NoDup files.*1 ->
  exists st', sfor_each files (registerFile name i) st = (Done (Ok tt), st')
    /\ (forall q v, (q, v) ∈ files -> versionOf q st' = Z.max (versionOf q st) v
          /\ holdersOf q st' = <[name := i]> (holdersOf q st))
    /\ (forall q, q ∉ files.*1 -> versionOf q st' = versionOf q st /\ holdersOf q st' = holdersOf q st).
Proof.
  revert st. induction files as [|[p v] files IH]; intros st Hnd.
  { exists st. split; [done|]. split; [by intros q v ?%elem_of_nil|done]. }
  csimpl in Hnd. apply NoDup_cons in Hnd as [Hp Hnd]. cbn [sfor_each].
  destruct (registerFile_spec name i (p, v) st) as (st1 & Hr & Hv1 & Hh1). csimpl in *.
  rewrite (sbind_done _ _ _ _ _ Hr). destruct (IH st1 Hnd) as (st2 & Hr2 & Hin2 & Hout2).
  exists st2. split; [done|]. split.
  - intros q w [[= -> ->]|Hq]%elem_of_cons.
    + destruct (Hout2 p Hp) as [-> ->]. by rewrite Hv1, Hh1, !decide_True.
    + assert (q <> p) as Hne by (intros ->; apply Hp, list_elem_of_fmap; by exists (p, w)).
      destruct (Hin2 q w Hq) as [-> ->]. by rewrite Hv1, Hh1, !decide_False.
  - intros q [Hne Hq]%not_elem_of_cons. destruct (Hout2 q Hq) as [-> ->].
    by rewrite Hv1, Hh1, !decide_False.
Qed.
End register.

(** Reconciliation is "highest version wins": after a datanode has
    registered, the recorded version of every file it reported is the larger
    of the recorded and the reported one, the datanode is a holder of exactly
    those files in addition, and nothing else changes. *)
Theorem register_takes_highest {S} `{Session S} (st : Server S) name i fvm :
  exists st', registerDataNodeFiles name i fvm st = (Done (Ok tt), st')
    /\ (forall q v, fvm !! q = Some v ->
          versionOf q st' = Z.max (versionOf q st) v
          /\ holdersOf q st' = <[name := i]> (holdersOf q st))
    /\ (forall q, fvm !! q = None ->
          versionOf q st' = versionOf q st /\ holdersOf q st' = holdersOf q st).
Proof.
  unfold registerDataNodeFiles.
  destruct (registerFiles_spec name i (map_entries fvm) st (NoDup_map_keys fvm)) as (st1 & Hr & Hin & Hout).
  rewrite (sbind_done _ _ _ _ _ Hr). eexists. split; [reflexivity|]. split.
  - intros q v Hq. apply Hin. by apply elem_of_map_entries.
  - intros q Hq. apply Hout. intros ([k w] & -> & Hk%elem_of_map_entries)%list_elem_of_fmap.
    simpl in Hq. congruence.
Qed.
