(* ===== verification/Concurrent.v ===== *)
(** * Server operations under concurrency

    The operations of [server/src/replication_manager.cpp] as threads.  The
    request handlers run on a pool and release [stateMutex_] between the parts
    of an operation, so other threads run in between.  A thread is a [prog]:
    the atomic actions of the operation in the order of the code, each a
    critical section of [stateMutex_] (or of the lock manager's, the file
    manager's or the session's own mutex), one request to one session, one
    post, or one file-system operation of [persistState], which takes no lock.
    [alone] runs a thread without interruption and gives back the definitions
    of [Replication]; [schedule] runs a pool of threads under any interleaving
    of their actions.

    [registerDataNodeFiles] keeps [stateMutex_] while it saves the maps; here
    other sections may run during the save, so its schedules include those of
    the code. *)

From S2P Require Import Prelude Text Wire FileManager FileTransfer Protocol StateStore Session ServerState LockManager Replication.

(** ** Threads *)

Inductive prog (St A : Type) : Type :=
| Ret (a : A)
| Act {X : Type} (m : SO St X) (k : X -> prog St A).
Arguments Ret {St A} a.
Arguments Act {St A X} m k.

Fixpoint pbind {St A B} (t : prog St A) (f : A -> prog St B) : prog St B :=
  match t with
  | Ret a => f a
  | Act m k => Act m (fun x => pbind (k x) f)
  end.
Definition act {St A} (m : SO St A) : prog St A := Act m Ret.

Notation "'let&' x := m 'in' k" := (pbind m (fun x => k))
  (at level 10, x name, m at level 100, k at level 200,
   format "'let&'  x  :=  m  'in' '//' k") : squid_scope.
Notation "'do&' m 'in' k" := (pbind m (fun _ => k))
  (at level 10, m at level 100, k at level 200,
   format "'do&'  m  'in' '//' k") : squid_scope.

Fixpoint pfor_each {St A} (xs : list A) (body : A -> prog St unit) : prog St unit :=
  match xs with
  | [] => Ret tt
  | x :: xs => do& body x in pfor_each xs body
  end.

(** No other thread runs. *)
Fixpoint alone {St A} (t : prog St A) : SO St A :=
  match t with
  | Ret a => sret a
  | Act m k => sbind m (fun x => alone (k x))
  end.

(** ** The operations *)

Section operations.
Context {S : Type} `{Session S}.
Local Abbreviation St := (Server S).
Local Abbreviation T := (prog St).

(** One operation on the file system.  Files are known by path: a save that is
    overtaken by another goes on with the path of the temporary file, where the
    program goes on with its descriptor. *)
Definition fs_action (op : FsOp) : T unit :=
  act (smodify (fun st : St => set_disk (applyFs (disk st) op) st)).

(** [atomicWrite]: the temporary file is opened before the map is read.  The
    map is read in one action, where the program iterates over it. *)
Definition atomicWriteC (dst : string -> string) (pieces : St -> list (list byte)) : T unit :=
  let& tmp := act (sgets (fun st : St => tmpPath (dst (root (disk st))))) in
  let& ok := act (sgets (fun st : St => openable (disk st) tmp)) in
  if (ok : bool) then
    do& fs_action (Trunc tmp) in
    let& ps := act (sgets pieces) in
    let& i := act (sgets (fun st : St => io (disk st) tmp)) in
    do& pfor_each (reached (io_room i) ps) (fun bytes => fs_action (Append tmp bytes)) in
    do& (if io_syncs i then fs_action (Sync tmp) else Ret tt) in
    let& target := act (sgets (fun st : St => dst (root (disk st)))) in
    fs_action (if io_renames i then Rename tmp target else Remove tmp)
  else Ret tt.

Definition persistStateC : T unit :=
  do& atomicWriteC versionFilePath (fun st : St => versionPieces (persistedVersionMap st)) in
  atomicWriteC replicationPath (fun st : St => repPieces (buildPersistableRepMap st)).

Definition registerDataNodeFilesC (name : string) (i : sid) (fvm : gmap string Z) : T unit :=
  do& act (sfor_each (map_entries fvm) (registerFile name i)) in
  persistStateC.

Fixpoint tryHoldersC (path : string) (expected : Z) (holders : list sid) : T (bool * list byte) :=
  match holders with
  | [] => Ret (false, [])
  | h :: rest =>
      let& r := act (on_session h (sess_readFile path)) in
      if negb (isAck r.1) then tryHoldersC path expected rest
      else if (expected <? 0) || (expected <=? i32 (getUint32 r.1 FILE_VERSION 0))
      then Ret (true, r.2)
      else match rest with
           | [] => Ret (false, [])
           | _ => tryHoldersC path expected rest
           end
  end.

(** What the section of [getFileFromDataNode] reads: nothing when the file is
    unknown. *)
Definition readPlan (path : string) (st : St) : option (list sid * Z) :=
  match dataNodeReplicationMap st !! path with
  | None => None
  | Some _ => Some (liveHolders path st, default (-1) (persistedVersionMap st !! path))
  end.

Definition getFileFromDataNodeC (path : string) : T (bool * list byte) :=
  let& plan := act (sgets (readPlan path)) in
  match plan with
  | None | Some ([], _) => Ret (false, [])
  | Some (holders, expected) => tryHoldersC path expected holders
  end.

Fixpoint fanoutC (req : SO S Message) (nodes : list (string * sid))
  : T (list ((string * sid) * bool)) :=
  match nodes with
  | [] => Ret []
  | (name, i) :: nodes =>
      let& live := act (sgets (session_alive i)) in
      if (live : bool) then
        let& m := act (on_session i req) in
        let& more := fanoutC req nodes in
        Ret ((name, i, isAck m) :: more)
      else fanoutC req nodes
  end.

Definition postAllC (tasks : list (sid * Task)) : T unit :=
  pfor_each tasks (fun t => act (post_task t.1 t.2)).

(** The live standbys are collected under [mu_]. *)
Definition sendDeltaC (op : Z) (path : string) (version : Z) (names : list string) : T unit :=
  let& ds := act (sgets (deltas op path version names)) in
  postAllC ds.

Definition push_othersC (clients : list (string * sid)) (origin : string) (t : Task) : T unit :=
  postAllC (pushes clients origin t).

Definition snapshotC (nodes : St -> gmap string sid) : T (list (string * sid) * list (string * sid)) :=
  act (sgets (fun st : St => (map_entries (nodes st), map_entries (clientEndpointMap st)))).

Definition propagateCreateFileC (path : string) (version : Z) (origin : string)
    (data : list byte) (now : Z) : T bool :=
  let& snap := snapshotC dataNodeEndpointMap in
  let& answers := fanoutC (sess_createFile path version data) snap.1 in
  let acked := ackedNodes answers in
  let& q := act (sgets quorum) in
  if (Z.of_nat (length acked) <? q) then
    do& postAllC (map (fun node => (node.2, RollbackDelete path)) acked) in
    Ret false
  else
    do& act (smodify (fun st : St => let st := registerAll path acked st in
               set_versions (<[path := version]> (persistedVersionMap st)) st)) in
    do& act (insertLock path now) in
    do& act (setVersionOnDisk path version) in
    do& persistStateC in
    do& sendDeltaC 0 path version acked.*1 in
    do& push_othersC snap.2 origin (PushCreate path version data) in
    Ret true.

Definition propagateUpdateFileC (path : string) (clientSeenVersion : Z) (origin : string)
    (data : list byte) : T Z :=
  let& newVersion := act (sgets (fun st : St =>
    i32 (default clientSeenVersion (persistedVersionMap st !! path) + 1))) in
  let& snap := snapshotC (holdersOf path) in
  let& answers := fanoutC (sess_updateFile path newVersion data) snap.1 in
  let acked := ackedNodes answers in
  let& q := act (sgets quorum) in
  let effectiveQuorum := Z.min q (Z.of_nat (length snap.1)) in
  if (Z.of_nat (length acked) <? effectiveQuorum) then Ret (-1)
  else
    do& act (smodify (fun st : St =>
               set_versions (<[path := newVersion]> (persistedVersionMap st)) st)) in
    do& act (setVersionOnDisk path newVersion) in
    do& persistStateC in
    let& names := act (sgets (fun st : St => map_keys (holdersOf path st))) in
    do& sendDeltaC 0 path newVersion names in
    do& push_othersC snap.2 origin (PushUpdate path newVersion data) in
    Ret newVersion.

Definition propagateDeleteFileC (path origin : string) : T unit :=
  let& snap := snapshotC (holdersOf path) in
  let& answers := fanoutC (sess_deleteFile path) snap.1 in
  let acks := Z.of_nat (length (ackedNodes answers)) in
  let total := Z.of_nat (length answers) in
  let& q := act (sgets quorum) in
  if (0 <? total) && (acks <? Z.min q total) then Ret tt
  else
    do& push_othersC snap.2 origin (PushDelete path) in
    do& act (eraseLock path) in
    do& act (smodify (fun st : St => set_versions (delete path (persistedVersionMap st))
                     (set_repMap (delete path (dataNodeReplicationMap st)) st))) in
    do& act (smodify (fun st : St => set_disk (deleteFileAndVersion (disk st) path).2 st)) in
    do& persistStateC in
    sendDeltaC 1 path 0 [].

(** [getFileVersion] of the file manager and the request are two actions. *)
Fixpoint offerC (path : string) (data : list byte) (candidates : list (string * sid))
    (holders : gmap string sid) : T (gmap string sid) :=
  match candidates with
  | [] => Ret holders
  | (name, i) :: rest =>
      let& v := act (sgets (fun st : St => getFileVersion (disk st) path)) in
      let& m := act (on_session i (sess_createFile path v data)) in
      if isAck m then
        let holders := <[name := i]> holders in
        let& rf := act (sgets replicationFactor) in
        if (u64 rf <=? Z.of_nat (size holders)) then Ret holders
        else offerC path data rest holders
      else offerC path data rest holders
  end.

Definition rebalanceFileReplicationC (path : string) (holders : gmap string sid) : T unit :=
  match map_values holders with
  | [] => Ret tt
  | source :: _ =>
      let& r := act (on_session source (sess_readFile path)) in
      if negb (isAck r.1) then Ret tt
      else
        let& candidates := act (sgets (fun st : St =>
          List.filter (fun e => bool_decide (holders !! e.1 = None) && session_alive e.2 st)
                      (map_entries (dataNodeEndpointMap st)))) in
        let& holders := offerC path r.2 candidates holders in
        do& act (smodify (fun st : St =>
              set_repMap (<[path := holders ∪ holdersOf path st]> (dataNodeReplicationMap st)) st)) in
        persistStateC
  end.

Definition eraseFromReplicationMapC (name : string) : T unit :=
  let& targets := act (let! targets := sgets (rebalanceTargets name) in
                       do! smodify (fun st : St => set_repMap (delete name <$> dataNodeReplicationMap st) st) in
                       sret targets) in
  do& persistStateC in
  pfor_each targets (fun t => rebalanceFileReplicationC t.1 t.2).

Fixpoint collectVersionsC (nodes : list sid) (m : gmap string Z) : T (gmap string Z) :=
  match nodes with
  | [] => Ret m
  | i :: rest =>
      let& live := act (sgets (session_alive i)) in
      if (live : bool) then
        let& mex := act (on_session i sess_syncStatus) in
        collectVersionsC rest (fold_left mergeMax (map_entries (Wire.getFileVersionMap mex)) m)
      else collectVersionsC rest m
  end.

Definition getFileVersionMapC : T (gmap string Z) :=
  let& m := act (sgets persistedVersionMap) in
  let& nodes := act (sgets (fun st : St => map_values (dataNodeEndpointMap st))) in
  collectVersionsC nodes m.

Fixpoint probeAllC (nodes : list (string * sid)) : T (list string) :=
  match nodes with
  | [] => Ret []
  | (name, i) :: rest =>
      let& m := act (on_session i sess_heartbeat) in
      do& (if isAck m then Ret tt
           else act (smodify (fun st : St =>
             set_sessions (alter (sess_setIsAlive false) i (sessions st)) st))) in
      let& dead := probeAllC rest in
      Ret (if isAck m then dead else name :: dead)
  end.

Definition sendHeartbeatsC : T unit :=
  let& nodes := act (sgets (fun st : St => map_entries (dataNodeEndpointMap st))) in
  let& dead := probeAllC nodes in
  do& act (smodify (fun st : St => set_endpoints (foldr delete (dataNodeEndpointMap st) dead) st)) in
  pfor_each dead eraseFromReplicationMapC.
End operations.

(** ** A thread that runs alone

    Computations are compared on every state; [sbind] respects that. *)

Definition soeq {St A} (m n : SO St A) : Prop := forall st, m st = n st.
Infix "≗" := soeq (at level 70) : squid_scope.

#[export] Instance soeq_equivalence {St A} : Equivalence (@soeq St A).
Proof. split; [by intros m st|by intros m n E st|]. intros m n o E1 E2 st. by rewrite E1, E2. Qed.

#[export] Instance sbind_proper {St A B} :
  Proper (soeq ==> pointwise_relation A soeq ==> soeq) (@sbind St A B).
Proof.
  intros m n E k l Ek st. unfold sbind. rewrite E. destruct (n st) as [[[a|e]|] st']; [apply Ek|done..].
Qed.

Lemma sbind_assoc {St A B C} (m : SO St A) (k : A -> SO St B) (l : B -> SO St C) :
  sbind (sbind m k) l ≗ sbind m (fun x => sbind (k x) l).
Proof. intros st. unfold sbind. by destruct (m st) as [[[a|e]|] st']. Qed.
Lemma sbind_sret {St A B} (a : A) (k : A -> SO St B) : sbind (sret a) k ≗ k a.
Proof. by intros st. Qed.
Lemma sbind_sret_r {St A} (m : SO St A) : sbind m sret ≗ m.
Proof. intros st. unfold sbind. by destruct (m st) as [[[a|e]|] st']. Qed.

Lemma alone_bind {St A B} (t : prog St A) (f : A -> prog St B) :
  alone (pbind t f) ≗ sbind (alone t) (fun x => alone (f x)).
Proof.
  induction t as [a|X m k IH]; simpl.
  - by rewrite sbind_sret.
  - rewrite sbind_assoc. apply sbind_proper; [done|]. intros x. apply IH.
Qed.

Lemma alone_act {St A} (m : SO St A) : alone (act m) ≗ m.
Proof. apply sbind_sret_r. Qed.

(** A thread that implements an operation when it runs alone, by the shape of
    both. *)
Lemma alone_bind_as {St A B} (t : prog St A) (f : A -> prog St B) m k :
  alone t ≗ m -> (forall x, alone (f x) ≗ k x) -> alone (pbind t f) ≗ sbind m k.
Proof. intros Ht Hf. rewrite alone_bind. apply sbind_proper; [done|]. intros x. apply Hf. Qed.
Lemma alone_for_each {St A} (xs : list A) (f : A -> prog St unit) body :
  (forall x, alone (f x) ≗ body x) -> alone (pfor_each xs f) ≗ sfor_each xs body.
Proof.
  intros Hf. induction xs as [|x xs IH]; [done|]. simpl. apply alone_bind_as; [apply Hf|done].
Qed.

Create HintDb alone.
#[export] Hint Resolve alone_act alone_bind_as alone_for_each : alone.
#[export] Hint Extern 1 (_ ≗ _) => reflexivity : alone.

(** Follow the binds; split on a condition or a scrutinee both sides share. *)
Ltac alone_same :=
  repeat first
    [ done
    | apply alone_act
    | solve [eauto 3 with alone]
    | apply alone_bind_as; [|intros ?]
    | apply alone_for_each; intros ?
    | progress cbv zeta
    | match goal with
      | |- alone (if ?b then _ else _) ≗ _ => destruct b
      | |- alone (match ?x with _ => _ end) ≗ _ => destruct x
      end ].

Section alone.
Context {S : Type} `{Session S}.
Local Abbreviation St := (Server S).

Lemma alone_appends tmp ps (st : St) :
  alone (pfor_each ps (fun bytes => fs_action (Append tmp bytes))) st
  = (Done (Ok tt), set_disk (runFs (disk st) (map (Append tmp) ps)) st).
Proof.
  revert st. induction ps as [|b ps IH]; intros st; [by destruct st|].
  cbn [pfor_each]. rewrite alone_bind. unfold sbind, fs_action. rewrite alone_act. simpl. by rewrite IH.
Qed.

Lemma alone_atomicWrite dst pieces (st : St) :
  (forall d, pieces (set_disk d st) = pieces st) ->
  alone (atomicWriteC dst pieces) st
  = (Done (Ok tt), set_disk (runFs (disk st) (atomicWrite (disk st) (dst (root (disk st))) (pieces st))) st).
Proof.
  intros Hp. unfold atomicWriteC, act, atomicWrite. cbn [pbind alone]. rewrite !sbind_gets.
  destruct (openable (disk st) _) eqn:Ho; [|by destruct st].
  unfold fs_action at 1, act. cbn [pbind alone]. rewrite sbind_modify, !sbind_gets, Hp.
  rewrite alone_bind, (sbind_done _ _ _ _ _ (alone_appends _ _ _)). cbn [disk set_disk].
  change (io (applyFs (disk st) _) _) with (io (disk st) (tmpPath (dst (root (disk st))))).
  rewrite app_comm_cons, !runFs_app. change (fold_left applyFs) with (fun ops d => runFs d ops). cbn beta.
  destruct (io_syncs _); unfold fs_action, act; cbn [pbind alone]; rewrite ?sbind_modify, ?sbind_gets;
    unfold sbind, smodify, sret; cbn [disk set_disk];
    change (applyFs ?d (Sync _)) with d; rewrite ?runFs_root, ?(proj1 (applyFs_root _ _)); reflexivity.
Qed.

Lemma alone_persistState : alone (persistStateC (S := S)) ≗ persistState.
Proof.
  intros st. unfold persistStateC. rewrite alone_bind.
  erewrite sbind_done by (by apply alone_atomicWrite). by rewrite alone_atomicWrite.
Qed.

Lemma alone_postAll tasks (st : St) : alone (postAllC tasks) st = (Done (Ok tt), add_posted tasks st).
Proof.
  revert st. unfold postAllC. induction tasks as [|[i t] tasks IH]; intros st; [by rewrite add_posted_nil|].
  cbn [pfor_each]. rewrite alone_bind. unfold sbind. rewrite alone_act. simpl.
  rewrite IH. f_equal. apply (add_posted_app [(i, t)]).
Qed.

Lemma alone_sendDelta op path v names : alone (sendDeltaC op path v names) ≗ sendDelta (S := S) op path v names.
Proof.
  intros st. unfold sendDeltaC, act. cbn [pbind alone]. rewrite sbind_gets.
  by rewrite alone_postAll, sendDelta_spec.
Qed.

Lemma alone_push clients origin t : alone (push_othersC clients origin t) ≗ push_others (S := S) clients origin t.
Proof. intros st. unfold push_othersC. by rewrite alone_postAll, push_others_spec. Qed.

Lemma alone_rollback (acked : list (string * sid)) path :
  alone (postAllC (map (fun node => (node.2, RollbackDelete path)) acked))
  ≗ sfor_each acked (fun node => post_task (S := S) node.2 (RollbackDelete path)).
Proof. intros st. by rewrite alone_postAll, rollback_spec. Qed.
End alone.
#[export] Hint Resolve alone_persistState alone_sendDelta alone_push alone_rollback : alone.

Section operations_alone.
Context {S : Type} `{Session S}.
Local Abbreviation St := (Server S).

Lemma alone_snapshot {B} nodes (f : list (string * sid) * list (string * sid) -> prog St B)
    (k : list (string * sid) -> list (string * sid) -> SO St B) :
  (forall x y, alone (f (x, y)) ≗ k x y) ->
  alone (pbind (snapshotC nodes) f)
  ≗ let! datanodes := sgets (fun st : St => map_entries (nodes st)) in
    let! clients := sgets (fun st : St => map_entries (clientEndpointMap st)) in
    k datanodes clients.
Proof. intros Hf st. unfold snapshotC, act. cbn [pbind alone]. rewrite !sbind_gets. apply Hf. Qed.

Lemma alone_register {B} path (acked : list (string * sid)) version (f : unit -> prog St B) (k : unit -> SO St B) :
  (forall x, alone (f x) ≗ k x) ->
  alone (pbind (act (smodify (fun st : St => let st := registerAll path acked st in
               set_versions (<[path := version]> (persistedVersionMap st)) st))) f)
  ≗ do! sfor_each acked (fun node => smodify (addHolder path node.1 node.2)) in
    sbind (smodify (fun st : St => set_versions (<[path := version]> (persistedVersionMap st)) st)) k.
Proof.
  intros Hf st. rewrite (sbind_done _ _ _ _ _ (registerAll_spec _ _ _)), sbind_modify.
  unfold act. cbn [pbind alone]. rewrite sbind_modify. apply Hf.
Qed.

Lemma alone_fanout req nodes : alone (fanoutC req nodes) ≗ fanout (S := S) req nodes.
Proof. induction nodes as [|[name i] nodes IH]; [done|]. alone_same. Qed.
Hint Resolve alone_fanout : alone.

Lemma alone_create path v origin data now :
  alone (propagateCreateFileC path v origin data now) ≗ propagateCreateFile (S := S) path v origin data now.
Proof.
  apply alone_snapshot. intros datanodes clients. cbn [fst snd].
  apply alone_bind_as; [apply alone_fanout|]. intros answers. cbv zeta.
  apply alone_bind_as; [apply alone_act|]. intros q.
  destruct (_ <? _); [alone_same|]. apply alone_register. intros _. alone_same.
Qed.

Lemma alone_update path seen origin data :
  alone (propagateUpdateFileC path seen origin data) ≗ propagateUpdateFile (S := S) path seen origin data.
Proof.
  apply alone_bind_as; [apply alone_act|]. intros nv. apply alone_snapshot. intros datanodes clients. cbn [fst snd].
  alone_same.
Qed.

Lemma alone_delete path origin :
  alone (propagateDeleteFileC path origin) ≗ propagateDeleteFile (S := S) path origin.
Proof. apply alone_snapshot. intros datanodes clients. cbn [fst snd]. alone_same. Qed.

Lemma alone_tryHolders path expected hs : alone (tryHoldersC path expected hs) ≗ tryHolders (S := S) path expected hs.
Proof.
  induction hs as [|h hs IH]; [done|]. apply alone_bind_as; [apply alone_act|]. intros r.
  destruct (negb _); [done|]. destruct (_ || _); [done|]. by destruct hs.
Qed.

Lemma alone_read path : alone (getFileFromDataNodeC path) ≗ getFileFromDataNode (S := S) path.
Proof.
  intros st. unfold getFileFromDataNodeC, act. cbn [pbind alone]. rewrite sbind_gets.
  unfold readPlan, getFileFromDataNode. destruct (dataNodeReplicationMap st !! path); [|done].
  destruct (liveHolders path st); [done|]. apply alone_tryHolders.
Qed.

Lemma alone_offer path data cs hs : alone (offerC path data cs hs) ≗ offer (S := S) path data cs hs.
Proof.
  revert hs. induction cs as [|[name i] cs IH]; intros hs; [done|]. alone_same.
Qed.
Hint Resolve alone_offer : alone.

Lemma alone_rebalance path hs :
  alone (rebalanceFileReplicationC path hs) ≗ rebalanceFileReplication (S := S) path hs.
Proof. unfold rebalanceFileReplicationC, rebalanceFileReplication. alone_same. Qed.
Hint Resolve alone_rebalance : alone.

Lemma alone_erase name : alone (eraseFromReplicationMapC name) ≗ eraseFromReplicationMap (S := S) name.
Proof.
  intros st. unfold eraseFromReplicationMapC, act. cbn [pbind alone].
  unfold eraseFromReplicationMap. rewrite !sbind_assoc, !sbind_gets, !sbind_assoc, !sbind_modify, sbind_sret.
  revert st. intros st. set (st1 := set_repMap _ st). revert st1. alone_same.
Qed.
Hint Resolve alone_erase : alone.

Lemma alone_collect nodes m : alone (collectVersionsC nodes m) ≗ collectVersions (S := S) nodes m.
Proof. revert m. induction nodes as [|i nodes IH]; intros m; [done|]. alone_same. Qed.
Hint Resolve alone_collect : alone.

Lemma alone_probeAll nodes : alone (probeAllC nodes) ≗ probeAll (S := S) nodes.
Proof. induction nodes as [|[name i] nodes IH]; [done|]. alone_same. Qed.
Hint Resolve alone_probeAll : alone.
End operations_alone.
#[export] Hint Resolve alone_create alone_update alone_delete alone_read alone_rebalance alone_erase
  alone_collect alone_probeAll : alone.

(** ** The operations of a server, as threads of one pool *)

Inductive Operation : Type :=
| DoCreate (path : string) (version : Z) (origin : string) (data : list byte) (now : Z)
| DoUpdate (path : string) (seen : Z) (origin : string) (data : list byte)
| DoDelete (path origin : string)
| DoRead (path : string)
| DoVersions
| DoRegister (name : string) (i : sid) (fvm : gmap string Z)
| DoRebalance (path : string) (holders : gmap string sid)
| DoErase (name : string)
| DoHeartbeats.

Inductive Answer : Type :=
| Nothing
| Said (b : bool)
| Version (v : Z)
| Contents (r : bool * list byte)
| Versions (m : gmap string Z).

Section pool.
Context {S : Type} `{Session S}.
Local Abbreviation St := (Server S).
Local Abbreviation T := (prog St).

(** What the operation does when nothing else runs, as [Replication] has it. *)
Definition perform (o : Operation) : SO St Answer :=
  match o with
  | DoCreate path v origin data now => let! b := propagateCreateFile path v origin data now in sret (Said b)
  | DoUpdate path seen origin data => let! v := propagateUpdateFile path seen origin data in sret (Version v)
  | DoDelete path origin => do! propagateDeleteFile path origin in sret Nothing
  | DoRead path => let! r := getFileFromDataNode path in sret (Contents r)
  | DoVersions => let! m := getFileVersionMap in sret (Versions m)
  | DoRegister name i fvm => do! registerDataNodeFiles name i fvm in sret Nothing
  | DoRebalance path holders => do! rebalanceFileReplication path holders in sret Nothing
  | DoErase name => do! eraseFromReplicationMap name in sret Nothing
  | DoHeartbeats => do! sendHeartbeats in sret Nothing
  end.

Definition threadOf (o : Operation) : T Answer :=
  match o with
  | DoCreate path v origin data now => let& b := propagateCreateFileC path v origin data now in Ret (Said b)
  | DoUpdate path seen origin data => let& v := propagateUpdateFileC path seen origin data in Ret (Version v)
  | DoDelete path origin => do& propagateDeleteFileC path origin in Ret Nothing
  | DoRead path => let& r := getFileFromDataNodeC path in Ret (Contents r)
  | DoVersions => let& m := getFileVersionMapC in Ret (Versions m)
  | DoRegister name i fvm => do& registerDataNodeFilesC name i fvm in Ret Nothing
  | DoRebalance path holders => do& rebalanceFileReplicationC path holders in Ret Nothing
  | DoErase name => do& eraseFromReplicationMapC name in Ret Nothing
  | DoHeartbeats => do& sendHeartbeatsC in Ret Nothing
  end.

(** A thread of the pool runs or has ended; a thread that hangs stays. *)
Inductive thread : Type :=
| Running (t : T Answer)
| Ended (r : outcome Answer).

(** The next action of a thread. *)
Definition advance (t : thread) (st : St) : thread * St :=
  match t with
  | Running (Ret a) => (Ended (Done (Ok a)), st)
  | Running (Act m k) =>
      let '(r, st) := m st in
      (match r with
       | Done (Ok x) => Running (k x)
       | Done (Throw e) => Ended (Done (Throw e))
       | Hang => Ended Hang
       end, st)
  | Ended r => (Ended r, st)
  end.

Definition turn (c : list thread * St) (i : nat) : list thread * St :=
  match c.1 !! i with
  | Some t => let '(t, st) := advance t c.2 in (<[i := t]> c.1, st)
  | None => c
  end.

(** The pool under the schedule [sched]: whose turn it is, action by action. *)
Definition schedule (sched : list nat) (c : list thread * St) : list thread * St := fold_left turn sched c.

Definition startAll (os : list Operation) (st : St) : list thread * St :=
  ((fun o => Running (threadOf o)) <$> os, st).
End pool.
Arguments thread S : clear implicits.

(** The threads refine the operations: an operation whose thread is not
    interrupted does exactly what its definition in [Replication] does,
    failures, exceptions and hangs included. *)
Theorem thread_alone_is_operation {S} `{Session S} (o : Operation) (st : Server S) :
  alone (threadOf o) st = perform o st.
Proof.
  revert st. destruct o; unfold threadOf, perform, getFileVersionMapC, getFileVersionMap,
    registerDataNodeFilesC, registerDataNodeFiles, sendHeartbeatsC, sendHeartbeats,
    eraseAllFromReplicationMap; alone_same.
Qed.

(** ** Interference

    [amid R t st r st']: the thread [t] runs from [st] to [st'] with the
    result [r] while, between its actions, the other threads change the state
    as [R] allows.  [respects R t]: every action of [t], from any state, is
    such a change; what follows an action is judged for the
    results the action can have. *)

Fixpoint amid {St A} (R : relation St) (t : prog St A) (st : St) (r : outcome A) (st' : St) : Prop :=
  match t with
  | Ret a => r = Done (Ok a) /\ R st st'
  | Act m k => exists st1 o st2, R st st1 /\ m st1 = (o, st2)
      /\ match o with
         | Done (Ok x) => amid R (k x) st2 r st'
         | Done (Throw e) => r = Done (Throw e) /\ R st2 st'
         | Hang => r = Hang /\ R st2 st'
         end
  end.

Fixpoint respects {St A} (R : relation St) (t : prog St A) : Prop :=
  match t with
  | Ret _ => True
  | Act m k => (forall st, R st (m st).2)
      /\ forall st x st', m st = (Done (Ok x), st') -> respects R (k x)
  end.

Section rely.
Context {St : Type} (R : relation St) `{!PreOrder R}.

Lemma amid_before {A} (t : prog St A) st0 st r st' : R st0 st -> amid R t st r st' -> amid R t st0 r st'.
Proof.
  destruct t; simpl.
  - intros HR [-> HR']. split; [done|]. by transitivity st.
  - intros HR (st1 & o & st2 & HR1 & ?). exists st1, o, st2. split; [by transitivity st|done].
Qed.

Lemma amid_bind {A B} (t : prog St A) (f : A -> prog St B) st b st' :
  amid R (pbind t f) st (Done (Ok b)) st' ->
  exists a st1, amid R t st (Done (Ok a)) st1 /\ amid R (f a) st1 (Done (Ok b)) st'.
Proof.
  revert st. induction t as [a|X m k IH]; intros st; simpl.
  - intros Hf. by exists a, st.
  - intros (st1 & [[x|e]|] & st2 & HR & Hm & Hk); [|by destruct Hk..].
    apply IH in Hk as (a & st3 & Ha & Hf). exists a, st3. split; [|done]. by exists st1, (Done (Ok x)), st2.
Qed.

Lemma amid_act {A} (m : SO St A) st a st' :
  amid R (act m) st (Done (Ok a)) st' ->
  exists st1 st2, R st st1 /\ m st1 = (Done (Ok a), st2) /\ R st2 st'.
Proof.
  intros (st1 & [[x|e]|] & st2 & HR & Hm & Hk); simpl in Hk; [|by destruct Hk..].
  destruct Hk as [[= ->] HR2]. by exists st1, st2.
Qed.

(** A section that only reads. *)
Lemma amid_gets {A} (f : St -> A) st a st' :
  amid R (act (sgets f)) st (Done (Ok a)) st' -> exists st1, R st st1 /\ a = f st1 /\ R st1 st'.
Proof. intros (st1 & st2 & HR & [= <- <-] & HR2)%amid_act. by exists st1. Qed.

(** A thread that respects [R] among others that do. *)
Lemma amid_respects {A} (t : prog St A) st r st' : respects R t -> amid R t st r st' -> R st st'.
Proof.
  revert st. induction t as [a|X m k IH]; intros st; simpl; [by intros _ [_ ?]|].
  intros [Hm Hk] (st1 & o & st2 & HR & Hst & Ho). transitivity st1; [done|].
  specialize (Hm st1). rewrite Hst in Hm. simpl in Hm. transitivity st2; [done|].
  destruct o as [[x|e]|]; [by eapply IH; [eapply Hk|]|by destruct Ho..].
Qed.

Lemma respects_bind {A B} (t : prog St A) (f : A -> prog St B) :
  respects R t -> (forall a, respects R (f a)) -> respects R (pbind t f).
Proof.
  induction t as [a|X m k IH]; simpl; [by intros _ Hf|]. intros [Hm Hk] Hf. split; [done|].
  intros st x st' Hx. apply IH; [by eapply Hk|done].
Qed.
Lemma respects_gets_bind {A B} (f : St -> A) (k : A -> prog St B) :
  (forall st, respects R (k (f st))) -> respects R (pbind (act (sgets f)) k).
Proof. intros Hk. split; [intros st; reflexivity|]. intros st x st' [= <- <-]. apply Hk. Qed.
Lemma respects_act {A} (m : SO St A) : (forall st, R st (m st).2) -> respects R (act m).
Proof. by split. Qed.
Lemma respects_gets {A} (f : St -> A) : respects R (act (sgets f)).
Proof. apply respects_act. intros st. reflexivity. Qed.
Lemma respects_for_each {A} (xs : list A) (f : A -> prog St unit) :
  (forall x, respects R (f x)) -> respects R (pfor_each xs f).
Proof. intros Hf. induction xs; [done|]. by apply respects_bind. Qed.
End rely.

(** ** The pool as interference *)

Section scheduling.
Context {S : Type} (R : relation (Server S)) `{!PreOrder R}.
Implicit Types (ts : list (thread S)) (st : Server S).

Definition thread_respects (t : thread S) : Prop :=
  match t with Running t => respects R t | Ended _ => True end.
Definition others_respect (i : nat) ts : Prop :=
  forall j t, j <> i -> ts !! j = Some t -> thread_respects t.

Lemma advance_respects t st : thread_respects t ->
  thread_respects (advance t st).1 /\ R st (advance t st).2.
Proof.
  destruct t as [[a|X m k]|r]; simpl; intros Ht; [by split..| |by split].
  destruct Ht as [Hm Hk]. specialize (Hm st). destruct (m st) as [o st1] eqn:Em. simpl in *.
  split; [|done]. destruct o as [[x|e]|]; simpl; [by eapply Hk|done..].
Qed.

Lemma turn_spec ts st i j ts' st' :
  turn (ts, st) j = (ts', st') -> others_respect i ts ->
  others_respect i ts'
  /\ if decide (j = i)
     then ts' !! i = fst <$> ((fun t => advance t st) <$> ts !! i)
          /\ st' = match ts !! i with Some t => (advance t st).2 | None => st end
     else ts' !! i = ts !! i /\ R st st'.
Proof.
  unfold turn. simpl. destruct (ts !! j) as [t|] eqn:Ej.
  - destruct (advance t st) as [t' st1] eqn:Ea. intros [= <- <-] Hoth. split.
    + intros l u Hl. destruct (decide (l = j)) as [->|Hlj].
      * rewrite list_lookup_insert_eq by (by eapply lookup_lt_Some). intros [= <-].
        pose proof (advance_respects t st (Hoth _ _ Hl Ej)) as [Ht _]. by rewrite Ea in Ht.
      * rewrite list_lookup_insert_ne by done. by apply Hoth.
    + case_decide as Hji.
      * subst j. rewrite Ej. simpl. rewrite list_lookup_insert_eq by (by eapply lookup_lt_Some).
        by rewrite Ea.
      * rewrite list_lookup_insert_ne by done. split; [done|].
        pose proof (advance_respects t st (Hoth _ _ Hji Ej)) as [_ HR]. by rewrite Ea in HR.
  - intros [= <- <-] Hoth. split; [done|]. case_decide as Hji; [subst j|by split]. by rewrite Ej.
Qed.

(** Once a thread has ended, the others go on. *)
Lemma schedule_ended sched ts st i r ts' st' :
  others_respect i ts -> ts !! i = Some (Ended r) -> schedule sched (ts, st) = (ts', st') ->
  ts' !! i = Some (Ended r) /\ R st st'.
Proof.
  revert ts st. induction sched as [|j sched IH]; intros ts st Hoth Hi; [by intros [= <- <-]|].
  unfold schedule. simpl. destruct (turn (ts, st) j) as [ts1 st1] eqn:Et. intros Hs.
  apply turn_spec with (i := i) in Et as [Hoth1 Ht]; [|done].
  destruct (decide (j = i)).
  - rewrite Hi in Ht. destruct Ht as [Hi1 ->]. by apply (IH _ _ Hoth1 Hi1 Hs).
  - destruct Ht as [Hi1 HR]. rewrite Hi in Hi1. destruct (IH _ _ Hoth1 Hi1 Hs) as [? ?].
    split; [done|]. by transitivity st1.
Qed.

(** What a thread does in a pool whose other threads respect [R]. *)
Lemma schedule_amid sched ts st i t r ts' st' :
  others_respect i ts -> ts !! i = Some (Running t) ->
  schedule sched (ts, st) = (ts', st') -> ts' !! i = Some (Ended r) -> amid R t st r st'.
Proof.
  revert ts st t. induction sched as [|j sched IH]; intros ts st t Hoth Hi.
  { intros [= <- <-]. by rewrite Hi. }
  unfold schedule. simpl. destruct (turn (ts, st) j) as [ts1 st1] eqn:Et. intros Hs Hend.
  apply turn_spec with (i := i) in Et as [Hoth1 Ht]; [|done].
  destruct (decide (j = i)) as [Hji|Hji].
  2: { destruct Ht as [Hi1 HR]. rewrite Hi in Hi1. eapply amid_before; [done..|]. by eapply IH. }
  rewrite Hi in Ht. simpl in Ht. destruct Ht as [Hi1 ->]. destruct t as [a|X m k]; simpl in Hi1.
  { destruct (schedule_ended _ _ _ _ _ _ _ Hoth1 Hi1 Hs) as [He HR]. rewrite He in Hend.
    injection Hend as <-. by split. }
  simpl. exists st. destruct (m st) as [o st2] eqn:Em. exists o, st2. split; [done|]. split; [done|].
  simpl in *.
  destruct o as [[x|e]|]; [by eapply IH| |];
    destruct (schedule_ended _ _ _ _ _ _ _ Hoth1 Hi1 Hs) as [He HR]; rewrite He in Hend;
    by injection Hend as <-.
Qed.
End scheduling.

(** ** What a thread may rely on about one file

    Between two states, the recorded version and holders of [p] are the same,
    and so is what every session's datanode holds of [p]. *)

Record undisturbed {S} `{DataNodeSession S} (p : string) (st st' : Server S) : Prop := mkUndisturbed {
  un_version : persistedVersionMap st' !! p = persistedVersionMap st !! p;
  un_holders : dataNodeReplicationMap st' !! p = dataNodeReplicationMap st !! p;
  un_factor : replicationFactor st' = replicationFactor st;
  un_sessions : forall i s, sessions st !! i = Some s ->
    exists s', sessions st' !! i = Some s' /\ holds s' p = holds s p }.

#[export] Instance undisturbed_preorder {S} `{DataNodeSession S} p : PreOrder (undisturbed p).
Proof.
  split.
  - intros st. split; [done..|]. intros i s Hs. by exists s.
  - intros st1 st2 st3 [Hv1 Hh1 Hf1 Hs1] [Hv2 Hh2 Hf2 Hs2]. split; [congruence..|].
    intros i s Hs. apply Hs1 in Hs as (s1 & Hs & E1). apply Hs2 in Hs as (s2 & Hs & E2).
    exists s2. split; [done|congruence].
Qed.

(** Follow the binds and the branches of a thread. *)
Ltac respects_steps :=
  repeat first
    [ done
    | solve [eauto 2 with respects]
    | apply respects_bind; [|intros ?]
    | apply respects_for_each; intros ?
    | apply respects_gets; apply _
    | progress cbv zeta
    | match goal with
      | |- respects _ (if ?b then _ else _) => destruct b
      | |- respects _ (match ?x with _ => _ end) => destruct x
      end ].

Create HintDb respects.

Section guarantee.
Context {S : Type} `{DataNodeSession S} (p : string).
Local Abbreviation R := (undisturbed (S := S) p).

(** Changes that leave the sessions alone. *)
Lemma undisturbed_frame (st st' : Server S) :
  persistedVersionMap st' !! p = persistedVersionMap st !! p ->
  dataNodeReplicationMap st' !! p = dataNodeReplicationMap st !! p ->
  replicationFactor st' = replicationFactor st -> sessions st' = sessions st -> R st st'.
Proof. intros. split; [done..|]. intros i s Hs. exists s. by rewrite H4. Qed.

Lemma undisturbed_request {A} i (m : SO S A) (st : Server S) :
  (forall s, holds (m s).2 p = holds s p) -> R st (on_session i m st).2.
Proof.
  intros Hm. unfold on_session. destruct (sessions st !! i) as [s|] eqn:Hi; [|done].
  specialize (Hm s). destruct (m s) as [r s']. simpl in *. split; [done..|]. simpl. intros j t Ht.
  destruct (decide (j = i)) as [->|Hne].
  - rewrite lookup_insert_eq. exists s'. split; [done|]. congruence.
  - rewrite lookup_insert_ne by done. by exists t.
Qed.

Lemma respects_request {A} i (m : SO S A) :
  (forall s, holds (m s).2 p = holds s p) -> respects R (act (on_session i m)).
Proof. intros Hm. apply respects_act. intros st. by apply undisturbed_request. Qed.

Lemma respects_frame (f : Server S -> Server S) :
  (forall st, persistedVersionMap (f st) !! p = persistedVersionMap st !! p
     /\ dataNodeReplicationMap (f st) !! p = dataNodeReplicationMap st !! p
     /\ replicationFactor (f st) = replicationFactor st /\ sessions (f st) = sessions st) ->
  respects R (act (smodify f)).
Proof.
  intros Hf. apply respects_act. intros st. destruct (Hf st) as (? & ? & ? & ?). by apply undisturbed_frame.
Qed.

Lemma respects_fs op : respects R (fs_action op).
Proof. by apply respects_frame. Qed.
Hint Resolve respects_fs : respects.
Lemma respects_atomicWrite dst pieces : respects R (atomicWriteC dst pieces).
Proof. unfold atomicWriteC. respects_steps. Qed.
Lemma respects_persistState : respects R persistStateC.
Proof. apply respects_bind; [|intros _]; apply respects_atomicWrite. Qed.
Lemma respects_postAll tasks : respects R (postAllC tasks).
Proof. apply respects_for_each. intros t. by apply respects_frame. Qed.
Lemma respects_sendDelta op path v names : respects R (sendDeltaC op path v names).
Proof. apply respects_bind; [apply respects_gets, _|]. intros ds. apply respects_postAll. Qed.
Lemma respects_push clients origin t : respects R (push_othersC clients origin t).
Proof. apply respects_postAll. Qed.
Lemma respects_snapshot nodes : respects R (snapshotC nodes).
Proof. apply respects_gets, _. Qed.
Lemma respects_setVersion path v : respects R (act (setVersionOnDisk path v)).
Proof. by apply respects_frame. Qed.
Lemma respects_insertLock path now : respects R (act (insertLock path now)).
Proof. apply respects_frame. intros st. by destruct (fileLockMap st !! path). Qed.

Hint Resolve respects_persistState respects_postAll respects_sendDelta respects_push respects_snapshot
  respects_setVersion respects_insertLock : respects.

(** Requests about other files, and reads of any file, leave [p] alone. *)
Context (Hp : dn_path p).

Lemma create_spares path v data s :
  path <> p -> dn_path path -> in_i32 v -> holds (sess_createFile path v data s).2 p = holds s p.
Proof.
  intros Hne Hd Hv. destruct (sess_createFile path v data s) as [r s'] eqn:E.
  by apply (dn_create _ _ _ _ _ _ Hd Hv E).
Qed.
Lemma update_spares path v data s :
  path <> p -> dn_path path -> in_i32 v -> holds (sess_updateFile path v data s).2 p = holds s p.
Proof.
  intros Hne Hd Hv. destruct (sess_updateFile path v data s) as [r s'] eqn:E.
  by apply (dn_update _ _ _ _ _ _ Hd Hv E).
Qed.
Lemma delete_spares path s :
  path <> p -> dn_path path -> holds (sess_deleteFile path s).2 p = holds s p.
Proof.
  intros Hne Hd. destruct (sess_deleteFile path s) as [r s'] eqn:E. by apply (dn_delete _ _ _ _ Hd E).
Qed.
Lemma read_spares path s : dn_path path -> holds (sess_readFile path s).2 p = holds s p.
Proof. intros Hd. destruct (sess_readFile path s) as [r s'] eqn:E. by apply (dn_read _ _ _ _ Hd E). Qed.
Lemma sync_spares s : holds (sess_syncStatus s).2 p = holds s p.
Proof. destruct (sess_syncStatus s) as [r s'] eqn:E. by apply (dn_sync _ _ _ E). Qed.

Lemma respects_fanout req nodes :
  (forall s, holds (req s).2 p = holds s p) -> respects R (fanoutC req nodes).
Proof.
  intros Hreq. pose proof (fun i => respects_request i req Hreq).
  induction nodes as [|[name i] nodes IH]; [done|]. respects_steps.
Qed.

Lemma respects_tryHolders path expected hs : dn_path path -> respects R (tryHoldersC path expected hs).
Proof.
  intros Hd. pose proof (fun i => respects_request i (sess_readFile path) (fun s => read_spares path s Hd)).
  induction hs as [|h hs IH]; [done|]. respects_steps.
Qed.

Lemma respects_collect nodes m : respects R (collectVersionsC nodes m).
Proof.
  pose proof (fun i => respects_request i sess_syncStatus sync_spares).
  revert m. induction nodes as [|i nodes IH]; intros m; [done|]. respects_steps.
Qed.

Lemma respects_offer path data cs hs : path <> p -> dn_path path -> respects R (offerC path data cs hs).
Proof.
  intros Hne Hd. revert hs. induction cs as [|[name i] cs IH]; intros hs; [done|]. cbn [offerC].
  apply respects_gets_bind; [apply _|]. intros st.
  apply respects_bind; [apply respects_request; intros s|]. { apply create_spares; auto using getFileVersion_range. }
  intros m. respects_steps.
Qed.

Lemma respects_rebalance path hs :
  path <> p -> dn_path path -> respects R (rebalanceFileReplicationC path hs).
Proof.
  intros Hne Hd. unfold rebalanceFileReplicationC. destruct (map_values hs) as [|source _]; [done|].
  apply respects_bind; [apply respects_request; intros s; by apply read_spares|]. intros r.
  destruct (negb _); [done|]. apply respects_bind; [apply respects_gets, _|]. intros cs.
  apply respects_bind; [by apply respects_offer|]. intros hs'.
  apply respects_bind; [|intros _; apply respects_persistState].
  apply respects_frame. intros st. simpl. by rewrite lookup_insert_ne.
Qed.

Lemma respects_register name i fvm : fvm !! p = None -> respects R (registerDataNodeFilesC name i fvm).
Proof.
  intros Hn. apply respects_bind; [|intros _; apply respects_persistState]. apply respects_act.
  assert (forall fs, p ∉ fs.*1 -> forall st, R st (sfor_each fs (registerFile name i) st).2) as Hfs.
  { induction fs as [|[q v] fs IH]; intros Hq st; [done|]. csimpl in Hq.
    apply not_elem_of_cons in Hq as [Hpq Hq]. cbn [sfor_each].
    destruct (registerFile_spec name i (q, v) st) as (st1 & Hr & _ & _).
    rewrite (sbind_done _ _ _ _ _ Hr). transitivity st1; [|by apply IH].
    unfold registerFile in Hr. rewrite sbind_modify, sbind_gets in Hr.
    destruct (_ <? _); injection Hr as <-; apply undisturbed_frame; try done; simpl;
      by rewrite lookup_insert_ne. }
  apply Hfs. intros ([k v] & -> & Hin%elem_of_map_entries)%list_elem_of_fmap. simpl in Hn. congruence.
Qed.

Lemma respects_create path v origin data now :
  path <> p -> dn_path path -> in_i32 v -> respects R (propagateCreateFileC path v origin data now).
Proof.
  intros Hne Hd Hv. apply respects_bind; [apply respects_snapshot|]. intros snap.
  apply respects_bind; [apply respects_fanout; intros s; by apply create_spares|]. intros answers. cbv zeta.
  apply respects_bind; [apply respects_gets, _|]. intros q. destruct (_ <? _); [respects_steps|].
  apply respects_bind; [|intros _; respects_steps]. apply respects_frame. intros st. cbv zeta.
  rewrite registerAll_repMap. simpl. rewrite lookup_insert_ne by done. split_and!; try done.
  unfold registerAll. generalize (ackedNodes answers) as nodes. intros nodes. revert st.
  induction nodes as [|n nodes IH]; intros st; [done|]. simpl. rewrite IH. simpl. by rewrite lookup_insert_ne.
Qed.

Lemma respects_update path seen origin data :
  path <> p -> dn_path path -> respects R (propagateUpdateFileC path seen origin data).
Proof.
  intros Hne Hd. apply respects_gets_bind; [apply _|]. intros st0.
  apply respects_bind; [apply respects_snapshot|]. intros snap.
  apply respects_bind; [apply respects_fanout; intros s; apply update_spares; auto using i32_range|].
  intros answers. cbv zeta. apply respects_bind; [apply respects_gets, _|]. intros q.
  destruct (_ <? _); [done|]. apply respects_bind; [|intros _; respects_steps].
  apply respects_frame. intros st. simpl. by rewrite lookup_insert_ne.
Qed.

Lemma respects_delete path origin :
  path <> p -> dn_path path -> respects R (propagateDeleteFileC path origin).
Proof.
  intros Hne Hd. apply respects_bind; [apply respects_snapshot|]. intros snap.
  apply respects_bind; [apply respects_fanout; intros s; by apply delete_spares|].
  intros answers. cbv zeta. apply respects_bind; [apply respects_gets, _|]. intros q.
  destruct (_ && _); [done|]. apply respects_bind; [apply respects_push|intros _].
  apply respects_bind; [by apply respects_frame|intros _].
  apply respects_bind; [|intros _].
  { apply respects_frame. intros st. simpl. by rewrite !lookup_delete_ne. }
  apply respects_bind; [by apply respects_frame|intros _]. respects_steps.
Qed.

(** The operations that leave the file [p] alone: writes to other files,
    registrations that do not report it, and reads of anything. *)
Definition spares (o : Operation) : Prop :=
  match o with
  | DoCreate path v _ _ _ => path <> p /\ dn_path path /\ in_i32 v
  | DoUpdate path _ _ _ | DoDelete path _ | DoRebalance path _ => path <> p /\ dn_path path
  | DoRead path => dn_path path
  | DoVersions => True
  | DoRegister _ _ fvm => fvm !! p = None
  | DoErase _ | DoHeartbeats => False
  end.

Lemma threadOf_respects o : spares o -> respects R (threadOf o).
Proof.
  destruct o; cbn [spares threadOf]; intros Ho; try done; apply respects_bind; try done;
    destruct_and?; auto using respects_create, respects_update, respects_delete, respects_rebalance,
      respects_register.
  - apply respects_bind; [apply respects_gets, _|]. intros [[[|h hs] e]|]; try done. by apply respects_tryHolders.
  - apply respects_bind; [apply respects_gets, _|]. intros m.
    apply respects_bind; [apply respects_gets, _|]. intros nodes. apply respects_collect.
Qed.
End guarantee.
#[export] Hint Resolve respects_persistState respects_sendDelta respects_push respects_snapshot
  respects_setVersion : respects.

(** A thread of a pool whose other operations leave [p] alone. *)
Lemma pool_amid {S} `{DataNodeSession S} (os : list Operation) i o p (st : Server S) sched ts st' r :
  dn_path p -> os !! i = Some o -> (forall j o, j <> i -> os !! j = Some o -> spares (S := S) p o) ->
  schedule sched (startAll os st) = (ts, st') -> ts !! i = Some (Ended r) ->
  amid (undisturbed p) (threadOf o) st r st'.
Proof.
  intros Hp Hi Hoth Hs Hend. unfold startAll in Hs.
  eapply schedule_amid; [apply _| | |exact Hs|exact Hend].
  - intros j t Hj. rewrite list_lookup_fmap. destruct (os !! j) as [o'|] eqn:Ej; [|done].
    intros [= <-]. apply threadOf_respects; [done|]. by eapply Hoth.
  - by rewrite list_lookup_fmap, Hi.
Qed.

(** ** An update among other threads *)

Section update.
Context {S : Type} `{DataNodeSession S} (p : string).
Local Abbreviation R := (undisturbed (S := S) p).
Implicit Types st : Server S.

(** As [undisturbed], except for the sessions [js]. *)
Record undisturbed_but (js : list sid) st st' : Prop := mkBut {
  but_version : persistedVersionMap st' !! p = persistedVersionMap st !! p;
  but_holders : dataNodeReplicationMap st' !! p = dataNodeReplicationMap st !! p;
  but_factor : replicationFactor st' = replicationFactor st;
  but_sessions : forall i s, i ∉ js -> sessions st !! i = Some s ->
    exists s', sessions st' !! i = Some s' /\ holds s' p = holds s p }.

Lemma but_of_undisturbed js st st' : R st st' -> undisturbed_but js st st'.
Proof. intros [? ? ? Hs]. split; [done..|]. intros i s _. apply Hs. Qed.

Lemma but_trans js1 js2 st1 st2 st3 :
  undisturbed_but js1 st1 st2 -> undisturbed_but js2 st2 st3 -> undisturbed_but (js1 ++ js2) st1 st3.
Proof.
  intros [Hv1 Hh1 Hf1 Hs1] [Hv2 Hh2 Hf2 Hs2]. split; [congruence..|].
  intros i s Hi Hs. apply not_elem_of_app in Hi as [Hi1 Hi2].
  destruct (Hs1 i s Hi1 Hs) as (s1 & Hs' & E1). destruct (Hs2 i s1 Hi2 Hs') as (s2 & Hs'' & E2).
  exists s2. split; [done|congruence].
Qed.

Lemma but_request {A} i (m : SO S A) st r st' : on_session i m st = (r, st') -> undisturbed_but [i] st st'.
Proof.
  unfold on_session. destruct (sessions st !! i) as [s|].
  - destruct (m s) as [r' s']. intros [= _ <-]. split; [done..|]. intros j t Hj%not_elem_of_cons Ht. simpl.
    exists t. by rewrite lookup_insert_ne by (intros ->; by destruct Hj).
  - intros [= _ <-]. by apply but_of_undisturbed.
Qed.

(** The fan-out: however the others run, every node that acknowledged still
    holds the data when the last has answered. *)
Lemma amid_fanout req nodes v data st answers st' :
  (forall s r s', req s = (r, s') -> forall m, r = Done (Ok m) -> isAck m = true ->
     holds s' p = Some (v, data)) ->
  NoDup nodes.*2 -> amid R (fanoutC req nodes) st (Done (Ok answers)) st' ->
  undisturbed_but nodes.*2 st st' /\ answers.*1 `sublist_of` nodes
  /\ forall n, n ∈ ackedNodes answers ->
       exists s, sessions st' !! n.2 = Some s /\ holds s p = Some (v, data).
Proof.
  intros Hreq. revert st answers st'. induction nodes as [|[name i] nodes IH]; intros st answers st' Hnd Ha.
  { destruct Ha as [[= ->] HR]. split; [by apply but_of_undisturbed|]. split; [done|].
    by intros n ?%elem_of_nil. }
  csimpl in Hnd. apply NoDup_cons in Hnd as [Hi Hnd]. cbn [fanoutC] in Ha.
  apply amid_bind in Ha as (live & st1 & Hlive & Ha); [|apply _].
  apply amid_gets in Hlive as (st2 & HR1 & -> & HR2).
  assert (R st st1) as HR by by transitivity st2. destruct (session_alive i st2).
  - apply amid_bind in Ha as (m & st3 & Hm & Ha); [|apply _].
    apply amid_bind in Ha as (more & st4 & Hmore & [[= ->] HR5]); [|apply _].
    apply amid_act in Hm as (st5 & st6 & HR3 & Hon & HR4).
    destruct (IH _ _ _ Hnd Hmore) as (Hbut & Hsub & Hack).
    pose proof (but_request _ _ _ _ _ Hon) as Hone. csimpl. split_and!.
    + change (i :: nodes.*2) with ([] ++ [] ++ [i] ++ [] ++ nodes.*2). 
      eapply but_trans; [by apply but_of_undisturbed|]. eapply but_trans; [by apply but_of_undisturbed|].
      eapply but_trans; [done|]. eapply but_trans; [by apply but_of_undisturbed|].
      rewrite <-(app_nil_r nodes.*2). eapply but_trans; [done|]. by apply but_of_undisturbed.
    + by apply sublist_skip.
    + intros n Hn%elem_of_acked. apply elem_of_cons in Hn as [[= -> Hb]|Hn].
      * apply on_session_ok in Hon as (s & s' & _ & Hr & ->).
        destruct (un_sessions _ _ _ HR4 i s') as (s1 & Hs1 & E1); [apply lookup_insert_eq|].
        destruct (but_sessions _ _ _ Hbut i s1 Hi Hs1) as (s2 & Hs2 & E2).
        destruct (un_sessions _ _ _ HR5 i s2 Hs2) as (s3 & Hs3 & E3). exists s3. split; [done|].
        rewrite E3, E2, E1. by eapply Hreq.
      * destruct (Hack n) as (s1 & Hs1 & E1); [by apply elem_of_acked|].
        destruct (un_sessions _ _ _ HR5 n.2 s1 Hs1) as (s2 & Hs2 & E2). exists s2. split; [done|congruence].
  - destruct (IH _ _ _ Hnd Ha) as (Hbut & Hsub & Hack). csimpl. split_and!; [|by apply sublist_cons|done].
    change (i :: nodes.*2) with ([i] ++ nodes.*2). eapply but_trans; [by apply but_of_undisturbed|done].
Qed.

Context (Hp : dn_path p).

(** What follows the quorum check of an update, once the version is recorded. *)
Lemma amid_published nv data origin clients st b st' :
  amid R (do& act (setVersionOnDisk p nv) in
          do& persistStateC in
          let& names := act (sgets (fun st => map_keys (holdersOf p st))) in
          do& sendDeltaC 0 p nv names in
          do& push_othersC clients origin (PushUpdate p nv data) in
          Ret nv) st (Done (Ok b)) st' -> b = nv /\ R st st'.
Proof.
  intros Ha. split; [|eapply amid_respects; [apply _| |exact Ha]; respects_steps].
  repeat (apply amid_bind in Ha as (? & ? & _ & Ha); [|apply _]). by destruct Ha as [[= ->] _].
Qed.

Definition updateOutcome (seen : Z) (data : list byte) st (nv : Z) st' : Prop :=
  exists acked : list (string * sid),
    acked `sublist_of` map_entries (holdersOf p st)
    /\ (forall n, n ∈ acked -> exists s, sessions st' !! n.2 = Some s
          /\ holds s p = Some (nextVersion p seen st, data))
    /\ ((Z.min (quorum st) (Z.of_nat (size (holdersOf p st))) <= Z.of_nat (length acked)
         /\ nv = nextVersion p seen st /\ persistedVersionMap st' !! p = Some nv)
        \/ (Z.of_nat (length acked) < Z.min (quorum st) (Z.of_nat (size (holdersOf p st)))
            /\ nv = -1 /\ persistedVersionMap st' !! p = persistedVersionMap st !! p)).

Lemma undisturbed_next seen st st' : R st st' ->
  nextVersion p seen st' = nextVersion p seen st /\ holdersOf p st' = holdersOf p st
  /\ quorum st' = quorum st.
Proof. intros [Hv Hh Hf _]. unfold nextVersion, holdersOf, quorum. by rewrite Hv, Hh, Hf. Qed.

(** From the quorum check on. *)
Lemma amid_decided nv data origin clients (acked n : Z) st b st' :
  amid R (let& q := act (sgets quorum) in
          if (acked <? Z.min q n) then Ret (-1)
          else
            do& act (smodify (fun st => set_versions (<[p := nv]> (persistedVersionMap st)) st)) in
            do& act (setVersionOnDisk p nv) in
            do& persistStateC in
            let& names := act (sgets (fun st => map_keys (holdersOf p st))) in
            do& sendDeltaC 0 p nv names in
            do& push_othersC clients origin (PushUpdate p nv data) in
            Ret nv) st (Done (Ok b)) st' ->
  (forall i s, sessions st !! i = Some s ->
     exists s', sessions st' !! i = Some s' /\ holds s' p = holds s p)
  /\ ((Z.min (quorum st) n <= acked /\ b = nv /\ persistedVersionMap st' !! p = Some b)
      \/ (acked < Z.min (quorum st) n /\ b = -1 /\ persistedVersionMap st' !! p = persistedVersionMap st !! p)).
Proof.
  intros Ha. apply amid_bind in Ha as (q & st5 & Hq & Ha); [|apply _].
  apply amid_gets in Hq as (st6 & HR6 & -> & HR7). destruct (undisturbed_next 0 _ _ HR6) as (_ & _ & Hq).
  rewrite Hq in Ha. assert (R st st5) as HR by by transitivity st6.
  destruct (Z.ltb_spec acked (Z.min (quorum st) n)) as [Hlt|Hge].
  - destruct Ha as [[= ->] HR8]. assert (R st st') as [Hv _ _ Hs] by by transitivity st5. auto.
  - apply amid_bind in Ha as (u & st7 & Hc & Ha); [|apply _].
    apply amid_act in Hc as (st8 & st9 & HR8 & [= _ <-] & HR9). apply amid_published in Ha as [-> HR10].
    set (stc := set_versions _ st8) in *. assert (R stc st') as [Hv _ _ Hs] by by transitivity st7.
    split; [|left; split_and!; [done|done|rewrite Hv; apply lookup_insert_eq]].
    intros i s Hi. destruct (un_sessions _ _ _ (transitivity HR HR8) i s Hi) as (s1 & Hs1 & E1).
    destruct (Hs i s1 Hs1) as (s2 & Hs2 & E2). exists s2. split; [done|congruence].
Qed.

Lemma amid_update seen origin data st nv st' :
  distinct_sessions (holdersOf p st) ->
  amid R (propagateUpdateFileC p seen origin data) st (Done (Ok nv)) st' ->
  updateOutcome seen data st nv st'.
Proof.
  intros Hnd Ha. unfold propagateUpdateFileC in Ha.
  apply amid_bind in Ha as (v & st1 & Hv & Ha); [|apply _]. apply amid_gets in Hv as (st0 & HR0 & Hv & HR1).
  destruct (undisturbed_next seen _ _ HR0) as (E & _ & _). unfold nextVersion at 1 in E. rewrite E in Hv. subst v.
  apply amid_bind in Ha as (snap & st2 & Hsnap & Ha); [|apply _].
  apply amid_gets in Hsnap as (st3 & HR2 & -> & HR3). cbn [fst snd] in Ha.
  assert (R st st3) as HRst3 by (transitivity st0; [done|]; by transitivity st1).
  destruct (undisturbed_next seen _ _ HRst3) as (_ & Hh3 & _). rewrite Hh3 in Ha.
  assert (R st st2) as HRst2 by by transitivity st3.
  apply amid_bind in Ha as (answers & st4 & Hfan & Ha); [|apply _].
  destruct (amid_fanout _ _ (nextVersion p seen st) data _ _ _
    (fun s r s' Hr => proj1 (dn_update _ _ _ _ _ _ Hp (i32_range _) Hr)) Hnd Hfan)
    as ([Hv4 _ Hf4 _] & Hsub & Hack). cbv zeta in Ha. rewrite length_map_entries in Ha.
  apply amid_decided in Ha as [Hs Hres].
  assert (quorum st4 = quorum st) as Hq4 by (unfold quorum; by rewrite Hf4, (un_factor _ _ _ HRst2)).
  rewrite Hq4, Hv4, (un_version _ _ _ HRst2) in Hres. exists (ackedNodes answers). split; [|split; [|done]].
  - transitivity (answers.*1); [apply acked_sublist|done].
  - intros n Hn. destruct (Hack n Hn) as (s & Hsn & Hh). destruct (Hs _ _ Hsn) as (s' & Hs' & E').
    exists s'. split; [done|congruence].
Qed.
End update.

(** C7. Writers of different files do not disturb each other.  However the
    actions of the pool are interleaved, an update of [p] that runs while the
    other threads work on other files has the outcome of an update that runs
    alone: when it returns a version, that is the one after the version
    recorded at the start, it is the recorded version at the end, and a quorum
    of the holders holds the data under it; when it is refused, the recorded
    version is untouched. *)
Theorem concurrent_update_commits {S} `{DataNodeSession S} (os : list Operation) i p seen origin data
    (st : Server S) sched ts st' nv :
  dn_path p -> distinct_sessions (holdersOf p st) ->
  os !! i = Some (DoUpdate p seen origin data) ->
  (forall j o, j <> i -> os !! j = Some o -> spares (S := S) p o) ->
  schedule sched (startAll os st) = (ts, st') -> ts !! i = Some (Ended (Done (Ok (Version nv)))) ->
  updateOutcome p seen data st nv st'.
Proof.
  intros Hp Hnd Hi Hoth Hs Hend. pose proof (pool_amid _ _ _ _ _ _ _ _ _ Hp Hi Hoth Hs Hend) as Ha.
  apply amid_bind in Ha as (v & st1 & Hu & [[= ->] HR]); [|apply _].
  apply amid_update in Hu as (acked & Hsub & Hh & Hres); [|done..].
  exists acked. split; [done|]. split; [|by rewrite (un_version _ _ _ HR)].
  intros n Hn. destruct (Hh n Hn) as (s & Hsn & E). destruct (un_sessions _ _ _ HR _ _ Hsn) as (s' & Hs' & E').
  exists s'. split; [done|congruence].
Qed.

(** Two datanodes that hold two files each, and one that is only connected. *)
Definition demo_files : Server Node :=
  let node := mkNode true {["b.txt" := (0, [zero]); "c.txt" := (0, [zero])]} [] in
  let both := {["dn1" := 1%positive; "dn2" := 2%positive]} in
  mkServer 3 0 (<["dn3" := 3%positive]> both) {["bob" := 11%positive]} ∅
    {["b.txt" := both; "c.txt" := both]} {["b.txt" := 0; "c.txt" := 0]} 0 None demo_disk
    {[1%positive := node; 2%positive := node; 3%positive := mkNode true ∅ []]} [].

Definition demo_ops : list Operation :=
  [DoUpdate "b.txt" 0 "bob" [one]; DoUpdate "c.txt" 0 "alice" [zero; one];
   DoRebalance "c.txt" {["dn1" := 1%positive]}; DoRead "b.txt"; DoDelete "a.txt" "bob"].

(** Every thread in turn. *)
Definition demo_turns : list nat := concat (repeat [0; 1; 2; 3; 4]%nat 80).

Lemma concurrent_update_commits_witness :
  updateOutcome "b.txt" 0 [one] demo_files 1 (schedule demo_turns (startAll demo_ops demo_files)).2.
Proof.
  apply (concurrent_update_commits demo_ops 0 "b.txt" 0 "bob" [one] demo_files demo_turns
           (schedule demo_turns (startAll demo_ops demo_files)).1).
  - exact I.
  - apply (bool_decide_unpack _). vm_compute. exact I.
  - reflexivity.
  - intros [|[|[|[|[|j]]]]] o Hj; [done|..]; intros [= <-]; simpl; repeat split; discriminate.
  - apply surjective_pairing.
  - vm_compute. reflexivity.
Defined.

(** ** A read among other threads *)

Section read.
Context {S : Type} `{DataNodeSession S} (p : string) (Hp : dn_path p).
Local Abbreviation R := (undisturbed (S := S) p).
Implicit Types st : Server S.

(** The sessions [hs] are there: the replication map keeps the session objects. *)
Definition presentSessions (hs : list sid) st : Prop := forall i, i ∈ hs -> is_Some (sessions st !! i).

(** What a holder stores at the start. *)
Definition holderHas (hs : list sid) (e : Z) (d : list byte) st : Prop :=
  exists i s v, i ∈ hs /\ sessions st !! i = Some s /\ holds s p = Some (v, d) /\ (0 <= e -> e <= v).

Lemma presentSessions_undisturbed hs st st' : R st st' -> presentSessions hs st -> presentSessions hs st'.
Proof. intros [_ _ _ Hs] Hh i Hi. destruct (Hh i Hi) as [s E]. destruct (Hs i s E) as (s' & -> & _). eauto. Qed.

Lemma holderHas_undisturbed hs e d st st' : R st st' -> presentSessions hs st -> holderHas hs e d st' -> holderHas hs e d st.
Proof.
  intros [_ _ _ Hs] Hh (i & s' & v & Hi & E' & Hv). destruct (Hh i Hi) as [s E].
  destruct (Hs i s E) as (s1 & E1 & Hsame). exists i, s, v. split; [done|]. split; [done|]. congruence.
Qed.

Lemma amid_tryHolders e hs st d st' :
  presentSessions hs st -> amid R (tryHoldersC p e hs) st (Done (Ok (true, d))) st' -> holderHas hs e d st.
Proof.
  revert st. induction hs as [|h hs IH]; intros st Hh Ha; [by destruct Ha|].
  cbn [tryHoldersC] in Ha. apply amid_bind in Ha as ([m data] & st3 & Hr & Ha); [|apply _].
  apply amid_act in Hr as (st1 & st2 & HR1 & Hon & HR2).
  assert (R st1 st2) as HRon.
  { pose proof (undisturbed_request p h (sess_readFile p) st1 (fun s => read_spares p Hp p s Hp)) as HR.
    by rewrite Hon in HR. }
  apply on_session_ok in Hon as (s & s' & Hs & Hread & _). destruct (dn_read _ _ _ _ Hp Hread) as [Hcur _].
  assert (R st st3) as HR by (transitivity st1; [done|]; by transitivity st2).
  assert (amid R (tryHoldersC p e hs) st3 (Done (Ok (true, d))) st' -> holderHas (h :: hs) e d st) as Hnext.
  { intros Hrest. assert (presentSessions hs st) as Hp' by (intros i Hi; apply Hh; by right).
    apply IH in Hrest; [|by eapply presentSessions_undisturbed]. apply (holderHas_undisturbed _ _ _ _ _ HR) in Hrest; [|done].
    destruct Hrest as (i & s1 & v & Hi & ?). exists i, s1, v. split; [by right|done]. }
  cbn [fst snd] in Ha. destruct (isAck m) eqn:Hack; cbn [negb] in Ha; [|by apply Hnext].
  destruct ((e <? 0) || (e <=? i32 (getUint32 m FILE_VERSION 0))) eqn:Hfresh.
  - destruct Ha as [[= ->] _]. apply (holderHas_undisturbed _ _ _ _ _ HR1); [done|].
    destruct (Hcur m data eq_refl Hack) as (v & Hv & Hver). exists h, s, v.
    split; [by left|]. split_and!; [done..|]. intros Hpos. rewrite Hver in Hfresh.
    apply orb_true_iff in Hfresh as [Hneg|Hle]; to_prop; lia.
  - destruct hs; [by destruct Ha|by apply Hnext].
Qed.

Lemma amid_read st d st' :
  presentSessions (map_values (holdersOf p st)) st ->
  amid R (getFileFromDataNodeC p) st (Done (Ok (true, d))) st' ->
  holderHas (map_values (holdersOf p st)) (default (-1) (persistedVersionMap st !! p)) d st.
Proof.
  intros Hh Ha. apply amid_bind in Ha as (plan & st2 & Hplan & Ha); [|apply _].
  apply amid_gets in Hplan as (st1 & HR1 & -> & HR2). unfold readPlan in Ha.
  rewrite (un_version _ _ _ HR1) in Ha. destruct (undisturbed_next p 0 _ _ HR1) as (_ & Hho & _).
  destruct (dataNodeReplicationMap st1 !! p); [|by destruct Ha].
  assert (forall i, i ∈ liveHolders p st1 -> i ∈ map_values (holdersOf p st)) as Hlive.
  { intros i [Hi _]%list_elem_of_In%List.filter_In. rewrite <-Hho. by apply list_elem_of_In. }
  destruct (liveHolders p st1) as [|h hs]; [by destruct Ha|].
  assert (R st st2) as HR by by transitivity st1.
  assert (presentSessions (h :: hs) st) as Hhs by (intros i Hi; by apply Hh, Hlive).
  apply amid_tryHolders in Ha; [|by eapply presentSessions_undisturbed].
  apply (holderHas_undisturbed _ _ _ _ _ HR Hhs) in Ha as (i & s & v & Hi & ?). exists i, s, v. auto.
Qed.
End read.

(** C20. A read among writers of other files is a read of a quiet server:
    however the pool is interleaved, what the thread returns is what a
    recorded holder of [p] stored when it started, at a version not below the
    recorded one. *)
Theorem concurrent_read_is_current {S} `{DataNodeSession S} (os : list Operation) i p
    (st : Server S) sched ts st' d :
  dn_path p -> presentSessions (map_values (holdersOf p st)) st -> os !! i = Some (DoRead p) ->
  (forall j o, j <> i -> os !! j = Some o -> spares (S := S) p o) ->
  schedule sched (startAll os st) = (ts, st') -> ts !! i = Some (Ended (Done (Ok (Contents (true, d))))) ->
  holderHas p (map_values (holdersOf p st)) (default (-1) (persistedVersionMap st !! p)) d st.
Proof.
  intros Hp Hh Hi Hoth Hs Hend. eapply pool_amid in Hs; [|done..].
  apply amid_bind in Hs as (r & st1 & Hr & [[= <-] _]); [|apply _]. by eapply amid_read.
Qed.

Lemma concurrent_read_is_current_witness :
  holderHas "b.txt" (map_values (holdersOf "b.txt" demo_files)) 0 [zero] demo_files.
Proof.
  apply (concurrent_read_is_current [DoRead "b.txt"; DoUpdate "c.txt" 0 "alice" [zero; one]; DoDelete "a.txt" "bob"]
           0 "b.txt" demo_files demo_turns
           (schedule demo_turns (startAll
              [DoRead "b.txt"; DoUpdate "c.txt" 0 "alice" [zero; one]; DoDelete "a.txt" "bob"] demo_files)).1
           (schedule demo_turns (startAll
              [DoRead "b.txt"; DoUpdate "c.txt" 0 "alice" [zero; one]; DoDelete "a.txt" "bob"] demo_files)).2).
  - exact I.
  - intros j Hj. apply list_elem_of_In in Hj. vm_compute in Hj.
    destruct Hj as [<-|[<-|[]]]; vm_compute; eauto.
  - reflexivity.
  - intros [|[|[|j]]] o Hj; [done|..]; intros [= <-]; simpl; repeat split; discriminate.
  - apply surjective_pairing.
  - vm_compute. reflexivity.
Defined.

(** The schedule that lets the two updates of a file overtake each other: both
    take the same version number, and each is the last to reach one holder. *)
Definition crossing : list nat :=
  [0; 1; 0; 1; 0; 0; 1; 1; 1; 1; 0; 0]%nat ++ repeat 0%nat 40 ++ repeat 1%nat 40.

(** Two updates of the same file may both be committed under one version
    number.  The number is read in one critical section and recorded in
    another, and the lock of the file is not checked here: in this schedule
    both clients are told version 1, and the two holders keep different
    contents under it, so that no later version check can tell them apart. *)
Theorem same_file_updates_diverge :
  let final := schedule crossing (startAll
    [DoUpdate "b.txt" 0 "bob" [one]; DoUpdate "b.txt" 0 "alice" [zero; one]] demo_files) in
  final.1 !! 0%nat = Some (Ended (Done (Ok (Version 1))))
  /\ final.1 !! 1%nat = Some (Ended (Done (Ok (Version 1))))
  /\ persistedVersionMap final.2 !! "b.txt" = Some 1
  /\ (sessions final.2 !! 1%positive ≫= fun n => holds n "b.txt") = Some (1, [zero; one])
  /\ (sessions final.2 !! 2%positive ≫= fun n => holds n "b.txt") = Some (1, [one]).
Proof. vm_compute. repeat split. Qed.

(** An update that is overtaken takes the version back: the first thread has
    its number when the second and the third commit versions 1 and 2; when it
    goes on, the recorded version is 1 again and the data of version 2, which
    a client was told is committed, is on no holder. *)
Example overtaken_update_reverts :
  let final := schedule ([0; 0]%nat ++ repeat 1%nat 40 ++ repeat 2%nat 40 ++ repeat 0%nat 40) (startAll
    [DoUpdate "b.txt" 0 "bob" [one]; DoUpdate "b.txt" 0 "alice" [zero; one];
     DoUpdate "b.txt" 0 "alice" [one; one]] demo_files) in
  final.1 !! 2%nat = Some (Ended (Done (Ok (Version 2))))
  /\ persistedVersionMap final.2 !! "b.txt" = Some 1
  /\ (sessions final.2 !! 1%positive ≫= fun n => holds n "b.txt") = Some (1, [one])
  /\ (sessions final.2 !! 2%positive ≫= fun n => holds n "b.txt") = Some (1, [one]).
Proof. vm_compute. repeat split. Qed.

(** [persistState] takes no lock.  The first thread has read the version map
    for its save; the second commits and saves; the first goes on and puts
    the older map back, so the committed version of [c.txt] is not on disk
    although both requests have been answered. *)
Example late_save_drops_commit :
  let final := schedule (repeat 0%nat 13 ++ repeat 1%nat 40 ++ repeat 0%nat 40) (startAll
    [DoUpdate "b.txt" 0 "bob" [one]; DoUpdate "c.txt" 0 "alice" [zero; one]] demo_files) in
  final.1 !! 0%nat = Some (Ended (Done (Ok (Version 1))))
  /\ final.1 !! 1%nat = Some (Ended (Done (Ok (Version 1))))
  /\ persistedVersionMap final.2 = {["b.txt" := 1; "c.txt" := 1]}
  /\ loadVersionMap (disk final.2) = {["b.txt" := 1; "c.txt" := 0]}.
Proof. vm_compute. repeat split. Qed.
