(* ===== verification/Linked.v ===== *)
(** * A server linked to its datanodes

    The two ends of a datanode's connection run against each other: a request
    of the server ([createFile], [readFile], ... of
    [common/src/squidprotocol/squidprotocol.cpp]) on one end and one turn of
    the datanode's request loop ([serveRequest]) on the other, with the bytes
    each sends as the input of the other.  [Link] is such a pair with the
    datanode's disk.  It is an instance of [Session], the datanode's promises
    ([DataNodeSession]) are theorems about the two programs, and so what
    [Replication] and [Concurrent] prove holds of a server wired to datanodes
    that run the protocol. *)

From S2P Require Import Prelude Text Wire FileManager FileTransfer Protocol StateStore Session ServerState LockManager Replication Concurrent.

(** ** A channel that notices a read that would block

    [g_in] are the bytes that have arrived.  A read past them gets a filler
    byte and records in [g_seen] what had been sent by then: the run from
    there on is void, since the program would still be waiting. *)
Record Gate : Type := mkGate {
  g_in : list byte;
  g_out : list byte;
  g_seen : option (list byte) }.

#[export] Instance Gate_eq_dec : EqDecision Gate.
Proof. solve_decision. Defined.

Definition Gate_readBytes (n : Z) (c : Gate) : Z * list byte * Gate :=
  match g_seen c, g_in c with
  | Some _, _ => (0, [], c)
  | None, [] => (1, [zero], mkGate [] (g_out c) (Some (g_out c)))
  | None, bs =>
      let k := Z.min n (Z.of_nat (length bs)) in
      (k, take (Z.to_nat k) bs, mkGate (drop (Z.to_nat k) bs) (g_out c) None)
  end.

#[export] Instance Gate_channel : NetworkChannel Gate := {
  readBytes := Gate_readBytes;
  writeBytes bs c := (Z.of_nat (length bs), mkGate (g_in c) (g_out c ++ bs) (g_seen c));
  isOpen _ := true;
  close c := c;
  inbound c := match g_seen c with Some _ => [] | None => g_in c ++ [zero] end;
  outbound := g_out }.

#[export] Program Instance Gate_stream : StreamChannel Gate := { writable _ := True }.
Next Obligation.
  simpl. unfold Gate_readBytes. intros n c k bs c' Hn H Hk.
  destruct (g_seen c); [injection H as <- _ _; lia|]. destruct (g_in c) as [|x l] eqn:E.
  - injection H as <- <- <-. simpl. split; [lia|done].
  - injection H as <- <- <-. cbn [g_seen g_in]. rewrite length_take, app_assoc, take_drop.
    cbn [length]. split_and!; [lia..|done].
Qed.
Next Obligation.
  simpl. unfold Gate_readBytes. intros n c k bs c' Hn H Hk.
  destruct (g_seen c) eqn:E; [injection H as _ _ <-; by rewrite E|].
  destruct (g_in c); injection H as <- _ _; simpl in Hk; lia.
Qed.
Next Obligation.
  simpl. unfold Gate_readBytes. intros n c k bs c' H.
  destruct (g_seen c); [|destruct (g_in c)]; by injection H as _ _ <-.
Qed.
Next Obligation.
  simpl. intros bs c k c' [= <- <-] Hk. simpl. by rewrite Nat2Z.id, firstn_all.
Qed.
Next Obligation.
  simpl. intros bs c k c' [= <- <-] Hk. simpl. destruct bs; [apply app_nil_r|simpl in Hk; lia].
Qed.
Next Obligation. simpl. by intros bs c k c' [= _ <-]. Qed.
Next Obligation. simpl. intros bs c k c' [= <- _] _ Hbs. destruct bs; [done|simpl; lia]. Qed.
Next Obligation. done. Qed.
Next Obligation. done. Qed.

(** The bytes sent before the first read that would have blocked. *)
Definition early (c : Gate) : list byte := default (g_out c) (g_seen c).

Definition gate (p : SquidProtocol Gate) : Gate := default (mkGate [] [] None) (channel p).
Definition feed (i : list byte) (p : SquidProtocol Gate) : SquidProtocol Gate :=
  setChannel p (Some (mkGate i [] None)).

(** ** Links *)

(** Names that denote different files under one root, none of them the
    version file, and fit a frame. *)
Definition good_names (root : string) (paths : list string) : Prop :=
  NoDup (map (resolvePath root) paths)
  /\ Forall (fun path => plain_path path /\ short path = true
               /\ resolvePath root path <> versionFilePath root) paths.

#[export] Instance good_names_dec root paths : Decision (good_names root paths).
Proof. unfold good_names. apply _. Defined.

Record Naming : Type := mkNaming {
  nm_root : string;
  nm_paths : list string;
  nm_good : good_names nm_root nm_paths }.

Record Link (N : Naming) : Type := mkLink {
  l_srv : SquidProtocol Gate;
  l_dn : SquidProtocol Gate;
  l_disk : Disk;
  l_up : bool }.
Arguments mkLink {N}.
Arguments l_srv {N}.
Arguments l_dn {N}.
Arguments l_disk {N}.
Arguments l_up {N}.

(** What one exchange leaves behind. *)
Record Exchange (A : Type) : Type := mkExchange {
  x_result : result A;
  x_srv : SquidProtocol Gate;
  x_disk : result Disk;
  x_dn : SquidProtocol Gate;
  x_reply : list byte }.
Arguments mkExchange {A}.
Arguments x_result {A}.
Arguments x_srv {A}.
Arguments x_disk {A}.
Arguments x_dn {A}.
Arguments x_reply {A}.

Section link.
Context {N : Naming}.
Implicit Types l : Link N.

(** Both ends are alive and agree on the next sequence numbers, nothing is
    buffered, and the datanode can write its version file. *)
Definition in_step l : Prop :=
  (l_up l && alive (l_srv l) && alive (l_dn l) && openable (l_disk l) (versionFilePath (nm_root N)) = true)
  /\ root (l_disk l) = nm_root N
  /\ reorderBuffer (l_srv l) = ∅ /\ reorderBuffer (l_dn l) = ∅
  /\ nextSendSeq (l_srv l) = expectedRecvSeq (l_dn l) /\ in_u32 (nextSendSeq (l_srv l))
  /\ nextSendSeq (l_dn l) = expectedRecvSeq (l_srv l) /\ in_u32 (nextSendSeq (l_dn l)).

#[export] Instance in_step_dec l : Decision (in_step l).
Proof. unfold in_step, in_u32. apply _. Defined.

(** One exchange: the server's end runs on the answer so far, the datanode's
    end on what the server sent; when the server would block, again with the
    longer answer.  [rounds] ends when the server's end needs no more. *)
Fixpoint rounds {A} (fuel : nat) (fn : M Gate A) l (reply : list byte) : option (Exchange A) :=
  match fuel with
  | O => None
  | S fuel =>
      let '(r, ps) := fn (feed reply (l_srv l)) in
      let '(d, pd) := serveRequest (l_disk l) (feed (early (gate ps)) (l_dn l)) in
      match g_seen (gate ps) with
      | Some _ => rounds fuel fn l (early (gate pd))
      | None => Some (mkExchange r ps d pd reply)
      end
  end.

(** Every byte of either side has been read, and neither waits. *)
Definition clean {A} (x : Exchange A) : bool :=
  bool_decide (g_in (gate (x_srv x)) = [] /\ gate (x_dn x) = mkGate [] (x_reply x) None).

(** A request of the server on the link.  Each request of the protocol needs
    at most three rounds; a fourth is never finished. *)
Definition call_link {A} (fn : M Gate A) : SO (Link N) A := fun l =>
  if decide (in_step l) then
    match rounds 4 fn l [] with
    | Some x => (Done (x_result x),
                 mkLink (x_srv x) (x_dn x)
                        (match x_disk x with Ok d => d | Throw _ => l_disk l end) (clean x))
    | None => (Hang, mkLink (l_srv l) (l_dn l) (l_disk l) false)
    end
  else (Hang, l).
End link.

#[export] Instance Link_session {N} : Session (Link N) := {
  sess_isAlive l := l_up l && alive (l_srv l);
  sess_setIsAlive b l := mkLink (setIsAlive (l_srv l) b) (l_dn l) (l_disk l) (l_up l);
  sess_createFile path v data := call_link (createFileData path v data);
  sess_updateFile path v data := call_link (updateFileData path v data);
  sess_readFile path := call_link (readFile path);
  sess_deleteFile path := call_link (deleteFile path);
  sess_syncStatus := call_link syncStatus;
  sess_heartbeat := call_link heartbeat;
  sess_response b := call_link (response b);
  sess_responseV b v := call_link (responseV b v);
  sess_responseMap m := call_link (responseMap m);
  sess_sendFileData data := call_link (sendFileData data);
  sess_acceptUpload := call_link acceptUpload;
  sess_suspendReads := Datatypes.id;
  sess_resumeReads := Datatypes.id;
  sess_sendStateSnap vm rm ep := call_link (sendStateSnap vm rm ep) }.

(** A datanode that has just been registered. *)
Definition newLink (N : Naming) (d : Disk) : Link N :=
  let end_ name := mkProtocol true name "DATANODE" None 0 0 0 ∅ in
  mkLink (end_ "dn1") (end_ "dn1") d true.

Definition demo_names : Naming :=
  mkNaming "/data" ["a.txt"; "b.txt"] (bool_decide_unpack (good_names "/data" ["a.txt"; "b.txt"]) I).
Definition demo_link : Link demo_names := newLink demo_names demo_disk.

Example link_demo :
  let '(r, l) := sess_updateFile "a.txt" 5 (bytes_of_string "new") demo_link in
  let '(r', l') := sess_readFile "a.txt" l in
  let '(r'', l'') := sess_readFile "b.txt" l' in
  match r, r', r'' with
  | Done (Ok m), Done (Ok (m', data)), Done (Ok (m'', _)) =>
      isAck m && isAck m' && bool_decide (data = bytes_of_string "new") && negb (isAck m'')
  | _, _, _ => false
  end = true /\ bool_decide (in_step l') = true /\ bool_decide (in_step l'') = false.
Proof. vm_compute. repeat split. Qed.

(** ** Runs on a gate *)

Section gate.
Implicit Types p : SquidProtocol Gate.

(** A healthy connection whose filler byte is untouched has not blocked. *)
Lemma conn_gate p a b i o : conn p a b (i ++ [zero]) o -> channel p = Some (mkGate i o None).
Proof.
  intros [_ Hw _ _ _ Hi Ho]. unfold can_write, input, output in *. destruct (channel p) as [[gi go gs]|]; [|done].
  simpl in *. destruct gs; [by destruct i|]. apply app_inj_tail in Hi as [-> _]. by subst.
Qed.

Lemma gate_of_conn p a b i o : conn p a b (i ++ [zero]) o -> gate p = mkGate i o None.
Proof. intros Hc. unfold gate. by rewrite (conn_gate _ _ _ _ _ Hc). Qed.

Lemma conn_feed i p : alive p = true -> reorderBuffer p = ∅ ->
  conn (feed i p) (nextSendSeq p) (expectedRecvSeq p) (i ++ [zero]) [].
Proof. intros Ha Hb. by constructor. Qed.

(** A receive with nothing to read blocks. *)
Lemma recvExact_blocks n p o : 2 <= n -> channel p = Some (mkGate [] o None) ->
  recvExact n p = (None, setIsAlive (setChannel p (Some (mkGate [] o (Some o)))) false).
Proof.
  intros Hn Hch. unfold recvExact, input. rewrite Hch. cbn [inbound Gate_channel g_seen g_in app length].
  cbn [recvExact_loop length]. destruct (Z.ltb_spec (Z.of_nat 0) n); [|lia]. rewrite Hch.
  cbn [readBytes Gate_channel]. unfold Gate_readBytes at 1. cbn [g_seen g_in g_out].
  unfold handleRecvError at 1. change (1 =? 0) with false. change (1 <? 0) with false. cbn [app length].
  destruct (Z.ltb_spec (Z.of_nat 1) n); [|lia]. cbn [channel setChannel]. done.
Qed.

Lemma receive_blocks p a b o : conn p a b [zero] o ->
  exists p', receive p = (Ok makeNack, p') /\ gate p' = mkGate [] o (Some o).
Proof.
  intros Hc. pose proof (conn_gate p a b [] o Hc) as Hch. destruct Hc as [_ _ _ _ Hb _ _].
  unfold receive, lift, receiveAndParse. cbn [receiveAndParse_loop]. unfold popNextBuffered.
  rewrite Hb, lookup_empty. unfold receiveFrame. rewrite (recvExact_blocks _ _ o) by done.
  eexists. split; reflexivity.
Qed.

Lemma receiveToDisk_blocks d path p a b o : conn p a b [zero] o ->
  openable d (resolvePath (root d) path) = true ->
  exists p', receiveToDisk d path p
      = (Ok (false, FileManager.set_files d (delete (resolvePath (root d) path) (files d))), p')
    /\ gate p' = mkGate [] o (Some o).
Proof.
  intros Hc Ho. pose proof (conn_gate p a b [] o Hc) as Hch.
  unfold receiveToDisk. rewrite Hch. unfold receiveFilePath. rewrite Ho. cbn. eexists. split; reflexivity.
Qed.

Lemma send_after_block f p i o s : gate p = mkGate i o (Some s) ->
  exists p', send (Ok f) p = (Ok tt, p') /\ exists o', gate p' = mkGate i o' (Some s).
Proof.
  intros Hg. unfold send, sendFrame. set (p1 := setNextSendSeq p _). set (bs := stampSeq f _).
  eexists. split; [reflexivity|]. assert (gate p1 = gate p) as Hg1 by done. revert Hg1. rewrite Hg.
  generalize (length bs) as fuel. clearbody p1 bs. clear Hg. revert p1 o bs.
  intros p1 o bs fuel. revert p1 o bs. induction fuel as [|fuel IH]; intros p1 o bs Hg1.
  - destruct bs; simpl; [by eexists|]. destruct (channel p1); by eexists.
  - destruct bs as [|x bs]; [by eexists|]. cbn [sendFrame_loop]. unfold gate in Hg1.
    destruct (channel p1) as [c|] eqn:Hch; [|done]. simpl in Hg1. subst c. cbn [writeBytes Gate_channel].
    destruct (_ <=? 0); [by eexists|]. eapply IH. reflexivity.
Qed.
End gate.

(** ** The server's end before an answer: the request is out, the rest waits *)

Section asks.
Implicit Types p : SquidProtocol Gate.

Definition asks {A} (fn : M Gate A) (f : list byte) : Prop :=
  forall p a b, conn p a b [zero] [] ->
    exists r p', fn p = (r, p') /\ gate p' = mkGate [] (stampSeq f a) (Some (stampSeq f a)).

Lemma asks_then {A} fmt f (k : Message -> M Gate A) :
  fmt = Ok f -> (forall p, exists r, k makeNack p = (r, p)) ->
  asks (do* send fmt in let* m := receive in k m) f.
Proof.
  intros Hf Hk p a b Hc. unfold bind. destruct (send_ok _ _ _ _ _ _ _ Hf Hc) as (p1 & -> & Hc1).
  destruct (receive_blocks _ _ _ _ Hc1) as (p2 & -> & Hg). destruct (Hk p2) as [r ->]. by exists r, p2.
Qed.

Lemma asks_receive fmt f : fmt = Ok f -> asks (do* send fmt in receive) f.
Proof.
  intros Hf p a b Hc. unfold bind. destruct (send_ok _ _ _ _ _ _ _ Hf Hc) as (p1 & -> & Hc1).
  destruct (receive_blocks _ _ _ _ Hc1) as (p2 & -> & Hg). by eexists _, p2.
Qed.

Lemma asks_upload request f transfer : request = Ok f -> asks (upload request transfer) f.
Proof. intros Hf. apply asks_then; [done|]. intros p. by eexists. Qed.

Lemma asks_read path f : readFileFormat path = Ok f -> asks (readFile path) f.
Proof. intros Hf. apply asks_then; [done|]. intros p. by eexists. Qed.

Lemma asks_sync f : syncStatusFormat = Ok f -> asks syncStatus f.
Proof.
  intros Hf p a b Hc. unfold syncStatus, bind at 1.
  destruct (send_ok _ _ _ _ _ _ _ Hf Hc) as (p1 & -> & Hc1).
  destruct (receive_blocks _ _ _ _ Hc1) as (p2 & Hr & Hg). cbn [syncStatus_loop]. unfold bind.
  rewrite Hr. by eexists _, p2.
Qed.
End asks.

(** ** The datanode's end of the short requests *)

Section serve.
Context {D : Type} `{StreamChannel D}.
Variables (d : Disk) (a b : Z).
Hypotheses (seq_a : in_u32 a) (seq_b : in_u32 b).

(** A request that is answered with one acknowledgement. *)
Lemma serve_acked op (fs : list BinaryField) (d' : Disk) f :
  wellframed (stampSeq f a) (mkMessage op 0 a 0 fs) ->
  requestDispatcher (C := D) (mkMessage op 0 a 0 fs) d = (do* response true in ret d') ->
  exists ack m, wellframed ack m /\ seq m = b /\ isAck m = true
    /\ forall (ps : SquidProtocol D) inS outS, conn ps b a (stampSeq f a ++ inS) outS ->
       exists ps', serveRequest d ps = (Ok d', ps')
         /\ conn ps' (u32 (b + 1)) (u32 (a + 1)) inS (outS ++ ack).
Proof.
  intros Hw Hdisp. destruct (frame_ack true b seq_b) as (k & Hk & Hwk).
  exists (stampSeq k b). eexists. split_and!; [exact Hwk|done..|]. intros ps inS outS Hc.
  unfold serveRequest, bind at 1. destruct (receive_ok _ _ _ _ _ _ _ Hw eq_refl Hc) as (p1 & -> & Hc1).
  rewrite Hdisp. unfold bind, response.
  destruct (send_ok _ _ _ _ _ _ _ Hk Hc1) as (p2 & -> & Hc2). by exists p2.
Qed.
End serve.

Lemma ask_ok {C} `{StreamChannel C} fmt f (p : SquidProtocol C) a b i o raw m :
  fmt = Ok f -> wellframed raw m -> seq m = b -> conn p a b (raw ++ i) o ->
  exists p', (do* send fmt in receive) p = (Ok m, p')
    /\ conn p' (u32 (a + 1)) (u32 (b + 1)) i (o ++ stampSeq f a).
Proof.
  intros Hf Hw Hs Hc. unfold bind. destruct (send_ok _ _ _ _ _ _ _ Hf Hc) as (p1 & -> & Hc1).
  apply (receive_ok _ _ _ _ _ _ _ Hw Hs Hc1).
Qed.

(** ** One exchange *)

Section exchange.
Context {N : Naming}.
Implicit Types l : Link N.
Local Abbreviation a l := (nextSendSeq (l_srv l)).
Local Abbreviation b l := (nextSendSeq (l_dn l)).

Lemma step_srv l i : in_step l -> conn (feed i (l_srv l)) (a l) (b l) (i ++ [zero]) [].
Proof.
  intros (Hal & _ & Hb & _ & _ & _ & -> & _). rewrite !andb_true_iff in Hal. apply conn_feed; tauto.
Qed.
Lemma step_dn l i : in_step l -> conn (feed i (l_dn l)) (b l) (a l) (i ++ [zero]) [].
Proof.
  intros (Hal & _ & _ & Hb & -> & _). rewrite !andb_true_iff in Hal. apply conn_feed; tauto.
Qed.
Lemma step_seqs l : in_step l -> in_u32 (a l) /\ in_u32 (b l).
Proof. by intros (_ & _ & _ & _ & _ & ? & _ & ?). Qed.
Lemma step_root l : in_step l -> root (l_disk l) = nm_root N.
Proof. by intros (_ & ? & _). Qed.
Lemma step_openable l : in_step l -> openable (l_disk l) (versionFilePath (root (l_disk l))) = true.
Proof. intros (Hal & -> & _). rewrite !andb_true_iff in Hal. tauto. Qed.

Lemma rounds_more {A} n (fn : M Gate A) l reply r ps i o sent d pd :
  fn (feed reply (l_srv l)) = (r, ps) -> gate ps = mkGate i o (Some sent) ->
  serveRequest (l_disk l) (feed sent (l_dn l)) = (d, pd) ->
  rounds (S n) fn l reply = rounds n fn l (early (gate pd)).
Proof. intros Hfn Hg Hd. cbn [rounds]. rewrite Hfn, Hg. unfold early at 1. simpl. by rewrite Hd. Qed.

Lemma rounds_done {A} n (fn : M Gate A) l reply r ps i o d pd :
  fn (feed reply (l_srv l)) = (r, ps) -> gate ps = mkGate i o None ->
  serveRequest (l_disk l) (feed o (l_dn l)) = (d, pd) ->
  rounds (S n) fn l reply = Some (mkExchange r ps d pd reply).
Proof. intros Hfn Hg Hd. cbn [rounds]. rewrite Hfn, Hg. unfold early at 1. simpl. by rewrite Hd. Qed.

(** The two ends after an exchange that leaves nothing unread. *)
Lemma step_again l d' ps pd a' b' out reply :
  in_step l -> root d' = root (l_disk l) -> openable d' = openable (l_disk l) ->
  in_u32 a' -> in_u32 b' -> conn ps a' b' [zero] out -> conn pd b' a' [zero] reply ->
  in_step (mkLink ps pd d' true : Link N).
Proof.
  intros Hl Hr Ho Ha Hb [Hs1 _ Hs2 Hs3 Hs4 _ _] [Hd1 _ Hd2 Hd3 Hd4 _ _].
  pose proof (step_openable l Hl) as Hv. pose proof (step_root l Hl) as Hroot.
  unfold in_step. simpl. rewrite Hs1, Hd1, Ho, Hr, Hroot in *. rewrite Hs2, Hs3, Hd2, Hd3. done.
Qed.

Lemma clean_exchange {A} r ps pd d reply a' b' out : 
  conn ps a' b' [zero] out -> conn pd b' a' [zero] reply ->
  clean (mkExchange r ps d pd reply : Exchange A) = true.
Proof.
  intros Hs Hd. apply bool_decide_eq_true. simpl.
  rewrite (gate_of_conn _ _ _ [] _ Hs), (gate_of_conn _ _ _ [] _ Hd). done.
Qed.

(** A request that is sent at once and answered at once. *)
Lemma call_answered {A} (fn : M Gate A) l f d' reply r a' b' :
  in_step l -> asks fn f -> in_u32 a' -> in_u32 b' ->
  root d' = root (l_disk l) -> openable d' = openable (l_disk l) ->
  (forall pd, conn pd (b l) (a l) (stampSeq f (a l) ++ [zero]) [] ->
     exists pd', serveRequest (l_disk l) pd = (Ok d', pd') /\ conn pd' b' a' [zero] reply) ->
  (forall ps, conn ps (a l) (b l) (reply ++ [zero]) [] ->
     exists ps', fn ps = (Ok r, ps') /\ conn ps' a' b' [zero] (stampSeq f (a l))) ->
  exists l', call_link fn l = (Done (Ok r), l') /\ l_disk l' = d' /\ in_step l'.
Proof.
  intros Hl Hask Ha Hb Hr Ho Hserve Hfn.
  destruct (Hask _ _ _ (step_srv l [] Hl)) as (r1 & p1 & H1 & Hg1).
  destruct (Hserve _ (step_dn l _ Hl)) as (pd & Hpd & Hcd).
  destruct (Hfn _ (step_srv l reply Hl)) as (ps & Hps & Hcs).
  assert (rounds 4 fn l [] = Some (mkExchange (Ok r) ps (Ok d') pd reply)) as Hrounds.
  { rewrite (rounds_more _ _ _ _ _ _ _ _ _ _ _ H1 Hg1 Hpd).
    rewrite (gate_of_conn _ _ _ [] _ Hcd). change (early (mkGate [] reply None)) with reply.
    exact (rounds_done _ _ _ _ _ _ _ _ _ _ Hps (gate_of_conn _ _ _ [] _ Hcs) Hpd). }
  unfold call_link. rewrite decide_True by done. rewrite Hrounds. eexists. split; [reflexivity|].
  simpl. rewrite (clean_exchange _ _ _ _ _ _ _ _ Hcs Hcd). split; [done|].
  exact (step_again l d' ps pd a' b' _ _ Hl Hr Ho Ha Hb Hcs Hcd).
Qed.

(** ** What a read, a deletion and a heartbeat do *)

Lemma link_read l path content :
  in_step l -> short path = true -> files (l_disk l) !! resolvePath (root (l_disk l)) path = Some content ->
  transferable content ->
  exists m l', sess_readFile path l = (Done (Ok (m, content)), l') /\ isAck m = true
    /\ i32 (getUint32 m FILE_VERSION 0) = getFileVersion (l_disk l) path
    /\ l_disk l' = l_disk l /\ in_step l'.
Proof.
  intros Hl Hs Hc Hd. destruct (step_seqs l Hl) as [Ha Hb].
  destruct (serve_read (D := Gate) _ path (a l) (b l) Hs Ha Hb content Hc Hd)
    as (f & ack1 & ack2 & m1 & m2 & Hf & Hw1 & Hs1 & Ha1 & Hw2 & Hs2 & Ha2 & Hv2 & Hserve).
  rewrite (i32_small _ (getFileVersion_range _ _)) in Hv2.
  destruct (call_answered (readFile path) l f (l_disk l) (ack1 ++ transferBytes content ++ ack2) (m2, content)
    (u32 (a l + 1)) (u32 (u32 (b l + 1) + 1))) as (l' & Hcall & Hdisk & Hl'); try done; auto with squid.
  - by apply asks_read.
  - intros pd Hpd. apply (Hserve pd [zero] [] Hpd).
  - intros ps Hps. rewrite <-!app_assoc in Hps.
    apply (readFile_ok path (a l) (b l) f content ps [zero] [] ack1 m1 ack2 m2); done.
  - by exists m2, l'.
Qed.

Lemma link_acked l op fs fmt f d' :
  in_step l -> fmt = Ok f -> wellframed (stampSeq f (a l)) (mkMessage op 0 (a l) 0 fs) ->
  requestDispatcher (C := Gate) (mkMessage op 0 (a l) 0 fs) (l_disk l) = (do* response true in ret d') ->
  root d' = root (l_disk l) -> openable d' = openable (l_disk l) ->
  exists m l', call_link (do* send fmt in receive) l = (Done (Ok m), l') /\ isAck m = true
    /\ l_disk l' = d' /\ in_step l'.
Proof.
  intros Hl Hf Hw Hd Hr Ho. destruct (step_seqs l Hl) as [Ha Hb].
  destruct (serve_acked _ (a l) (b l) Hb op fs d' f Hw Hd) as (ack & m & Hwm & Hsm & Ham & Hserve).
  destruct (call_answered (do* send fmt in receive) l f d' ack m (u32 (a l + 1)) (u32 (b l + 1)))
    as (l' & Hcall & Hdisk & Hl'); try done; auto with squid.
  - by apply asks_receive.
  - intros pd Hpd. apply (Hserve pd [zero] [] Hpd).
  - intros ps Hps. apply (ask_ok fmt f ps (a l) (b l) [zero] [] ack m Hf Hwm Hsm Hps).
  - by exists m, l'.
Qed.

Lemma deleteFileAndVersion_keeps d path :
  root (deleteFileAndVersion d path).2 = root d /\ openable (deleteFileAndVersion d path).2 = openable d.
Proof.
  unfold deleteFileAndVersion, FileManager.deleteFile, write_file.
  destruct (files d !! _); [|done]. simpl. by destruct (openable d _).
Qed.

Lemma stored_keeps d path v data :
  root (stored d path v data) = root d /\ openable (stored d path v data) = openable d.
Proof.
  unfold stored, setFileVersion, write_file. destruct (openable d (resolvePath _ _)); simpl;
    by destruct (openable d _).
Qed.

Lemma link_delete l path : in_step l -> short path = true ->
  exists m l', sess_deleteFile path l = (Done (Ok m), l') /\ isAck m = true
    /\ l_disk l' = (deleteFileAndVersion (l_disk l) path).2 /\ in_step l'.
Proof.
  intros Hl Hs. destruct (step_seqs l Hl) as [Ha Hb].
  destruct (frame_path DELETE_FILE path (a l) Hs eq_refl Ha) as (f & Hf & Hw).
  destruct (deleteFileAndVersion_keeps (l_disk l) path) as [Hr Ho].
  apply (link_acked l DELETE_FILE [fieldString FILE_PATH path] _ f); try done.
  unfold requestDispatcher. cbn [opcode]. by rewrite (getString_field _ _ path).
Qed.

Lemma link_heartbeat l : in_step l ->
  exists m l', sess_heartbeat l = (Done (Ok m), l') /\ isAck m = true
    /\ l_disk l' = l_disk l /\ in_step l'.
Proof.
  intros Hl. destruct (step_seqs l Hl) as [Ha Hb].
  destruct (buildFrame_wellframed HEARTBEAT 0 [] (a l)) as (f & Hf & Hw); [done..|].
  by apply (link_acked l HEARTBEAT [] heartbeatFormat f).
Qed.
End exchange.

(** ** What an upload does *)

Section upload.
Context {N : Naming}.
Implicit Types l : Link N.
Local Abbreviation a l := (nextSendSeq (l_srv l)).
Local Abbreviation b l := (nextSendSeq (l_dn l)).

(** The datanode's disk when a transfer breaks off. *)
Definition removed (d : Disk) (path : string) : Disk :=
  FileManager.set_files d (delete (resolvePath (root d) path) (files d)).

Definition uploadFormat (create : bool) : string -> Z -> result (list byte) :=
  if create then createFileFormatV else updateFileFormatV.
Definition uploadData (create : bool) (path : string) (v : Z) (data : list byte) : M Gate Message :=
  upload (uploadFormat create path v) (sendFileAfterAck data).

Lemma uploadData_create path v data : createFileData path v data = uploadData true path v data.
Proof. done. Qed.
Lemma uploadData_update path v data : updateFileData path v data = uploadData false path v data.
Proof. done. Qed.

(** The datanode has the request but not the data. *)
Lemma serve_waits l create path v f k1 :
  in_step l -> short path = true -> uploadFormat create path v = Ok f -> responseAck true = Ok k1 ->
  openable (l_disk l) (resolvePath (root (l_disk l)) path) = true ->
  exists pd, serveRequest (l_disk l) (feed (stampSeq f (a l)) (l_dn l)) = (Ok (removed (l_disk l) path), pd)
    /\ early (gate pd) = stampSeq k1 (b l) /\ g_seen (gate pd) <> None.
Proof.
  intros Hl Hs Hf Hk1 Ho. destruct (step_seqs l Hl) as [Ha Hb].
  destruct (frame_path_version (if create then CREATE_FILE else UPDATE_FILE) path v (a l) Hs)
    as (f' & Hf' & Hw); [by destruct create|done|].
  assert (f' = f) as -> by (destruct create; unfold uploadFormat, createFileFormatV, updateFileFormatV in *; congruence).
  unfold serveRequest, bind at 1.
  destruct (receive_ok _ _ _ _ _ _ _ Hw eq_refl (step_dn l _ Hl)) as (p1 & -> & Hc1).
  unfold requestDispatcher. rewrite (getString_field _ _ path) by done.
  destruct (send_ok _ _ _ _ _ _ _ Hk1 Hc1) as (p2 & Hs2 & Hc2).
  destruct (receiveToDisk_blocks (l_disk l) path p2 _ _ _ Hc2 Ho) as (p3 & Hr3 & Hg3).
  destruct (frame_ack false 0) as (k2 & Hk2 & _); [by vm_compute|].
  destruct (send_after_block k2 p3 _ _ _ Hg3) as (p4 & Hs4 & o4 & Hg4).
  exists p4. split; [|by rewrite Hg4].
  destruct create; cbn [opcode]; unfold bind, response; rewrite Hs2, Hr3; cbn [fst snd];
    rewrite Hk2; by rewrite Hs4.
Qed.

(** The server has the go-ahead and nothing more. *)
Lemma upload_waits request f data (p : SquidProtocol Gate) a' b' ack1 m1 :
  request = Ok f -> transferable data -> wellframed ack1 m1 -> seq m1 = b' -> isAck m1 = true ->
  conn p a' b' (ack1 ++ [zero]) [] ->
  exists r p', upload request (sendFileAfterAck data) p = (r, p')
    /\ let sent := stampSeq f a' ++ transferBytes data in gate p' = mkGate [] sent (Some sent).
Proof.
  intros Hreq Hd Hw1 Hs1 Hack Hc. unfold upload, bind.
  destruct (send_ok request f p a' b' _ [] Hreq Hc) as (p1 & -> & Hc1).
  destruct (receive_ok _ _ _ _ _ _ _ Hw1 Hs1 Hc1) as (p2 & -> & Hc2).
  unfold sendFileAfterAck. rewrite Hack. cbn [negb].
  destruct (sendFileData_ok data _ _ _ _ _ Hd Hc2) as (p3 & -> & Hc3). cbn [negb].
  destruct (receive_blocks _ _ _ _ Hc3) as (p4 & -> & Hg). by eexists _, p4.
Qed.

(** Data over the limit is not sent. *)
Lemma upload_too_big request f data (p : SquidProtocol Gate) a' b' ack1 m1 i :
  request = Ok f -> ~ transferable data -> wellframed ack1 m1 -> seq m1 = b' -> isAck m1 = true ->
  conn p a' b' (ack1 ++ i ++ [zero]) [] ->
  exists p', upload request (sendFileAfterAck data) p = (Ok makeNack, p')
    /\ gate p' = mkGate i (stampSeq f a') None.
Proof.
  intros Hreq Hd Hw1 Hs1 Hack Hc. unfold upload, bind.
  destruct (send_ok request f p a' b' _ [] Hreq Hc) as (p1 & -> & Hc1).
  destruct (receive_ok _ _ _ _ _ _ _ Hw1 Hs1 Hc1) as (p2 & -> & Hc2).
  unfold sendFileAfterAck. rewrite Hack. cbn [negb].
  unfold sendFileData, onChannel, sendFile. rewrite (conn_gate _ _ _ _ _ Hc2).
  destruct (Z.ltb_spec FILETRANSFER_MAX_SIZE (Z.of_nat (length data))); [|by destruct Hd].
  cbn [negb]. eexists. split; reflexivity.
Qed.

Lemma link_upload l create path v data :
  in_step l -> short path = true -> in_i32 v -> transferable data ->
  openable (l_disk l) (resolvePath (root (l_disk l)) path) = true ->
  exists m l', call_link (uploadData create path v data) l = (Done (Ok m), l') /\ isAck m = true
    /\ (create = false -> i32 (getUint32 m FILE_VERSION 0) = v)
    /\ l_disk l' = stored (l_disk l) path v data /\ in_step l'.
Proof.
  intros Hl Hs Hv Hd Ho. destruct (step_seqs l Hl) as [Ha Hb].
  destruct (serve_upload (D := Gate) _ path (a l) (b l) Hs Ha Hb create v data Hv Hd Ho)
    as (f & k1 & ack1 & ack2 & m1 & m2 & Hf & Hk1 & -> & Hw1 & Hs1 & Ha1 & Hw2 & Hs2 & Ha2 & Hv2 & Hserve).
  assert (uploadFormat create path v = Ok f) as Hf' by by destruct create.
  destruct (asks_upload (uploadFormat create path v) f (sendFileAfterAck data) Hf' _ _ _ (step_srv l [] Hl))
    as (r1 & p1 & H1 & Hg1).
  destruct (serve_waits l create path v f k1 Hl Hs Hf' Hk1 Ho) as (pd1 & Hd1 & He1 & _).
  destruct (upload_waits _ f data _ _ _ _ _ Hf' Hd Hw1 Hs1 Ha1 (step_srv l _ Hl)) as (r2 & p2 & H2 & Hg2).
  pose proof (step_dn l (stampSeq f (a l) ++ transferBytes data) Hl) as Hcd. rewrite <-app_assoc in Hcd.
  destruct (Hserve _ _ _ Hcd) as (pd2 & Hd2 & Hcd2).
  pose proof (step_srv l (stampSeq k1 (b l) ++ ack2) Hl) as Hcs. rewrite <-app_assoc in Hcs.
  destruct (upload_ok _ f data _ _ _ _ _ _ _ _ _ Hf' Hd Hw1 Hs1 Ha1 Hw2 Hs2 Hcs) as (p3 & H3 & Hc3).
  assert (rounds 4 (uploadData create path v data) l []
          = Some (mkExchange (Ok m2) p3 (Ok (stored (l_disk l) path v data)) pd2 (stampSeq k1 (b l) ++ ack2))) as Hrounds.
  { rewrite (rounds_more _ _ _ _ _ _ _ _ _ _ _ H1 Hg1 Hd1), He1.
    rewrite (rounds_more _ _ _ _ _ _ _ _ _ _ _ H2 Hg2 Hd2), (gate_of_conn _ _ _ [] _ Hcd2).
    exact (rounds_done _ _ _ _ _ _ _ _ _ _ H3 (gate_of_conn _ _ _ [] _ Hc3) Hd2). }
  unfold call_link. rewrite decide_True by done. rewrite Hrounds. eexists m2, _. split; [reflexivity|].
  do 2 (split; [done|]). simpl. rewrite (clean_exchange _ _ _ _ _ _ _ _ Hc3 Hcd2). split; [done|].
  eapply step_again; [exact Hl|apply stored_keeps|apply stored_keeps|..|exact Hc3|exact Hcd2]; auto with squid.
Qed.

(** The datanode cannot open the file: it refuses without reading the data. *)
Lemma serve_refuses l create path v f k1 k2 (ps : SquidProtocol Gate) i :
  in_step l -> short path = true -> uploadFormat create path v = Ok f ->
  responseAck true = Ok k1 -> responseAck false = Ok k2 ->
  openable (l_disk l) (resolvePath (root (l_disk l)) path) = false ->
  conn ps (b l) (a l) (stampSeq f (a l) ++ i) [] ->
  exists ps', serveRequest (l_disk l) ps = (Ok (l_disk l), ps')
    /\ conn ps' (u32 (u32 (b l + 1) + 1)) (u32 (a l + 1)) i
         (stampSeq k1 (b l) ++ stampSeq k2 (u32 (b l + 1))).
Proof.
  intros Hl Hs Hf Hk1 Hk2 Ho Hc. destruct (step_seqs l Hl) as [Ha Hb].
  destruct (frame_path_version (if create then CREATE_FILE else UPDATE_FILE) path v (a l) Hs)
    as (f' & Hf' & Hw); [by destruct create|done|].
  assert (f' = f) as -> by (destruct create; unfold uploadFormat, createFileFormatV, updateFileFormatV in *; congruence).
  unfold serveRequest, bind at 1. destruct (receive_ok _ _ _ _ _ _ _ Hw eq_refl Hc) as (p1 & -> & Hc1).
  unfold requestDispatcher. rewrite (getString_field _ _ path) by done.
  destruct (send_ok _ _ _ _ _ _ _ Hk1 Hc1) as (p2 & Hs2 & Hc2).
  assert (receiveToDisk (l_disk l) path p2 = (Ok (false, l_disk l), p2)) as Hr.
  { unfold receiveToDisk, receiveFilePath. rewrite Ho. destruct p2 as [? ? ? [c|] ? ? ? ?]; [done|].
    by destruct Hc2. }
  destruct (send_ok _ _ _ _ _ _ _ Hk2 Hc2) as (p3 & Hs3 & Hc3). exists p3. split; [|done].
  destruct create; cbn [opcode]; unfold bind, response; rewrite Hs2, Hr; cbn [fst snd]; by rewrite Hs3.
Qed.

Lemma link_upload_refused l create path v data :
  in_step l -> short path = true ->
  ~ (transferable data /\ openable (l_disk l) (resolvePath (root (l_disk l)) path) = true) ->
  exists m l', call_link (uploadData create path v data) l = (Done (Ok m), l') /\ isAck m = false
    /\ (l_disk l' = l_disk l \/ l_disk l' = removed (l_disk l) path).
Proof.
  intros Hl Hs Hno. destruct (step_seqs l Hl) as [Ha Hb].
  assert (exists f, uploadFormat create path v = Ok f) as [f Hf].
  { destruct (frame_path_version (if create then CREATE_FILE else UPDATE_FILE) path v (a l) Hs)
      as (f & Hf & _); [by destruct create|done|]. exists f. by destruct create. }
  destruct (frame_ack true (b l) Hb) as (k1 & Hk1 & Hw1).
  destruct (frame_ack false (u32 (b l + 1))) as (k2 & Hk2 & Hw2); [auto with squid|].
  destruct (asks_upload (uploadFormat create path v) f (sendFileAfterAck data) Hf _ _ _ (step_srv l [] Hl))
    as (r1 & p1 & H1 & Hg1).
  assert (Decision (transferable data)) as Hdec by (unfold transferable; apply _).
  unfold call_link. rewrite decide_True by done.
  destruct (openable (l_disk l) (resolvePath (root (l_disk l)) path)) eqn:Ho.
  - assert (~ transferable data) as Hbig by tauto.
    destruct (serve_waits l create path v f k1 Hl Hs Hf Hk1 Ho) as (pd & Hd & He & _).
    destruct (upload_too_big _ f data _ _ _ _ _ [] Hf Hbig Hw1 eq_refl eq_refl (step_srv l _ Hl)) as (p2 & H2 & Hg2).
    rewrite (rounds_more _ _ _ _ _ _ _ _ _ _ _ H1 Hg1 Hd), He, (rounds_done _ _ _ _ _ _ _ _ _ _ H2 Hg2 Hd).
    eexists _, _. split; [reflexivity|]. split; [done|]. by right.
  - destruct (serve_refuses l create path v f k1 k2 _ [zero] Hl Hs Hf Hk1 Hk2 Ho (step_dn l _ Hl)) as (pd & Hd & Hcd).
    rewrite (rounds_more _ _ _ _ _ _ _ _ _ _ _ H1 Hg1 Hd), (gate_of_conn _ _ _ [] _ Hcd). unfold early.
    cbn [g_seen g_out default from_option].
    pose proof (step_srv l (stampSeq k1 (b l) ++ stampSeq k2 (u32 (b l + 1))) Hl) as Hcs.
    rewrite <-app_assoc in Hcs. destruct (decide (transferable data)) as [Ht|Hbig].
    + destruct (upload_ok _ f data _ _ _ _ _ _ _ _ _ Hf Ht Hw1 eq_refl eq_refl Hw2 eq_refl Hcs) as (p2 & H2 & Hc2).
      pose proof (step_dn l (stampSeq f (a l) ++ transferBytes data) Hl) as Hcd2. rewrite <-app_assoc in Hcd2.
      destruct (serve_refuses l create path v f k1 k2 _ _ Hl Hs Hf Hk1 Hk2 Ho Hcd2) as (pd2 & Hd2 & _).
      rewrite (rounds_done _ _ _ _ _ _ _ _ _ _ H2 (gate_of_conn _ _ _ [] _ Hc2) Hd2).
      eexists _, _. split; [reflexivity|]. split; [done|]. by left.
    + destruct (upload_too_big _ f data _ _ _ _ _ _ Hf Hbig Hw1 eq_refl eq_refl Hcs) as (p2 & H2 & Hg2).
      rewrite (rounds_done _ _ _ _ _ _ _ _ _ _ H2 Hg2 Hd).
      eexists _, _. split; [reflexivity|]. split; [done|]. by left.
Qed.
End upload.

(** ** What a read that fails and a synchronisation do *)

Section refused.
Context {N : Naming}.
Implicit Types l : Link N.
Local Abbreviation a l := (nextSendSeq (l_srv l)).
Local Abbreviation b l := (nextSendSeq (l_dn l)).

Lemma serve_unreadable l path f k1 k2 :
  in_step l -> short path = true -> readFileFormat path = Ok f ->
  responseAck true = Ok k1 -> responseAck false = Ok k2 ->
  (forall c : Gate, sendFilePath (l_disk l) path c = (false, c)) ->
  exists pd, serveRequest (l_disk l) (feed (stampSeq f (a l)) (l_dn l)) = (Ok (l_disk l), pd)
    /\ gate pd = mkGate [] (stampSeq k1 (b l) ++ stampSeq k2 (u32 (b l + 1))) None.
Proof.
  intros Hl Hs Hf Hk1 Hk2 Hno. destruct (step_seqs l Hl) as [Ha Hb].
  destruct (frame_path READ_FILE path (a l) Hs eq_refl Ha) as (f' & Hf' & Hw).
  assert (f' = f) as -> by (unfold readFileFormat in *; congruence).
  unfold serveRequest, bind at 1.
  destruct (receive_ok _ _ _ _ _ _ _ Hw eq_refl (step_dn l _ Hl)) as (p1 & -> & Hc1).
  unfold requestDispatcher. cbn [opcode]. rewrite (getString_field _ _ path) by done.
  unfold bind, response, responseV, onChannel.
  destruct (send_ok _ _ _ _ _ _ _ Hk1 Hc1) as (p2 & -> & Hc2).
  rewrite (conn_gate _ _ _ [] _ Hc2), Hno.
  assert (setChannel p2 (Some (mkGate [] ([] ++ stampSeq k1 (b l)) None)) = p2) as ->
    by (pose proof (conn_gate _ _ _ [] _ Hc2) as E; destruct p2; simpl in *; by subst).
  destruct (send_ok _ _ _ _ _ _ _ Hk2 Hc2) as (p3 & -> & Hc3). exists p3. split; [done|].
  exact (gate_of_conn _ _ _ [] _ Hc3).
Qed.

(** The refusal arrives where the size of the file is expected. *)
Lemma read_nacked path f k1 m1 k2 sq (p : SquidProtocol Gate) a' b' :
  readFileFormat path = Ok f -> wellframed k1 m1 -> seq m1 = b' -> isAck m1 = true ->
  responseAck false = Ok k2 -> conn p a' b' (k1 ++ stampSeq k2 sq ++ [zero]) [] ->
  exists p' i, readFile path p = (Ok (makeNack, []), p') /\ gate p' = mkGate i (stampSeq f a') None.
Proof.
  intros Hf Hw1 Hs1 Hack Hk2 Hc. unfold readFile, bind.
  destruct (send_ok _ _ _ _ _ _ _ Hf Hc) as (p1 & -> & Hc1).
  destruct (receive_ok _ _ _ _ _ _ _ Hw1 Hs1 Hc1) as (p2 & -> & Hc2).
  destruct (nack_bytes sq k2 Hk2) as (hd & s & tl & Hsplit & Hhd & _ & Hbig).
  rewrite Hsplit, <-app_assoc in Hc2. unfold receiveFileAfterAck. rewrite Hack. cbn [negb].
  destruct (receiveFileData_oversize _ _ _ _ _ _ Hhd Hbig Hc2) as (p3 & -> & Hc3). cbn [negb fst snd].
  eexists p3, (s :: zero :: tl). split; [done|]. exact (gate_of_conn _ _ _ (s :: zero :: tl) _ Hc3).
Qed.

Lemma link_read_refused l path :
  in_step l -> short path = true ->
  (forall content, files (l_disk l) !! resolvePath (root (l_disk l)) path = Some content -> ~ transferable content) ->
  exists m l', sess_readFile path l = (Done (Ok (m, [])), l') /\ isAck m = false /\ l_disk l' = l_disk l.
Proof.
  intros Hl Hs Hno. destruct (step_seqs l Hl) as [Ha Hb].
  assert (forall c : Gate, sendFilePath (l_disk l) path c = (false, c)) as Hsend.
  { intros c. unfold sendFilePath. destruct (files _ !! _) as [content|] eqn:E; [|done].
    specialize (Hno content eq_refl). unfold sendFile, transferable in *.
    by destruct (Z.ltb_spec FILETRANSFER_MAX_SIZE (Z.of_nat (length content))); [|lia]. }
  destruct (frame_path READ_FILE path (a l) Hs eq_refl Ha) as (f & Hf & _).
  destruct (frame_ack true (b l) Hb) as (k1 & Hk1 & Hw1).
  destruct (frame_ack false (u32 (b l + 1))) as (k2 & Hk2 & _); [auto with squid|].
  destruct (asks_read path f Hf _ _ _ (step_srv l [] Hl)) as (r1 & p1 & H1 & Hg1).
  destruct (serve_unreadable l path f k1 k2 Hl Hs Hf Hk1 Hk2 Hsend) as (pd & Hd & Hgd).
  pose proof (step_srv l (stampSeq k1 (b l) ++ stampSeq k2 (u32 (b l + 1))) Hl) as Hcs. rewrite <-app_assoc in Hcs.
  destruct (read_nacked path f _ _ k2 _ _ _ _ Hf Hw1 eq_refl eq_refl Hk2 Hcs) as (p2 & i & H2 & Hg2).
  exists makeNack. cbn [sess_readFile Link_session]. unfold call_link. rewrite decide_True by done.
  rewrite (rounds_more _ _ _ _ _ _ _ _ _ _ _ H1 Hg1 Hd), Hgd. unfold early. cbn [g_seen g_out default from_option].
  rewrite (rounds_done _ _ _ _ _ _ _ _ _ _ H2 Hg2 Hd). eexists. split; [reflexivity|]. done.
Qed.

Lemma versionMapFields_wf m : fields_wf (versionMapFields m) = true.
Proof.
  unfold versionMapFields, fields_wf. induction (map_entries m) as [|[k v] kvs IH]; [done|]. simpl. exact IH.
Qed.

(** The answer to a synchronisation, when the map fits a frame. *)
Lemma sync_ok f k (p : SquidProtocol Gate) a' b' m :
  syncStatusFormat = Ok f -> wellframed (stampSeq k b') m -> seq m = b' -> isResponse m = true ->
  conn p a' b' (stampSeq k b' ++ [zero]) [] ->
  exists p', syncStatus p = (Ok m, p') /\ conn p' (u32 (a' + 1)) (u32 (b' + 1)) [zero] (stampSeq f a').
Proof.
  intros Hf Hw Hs Hr Hc. unfold syncStatus, bind at 1.
  destruct (send_ok _ _ _ _ _ _ _ Hf Hc) as (p1 & -> & Hc1).
  destruct (receive_ok _ _ _ _ _ _ _ Hw Hs Hc1) as (p2 & Hr2 & Hc2). cbn [syncStatus_loop].
  unfold bind. rewrite Hr2, Hr. simpl. by exists p2.
Qed.

(** A map that does not fit makes the datanode throw, and the server waits. *)
Lemma link_sync l : in_step l ->
  (exists m l', sess_syncStatus l = (Done (Ok m), l') /\ isResponse m = true
     /\ fields m = versionMapFields (FileManager.getFileVersionMap (l_disk l))
     /\ l_disk l' = l_disk l /\ in_step l')
  \/ (exists l', sess_syncStatus l = (Hang, l') /\ l_disk l' = l_disk l
       /\ is_ok (responseFileVersionMap (FileManager.getFileVersionMap (l_disk l))) = false).
Proof.
  intros Hl. destruct (step_seqs l Hl) as [Ha Hb].
  destruct (buildFrame_wellframed SYNC_STATUS 0 [] (a l)) as (f & Hf & Hw); [done..|].
  set (vm := FileManager.getFileVersionMap (l_disk l)).
  destruct (receive_ok _ _ _ _ _ _ _ Hw eq_refl (step_dn l _ Hl)) as (p1 & Hp1 & Hc1).
  destruct (responseFileVersionMap vm) as [k|e] eqn:Hk; [left|right].
  - destruct (buildFrame_inv _ _ _ _ _ Hk) as [Hfit _].
    destruct (buildFrame_wellframed RESPONSE FLAG_RESPONSE (versionMapFields vm) (b l)) as (k' & Hk' & Hwk);
      [done|apply versionMapFields_wf|done|done|done|].
    assert (k' = k) as -> by (unfold responseFileVersionMap in Hk; congruence).
    destruct (call_answered syncStatus l f (l_disk l) (stampSeq k (b l))
      (mkMessage RESPONSE FLAG_RESPONSE (b l) 0 (versionMapFields vm)) (u32 (a l + 1)) (u32 (b l + 1)))
      as (l' & Hcall & Hdisk & Hl'); try done; auto with squid.
    + by apply asks_sync.
    + intros pd Hpd. unfold serveRequest, bind at 1.
      destruct (receive_ok _ _ _ _ _ _ _ Hw eq_refl Hpd) as (p2 & -> & Hc2).
      unfold requestDispatcher. cbn [opcode]. unfold bind, responseMap. fold vm.
      destruct (send_ok _ _ _ _ _ _ _ Hk Hc2) as (p3 & -> & Hc3). by exists p3.
    + intros ps Hps. by apply (sync_ok f k ps (a l) (b l)).
    + by eexists _, l'.
  - destruct (asks_sync f Hf _ _ _ (step_srv l [] Hl)) as (r1 & p2 & H1 & Hg1).
    assert (serveRequest (l_disk l) (feed (stampSeq f (a l)) (l_dn l)) = (Throw e, p1)) as Hd.
    { unfold serveRequest, bind at 1. rewrite Hp1. unfold requestDispatcher. cbn [opcode].
      unfold bind, responseMap, send. fold vm. by rewrite Hk. }
    assert (early (gate p1) = []) as He by (by rewrite (gate_of_conn _ _ _ [] _ Hc1)).
    eexists. cbn [sess_syncStatus Link_session]. unfold call_link. rewrite decide_True by done.
    do 4 rewrite (rounds_more _ _ _ _ _ _ _ _ _ _ _ H1 Hg1 Hd), He. cbn [rounds].
    split; [reflexivity|]. done.
Qed.
End refused.

(** ** A link is a datanode *)

Section datanode.
Context {N : Naming}.
Implicit Types l : Link N.

Definition held (d : Disk) (path : string) : option (Z * list byte) :=
  (fun content => (getFileVersion d path, content)) <$> files d !! resolvePath (root d) path.

Definition named (path : string) : Prop := path ∈ nm_paths N.

#[export] Instance named_dec path : Decision (named path).
Proof. unfold named. apply _. Defined.

Lemma named_good path : named path ->
  plain_path path /\ short path = true /\ resolvePath (nm_root N) path <> versionFilePath (nm_root N).
Proof.
  intros Hp. destruct (nm_good N) as [_ Hg]. rewrite Forall_forall in Hg. by apply Hg.
Qed.

Lemma named_distinct path q : named path -> named q -> q <> path ->
  resolvePath (nm_root N) q <> resolvePath (nm_root N) path.
Proof.
  unfold named. intros Hp Hq Hne E. apply Hne. destruct (nm_good N) as [Hnd _].
  apply list_elem_of_lookup in Hp as [i Hi], Hq as [j Hj].
  change (map (resolvePath (nm_root N))) with (fmap (M := list) (resolvePath (nm_root N))) in Hnd.
  assert (i = j) as ->; [|congruence].
  eapply NoDup_lookup; [exact Hnd|..]; rewrite list_lookup_fmap, ?Hi, ?Hj; simpl; [reflexivity|by rewrite E].
Qed.

(** Disks that agree on every file and version but those of [path]. *)
Lemma held_frame d d' path q :
  root d = nm_root N -> root d' = nm_root N -> named path -> named q -> q <> path ->
  (forall r, r <> resolvePath (nm_root N) path -> r <> versionFilePath (nm_root N) -> files d' !! r = files d !! r) ->
  delete path (version_store d') = delete path (version_store d) ->
  held d' q = held d q.
Proof.
  intros Hr Hr' Hp Hq Hne Hf Hv. unfold held. rewrite Hr, Hr', !getFileVersion_store.
  destruct (named_good q Hq) as (_ & _ & Hnv).
  rewrite (Hf _ (named_distinct _ _ Hp Hq Hne) Hnv).
  assert (version_store d' !! q = version_store d !! q) as ->; [|done].
  rewrite <-(lookup_delete_ne (version_store d') path q), <-(lookup_delete_ne (version_store d) path q) by done.
  by rewrite Hv.
Qed.

Lemma version_store_untouched d d' :
  root d' = root d -> files d' !! versionFilePath (root d) = files d !! versionFilePath (root d) ->
  version_store d' = version_store d.
Proof. intros Hr Hf. unfold version_store, versionLines, read_text. by rewrite Hr, Hf. Qed.

Lemma held_removed d path q : root d = nm_root N -> named path -> named q -> q <> path ->
  held (removed d path) q = held d q.
Proof.
  intros Hr Hp Hq Hne. destruct (named_good path Hp) as (_ & _ & Hnv).
  apply (held_frame _ _ path); try done; unfold removed; simpl; rewrite ?Hr.
  - intros r Hr1 _. by rewrite lookup_delete_ne.
  - f_equal. apply version_store_untouched; [done|]. simpl. rewrite Hr. by rewrite lookup_delete_ne.
Qed.

Lemma held_stored d path v data :
  root d = nm_root N -> named path -> in_i32 v -> openable d (resolvePath (root d) path) = true ->
  openable d (versionFilePath (root d)) = true ->
  held (stored d path v data) path = Some (v, data)
  /\ forall q, named q -> q <> path -> held (stored d path v data) q = held d q.
Proof.
  intros Hr Hp Hv Ho Hov. destruct (named_good path Hp) as (Hpl & _ & Hnv).
  destruct (stored_spec d path v data) as (Hf & Hvs & Hrest); [done..|by rewrite Hr|].
  destruct (stored_keeps d path v data) as [Hroot _]. split.
  - unfold held. rewrite Hroot, Hf. simpl. by rewrite getFileVersion_store, Hvs, lookup_insert_eq.
  - intros q Hq Hne. apply (held_frame _ _ path); try done; [by rewrite Hroot| |].
    + intros r. rewrite <-Hr. apply Hrest.
    + by rewrite Hvs, delete_insert_eq.
Qed.

Lemma held_deleted d path :
  root d = nm_root N -> named path -> openable d (versionFilePath (root d)) = true ->
  let d' := (deleteFileAndVersion d path).2 in
  held d' path = None /\ forall q, named q -> q <> path -> held d' q = held d q.
Proof.
  intros Hr Hp Hov d'. destruct (named_good path Hp) as (_ & _ & Hnv).
  destruct (deleteFileAndVersion_keeps d path) as [Hroot _].
  destruct (files d !! resolvePath (root d) path) as [c|] eqn:Hc.
  - assert (forall r, r <> versionFilePath (root d) ->
      files d' !! r = if decide (r = resolvePath (root d) path) then None else files d !! r) as Hfiles.
    { intros r Hrv. unfold d', deleteFileAndVersion, FileManager.deleteFile. rewrite Hc. simpl.
      unfold write_file. simpl. rewrite Hov. simpl. rewrite lookup_insert_ne by done.
      case_decide as E; [subst r; apply lookup_delete_eq|by rewrite lookup_delete_ne]. }
    split.
    + unfold held, d'. rewrite Hroot, Hfiles, decide_True by (done || by rewrite Hr). done.
    + intros q Hq Hne. apply (held_frame _ _ path); try done; [by rewrite <-Hr| |].
      * intros r Hr1 Hr2. rewrite <-Hr in Hr1, Hr2. by rewrite Hfiles, decide_False.
      * unfold d'. rewrite version_store_delete; [|done|by rewrite Hr|by eexists]. by rewrite delete_delete_eq.
  - assert (d' = d) as -> by (unfold d', deleteFileAndVersion, FileManager.deleteFile; by rewrite Hc).
    split; [unfold held; by rewrite Hc|done].
Qed.

Lemma call_out_of_step {A} (fn : M Gate A) l : ~ in_step l -> call_link fn l = (Hang, l).
Proof. intros Hl. unfold call_link. by rewrite decide_False. Qed.

#[export] Instance transferable_dec data : Decision (transferable data).
Proof. unfold transferable. apply _. Defined.

Lemma upload_law create l path v data r l' :
  named path -> in_i32 v -> call_link (uploadData create path v data) l = (r, l') ->
  (forall m, r = Done (Ok m) -> isAck m = true -> held (l_disk l') path = Some (v, data))
  /\ (forall q, named q -> q <> path -> held (l_disk l') q = held (l_disk l) q).
Proof.
  intros Hp Hv Hc. destruct (named_good path Hp) as (_ & Hs & _).
  destruct (decide (in_step l)) as [Hl|Hl].
  2: { rewrite call_out_of_step in Hc by done. by injection Hc as <- <-. }
  pose proof (step_root l Hl) as Hr. pose proof (step_openable l Hl) as Hov.
  destruct (decide (transferable data /\ openable (l_disk l) (resolvePath (root (l_disk l)) path) = true))
    as [[Ht Ho]|Hno].
  - destruct (link_upload l create path v data Hl Hs Hv Ht Ho) as (m & l1 & E & _ & _ & Hd & _).
    rewrite E in Hc. injection Hc as <- <-. rewrite Hd.
    destruct (held_stored (l_disk l) path v data Hr Hp Hv Ho Hov) as [H1 H2]. split; [by intros|done].
  - destruct (link_upload_refused l create path v data Hl Hs Hno) as (m & l1 & E & Hnack & Hd).
    rewrite E in Hc. injection Hc as <- <-. split; [intros m' [= <-]; congruence|].
    intros q Hq Hne. destruct Hd as [->| ->]; [done|]. by apply held_removed.
Qed.
End datanode.

#[export] Program Instance Link_datanode {N} : DataNodeSession (Link N) := {
  dn_path := named (N := N);
  holds l := held (l_disk l) }.
Next Obligation. intros N l path v data r l' Hp Hv Hc. by apply (upload_law true l path v data r l'). Qed.
Next Obligation. intros N l path v data r l' Hp Hv Hc. by apply (upload_law false l path v data r l'). Qed.
Next Obligation.
  intros N l path r l' Hp Hc. destruct (named_good path Hp) as (_ & Hs & _).
  destruct (decide (in_step l)) as [Hl|Hl].
  2: { cbn in Hc. rewrite call_out_of_step in Hc by done. by injection Hc as <- <-. }
  destruct (files (l_disk l) !! resolvePath (root (l_disk l)) path) as [content|] eqn:Hf;
    [destruct (decide (transferable content)) as [Ht|Ht]|].
  1: { destruct (link_read l path content Hl Hs Hf Ht) as (m & l1 & E & _ & Hv & Hd & _).
       rewrite E in Hc. injection Hc as <- <-. rewrite Hd. split; [|done]. intros m' data [= <- <-] _.
       unfold held. rewrite Hf. simpl. by eexists. }
  1,2: destruct (link_read_refused l path Hl Hs) as (m & l1 & E & Hnack & Hd);
    [intros c' Hc'; rewrite Hf in Hc'; by simplify_eq|];
    rewrite E in Hc; injection Hc as <- <-; rewrite Hd; split; [|done]; intros m' data [= <- <-]; congruence.
Qed.
Next Obligation.
  intros N l path r l' Hp Hc. destruct (named_good path Hp) as (_ & Hs & _).
  destruct (decide (in_step l)) as [Hl|Hl].
  2: { cbn in Hc. rewrite call_out_of_step in Hc by done. by injection Hc as <- <-. }
  destruct (link_delete l path Hl Hs) as (m & l1 & E & _ & Hd & _). rewrite E in Hc. injection Hc as <- <-.
  rewrite Hd. destruct (held_deleted (l_disk l) path (step_root l Hl) Hp (step_openable l Hl)). by split.
Qed.
Next Obligation.
  intros N l r l' Hc q _. destruct (decide (in_step l)) as [Hl|Hl].
  2: { cbn in Hc. rewrite call_out_of_step in Hc by done. by injection Hc as _ <-. }
  destruct (link_sync l Hl) as [(m & l1 & E & _ & _ & Hd & _)|(l1 & E & Hd & _)];
    rewrite E in Hc; injection Hc as _ <-; by rewrite Hd.
Qed.
Next Obligation.
  intros N l r l' Hc q _. destruct (decide (in_step l)) as [Hl|Hl].
  2: { cbn in Hc. rewrite call_out_of_step in Hc by done. by injection Hc as _ <-. }
  destruct (link_heartbeat l Hl) as (m & l1 & E & _ & Hd & _). rewrite E in Hc. injection Hc as _ <-. by rewrite Hd.
Qed.

(** ** A server wired to its datanodes *)

Section wired.
Context {S : Type} `{Session S}.

(** When every node is alive and acknowledges, the fan-out reaches all. *)
Lemma fanout_all (req : SO S Message) (P : S -> Prop) (Q : S -> S -> Prop) nodes (st : Server S) :
  NoDup nodes.*2 ->
  (forall s, P s -> sess_isAlive s = true
     /\ exists m s', req s = (Done (Ok m), s') /\ isAck m = true /\ Q s s') ->
  (forall n, n ∈ nodes -> exists s, sessions st !! n.2 = Some s /\ P s) ->
  exists st', fanout req nodes st = (Done (Ok (map (fun n => (n, true)) nodes)), st')
    /\ only_sessions st st'
    /\ (forall n, n ∈ nodes -> exists s s', sessions st !! n.2 = Some s /\ sessions st' !! n.2 = Some s' /\ Q s s')
    /\ (forall i, i ∉ nodes.*2 -> sessions st' !! i = sessions st !! i).
Proof.
  intros Hnd Hreq. revert st. induction nodes as [|[name i] nodes IH]; intros st Hall.
  { exists st. split; [done|]. split; [apply only_sessions_refl|]. split; [by intros n ?%elem_of_nil|done]. }
  csimpl in Hnd. apply NoDup_cons in Hnd as [Hi Hnd].
  destruct (Hall (name, i)) as (s & Hs & HP); [by left|]. simpl in Hs.
  destruct (Hreq s HP) as (Hal & m & s' & Hr & Hack & HQ).
  set (st1 := set_sessions (<[i := s']> (sessions st)) st).
  assert (forall n, n ∈ nodes -> n.2 <> i) as Hne
    by (intros n Hn E; apply Hi, list_elem_of_fmap; exists n; by rewrite E).
  destruct (IH Hnd st1) as (st' & Hf & Hos & Hin & Hout).
  { intros n Hn. destruct (Hall n) as (t & Ht & HPt); [by right|]. exists t. split; [|done].
    simpl. rewrite lookup_insert_ne; [done|]. intros E. by apply (Hne n Hn). }
  exists st'. cbn [fanout map]. rewrite sbind_gets. unfold session_alive. rewrite Hs, Hal.
  assert (on_session i req st = (Done (Ok m), st1)) as Hon by (unfold on_session; by rewrite Hs, Hr).
  rewrite (sbind_done _ _ _ _ _ Hon), (sbind_done _ _ _ _ _ Hf), Hack. split; [done|].
  split; [eapply only_sessions_trans; [apply only_sessions_set|exact Hos]|]. split.
  - intros n [->|Hn]%elem_of_cons.
    + exists s, s'. simpl. rewrite Hout by done. split_and!; [done|apply lookup_insert_eq|done].
    + destruct (Hin n Hn) as (t & t' & Ht & Ht' & HQt). exists t, t'. simpl in Ht.
      rewrite lookup_insert_ne in Ht by (intros E; by apply (Hne n Hn)). done.
  - intros j [Hj Hjn]%not_elem_of_cons. rewrite Hout by done. simpl. by rewrite lookup_insert_ne.
Qed.

Lemma acked_all (nodes : list (string * sid)) : ackedNodes (map (fun n => (n, true)) nodes) = nodes.
Proof. induction nodes as [|n nodes IH]; [done|]. unfold ackedNodes in *. csimpl. by f_equal. Qed.

(** An update that every holder takes: [P] is what is known of a holder, [Q]
    what the request makes of it. *)
Lemma update_all path seen origin data (P : S -> Prop) (Q : S -> S -> Prop) (st : Server S) :
  let nv := nextVersion path seen st in
  distinct_sessions (holdersOf path st) ->
  (forall s, P s -> sess_isAlive s = true
     /\ exists m s', sess_updateFile path nv data s = (Done (Ok m), s') /\ isAck m = true /\ Q s s') ->
  (forall n, n ∈ map_entries (holdersOf path st) -> exists s, sessions st !! n.2 = Some s /\ P s) ->
  exists st1 st', propagateUpdateFile path seen origin data st = (Done (Ok nv), st')
    /\ persistedVersionMap st' = <[path := nv]> (persistedVersionMap st)
    /\ dataNodeReplicationMap st' = dataNodeReplicationMap st
    /\ (forall n, n ∈ map_entries (holdersOf path st) ->
          exists s s', sessions st !! n.2 = Some s /\ sessions st' !! n.2 = Some s' /\ Q s s')
    /\ (forall i, i ∉ map_values (holdersOf path st) -> sessions st' !! i = sessions st !! i)
    /\ only_sessions st st1
    /\ posted st' = posted st ++ deltas 0 path nv (map_keys (holdersOf path st)) st1
         ++ pushes (map_entries (clientEndpointMap st)) origin (PushUpdate path nv data)
    /\ fileLockMap st' = fileLockMap st.
Proof.
  intros nv Hnd Hreq Hall.
  destruct (fanout_all _ P Q (map_entries (holdersOf path st)) st Hnd Hreq Hall) as (st1 & Hf & Hos & Hin & Hout).
  assert (exists st', propagateUpdateFile path seen origin data st = (Done (Ok nv), st')
            /\ fileLockMap st' = fileLockMap st1) as (st' & Hu & Hlocks).
  { unfold propagateUpdateFile. rewrite !sbind_gets. fold (nextVersion path seen st). fold nv.
    rewrite (sbind_done _ _ _ _ _ Hf), acked_all. cbv zeta. rewrite sbind_gets.
    destruct (Z.ltb_spec (Z.of_nat (length (map_entries (holdersOf path st))))
      (Z.min (quorum st1) (Z.of_nat (length (map_entries (holdersOf path st)))))) as [Hlt|_]; [lia|].
    unfold setVersionOnDisk, persistState. rewrite !sbind_modify. rewrite sbind_gets.
    rewrite (sbind_done _ _ _ _ _ (sendDelta_spec _ _ _ _ _)).
    rewrite (sbind_done _ _ _ _ _ (push_others_spec _ _ _ _)). eexists. split; reflexivity. }
  exists st1, st'. split; [done|]. destruct (update_inv _ _ _ _ _ _ _ Hu) as (answers & st1' & Hf' & Hres).
  fold nv in Hf'. rewrite Hf in Hf'. injection Hf' as <- <-. rewrite acked_all, length_map_entries in Hres.
  destruct (Z.ltb_spec (Z.of_nat (size (holdersOf path st)))
    (Z.min (quorum st1) (Z.of_nat (size (holdersOf path st))))) as [Hlt|_]; [lia|].
  destruct Hres as (_ & Hss & Hv & Hrep & Hpost). unfold only_sessions in Hos.
  assert (holdersOf path st1 = holdersOf path st) as Hh by (unfold holdersOf; by rewrite Hos).
  rewrite Hss, Hv, Hrep, Hpost, Hh, Hlocks. split_and!; try done; by rewrite Hos.
Qed.

(** A read that every holder could answer; it can do so again. *)
Lemma read_all path v data (P : S -> Prop) (st : Server S) :
  (forall s, P s -> sess_isAlive s = true
     /\ exists m s', sess_readFile path s = (Done (Ok (m, data)), s') /\ isAck m = true
       /\ i32 (getUint32 m FILE_VERSION 0) = v /\ P s') ->
  holdersOf path st <> ∅ -> persistedVersionMap st !! path = Some v ->
  (forall n, n ∈ map_entries (holdersOf path st) -> exists s, sessions st !! n.2 = Some s /\ P s) ->
  exists st', getFileFromDataNode path st = (Done (Ok (true, data)), st') /\ only_sessions st st'
    /\ (forall i, i ∉ map_values (holdersOf path st) -> sessions st' !! i = sessions st !! i)
    /\ (forall n, n ∈ map_entries (holdersOf path st) -> exists s, sessions st' !! n.2 = Some s /\ P s).
Proof.
  intros Hreq Hne Hv Hall. unfold getFileFromDataNode.
  destruct (dataNodeReplicationMap st !! path) as [hs|] eqn:Hr;
    [|destruct Hne; unfold holdersOf; by rewrite Hr].
  assert (exists h rest, liveHolders path st = h :: rest) as (h & rest & Hlive).
  { destruct (map_entries (holdersOf path st)) as [|[n i] es] eqn:E.
    { destruct Hne. apply map_empty. intros k. destruct (holdersOf path st !! k) as [j|] eqn:Ek; [|done].
      apply elem_of_map_entries in Ek. rewrite E in Ek. by apply elem_of_nil in Ek. }
    unfold liveHolders, map_values. rewrite E. csimpl. unfold session_alive at 1.
    destruct (Hall (n, i)) as (s & Hs & HP); [by left|]. simpl in Hs.
    rewrite Hs, (proj1 (Hreq s HP)). by eexists _, _. }
  rewrite Hlive, Hv. cbn [default from_option tryHolders].
  assert (h ∈ liveHolders path st) as Hh by (rewrite Hlive; by left).
  apply liveHolders_holder in Hh as [name Hn]. destruct (Hall _ Hn) as (s & Hs & HP). simpl in Hs.
  destruct (Hreq s HP) as (_ & m & s' & Hrd & Hack & Hver & HP').
  exists (set_sessions (<[h := s']> (sessions st)) st).
  split; [|split; [apply only_sessions_set|split]].
  - unfold sbind, on_session. rewrite Hs, Hrd. cbn [fst snd]. rewrite Hack, Hver. cbn [negb].
    change (Datatypes.id v) with v. rewrite Z.leb_refl. by destruct (v <? 0).
  - intros i Hi. simpl. rewrite lookup_insert_ne; [done|]. intros ->. apply Hi.
    apply list_elem_of_fmap. by exists (name, i).
  - intros n' Hn'. simpl. destruct (decide (n'.2 = h)) as [E|Hne']; [rewrite E, lookup_insert_eq; by exists s'|].
    rewrite lookup_insert_ne by done. by apply Hall.
Qed.
End wired.

Section wired_update.
Context {N : Naming}.
Implicit Types (l : Link N) (st : Server (Link N)).

(** A datanode that is in step and can write the file. *)
Definition ready (path : string) l : Prop :=
  in_step l /\ openable (l_disk l) (resolvePath (nm_root N) path) = true.

#[export] Instance ready_dec path l : Decision (ready path l).
Proof. unfold ready. apply _. Defined.

(** What the update leaves on a holder: the data under its version, every
    other file as it was, and the connection in step. *)
Definition updated (path : string) (v : Z) (data : list byte) l l' : Prop :=
  in_step l' /\ held (l_disk l') path = Some (v, data)
  /\ forall q, named (N := N) q -> q <> path -> held (l_disk l') q = held (l_disk l) q.

Lemma step_alive l : in_step l -> sess_isAlive l = true.
Proof.
  intros (Hal & _). simpl. rewrite !andb_true_iff in Hal. destruct Hal as [[[Hu Hs] _] _]. by rewrite Hu, Hs.
Qed.

Lemma ready_updates path v data l :
  named (N := N) path -> in_i32 v -> transferable data -> ready path l ->
  sess_isAlive l = true
  /\ exists m l', sess_updateFile path v data l = (Done (Ok m), l') /\ isAck m = true /\ updated path v data l l'.
Proof.
  intros Hp Hv Ht [Hl Ho]. pose proof (step_root l Hl) as Hr. rewrite <-Hr in Ho.
  destruct (named_good path Hp) as (_ & Hs & _). split; [by apply step_alive|].
  destruct (link_upload l false path v data Hl Hs Hv Ht Ho) as (m & l' & Hc & Hack & _ & Hd & Hl').
  exists m, l'. split; [exact Hc|]. split; [done|]. unfold updated. rewrite Hd.
  destruct (held_stored (l_disk l) path v data Hr Hp Hv Ho (step_openable l Hl)). done.
Qed.

Lemma wired_read path v data l :
  named (N := N) path -> in_step l -> held (l_disk l) path = Some (v, data) -> transferable data ->
  exists m l', sess_readFile path l = (Done (Ok (m, data)), l') /\ isAck m = true
    /\ i32 (getUint32 m FILE_VERSION 0) = v /\ in_step l' /\ held (l_disk l') path = Some (v, data).
Proof.
  intros Hp Hl Hh Ht. pose proof Hh as Hheld. destruct (named_good path Hp) as (_ & Hs & _). unfold held in Hh.
  destruct (files _ !! _) as [c|] eqn:Hc; [|done]. injection Hh as Hv ->.
  destruct (link_read l path data Hl Hs Hc Ht) as (m & l' & Hr & Ha & Hver & Hd & Hl'). exists m, l'.
  rewrite Hver, Hd. done.
Qed.
End wired_update.

(** An update end to end, down to the bytes of the connections and the
    files of the datanodes.  When every holder is in step and can open the
    file, the update is committed with the next version, every holder has the
    data on its disk under that version with its other files untouched, all
    connections are in step again, and, if there is a holder at all, a read
    through the server returns exactly the data. *)
Theorem wired_update_commits {N} (st : Server (Link N)) path seen origin data :
  named (N := N) path -> Z.of_nat (length data) <= FILETRANSFER_MAX_SIZE ->
  distinct_sessions (holdersOf path st) ->
  (forall n, n ∈ map_entries (holdersOf path st) ->
     exists l, sessions st !! n.2 = Some l /\ ready path l) ->
  exists st', propagateUpdateFile path seen origin data st = (Done (Ok (nextVersion path seen st)), st')
    /\ persistedVersionMap st' = <[path := nextVersion path seen st]> (persistedVersionMap st)
    /\ (forall n, n ∈ map_entries (holdersOf path st) ->
          exists l l', sessions st !! n.2 = Some l /\ sessions st' !! n.2 = Some l'
            /\ updated path (nextVersion path seen st) data l l')
    /\ (holdersOf path st <> ∅ -> (getFileFromDataNode path st').1 = Done (Ok (true, data))).
Proof.
  intros Hp Ht Hnd Hready. set (nv := nextVersion path seen st).
  destruct (update_all path seen origin data (ready path) (updated path nv data) st Hnd
    (fun l => ready_updates path nv data l Hp (i32_range _) Ht) Hready)
    as (_ & st' & Hu & Hv & Hrep & Hin & _).
  exists st'. split_and!; [done..|]. intros Hne.
  assert (holdersOf path st' = holdersOf path st) as Hh by (unfold holdersOf; by rewrite Hrep).
  destruct (read_all path nv data (fun l => in_step l /\ held (l_disk l) path = Some (nv, data)) st')
    as (st2 & -> & _); [|by rewrite Hh|rewrite Hv; apply lookup_insert_eq| |done].
  - intros l [Hl Hheld]. split; [by apply step_alive|]. by apply wired_read.
  - rewrite Hh. intros n Hn. destruct (Hin n Hn) as (l & l' & _ & Hl' & Hstep & Hheld & _). by exists l'.
Qed.

(** Two datanodes behind their protocols, and a server that knows them. *)
Definition demo_wired : Server (Link demo_names) :=
  let both := {["dn1" := 1%positive; "dn2" := 2%positive]} in
  mkServer 3 0 both {["bob" := 11%positive]} ∅ {["a.txt" := both]} {["a.txt" := 4]} 0 None demo_disk
    {[1%positive := demo_link; 2%positive := demo_link]} [].

Lemma wired_update_commits_witness :
  exists st', propagateUpdateFile "a.txt" 0 "bob" (bytes_of_string "new") demo_wired = (Done (Ok 5), st')
    /\ persistedVersionMap st' = <["a.txt" := 5]> (persistedVersionMap demo_wired)
    /\ (forall n, n ∈ map_entries (holdersOf "a.txt" demo_wired) ->
          exists l l', sessions demo_wired !! n.2 = Some l /\ sessions st' !! n.2 = Some l'
            /\ updated "a.txt" 5 (bytes_of_string "new") l l')
    /\ (holdersOf "a.txt" demo_wired <> ∅ ->
          (getFileFromDataNode "a.txt" st').1 = Done (Ok (true, bytes_of_string "new"))).
Proof.
  apply (wired_update_commits demo_wired "a.txt" 0 "bob" (bytes_of_string "new")).
  - apply (bool_decide_unpack _). vm_compute. exact I.
  - vm_compute. discriminate.
  - apply (bool_decide_unpack _). vm_compute. exact I.
  - intros n Hn. exists demo_link. split; [|apply (bool_decide_unpack _); vm_compute; exact I].
    change (map_entries (holdersOf "a.txt" demo_wired)) with [("dn1", 1%positive); ("dn2", 2%positive)] in Hn.
    apply elem_of_cons in Hn as [->|[->|[]%elem_of_nil]%elem_of_cons]; reflexivity.
Defined.
