(* ===== verification/Watcher.v ===== *)
(** * The standby server

    Models [server/src/replica_watcher.{hpp,cpp}]: the copy of the primary's
    maps that a standby keeps from STATE_SNAP and STATE_DELTA frames, epoch
    fencing, and the decision to promote itself.  What the network does in one
    round of [watchLoop] (which servers answer a connection attempt, the frames
    that arrive, how the receive loop ends) is the record [Round]. *)

From S2P Require Import Prelude Text Wire FileManager StateStore ClusterConfig.

Inductive Role : Set := STANDBY | ACTIVE.

#[export] Instance Role_eq_dec : EqDecision Role.
Proof. solve_decision. Defined.

Record Watcher : Type := mkWatcher {
  config : ClusterConfig;
  myName : string;
  versionMap : gmap string Z;
  repMap : gmap string (gset string);
  observedEpoch : Z;
  role : Role;
  wdisk : Disk }.

(** The constructor resumes from the persisted epoch. *)
Definition newWatcher (cfg : ClusterConfig) (me : string) (d : Disk) : Watcher :=
  mkWatcher cfg me ∅ ∅ (EpochStore_load d) STANDBY d.

Definition set_maps (vm : gmap string Z) (rm : gmap string (gset string)) (w : Watcher) : Watcher :=
  mkWatcher (config w) (myName w) vm rm (observedEpoch w) (role w) (wdisk w).
(** [if (epoch > observedEpoch_) observedEpoch_ = epoch]. *)
Definition observe (epoch : Z) (w : Watcher) : Watcher :=
  mkWatcher (config w) (myName w) (versionMap w) (repMap w)
    (if (observedEpoch w <? epoch) then epoch else observedEpoch w) (role w) (wdisk w).

(** ** Snapshots and deltas *)

Definition snapEntries (fs : list BinaryField) : list (string * Z * gset string) :=
  omap (fun f => if decide (id f = SNAP_ENTRY) then parseSnapEntry (value f) else None) fs.

Definition applySnap (msg : Message) (w : Watcher) : Watcher :=
  let epoch := getUint32 msg EPOCH 0 in
  let entries := snapEntries (fields msg) in
  observe epoch
    (set_maps (store_all (map (fun e => (e.1.1, e.1.2)) entries) ∅)
              (store_all (map (fun e => (e.1.1, e.2)) entries) ∅) w).

(** The first non-empty DELTA_OP field, 0 without one. *)
Definition deltaOp (fs : list BinaryField) : Z :=
  match List.find (fun f => bool_decide (id f = DELTA_OP /\ value f <> [])) fs with
  | Some f => at_ (value f) 0
  | None => 0
  end.

Definition deltaNodes (fs : list BinaryField) : list string :=
  omap (fun f => if decide (id f = DATANODE_NAME) then Some (string_of_bytes (value f)) else None) fs.

Definition applyDelta (msg : Message) (w : Watcher) : Watcher :=
  let epoch := getUint32 msg EPOCH 0 in
  let op := deltaOp (fields msg) in
  let path := getString msg FILE_PATH "" in
  let version := i32 (getUint32 msg FILE_VERSION 0) in
  let w := observe epoch w in
  if (op =? 1) then set_maps (delete path (versionMap w)) (delete path (repMap w)) w
  else set_maps (<[path := version]> (versionMap w))
                (<[path := list_to_set (deltaNodes (fields msg))]> (repMap w)) w.

(** ** The receive loop *)

(** What [receiveLoop] does after a frame: go on (with a new deadline or not),
    or return whether the primary timed out. *)
Inductive Next : Set := GoOn (newDeadline : bool) | Return (timedOut : bool).

Definition handleFrame (msg : Message) (w : Watcher) : Next * Watcher :=
  let incoming := getUint32 msg EPOCH 0 in
  if (incoming <? observedEpoch w) then (GoOn false, w)
  else match opcode msg with
       | STATE_SNAP => (GoOn true, applySnap msg w)
       | STATE_DELTA => (GoOn false, applyDelta msg w)
       | LEADER_HB => (GoOn true, observe incoming w)
       | CLOSE => (Return false, w)
       | _ => (GoOn false, w)
       end.

(** [receiveLoop] over the frames that arrive; [ending] is what it returns when
    they stop: true for a missed deadline or a socket error, false when the
    primary closes the connection. *)
Fixpoint receiveLoop (frames : list Message) (ending : bool) (w : Watcher) : bool * Watcher :=
  match frames with
  | [] => (ending, w)
  | msg :: frames =>
      match handleFrame msg w with
      | (GoOn _, w) => receiveLoop frames ending w
      | (Return timedOut, w) => (timedOut, w)
      end
  end.

(** ** Promotion *)

(** [allHigherPriorityDown]: [up s k] is whether the connection attempt number
    [k] to server [s] succeeds. *)
Definition probe (attempts : Z) (up : string -> nat -> bool) (s : ServerEntry) : bool :=
  existsb (up (name s)) (List.seq 0 (Z.to_nat attempts)).

Definition allHigherPriorityDown (up : string -> nat -> bool) (w : Watcher) : bool :=
  forallb (fun s => negb (probe (promotion_probe_attempts (config w)) up s))
          (higherPriorityThan (config w) (myName w)).

(** The steps of [promote], in their order: the epoch is raised under the lock,
    [epochStore_.save] runs its file operations, the role changes and the
    callback gets the epoch.  ([onPromote] is in [Startup].) *)
Inductive PromoteStep : Type :=
| BumpEpoch (newEpoch : Z)
| SaveEpoch (op : FsOp)
| BecomeActive
| CallOnPromote (newEpoch : Z).

Definition promoteSteps (w : Watcher) : list PromoteStep :=
  let newEpoch := u32 (observedEpoch w + 1) in
  BumpEpoch newEpoch
  :: map SaveEpoch (EpochStore_save (wdisk w) newEpoch)
  ++ [BecomeActive; CallOnPromote newEpoch].

Definition promoteStep (w : Watcher) (s : PromoteStep) : Watcher :=
  match s with
  | BumpEpoch e => mkWatcher (config w) (myName w) (versionMap w) (repMap w) e (role w) (wdisk w)
  | SaveEpoch op =>
      mkWatcher (config w) (myName w) (versionMap w) (repMap w) (observedEpoch w) (role w) (applyFs (wdisk w) op)
  | BecomeActive => mkWatcher (config w) (myName w) (versionMap w) (repMap w) (observedEpoch w) ACTIVE (wdisk w)
  | CallOnPromote _ => w
  end.

Definition promoteRun (steps : list PromoteStep) (w : Watcher) : Watcher := fold_left promoteStep steps w.

Definition promote (w : Watcher) : Watcher := promoteRun (promoteSteps w) w.

(** The file operations among some steps. *)
Definition promoteOps (steps : list PromoteStep) : list FsOp :=
  omap (fun s => match s with SaveEpoch op => Some op | _ => None end) steps.

Record Round : Type := mkRound {
  firstUp : string -> bool;
  connected : bool;
  handshaken : bool;
  frames : list Message;
  ending : bool;
  probed : string -> nat -> bool }.

(** The first server before us that accepts a connection. *)
Definition followTarget (r : Round) (w : Watcher) : option ServerEntry :=
  List.find (fun s => firstUp r (name s)) (higherPriorityThan (config w) (myName w)).

(** One turn of [watchLoop]. *)
Definition watchStep (r : Round) (w : Watcher) : Watcher :=
  if decide (role w = ACTIVE) then w
  else match followTarget r w with
       | None => if allHigherPriorityDown (probed r) w then promote w else w
       | Some _ =>
           if negb (connected r && handshaken r) then w
           else
             let '(timedOut, w) := receiveLoop (frames r) (ending r) w in
             if timedOut && allHigherPriorityDown (probed r) w then promote w else w
       end.

(** ** A standby is a mirror of the primary *)

(** The primary's maps, and what a commit does to them. *)
Inductive Commit : Type :=
| CommitWrite (path : string) (version : Z) (holders : list string)
| CommitDelete (path : string).

Definition applyCommit (st : gmap string Z * gmap string (gset string)) (c : Commit) :=
  match c with
  | CommitWrite path v holders =>
      (<[path := v]> st.1, <[path := (list_to_set holders : gset string)]> st.2)
  | CommitDelete path => (delete path st.1, delete path st.2)
  end.

(** The frames a primary of epoch [ep] sends: the fields of [sendStateSnap] and
    of [sendDelta(0, ...)] and [sendDelta(1, path, 0, {})]. *)
Definition snapMessage (sq : Z) (vm : gmap string Z) (rm : gmap string (gset string)) (ep : Z) : Message :=
  mkMessage STATE_SNAP 0 sq 0 (stateSnapFields vm rm ep).
Definition deltaMessage (sq ep : Z) (c : Commit) : Message :=
  mkMessage STATE_DELTA 0 sq 0
    match c with
    | CommitWrite path v holders => stateDeltaFields 0 path v holders ep
    | CommitDelete path => stateDeltaFields 1 path 0 [] ep
    end.

Lemma getUint32_head i v op fl sq plen fs def :
  getUint32 (mkMessage op fl sq plen (fieldUint32 i v :: fs)) i def = u32 v.
Proof. apply getUint32_field. simpl. by rewrite bool_decide_eq_true_2. Qed.

Lemma deltaNodes_names names : deltaNodes (map (fieldString DATANODE_NAME) names) = names.
Proof.
  induction names as [|n names IH]; [done|].
  change (deltaNodes (map (fieldString DATANODE_NAME) (n :: names)))
    with (string_of_bytes (bytes_of_string n) :: deltaNodes (map (fieldString DATANODE_NAME) names)).
  by rewrite IH, string_of_bytes_of_string.
Qed.

Lemma observe_same ep w : ep <= observedEpoch w -> observe ep w = w.
Proof.
  intros Hle. unfold observe. destruct (Z.ltb_spec (observedEpoch w) ep); [lia|]. by destruct w.
Qed.

Lemma observe_maps ep w :
  versionMap (observe ep w) = versionMap w /\ repMap (observe ep w) = repMap w.
Proof. done. Qed.

(** A delta does to the copy what the commit did to the original. *)
Lemma handle_delta sq ep c w :
  in_u32 ep -> observedEpoch w = ep ->
  (forall path v hs, c = CommitWrite path v hs -> in_i32 v) ->
  handleFrame (deltaMessage sq ep c) w =
    (GoOn false, set_maps (applyCommit (versionMap w, repMap w) c).1
                          (applyCommit (versionMap w, repMap w) c).2 w).
Proof.
  intros Hep Hw Hv. unfold handleFrame.
  assert (getUint32 (deltaMessage sq ep c) EPOCH 0 = ep) as He.
  { unfold deltaMessage. destruct c; unfold stateDeltaFields; cbn [app];
      rewrite getUint32_head; by apply u32_small. }
  rewrite He, Hw, Z.ltb_irrefl. unfold applyDelta. rewrite He, (observe_same ep w) by lia.
  destruct c as [path v hs|path]; unfold deltaMessage; cbn [opcode fields].
  - change (deltaOp _ =? 1) with false. cbv iota.
    rewrite (getString_field _ _ path) by done.
    rewrite (getUint32_field _ _ (u32 v)) by done. rewrite i32_of_u32, i32_u32 by (by eapply Hv).
    change (deltaNodes (stateDeltaFields 0 path v hs ep)) with (deltaNodes (map (fieldString DATANODE_NAME) hs)).
    by rewrite deltaNodes_names.
  - change (deltaOp _ =? 1) with true. cbv iota. by rewrite (getString_field _ _ path) by done.
Qed.

(** The entries of a snapshot, read back. *)
Definition snap_ok (vm : gmap string Z) (rm : gmap string (gset string)) : Prop :=
  map_Forall (fun path v => path <> "" /\ no_space (bytes_of_string path) /\ in_i32 v) vm
  /\ map_Forall (fun _ dns => set_Forall word_ok dns) rm.

Lemma snapEntries_back vm rm ep :
  snap_ok vm rm ->
  snapEntries (stateSnapFields vm rm ep)
  = map (fun kv => (kv.1, kv.2, default ∅ (rm !! kv.1))) (map_entries vm).
Proof.
  intros [Hvm Hrm]. unfold snapEntries, stateSnapFields. cbn [omap list_omap].
  rewrite decide_False by done.
  assert (Forall (fun kv => (kv.1 <> "" /\ no_space (bytes_of_string kv.1)) /\ in_i32 kv.2) (map_entries vm)) as H.
  { apply Forall_forall. intros [k v] Hk%elem_of_map_entries. simpl. destruct (Hvm _ _ Hk) as (? & ? & ?). auto. }
  induction H as [|[path v] kvs [[Hne Hsp] Hv] _ IH]; [done|]. csimpl in *.
  rewrite parse_snapEntry by (done || (intros dns; apply Hrm)). by rewrite IH.
Qed.

(** The replication map as far as the snapshot carries it. *)
Definition snapRep (vm : gmap string Z) (rm : gmap string (gset string)) : gmap string (gset string) :=
  map_imap (fun path _ => Some (default ∅ (rm !! path))) vm.

Lemma store_entries {V W} (m : gmap string V) (f : string -> V -> W) :
  store_all (map (fun kv => (kv.1, f kv.1 kv.2)) (map_entries m)) ∅
  = map_imap (fun k v => Some (f k v)) m.
Proof.
  apply map_eq. intros k. rewrite map_lookup_imap. destruct (m !! k) as [v|] eqn:Hk; simpl.
  - apply lookup_store_all.
    + rewrite <-list_fmap_compose. apply NoDup_map_keys.
    + apply list_elem_of_In, List.in_map_iff. exists (k, v). split; [done|].
      by apply list_elem_of_In, elem_of_map_entries.
  - rewrite lookup_store_all_ne; [apply lookup_empty|].
    intros ([k' w] & -> & Hin)%list_elem_of_fmap.
    apply list_elem_of_In, List.in_map_iff in Hin as ([k2 v2] & [= -> <-] & Hin). csimpl in *.
    apply list_elem_of_In, elem_of_map_entries in Hin. simpl in Hk. congruence.
Qed.

Lemma handle_snap sq ep vm rm w :
  snap_ok vm rm -> in_u32 ep -> observedEpoch w <= ep ->
  handleFrame (snapMessage sq vm rm ep) w = (GoOn true, observe ep (set_maps vm (snapRep vm rm) w)).
Proof.
  intros Hok Hep Hw. unfold handleFrame.
  assert (getUint32 (snapMessage sq vm rm ep) EPOCH 0 = ep) as He.
  { unfold snapMessage, stateSnapFields. rewrite getUint32_head. by apply u32_small. }
  rewrite He. destruct (Z.ltb_spec ep (observedEpoch w)); [lia|].
  cbn [opcode snapMessage]. unfold applySnap. rewrite He. cbn [fields snapMessage].
  rewrite snapEntries_back, !map_map by done. do 3 f_equal.
  - cbn [fst snd]. rewrite (store_entries vm (fun _ v => v)).
    apply map_eq. intros k. rewrite map_lookup_imap. by destruct (vm !! k).
  - cbn [fst snd]. apply (store_entries vm (fun path _ => default ∅ (rm !! path))).
Qed.

Definition commit_ok (c : Commit) : Prop :=
  match c with CommitWrite _ v _ => in_i32 v | CommitDelete _ => True end.

Lemma set_maps_twice vm rm vm' rm' w : set_maps vm rm (set_maps vm' rm' w) = set_maps vm rm w.
Proof. done. Qed.

Lemma receive_deltas ep ending sqs commits w :
  in_u32 ep -> observedEpoch w = ep -> Forall commit_ok commits -> length sqs = length commits ->
  receiveLoop (zip_with (fun sq c => deltaMessage sq ep c) sqs commits) ending w =
    (ending, let st := fold_left applyCommit commits (versionMap w, repMap w) in
             set_maps st.1 st.2 w).
Proof.
  intros Hep Hw Hok. revert sqs w Hw. induction Hok as [|c commits Hc _ IH]; intros sqs w Hw Hlen.
  { destruct sqs; [|done]. simpl. by destruct w. }
  destruct sqs as [|sq sqs]; [done|]. cbn [zip_with receiveLoop fold_left].
  rewrite handle_delta by (done || (intros path v hs ->; done)).
  rewrite IH by (done || (simpl in Hlen; lia)). cbn [versionMap repMap set_maps].
  by rewrite <-surjective_pairing.
Qed.

(** A standby mirrors the primary: after the snapshot of the primary's maps
    and the deltas of the commits that follow, received in order from a leader
    that is not stale, the standby's version map is the primary's and its
    replication map is the primary's as far as the snapshot carried it; its
    observed epoch is the leader's. *)
Theorem standby_mirrors_primary w vm rm ep sq sqs commits ending :
  snap_ok vm rm -> in_u32 ep -> observedEpoch w <= ep -> Forall commit_ok commits ->
  length sqs = length commits ->
  exists w', receiveLoop (snapMessage sq vm rm ep
                          :: zip_with (fun sq c => deltaMessage sq ep c) sqs commits) ending w
             = (ending, w')
    /\ (versionMap w', repMap w') = fold_left applyCommit commits (vm, snapRep vm rm)
    /\ observedEpoch w' = ep.
Proof.
  intros Hok Hep Hw Hc Hlen. cbn [receiveLoop]. rewrite handle_snap by done.
  assert (observedEpoch (observe ep (set_maps vm (snapRep vm rm) w)) = ep) as He.
  { simpl. destruct (Z.ltb_spec (observedEpoch w) ep); lia. }
  rewrite receive_deltas by done. eexists. split; [reflexivity|]. cbn [versionMap repMap observe set_maps].
  split; [by rewrite <-surjective_pairing|exact He].
Qed.

Definition demo_watcher : Watcher := newWatcher demo_config "server2" demo_disk.
Definition demo_snap_vm : gmap string Z := {["a.txt" := 5; "b.txt" := 0]}.
Definition demo_snap_rm : gmap string (gset string) := {["a.txt" := {["dn1"; "dn2"]}]}.
Definition demo_commits : list Commit :=
  [CommitWrite "a.txt" 6 ["dn1"; "dn2"]; CommitDelete "b.txt"; CommitWrite "c.txt" 0 ["dn3"]].

Lemma standby_mirrors_primary_witness :
  exists w', receiveLoop (snapMessage 0 demo_snap_vm demo_snap_rm 2
                          :: zip_with (fun sq c => deltaMessage sq 2 c) [1; 2; 3] demo_commits) false demo_watcher
             = (false, w')
    /\ (versionMap w', repMap w')
       = fold_left applyCommit demo_commits (demo_snap_vm, snapRep demo_snap_vm demo_snap_rm)
    /\ observedEpoch w' = 2.
Proof.
  apply (standby_mirrors_primary demo_watcher demo_snap_vm demo_snap_rm 2 0 [1; 2; 3] demo_commits false).
  - split.
    + unfold demo_snap_vm.
      intros k v [[<- <-]|[_ [<- <-]%lookup_singleton_Some]]%lookup_insert_Some;
        (split; [done|split; [apply (bool_decide_unpack _); reflexivity|unfold in_i32; lia]]).
    + unfold demo_snap_rm. intros k v [<- <-]%lookup_singleton_Some.
      apply (bool_decide_unpack _). vm_compute. exact I.
  - unfold in_u32. lia.
  - vm_compute. discriminate.
  - repeat constructor; unfold in_i32; lia.
  - reflexivity.
Defined.

(** The fields of a delta fit their frame. *)
Lemma fits_map_names names :
  Forall (fun n => short n = true) names ->
  forallb field_fits (map (fieldString DATANODE_NAME) names) = true
  /\ fields_wf (map (fieldString DATANODE_NAME) names) = true.
Proof.
  intros H. induction H as [|n names Hn _ [IH1 IH2]]; [done|]. split.
  - change (short n && forallb field_fits (map (fieldString DATANODE_NAME) names) = true). by rewrite Hn, IH1.
  - exact IH2.
Qed.

(** What [sendStateDelta] puts on the wire is decoded as the message the
    standby applies, for up to 251 holders; the 255-field limit of a frame
    makes [sendStateSnap] throw for more than 254 files. *)
Theorem standby_frames sq ep (vm : gmap string Z) rm path v names :
  in_u32 sq -> short path = true -> Forall (fun n => short n = true) names -> (length names <= 251)%nat ->
  decodes_to (stateDeltaFormat 0 path v names ep) sq (deltaMessage sq ep (CommitWrite path v names))
  /\ decodes_to (stateDeltaFormat 1 path 0 [] ep) sq (deltaMessage sq ep (CommitDelete path))
  /\ ((254 < size vm)%nat -> stateSnapFormat vm rm ep = Throw "Too many fields for a single frame").
Proof.
  intros Hsq Hp Hn Hlen. destruct (fits_map_names names Hn) as [Hf Hw]. split_and!.
  - apply buildFrame_decodes; try done. unfold frame_fits, stateDeltaFields.
    rewrite forallb_app, Hf, andb_true_r.
    change (forallb field_fits _) with (short path && true). rewrite Hp, andb_true_r.
    apply Z.leb_le. rewrite length_app, length_map. simpl. lia.
  - apply buildFrame_decodes; try done. change (short path && true = true). by rewrite Hp.
  - intros Hbig. unfold stateSnapFormat. rewrite buildFrame_spec. unfold stateSnapFields.
    cbn [length]. rewrite length_map, length_map_entries.
    destruct (Z.ltb_spec 255 (Z.of_nat (S (size vm)))); [done|lia].
Qed.

Lemma standby_frames_witness :
  decodes_to (stateDeltaFormat 0 "a.txt" 6 ["dn1"; "dn2"] 2) 1
    (deltaMessage 1 2 (CommitWrite "a.txt" 6 ["dn1"; "dn2"]))
  /\ decodes_to (stateDeltaFormat 1 "a.txt" 0 [] 2) 1 (deltaMessage 1 2 (CommitDelete "a.txt"))
  /\ ((254 < size demo_snap_vm)%nat ->
      stateSnapFormat demo_snap_vm demo_snap_rm 2 = Throw "Too many fields for a single frame").
Proof.
  apply (standby_frames 1 2 demo_snap_vm demo_snap_rm "a.txt" 6 ["dn1"; "dn2"]).
  - unfold in_u32. lia.
  - reflexivity.
  - repeat constructor.
  - apply Nat.leb_le. reflexivity.
Defined.

(** ** Epochs and promotion *)

Lemma observe_epoch ep w : observedEpoch (observe ep w) = Z.max (observedEpoch w) ep.
Proof. simpl. destruct (Z.ltb_spec (observedEpoch w) ep); lia. Qed.

Lemma getUint32_range m i def : in_u32 def -> in_u32 (getUint32 m i def).
Proof.
  intros Hd. unfold getUint32. destruct (findField m i) as [f|]; [|done].
  destruct (value f) as [|a [|b [|c [|d l]]]]; try done. simpl. rewrite readU32_be.
  apply (be_value_bound [a; b; c; d]).
Qed.

(** What no frame touches. *)
Definition same_identity (w w' : Watcher) : Prop :=
  config w' = config w /\ myName w' = myName w /\ role w' = role w /\ wdisk w' = wdisk w.

Lemma handleFrame_spec msg w next w' :
  handleFrame msg w = (next, w') ->
  same_identity w w' /\ observedEpoch w <= observedEpoch w'
  /\ (in_u32 (observedEpoch w) -> in_u32 (observedEpoch w')).
Proof.
  pose proof (getUint32_range msg EPOCH 0 ltac:(unfold in_u32; lia)) as Hr.
  assert (forall w', observedEpoch w' = Z.max (observedEpoch w) (getUint32 msg EPOCH 0) ->
    observedEpoch w <= observedEpoch w' /\ (in_u32 (observedEpoch w) -> in_u32 (observedEpoch w'))) as Hmax.
  { intros w0 ->. unfold in_u32 in *. split; lia. }
  unfold handleFrame. destruct (_ <? observedEpoch w).
  { intros [= <- <-]. split; [done|]. split; [lia|done]. }
  destruct (opcode msg); intros [= <- <-]; try (split; [done|]; split; [lia|done]).
  - split; [done|]. apply Hmax. unfold applySnap. by rewrite observe_epoch.
  - unfold applyDelta. destruct (_ =? 1); (split; [done|]); apply Hmax; apply observe_epoch.
  - split; [done|]. apply Hmax, observe_epoch.
Qed.

Lemma receiveLoop_spec fs ending w timedOut w' :
  receiveLoop fs ending w = (timedOut, w') ->
  same_identity w w' /\ observedEpoch w <= observedEpoch w'
  /\ (in_u32 (observedEpoch w) -> in_u32 (observedEpoch w')).
Proof.
  revert w. induction fs as [|msg fs IH]; intros w; simpl.
  { intros [= <- <-]. split; [done|]. split; [lia|done]. }
  destruct (handleFrame msg w) as [next w1] eqn:Hf.
  destruct (handleFrame_spec _ _ _ _ Hf) as ((Hc & Hm & Hr & Hd) & He & Hu). destruct next as [b|b].
  - intros Hl. destruct (IH _ Hl) as ((Hc' & Hm' & Hr' & Hd') & He' & Hu'). unfold same_identity.
    split; [split_and!; congruence|]. split; [lia|auto].
  - intros [= <- <-]. done.
Qed.

Lemma promoteRun_saves ops w :
  promoteRun (map SaveEpoch ops) w
  = mkWatcher (config w) (myName w) (versionMap w) (repMap w) (observedEpoch w) (role w) (runFs (wdisk w) ops).
Proof.
  revert w. induction ops as [|op ops IH]; intros w; [by destruct w|].
  change (promoteRun (map SaveEpoch (op :: ops)) w)
    with (promoteRun (map SaveEpoch ops) (promoteStep w (SaveEpoch op))).
  by rewrite IH.
Qed.

Lemma promote_eq w :
  promote w = mkWatcher (config w) (myName w) (versionMap w) (repMap w) (u32 (observedEpoch w + 1)) ACTIVE
                (runFs (wdisk w) (EpochStore_save (wdisk w) (u32 (observedEpoch w + 1)))).
Proof.
  unfold promote, promoteRun, promoteSteps. cbn [fold_left]. rewrite fold_left_app.
  change (fold_left promoteStep (map SaveEpoch ?ops) ?w) with (promoteRun (map SaveEpoch ops) w).
  by rewrite promoteRun_saves.
Qed.

Lemma promoteOps_saves ops : promoteOps (map SaveEpoch ops) = ops.
Proof. unfold promoteOps. induction ops as [|op ops IH]; [done|]. csimpl. by rewrite IH. Qed.

(** The role changes after the whole save: until then it is what it was. *)
Lemma promote_saves_first n w :
  let steps := take n (promoteSteps w) in
  role (promoteRun steps w) = role w
  \/ promoteOps steps = EpochStore_save (wdisk w) (u32 (observedEpoch w + 1)).
Proof.
  cbv zeta. unfold promoteSteps. set (e := u32 _). set (ops := EpochStore_save _ _).
  destruct n as [|n]; [by left|]. rewrite firstn_cons. destruct (decide (n <= length ops)%nat) as [Hle|Hgt].
  - left. rewrite take_app_le by (by rewrite length_map). rewrite <-fmap_take.
    change (promoteRun (BumpEpoch e :: ?l) w) with (promoteRun l (promoteStep w (BumpEpoch e))).
    change (SaveEpoch <$> take n ops) with (map SaveEpoch (take n ops)). by rewrite promoteRun_saves.
  - right. rewrite take_app_ge by (rewrite length_map; lia).
    change (promoteOps (BumpEpoch e :: ?l)) with (promoteOps l).
    unfold promoteOps. rewrite omap_app.
    change (omap _ (map SaveEpoch ops)) with (promoteOps (map SaveEpoch ops)). rewrite promoteOps_saves.
    rewrite length_map. destruct (n - length ops)%nat as [|[|[|k]]]; csimpl; apply app_nil_r.
Qed.

(** After a save, the epoch is on the medium. *)
Lemma saved_epoch_survives d e d' :
  sound d -> in_u32 e -> after_crash d (EpochStore_save d e) d' -> EpochStore_load d' = e.
Proof.
  intros Hd He [Hr Hf]. unfold EpochStore_load, read_text, EpochStore_save in *. rewrite Hr.
  set (p := epochPath (root d)) in *. set (pieces := [_; _]) in *.
  pose proof (tmpPath_ne p). destruct (Hd (tmpPath p)) as [_ Hio].
  pose proof (atomicWrite_unsynced d p pieces (length (atomicWrite d p pieces)) ltac:(by rewrite Hio)) as Hu.
  rewrite firstn_all in Hu. rewrite Hf by set_solver. rewrite (proj1 (atomicWrite_done _ _ _ Hd)).
  cbn [default from_option concat app pieces]. by apply read_u32_decimal.
Qed.

(** One turn either promotes a watcher that ran the receive loop, or not. *)
Lemma watchStep_cases r w :
  role w = STANDBY ->
  exists w1, same_identity w w1 /\ observedEpoch w <= observedEpoch w1
    /\ (in_u32 (observedEpoch w) -> in_u32 (observedEpoch w1))
    /\ (watchStep r w = w1
        \/ (watchStep r w = promote w1 /\ allHigherPriorityDown (probed r) w1 = true)).
Proof.
  intros Hrole. unfold watchStep. rewrite decide_False by (rewrite Hrole; done).
  destruct (followTarget r w) as [s|].
  - destruct (negb (connected r && handshaken r)).
    { exists w. split; [done|]. split; [lia|]. split; [done|by left]. }
    destruct (receiveLoop (frames r) (ending r) w) as [timedOut w1] eqn:Hl.
    destruct (receiveLoop_spec _ _ _ _ _ Hl) as (Hid & He & Hu). exists w1. do 3 (split; [done|]).
    destruct timedOut; simpl; [|by left].
    destruct (allHigherPriorityDown (probed r) w1) eqn:E; [by right|by left].
  - exists w. split; [done|]. split; [lia|]. split; [done|].
    destruct (allHigherPriorityDown (probed r) w) eqn:E; [by right|by left].
Qed.

(** C23. Epochs only grow, and a new leader has a new one that is on the medium
    before it leads.  On a disk whose files can be written, and unless the
    32-bit counter wraps to 0, a turn of the watch loop never lowers the
    observed epoch.  It changes the role only by a promotion of a standby, to
    an epoch above every one it has observed, and at every point of that
    promotion at which the role is ACTIVE, the new epoch is what
    [EpochStore::load] finds after a power failure. *)
Theorem promotion_raises_epoch r w :
  in_u32 (observedEpoch w) -> sound (wdisk w) -> observedEpoch (watchStep r w) <> 0 ->
  observedEpoch w <= observedEpoch (watchStep r w)
  /\ (role (watchStep r w) = role w
      \/ exists w1,
           role w = STANDBY /\ role w1 = STANDBY /\ watchStep r w = promote w1
           /\ observedEpoch w <= observedEpoch w1 < observedEpoch (promote w1)
           /\ forall n d', let steps := take n (promoteSteps w1) in
                role (promoteRun steps w1) = ACTIVE ->
                after_crash (wdisk w) (promoteOps steps) d' ->
                EpochStore_load d' = observedEpoch (promote w1)).
Proof.
  intros Hw Hdisk Hnz. destruct (role w) eqn:Hrole.
  2: { unfold watchStep in *. rewrite decide_True by done. split; [lia|by left]. }
  destruct (watchStep_cases r w Hrole) as (w1 & (Hc & Hm & Hr & Hd) & He & Hu & [Hs|[Hs _]]); rewrite Hs in *.
  { split; [done|left; congruence]. }
  specialize (Hu Hw). assert (observedEpoch w1 < observedEpoch (promote w1)) as Hlt.
  { rewrite promote_eq in *. cbn [observedEpoch] in *. unfold in_u32 in Hu.
    destruct (Z.eq_dec (observedEpoch w1) (2 ^ 32 - 1)) as [E|E].
    - destruct Hnz. by rewrite E.
    - rewrite u32_small by (unfold in_u32; lia). lia. }
  split; [lia|]. right. exists w1. rewrite Hr. do 3 (split; [done|]). split; [lia|].
  intros n d' steps Hact Hcr. destruct (promote_saves_first n w1) as [Hno|Hops].
  { unfold steps in Hact. rewrite Hno in Hact. congruence. }
  unfold steps in Hcr. rewrite Hops, Hd in Hcr. rewrite promote_eq. cbn [observedEpoch].
  eapply saved_epoch_survives; [done| |done]. auto with squid.
Qed.

(** C24. A standby promotes itself only when every server before it in the
    configuration failed every probe of that round. *)
Theorem promotion_only_when_alone r w :
  role w = STANDBY -> role (watchStep r w) = ACTIVE ->
  forall s k, s ∈ higherPriorityThan (config w) (myName w) ->
    (k < Z.to_nat (promotion_probe_attempts (config w)))%nat -> probed r (name s) k = false.
Proof.
  intros Hrole Hact s k Hs Hk.
  destruct (watchStep_cases r w Hrole) as (w1 & (Hc & Hm & Hr & Hd) & _ & _ & [Hstep|[_ Hdown]]).
  { rewrite Hstep in Hact. congruence. }
  unfold allHigherPriorityDown in Hdown. rewrite Hc, Hm in Hdown.
  rewrite forallb_forall in Hdown. apply list_elem_of_In in Hs. specialize (Hdown s Hs).
  apply negb_true_iff in Hdown. unfold probe in Hdown.
  apply not_true_iff_false in Hdown. destruct (probed r (name s) k) eqn:E; [|done].
  destruct Hdown. apply existsb_exists. exists k. split; [|done].
  apply in_seq. lia.
Qed.

Definition demo_alone : Round :=
  mkRound (fun _ => false) false false [] true (fun _ _ => false).

Lemma promotion_raises_epoch_witness :
  observedEpoch demo_watcher <= observedEpoch (watchStep demo_alone demo_watcher)
  /\ (role (watchStep demo_alone demo_watcher) = role demo_watcher
      \/ exists w1,
           role demo_watcher = STANDBY /\ role w1 = STANDBY /\ watchStep demo_alone demo_watcher = promote w1
           /\ observedEpoch demo_watcher <= observedEpoch w1 < observedEpoch (promote w1)
           /\ forall n d', let steps := take n (promoteSteps w1) in
                role (promoteRun steps w1) = ACTIVE ->
                after_crash (wdisk demo_watcher) (promoteOps steps) d' ->
                EpochStore_load d' = observedEpoch (promote w1)).
Proof.
  apply (promotion_raises_epoch demo_alone demo_watcher).
  - vm_compute. split; [discriminate|reflexivity].
  - intros p. split; reflexivity.
  - vm_compute. discriminate.
Defined.

Lemma promotion_only_when_alone_witness :
  role (watchStep demo_alone demo_watcher) = ACTIVE
  /\ forall s k, s ∈ higherPriorityThan demo_config "server2" ->
    (k < Z.to_nat (promotion_probe_attempts demo_config))%nat -> probed demo_alone (name s) k = false.
Proof.
  split; [reflexivity|].
  apply (promotion_only_when_alone demo_alone demo_watcher); reflexivity.
Defined.

(** A CLOSE frame carries no epoch, so that a standby that has seen a
    leadership change ignores the primary's goodbye as stale. *)
Lemma close_ignored sq w :
  0 < observedEpoch w -> handleFrame (mkMessage CLOSE 0 sq 0 []) w = (GoOn false, w).
Proof.
  intros Hw. unfold handleFrame. change (getUint32 _ EPOCH 0) with 0.
  destruct (Z.ltb_spec 0 (observedEpoch w)); [done|lia].
Qed.
