(* ===== verification/WatchTimer.v ===== *)
(** * The watcher's clock

    The parts of [server/src/replica_watcher.{hpp,cpp}] that deal with time and
    with the thread: [receiveLoop] with its heartbeat deadline, poll by poll,
    [start], [stop] and the loop condition of [watchLoop].  [Watcher] takes the
    frames of a round and how it ended as given; here they come from the polls,
    and the theorems bound when a silent primary is given up. *)

From S2P Require Import Prelude Text Wire FileManager StateStore ClusterConfig Watcher.

(** What a turn of [receiveLoop] finds: no socket or a failed [select], no
    data for 100 ms, a frame, a connection that closes or breaks, or the loop
    condition false ([stop], or the role has changed). *)
Inductive Poll : Type :=
| SocketFailed
| Quiet
| Frame (m : Message)
| Closed
| LoopStopped.

(** [receiveLoop] from a state with deadline [deadline]: the time is read after
    [select].  [None] while it goes on. *)
Fixpoint timedLoop (timeout : Z) (polls : list (Z * Poll)) (deadline : Z) (w : Watcher)
  : option (bool * Z) * Watcher :=
  match polls with
  | [] => (None, w)
  | (t, LoopStopped) :: _ => (Some (false, t), w)
  | (t, SocketFailed) :: _ => (Some (true, t), w)
  | (t, poll) :: rest =>
      if (deadline <? t) then (Some (true, t), w)
      else match poll with
           | Frame m =>
               match handleFrame m w with
               | (Return timedOut, w) => (Some (timedOut, t), w)
               | (GoOn renew, w) => timedLoop timeout rest (if renew then t + timeout else deadline) w
               end
           | Closed => (Some (false, t), w)
           | _ => timedLoop timeout rest deadline w
           end
  end.

(** The loop as entered at time [now]. *)
Definition receiveLoopAt (now : Z) (polls : list (Z * Poll)) (w : Watcher) : option (bool * Z) * Watcher :=
  let timeout := heartbeat_timeout_ms (config w) in
  timedLoop timeout polls (now + timeout) w.

(** ** The thread *)

Record WatcherThread : Type := mkThread {
  wt_running : bool;
  wt_watcher : Watcher }.

Definition start (w : Watcher) : WatcherThread := mkThread true w.
Definition stop (t : WatcherThread) : WatcherThread := mkThread false (wt_watcher t).
Definition watchTurn (t : WatcherThread) (r : Round) : WatcherThread :=
  if wt_running t then mkThread true (watchStep r (wt_watcher t)) else t.
Definition watchLoop (rs : list Round) (t : WatcherThread) : WatcherThread := fold_left watchTurn rs t.

Definition getVersionMap (w : Watcher) : gmap string Z := versionMap w.
Definition getRepMap (w : Watcher) : gmap string (gset string) := repMap w.
Definition getObservedEpoch (w : Watcher) : Z := observedEpoch w.

(** ** The frames of a timed run *)

Definition framesOf (polls : list (Z * Poll)) : list Message :=
  omap (fun p => match p.2 with Frame m => Some m | _ => None end) polls.

(** The timed loop is [receiveLoop] on the frames it has read. *)
Lemma timedLoop_frames timeout polls deadline w b t w' :
  timedLoop timeout polls deadline w = (Some (b, t), w') ->
  exists n ending, receiveLoop (framesOf (take n polls)) ending w = (b, w').
Proof.
  revert deadline w. induction polls as [|[s p] polls IH]; intros deadline w; [done|]. cbn [timedLoop].
  destruct p as [| |m| |].
  - intros [= <- <- <-]. by exists 0%nat, true.
  - destruct (_ <? _); [intros [= <- <- <-]; by exists 0%nat, true|].
    intros Hr. apply IH in Hr as (n & ending & Hr). by exists (S n), ending.
  - destruct (_ <? _); [intros [= <- <- <-]; by exists 0%nat, true|].
    destruct (handleFrame m w) as [[renew|timedOut] w1] eqn:Hf.
    + intros Hr. apply IH in Hr as (n & ending & Hr). exists (S n), ending.
      unfold framesOf. csimpl. cbn [receiveLoop]. by rewrite Hf.
    + intros [= <- <- <-]. exists 1%nat, true. unfold framesOf. csimpl. cbn [receiveLoop]. by rewrite Hf.
  - destruct (_ <? _); intros [= <- <- <-]; [by exists 0%nat, true|by exists 0%nat, false].
  - intros [= <- <- <-]. by exists 0%nat, false.
Qed.








(** ** No false alarm *)

(** The time of the last renewal among [polls], [last] without one. *)
Fixpoint lastRenewal (polls : list (Z * Poll)) (last : Z) (w : Watcher) : Z :=
  match polls with
  | [] => last
  | (t, Frame m) :: rest =>
      match handleFrame m w with
      | (GoOn renew, w) => lastRenewal rest (if renew then t else last) w
      | (Return _, w) => last
      end
  | _ :: rest => lastRenewal rest last w
  end.

(** Only a missed deadline or a failed socket counts as a timeout: the loop
    returns it at a poll more than the heartbeat timeout after the last
    heartbeat or snapshot it has processed. *)
Theorem timeout_means_silence now polls w t w' :
  let timeout := heartbeat_timeout_ms (config w) in
  Forall (fun p => p.2 <> SocketFailed) polls ->
  receiveLoopAt now polls w = (Some (true, t), w') ->
  exists pre p rest, polls = pre ++ (t, p) :: rest /\ lastRenewal pre now w + timeout < t.
Proof.
  intros timeout Hs. unfold receiveLoopAt. fold timeout. clearbody timeout. revert now w.
  induction polls as [|[s p] polls IH]; intros now w; [done|].
  apply Forall_cons in Hs as [Hp Hs]. simpl in Hp. cbn [timedLoop].
  assert (forall q, now + timeout < s -> exists pre p rest, (s, q) :: polls = pre ++ (s, p) :: rest
    /\ lastRenewal pre now w + timeout < s) as Hnow by (intros q Hq; by exists [], q, polls).
  destruct p as [| |m| |]; try done.
  - destruct (Z.ltb_spec (now + timeout) s); [intros [= <- <-]; auto|].
    intros Hr. apply (IH Hs) in Hr as (pre & q & rest & -> & Hl). by exists ((s, Quiet) :: pre), q, rest.
  - destruct (Z.ltb_spec (now + timeout) s); [intros [= <- <-]; auto|].
    destruct (handleFrame m w) as [[renew|b] w1] eqn:Hf.
    + intros Hr. assert (exists pre q rest, polls = pre ++ (t, q) :: rest
        /\ lastRenewal pre (if renew then s else now) w1 + timeout < t) as (pre & q & rest & -> & Hl)
        by (apply (IH Hs); by destruct renew).
      exists ((s, Frame m) :: pre), q, rest. split; [done|]. cbn [lastRenewal]. by rewrite Hf.
    + intros [= -> <- <-]. unfold handleFrame in Hf. destruct (_ <? _); [done|].
      destruct (opcode m); simplify_eq.
  - destruct (Z.ltb_spec (now + timeout) s); [intros [= <- <-]; auto|done].
Qed.

Lemma timeout_means_silence_witness :
  exists pre p rest, [(100, Quiet); (6000, Quiet)] = pre ++ (6000, p) :: rest
    /\ lastRenewal pre 0 demo_watcher + heartbeat_timeout_ms (config demo_watcher) < 6000.
Proof.
  apply (timeout_means_silence 0 [(100, Quiet); (6000, Quiet)] demo_watcher 6000 demo_watcher).
  - by repeat constructor.
  - vm_compute. reflexivity.
Defined.

(** A watcher that is stopped takes no further turn. *)
Lemma stopped_is_still rs t : wt_running t = false -> watchLoop rs t = t.
Proof.
  intros Hr. unfold watchLoop. induction rs as [|r rs IH]; [done|]. simpl. unfold watchTurn at 2. by rewrite Hr.
Qed.
