(* ===== verification/Standby.v ===== *)
(** * Standby replicas, from the primary's side

    Models [server/src/standby_replica_manager.{hpp,cpp}] ([sendDelta] itself is
    in ServerState, where the propagations reach it), and shows that a standby
    that applies what it is sent keeps a copy of the primary's maps.  The race
    between the snapshot and the registration is stated with the two halves of
    [registerStandby] apart. *)

From S2P Require Import Prelude Text Wire FileManager FileTransfer Protocol StateStore Session ServerState LockManager Replication ClusterConfig Watcher.

Section operations.
Context {S : Type} `{Session S}.
Local Abbreviation St := (Server S).
Implicit Types st : St.

(** [registerStandby] up to the snapshot ... *)
Definition sendSnapshot (i : sid) : SO St unit :=
  let! versionMap := Replication.getFileVersionMap in
  let! repMap := sgets buildPersistableRepMap in
  let! ep := sgets epoch in
  on_session i (sess_sendStateSnap versionMap repMap ep).

(** ... and after it. *)
Definition addStandby (name : string) (i : sid) : SO St unit :=
  smodify (fun st : St => set_standbys (Some (<[name := i]> (default ∅ (standbys st)))) st).

Definition registerStandby (name : string) (i : sid) : SO St unit :=
  do! sendSnapshot i in addStandby name i.

(** The loop of [sendHeartbeats]: the names of the dead ones. *)
Fixpoint beatAll (snapshot : list (string * sid)) : SO St (list string) :=
  match snapshot with
  | [] => sret []
  | (name, i) :: rest =>
      let! live := sgets (session_alive i) in
      if negb live then let! dead := beatAll rest in sret (name :: dead)
      else
        let! ep := sgets epoch in
        do! post_task i (LeaderHb ep) in
        beatAll rest
  end.

Definition sendHeartbeats : SO St unit :=
  let! snapshot := sgets (fun st : St => map_entries (default ∅ (standbys st))) in
  let! dead := beatAll snapshot in
  smodify (fun st : St => set_standbys ((fun m => foldr delete m dead) <$> standbys st) st).

Definition removeStandby (name : string) : SO St unit :=
  smodify (fun st : St => set_standbys (delete name <$> standbys st) st).
End operations.

(** ** What a propagation leaves alone *)

Section frame.
Context {S : Type} `{Session S}.
Local Abbreviation St := (Server S).
Implicit Types st : St.

(** The endpoint maps, the standbys and the epoch. *)
Definition same_peers st st' : Prop :=
  dataNodeEndpointMap st' = dataNodeEndpointMap st /\ clientEndpointMap st' = clientEndpointMap st
  /\ standbys st' = standbys st /\ epoch st' = epoch st.

#[export] Instance same_peers_preorder : PreOrder same_peers.
Proof.
  split; [done|]. intros a b c (?&?&?&?) (?&?&?&?). unfold same_peers. split_and!; congruence.
Qed.

Definition keeps_peers {A} (m : SO St A) : Prop := forall st, same_peers st (m st).2.

Lemma kp_bind {A B} (m : SO St A) (k : A -> SO St B) :
  keeps_peers m -> (forall a, keeps_peers (k a)) -> keeps_peers (sbind m k).
Proof.
  intros Hm Hk st. unfold sbind. specialize (Hm st). destruct (m st) as [[[a|e]|] st1]; simpl in *; [|done..].
  etrans; [exact Hm|apply Hk].
Qed.
Lemma kp_ret {A} (a : A) : keeps_peers (sret a).
Proof. by intros st. Qed.
Lemma kp_gets {A} (f : St -> A) : keeps_peers (sgets f).
Proof. by intros st. Qed.
Lemma kp_modify (f : St -> St) : (forall st, same_peers st (f st)) -> keeps_peers (smodify f).
Proof. intros Hf st. apply Hf. Qed.
Lemma kp_on_session i {A} (m : SO S A) : keeps_peers (on_session i m).
Proof. intros st. unfold on_session. destruct (sessions st !! i) as [s|]; [|done]. by destruct (m s). Qed.
Lemma kp_for_each {A} (xs : list A) (body : A -> SO St unit) :
  (forall x, keeps_peers (body x)) -> keeps_peers (sfor_each xs body).
Proof. intros Hb. induction xs as [|x xs IH]; [apply kp_ret|]. apply kp_bind; auto. Qed.
Lemma kp_fanout req nodes : keeps_peers (fanout req nodes).
Proof.
  induction nodes as [|[name i] nodes IH]; [apply kp_ret|]. cbn [fanout].
  apply kp_bind; [apply kp_gets|]. intros [].
  - apply kp_bind; [apply kp_on_session|]. intros m. apply kp_bind; [done|]. intros more. apply kp_ret.
  - done.
Qed.
End frame.

#[export] Hint Resolve kp_ret kp_gets kp_on_session kp_fanout : squid.

Ltac keep_peers :=
  repeat first
    [ progress auto with squid
    | apply kp_bind; [|intros ?]
    | apply kp_for_each; intros ?
    | apply kp_modify; intros ?; done
    | case_match
    | case_decide ].

Section keeps.
Context {S : Type} `{Session S}.
Local Abbreviation St := (Server S).

Lemma kp_sendDelta op path v names : keeps_peers (S := S) (sendDelta op path v names).
Proof. unfold sendDelta. apply kp_bind; [auto with squid|]. intros [m|]; keep_peers. Qed.
Lemma kp_push clients origin t : keeps_peers (S := S) (push_others clients origin t).
Proof. unfold push_others. keep_peers. Qed.
Lemma kp_insertLock path now : keeps_peers (S := S) (insertLock path now).
Proof. apply kp_modify. intros st. by destruct (fileLockMap st !! path). Qed.
End keeps.

#[export] Hint Resolve kp_sendDelta kp_push kp_insertLock : squid.

Section keeps_ops.
Context {S : Type} `{Session S}.
Local Abbreviation St := (Server S).

Lemma kp_create path v origin data now :
  keeps_peers (S := S) (propagateCreateFile path v origin data now).
Proof. unfold propagateCreateFile. keep_peers. Qed.
Lemma kp_update path seen origin data :
  keeps_peers (S := S) (propagateUpdateFile path seen origin data).
Proof. unfold propagateUpdateFile. keep_peers. Qed.
Lemma kp_delete path origin : keeps_peers (S := S) (propagateDeleteFile path origin).
Proof. unfold propagateDeleteFile, eraseLock. keep_peers. Qed.
End keeps_ops.

(** ** Who is told what *)

Section sent.
Context {S : Type} `{Session S}.
Local Abbreviation St := (Server S).
Implicit Types st : St.

(** The tasks of [new] for the session [i], in order. *)
Definition sentTo (i : sid) (new : list (sid * Task)) : list Task :=
  omap (fun e => if decide (e.1 = i) then Some e.2 else None) new.

Lemma sentTo_app i l k : sentTo i (l ++ k) = sentTo i l ++ sentTo i k.
Proof. apply omap_app. Qed.

Lemma sentTo_none i new : i ∉ new.*1 -> sentTo i new = [].
Proof.
  induction new as [|[j t] new IH]; [done|]. csimpl. intros [Hne Hi]%not_elem_of_cons.
  rewrite decide_False by congruence. auto.
Qed.

(** One task for each live entry of a duplicate-free table. *)
Definition toLive (t : Task) (entries : list (string * sid)) st : list (sid * Task) :=
  concat (map (fun e => if session_alive e.2 st then [(e.2, t)] else []) entries).

Lemma toLive_sids t entries st i : i ∈ (toLive t entries st).*1 -> i ∈ entries.*2.
Proof.
  induction entries as [|[name j] entries IH]; [done|]. unfold toLive. simpl.
  rewrite fmap_app. intros [Hi|Hi]%elem_of_app; csimpl; [|by apply elem_of_cons; right; apply IH].
  apply elem_of_cons. left.
  destruct (session_alive j st); [by apply list_elem_of_singleton in Hi|by apply elem_of_nil in Hi].
Qed.

Lemma sentTo_toLive t entries st name i :
  NoDup entries.*2 -> (name, i) ∈ entries -> session_alive i st = true ->
  sentTo i (toLive t entries st) = [t].
Proof.
  intros Hnd Hin Hal. induction entries as [|[n j] entries IH]; [by apply elem_of_nil in Hin|].
  csimpl in Hnd. apply NoDup_cons in Hnd as [Hj Hnd]. unfold toLive. simpl. rewrite sentTo_app.
  apply elem_of_cons in Hin as [[= <- <-]|Hin].
  - rewrite Hal. csimpl. rewrite decide_True by done. f_equal.
    apply (sentTo_none i (toLive t entries st)). by intros ?%toLive_sids.
  - change (sentTo i (concat _)) with (sentTo i (toLive t entries st)). rewrite IH by done.
    assert (i <> j) by (intros ->; apply Hj, list_elem_of_fmap; by exists (name, j)).
    destruct (session_alive j st); csimpl; [|done]. by rewrite decide_False.
Qed.

Lemma sentTo_pushes i clients origin t : i ∉ clients.*2 -> sentTo i (pushes clients origin t) = [].
Proof.
  unfold pushes. induction clients as [|[n j] clients IH]; [done|]. csimpl.
  intros [Hne Hi]%not_elem_of_cons. rewrite sentTo_app, IH by done.
  case_decide; csimpl; [done|]. by rewrite decide_False.
Qed.

Lemma sentTo_rollback i path (acked : list (string * sid)) :
  i ∉ acked.*2 -> sentTo i (map (fun node => (node.2, RollbackDelete path)) acked) = [].
Proof.
  intros Hi. apply sentTo_none. intros Hin. apply Hi.
  induction acked as [|n acked IH]; [done|]. csimpl in *.
  apply not_elem_of_cons in Hi as [_ Hi]. apply elem_of_cons in Hin as [->|Hin]; [by left|right; auto].
Qed.
End sent.

(** ** A registered standby *)

Section tracked.
Context {S : Type} `{Session S}.
Local Abbreviation St := (Server S).
Implicit Types st : St.

(** [sb] is the live session of the standby [name], and of nobody else. *)
Inductive tracked (name : string) (sb : sid) st : Prop :=
| Tracked m :
    standbys st = Some m -> m !! name = Some sb -> distinct_sessions m ->
    session_alive sb st = true ->
    sb ∉ map_values (dataNodeEndpointMap st) -> sb ∉ map_values (clientEndpointMap st) ->
    (forall path, sb ∉ map_values (holdersOf path st)) -> tracked name sb st.

Lemma sentTo_deltas name sb op path v names st :
  tracked name sb st -> sentTo sb (deltas op path v names st) = [StateDelta op path v names (epoch st)].
Proof.
  intros [m Hm Hn Hd Hal _ _ _]. unfold deltas. rewrite Hm.
  apply (sentTo_toLive _ _ _ name); [done|by apply elem_of_map_entries|done].
Qed.
End tracked.

(** ** What the standby makes of it *)

(** The message a task of the stream becomes on the other side. *)
Definition streamMessage (sq : Z) (t : Task) : Message :=
  match t with
  | StateDelta op path v names ep => mkMessage STATE_DELTA 0 sq 0 (stateDeltaFields op path v names ep)
  | LeaderHb ep => mkMessage LEADER_HB 0 sq 0 [fieldUint32 EPOCH ep]
  | _ => makeNack
  end.

Definition carries (t : Task) (m : Message) : Prop := exists sq, m = streamMessage sq t.

(** What goes to a standby. *)
Definition onStream (t : Task) : Prop :=
  match t with StateDelta _ _ _ _ _ | LeaderHb _ => True | _ => False end.

Definition deltaTask (ep : Z) (c : Commit) : Task :=
  match c with
  | CommitWrite path v holders => StateDelta 0 path v holders ep
  | CommitDelete path => StateDelta 1 path 0 [] ep
  end.

Section mirror.
Context {S : Type} `{Session S}.
Local Abbreviation St := (Server S).
Implicit Types st : St.

(** The standby [w] has the versions, the holders and the epoch of [st]. *)
Definition mirrors st (w : Watcher) : Prop :=
  versionMap w = persistedVersionMap st
  /\ (forall q, default ∅ (repMap w !! q) = dom (holdersOf q st))
  /\ observedEpoch w = epoch st.

(** From [st] to [st'] the session [sb] was sent what turns a mirror of the
    one into a mirror of the other. *)
Definition streams (sb : sid) st st' : Prop :=
  epoch st' = epoch st
  /\ exists new, posted st' = posted st ++ new
  /\ Forall onStream (sentTo sb new)
  /\ forall w msgs, in_u32 (epoch st) -> mirrors st w -> Forall2 carries (sentTo sb new) msgs ->
     exists w', (forall rest ending, receiveLoop (msgs ++ rest) ending w = receiveLoop rest ending w')
       /\ mirrors st' w'.

Lemma streams_refl sb st : streams sb st st.
Proof.
  split; [done|]. exists []. split; [by rewrite app_nil_r|]. split; [constructor|]. intros w msgs _ Hm Hf.
  apply Forall2_nil_inv_l in Hf as ->. by exists w.
Qed.

Lemma streams_trans sb st1 st2 st3 : streams sb st1 st2 -> streams sb st2 st3 -> streams sb st1 st3.
Proof.
  intros [He1 (new1 & Hp1 & Hs1 & H1)] [He2 (new2 & Hp2 & Hs2 & H2)]. split; [congruence|].
  exists (new1 ++ new2). split; [by rewrite Hp2, Hp1, app_assoc|].
  split; [rewrite sentTo_app; by apply Forall_app|]. intros w msgs Hu Hm Hf.
  rewrite sentTo_app in Hf. apply Forall2_app_inv_l in Hf as (m1 & m2 & Hf1 & Hf2 & ->).
  destruct (H1 w m1 Hu Hm Hf1) as (w1 & Hr1 & Hm1).
  destruct (H2 w1 m2 ltac:(by rewrite He1) Hm1 Hf2) as (w2 & Hr2 & Hm2).
  exists w2. split; [|done]. intros rest ending. by rewrite <-app_assoc, Hr1.
Qed.

(** Nothing changes and nothing is sent. *)
Lemma streams_silent sb st st' new :
  posted st' = posted st ++ new -> sentTo sb new = [] -> epoch st' = epoch st ->
  persistedVersionMap st' = persistedVersionMap st ->
  (forall q, holdersOf q st' = holdersOf q st) -> streams sb st st'.
Proof.
  intros Hp Hs He Hv Hh. split; [done|]. exists new. split; [done|]. rewrite Hs.
  split; [constructor|]. intros w msgs _ (? & Hr & ?) Hf. apply Forall2_nil_inv_l in Hf as ->. exists w. split; [done|].
  split; [congruence|]. split; [|congruence]. intros q. by rewrite Hr, Hh.
Qed.

(** What a commit does to the holders of a path. *)
Definition committedHolders (c : Commit) (q : string) (old : gset string) : gset string :=
  match c with
  | CommitWrite path _ hs => if decide (q = path) then list_to_set hs else old
  | CommitDelete path => if decide (q = path) then ∅ else old
  end.

Lemma applyCommit_holders c vm rm q :
  default ∅ ((applyCommit (vm, rm) c).2 !! q) = committedHolders c q (default ∅ (rm !! q)).
Proof.
  destruct c as [path v hs|path]; simpl; case_decide as E; subst.
  - by rewrite lookup_insert_eq.
  - by rewrite lookup_insert_ne.
  - by rewrite lookup_delete_eq.
  - by rewrite lookup_delete_ne.
Qed.

Lemma streams_commit sb st st' new c :
  posted st' = posted st ++ new -> sentTo sb new = [deltaTask (epoch st) c] -> commit_ok c ->
  epoch st' = epoch st ->
  persistedVersionMap st' = (applyCommit (persistedVersionMap st, ∅) c).1 ->
  (forall q, dom (holdersOf q st') = committedHolders c q (dom (holdersOf q st))) ->
  streams sb st st'.
Proof.
  intros Hp Hs Hc He Hv Hh. split; [done|]. exists new. split; [done|]. rewrite Hs.
  split; [repeat constructor; by destruct c|]. intros w msgs Hu (Hwv & Hr & Hwe) Hf.
  apply Forall2_cons_inv_l in Hf as (m & ms & [sq ->] & Hf & ->).
  apply Forall2_nil_inv_l in Hf as ->.
  assert (streamMessage sq (deltaTask (epoch st) c) = deltaMessage sq (epoch st) c) as Hmsg
    by by destruct c.
  eexists. split.
  - intros rest ending. rewrite Hmsg. cbn [app receiveLoop].
    rewrite handle_delta; [reflexivity|done|done|]. by intros path v hs ->.
  - split; [|split].
    + rewrite Hv. cbn [versionMap set_maps]. rewrite Hwv. by destruct c.
    + intros q. cbn [repMap set_maps]. by rewrite applyCommit_holders, Hh, Hr.
    + cbn [observedEpoch set_maps]. congruence.
Qed.

Lemma streams_beat sb st st' new :
  posted st' = posted st ++ new -> sentTo sb new = [LeaderHb (epoch st)] -> epoch st' = epoch st ->
  persistedVersionMap st' = persistedVersionMap st ->
  (forall q, holdersOf q st' = holdersOf q st) -> streams sb st st'.
Proof.
  intros Hp Hs He Hv Hh. split; [done|]. exists new. split; [done|]. rewrite Hs.
  split; [by repeat constructor|]. intros w msgs Hu (Hwv & Hr & Hwe) Hf.
  apply Forall2_cons_inv_l in Hf as (m & ms & [sq ->] & Hf & ->).
  apply Forall2_nil_inv_l in Hf as ->. exists w. split.
  - intros rest ending. cbn [app receiveLoop streamMessage]. unfold handleFrame.
    rewrite getUint32_head, u32_small, Hwe, Z.ltb_irrefl by done. cbn [opcode].
    by rewrite observe_same by lia.
  - split; [congruence|]. split; [|congruence]. intros q. by rewrite Hr, Hh.
Qed.
End mirror.

(** ** The writes of a server, one after the other *)

Section steps.
Context {S : Type} `{Session S}.
Local Abbreviation St := (Server S).
Implicit Types st : St.

(** A write of a client or a round of leader heartbeats.  A file is created
    once: its path has no holder yet. *)
Inductive wstep st : St -> Prop :=
| ws_create path v origin data now ok st' :
    holdersOf path st = ∅ -> in_i32 v -> distinct_sessions (dataNodeEndpointMap st) ->
    propagateCreateFile path v origin data now st = (Done (Ok ok), st') -> wstep st st'
| ws_update path seen origin data nv st' :
    distinct_sessions (holdersOf path st) ->
    propagateUpdateFile path seen origin data st = (Done (Ok nv), st') -> wstep st st'
| ws_delete path origin st' :
    distinct_sessions (holdersOf path st) ->
    propagateDeleteFile path origin st = (Done (Ok tt), st') -> wstep st st'
| ws_beat st' :
    sendHeartbeats st = (Done (Ok tt), st') -> wstep st st'.

Lemma tracked_move name sb st st' :
  tracked name sb st -> same_peers st st' -> sessions st' !! sb = sessions st !! sb ->
  (forall path, sb ∉ map_values (holdersOf path st')) -> tracked name sb st'.
Proof.
  intros [m Hm Hn Hd Hal Hdn Hcl Hh] (E1 & E2 & E3 & E4) Hs Hh'.
  apply (Tracked _ _ _ m); try done; try congruence.
  unfold session_alive in *. by rewrite Hs.
Qed.

Lemma only_sessions_fields st st1 :
  only_sessions st st1 ->
  posted st1 = posted st /\ epoch st1 = epoch st /\ persistedVersionMap st1 = persistedVersionMap st
  /\ forall q, holdersOf q st1 = holdersOf q st.
Proof. unfold only_sessions. intros Hos. by rewrite Hos. Qed.

(** The requests to the datanodes do not touch the standby's session. *)
Lemma fanout_tracked req nodes name sb st answers st1 :
  NoDup nodes.*2 -> sb ∉ nodes.*2 -> fanout req nodes st = (Done (Ok answers), st1) ->
  tracked name sb st ->
  only_sessions st st1 /\ tracked name sb st1 /\ (sb ∉ (ackedNodes answers).*2)
  /\ sessions st1 !! sb = sessions st !! sb.
Proof.
  intros Hnd Hsb Hf Ht. destruct (fanout_spec _ _ _ _ _ Hnd Hf) as (Hos & Hsub & _ & Hrest & _).
  split; [done|]. unfold only_sessions in Hos.
  assert (sb ∉ answers.*1.*2) as Hna.
  { intros Hin. apply Hsb. eapply elem_of_sublist; [exact Hin|]. by apply fmap_sublist. }
  split_and!.
  - eapply tracked_move; [exact Ht| |by apply Hrest|].
    + rewrite Hos. done.
    + destruct Ht as [? _ _ _ _ _ _ Hh]. intros path. rewrite Hos. apply Hh.
  - intros Hin. apply Hna. eapply elem_of_sublist; [exact Hin|]. apply fmap_sublist, acked_sublist.
  - by apply Hrest.
Qed.

Lemma dom_store_all_nil (kvs : list (string * sid)) : dom (store_all kvs ∅) = (list_to_set kvs.*1 : gset string).
Proof.
  assert (forall m, dom (store_all kvs m) = (list_to_set kvs.*1 : gset string) ∪ dom m) as Hgen.
  { induction kvs as [|[k i] kvs IH]; intros m; unfold store_all; simpl; [set_solver|].
    change (fold_left _ kvs ?m0) with (store_all kvs m0). rewrite IH. set_solver. }
  rewrite Hgen. set_solver.
Qed.

Lemma dom_map_keys (m : gmap string sid) : dom m = (list_to_set (map_keys m) : gset string).
Proof.
  unfold map_keys. by rewrite <-dom_store_all_nil, store_all_entries.
Qed.

Lemma map_values_store_all (kvs : list (string * sid)) m i :
  i ∈ map_values (store_all kvs m) -> i ∈ kvs.*2 \/ i ∈ map_values m.
Proof.
  revert m. induction kvs as [|[k j] kvs IH]; intros m Hin; [by right|].
  change (store_all ((k, j) :: kvs) m) with (store_all kvs (<[k := j]> m)) in Hin.
  csimpl. destruct (IH _ Hin) as [Hi|Hi]; [left; by apply elem_of_cons; right|].
  apply list_elem_of_fmap in Hi as ([k' i'] & -> & Hi). apply elem_of_map_entries in Hi.
  apply lookup_insert_Some in Hi as [[_ ->]|[_ Hi]]; [left; apply elem_of_cons; by left|].
  right. apply list_elem_of_fmap. exists (k', i'). split; [done|]. by apply elem_of_map_entries.
Qed.

Lemma create_streams path v origin data now ok st st' name sb :
  holdersOf path st = ∅ -> in_i32 v -> distinct_sessions (dataNodeEndpointMap st) ->
  propagateCreateFile path v origin data now st = (Done (Ok ok), st') ->
  tracked name sb st -> tracked name sb st' /\ streams sb st st'.
Proof.
  intros Hfresh Hv Hnd Hc Ht. pose proof (kp_create path v origin data now st) as Hkp.
  rewrite Hc in Hkp. simpl in Hkp. apply create_inv in Hc as (answers & st1 & Hf & Hres).
  pose proof Ht as [m _ _ _ _ Hdn Hcl Hh].
  destruct (fanout_tracked _ _ _ _ _ _ _ Hnd Hdn Hf Ht) as (Hos & Ht1 & Hack & Hsb). cbv zeta in Hres.
  destruct (only_sessions_fields _ _ Hos) as (Ep & Ee & Ev & Eh).
  destruct (_ <? quorum st1).
  - destruct Hres as [_ ->]. split.
    + eapply tracked_move; [exact Ht|done|done|]. intros q. change (holdersOf q _) with (holdersOf q st1).
      rewrite Eh. apply Hh.
    + eapply (streams_silent _ _ _ (map _ (ackedNodes answers))); [|by apply sentTo_rollback|done..].
      cbn [posted add_posted set_posted]. by rewrite Ep.
  - destruct Hres as (_ & Hs & Hvm & Hr & _ & Hp).
    assert (forall q, holdersOf q st' = if decide (q = path) then store_all (ackedNodes answers) ∅
                                        else holdersOf q st) as Hho.
    { intros q. unfold holdersOf at 1. rewrite Hr.
      change (default ∅ _) with (holdersOf q (registerAll path (ackedNodes answers) st1)).
      by rewrite registerAll_holders, !Eh, Hfresh. }
    split.
    + eapply tracked_move; [exact Ht|done|congruence|]. intros q. rewrite Hho. case_decide; [|apply Hh].
      intros [Hi|Hi]%map_values_store_all; [done|]. unfold map_values in Hi.
      rewrite map_entries_empty in Hi. by apply elem_of_nil in Hi.
    + eapply (streams_commit _ _ _ _ (CommitWrite path v (ackedNodes answers).*1)).
      * rewrite Hp, Ep. reflexivity.
      * rewrite sentTo_app, (sentTo_deltas name), sentTo_pushes by done. by rewrite Ee.
      * done.
      * apply Hkp.
      * by rewrite Hvm, Ev.
      * intros q. rewrite Hho. simpl. case_decide; [apply dom_store_all_nil|done].
Qed.

Lemma update_streams path seen origin data nv st st' name sb :
  distinct_sessions (holdersOf path st) ->
  propagateUpdateFile path seen origin data st = (Done (Ok nv), st') ->
  tracked name sb st -> tracked name sb st' /\ streams sb st st'.
Proof.
  intros Hnd Hc Ht. pose proof (kp_update path seen origin data st) as Hkp.
  rewrite Hc in Hkp. simpl in Hkp. apply update_inv in Hc as (answers & st1 & Hf & Hres).
  pose proof Ht as [m _ _ _ _ Hdn Hcl Hh].
  destruct (fanout_tracked _ _ _ _ _ _ _ Hnd (Hh path) Hf Ht) as (Hos & Ht1 & Hack & Hsb).
  destruct (only_sessions_fields _ _ Hos) as (Ep & Ee & Ev & Eh).
  destruct (_ <? Z.min _ _).
  - destruct Hres as [_ ->]. split; [done|].
    apply (streams_silent _ _ _ []); [by rewrite app_nil_r|done..].
  - destruct Hres as (Hnv & Hs & Hvm & Hr & Hp).
    assert (forall q, holdersOf q st' = holdersOf q st) as Hho.
    { intros q. rewrite <-Eh. unfold holdersOf. by rewrite Hr. }
    split.
    + eapply tracked_move; [exact Ht|done|congruence|]. intros q. rewrite Hho. apply Hh.
    + eapply (streams_commit _ _ _ _ (CommitWrite path nv (map_keys (holdersOf path st)))).
      * rewrite Hp, Ep. reflexivity.
      * rewrite sentTo_app, (sentTo_deltas name), sentTo_pushes by done. by rewrite Ee, Eh.
      * rewrite Hnv. apply i32_range.
      * apply Hkp.
      * by rewrite Hvm, Ev.
      * intros q. rewrite Hho. simpl. case_decide; [|done]. subst q. apply dom_map_keys.
Qed.

Lemma delete_inv path origin st st' :
  propagateDeleteFile path origin st = (Done (Ok tt), st') ->
  exists answers st1,
    fanout (sess_deleteFile path) (map_entries (holdersOf path st)) st = (Done (Ok answers), st1)
    /\ (st' = st1
        \/ (sessions st' = sessions st1
            /\ persistedVersionMap st' = delete path (persistedVersionMap st1)
            /\ dataNodeReplicationMap st' = delete path (dataNodeReplicationMap st1)
            /\ posted st' = posted st1
                 ++ pushes (map_entries (clientEndpointMap st)) origin (PushDelete path)
                 ++ deltas 1 path 0 [] st1)).
Proof.
  unfold propagateDeleteFile. rewrite !sbind_gets.
  intros (answers & st1 & Hf & Hk)%sbind_ok. exists answers, st1. split; [done|].
  cbv zeta in Hk. rewrite sbind_gets in Hk. destruct (_ && _).
  - left. by injection Hk as <-.
  - right. rewrite (sbind_done _ _ _ _ _ (push_others_spec _ _ _ _)) in Hk.
    unfold eraseLock, persistState in Hk. rewrite !sbind_modify in Hk.
    rewrite sendDelta_spec in Hk. injection Hk as <-. cbn. split_and!; try done. by rewrite <-app_assoc.
Qed.

Lemma delete_streams path origin st st' name sb :
  distinct_sessions (holdersOf path st) ->
  propagateDeleteFile path origin st = (Done (Ok tt), st') ->
  tracked name sb st -> tracked name sb st' /\ streams sb st st'.
Proof.
  intros Hnd Hc Ht. pose proof (kp_delete path origin st) as Hkp.
  rewrite Hc in Hkp. simpl in Hkp. apply delete_inv in Hc as (answers & st1 & Hf & Hres).
  pose proof Ht as [m _ _ _ _ Hdn Hcl Hh].
  destruct (fanout_tracked _ _ _ _ _ _ _ Hnd (Hh path) Hf Ht) as (Hos & Ht1 & Hack & Hsb).
  destruct (only_sessions_fields _ _ Hos) as (Ep & Ee & Ev & Eh).
  destruct Hres as [->|(Hs & Hvm & Hr & Hp)].
  - split; [done|]. apply (streams_silent _ _ _ []); [by rewrite app_nil_r|done..].
  - assert (forall q, holdersOf q st' = if decide (q = path) then ∅ else holdersOf q st) as Hho.
    { intros q. rewrite <-Eh. unfold holdersOf. rewrite Hr.
      case_decide; subst; [by rewrite lookup_delete_eq|by rewrite lookup_delete_ne]. }
    split.
    + eapply tracked_move; [exact Ht|done|congruence|]. intros q. rewrite Hho. case_decide; [|apply Hh].
      unfold map_values. rewrite map_entries_empty. apply not_elem_of_nil.
    + eapply (streams_commit _ _ _ _ (CommitDelete path)).
      * rewrite Hp, Ep. reflexivity.
      * rewrite sentTo_app, (sentTo_deltas name), sentTo_pushes by done. by rewrite Ee.
      * done.
      * apply Hkp.
      * by rewrite Hvm, Ev.
      * intros q. rewrite Hho. simpl. case_decide; [apply dom_empty_L|done].
Qed.

(** One round of leader heartbeats: the live standbys are sent one each. *)
Lemma beatAll_spec entries st :
  beatAll entries st
  = (Done (Ok (List.filter (fun e => negb (session_alive e.2 st)) entries).*1),
     add_posted (toLive (LeaderHb (epoch st)) entries st) st).
Proof.
  revert st. induction entries as [|[n i] entries IH]; intros st; [by cbn; rewrite add_posted_nil|].
  cbn [beatAll]. rewrite sbind_gets. unfold toLive. simpl. destruct (session_alive i st) eqn:Hal; simpl.
  - rewrite sbind_gets. unfold post_task. rewrite sbind_modify.
    change (set_posted _ st) with (add_posted [(i, LeaderHb (epoch st))] st).
    by rewrite IH, add_posted_app.
  - unfold sbind at 1. rewrite IH. done.
Qed.

Lemma lookup_foldr_delete (m : gmap string sid) dead k :
  foldr delete m dead !! k = if decide (k ∈ dead) then None else m !! k.
Proof.
  induction dead as [|d dead IH]; [done|]. simpl. destruct (decide (k = d)) as [->|Hne].
  - rewrite lookup_delete_eq. by rewrite decide_True by (apply elem_of_cons; by left).
  - rewrite lookup_delete_ne, IH by done. apply decide_ext. rewrite elem_of_cons. naive_solver.
Qed.

Lemma distinct_delete (m : gmap string sid) k : distinct_sessions m -> distinct_sessions (delete k m).
Proof.
  unfold distinct_sessions, map_values. rewrite !map_entries_perm.
  destruct (m !! k) as [i|] eqn:E; [|by rewrite delete_id].
  rewrite <-(map_to_list_delete m k i E). csimpl. by intros [_ ?]%NoDup_cons.
Qed.

Lemma beat_streams st st' name sb :
  sendHeartbeats st = (Done (Ok tt), st') ->
  tracked name sb st -> tracked name sb st' /\ streams sb st st'.
Proof.
  intros Hb Ht. pose proof Ht as [m Hm Hn Hd Hal Hdn Hcl Hh]. revert Hb. unfold sendHeartbeats.
  rewrite sbind_gets, Hm. cbn [default]. rewrite (sbind_done _ _ _ _ _ (beatAll_spec _ _)).
  set (dead := (List.filter _ _).*1). set (new := toLive _ _ _). intros [= <-]. split.
  - apply (Tracked _ _ _ (foldr delete m dead)).
    + cbn. by rewrite Hm.
    + rewrite lookup_foldr_delete, decide_False; [done|].
      intros ([n i] & -> & Hin)%list_elem_of_fmap. apply list_elem_of_In, List.filter_In in Hin as [Hin Hb].
      apply list_elem_of_In, elem_of_map_entries in Hin. simpl in *.
      assert (i = sb) as -> by congruence. by rewrite Hal in Hb.
    + clearbody dead. induction dead as [|d dead IH]; [done|]. by apply distinct_delete.
    + exact Hal.
    + exact Hdn.
    + exact Hcl.
    + exact Hh.
  - apply (streams_beat _ _ _ new); [done| |done..].
    apply (sentTo_toLive _ _ _ name); [done|by apply elem_of_map_entries|done].
Qed.

Lemma wstep_streams st st' name sb :
  wstep st st' -> tracked name sb st -> tracked name sb st' /\ streams sb st st'.
Proof.
  intros [path v origin data now ok ? Hfr Hv Hnd Hc|path seen origin data nv ? Hnd Hu
         |path origin ? Hnd Hdel|? Hb] Ht.
  - by eapply create_streams.
  - by eapply update_streams.
  - by eapply delete_streams.
  - by apply beat_streams.
Qed.

Lemma server_streams st st' name sb : tracked name sb st -> rtc wstep st st' -> streams sb st st'.
Proof.
  intros Ht Hsteps. induction Hsteps as [st|st st1 st' Hs _ IH]; [apply streams_refl|].
  destruct (wstep_streams _ _ _ _ Hs Ht) as [Ht1 Hst]. eapply streams_trans; eauto.
Qed.
End steps.

(** A standby keeps up: whatever sequence of writes and leader heartbeats a
    server goes through, the frames posted to a live registered standby turn
    its copy of the version map and of the holders of every file into a copy of
    the server's at the end.  Creations are of paths without holders, and
    nothing is streamed when a datanode registers or is lost. *)
Theorem standby_tracks_server {S} `{Session S} (st st' : Server S) name sb w :
  tracked name sb st -> in_u32 (epoch st) -> mirrors st w -> rtc wstep st st' ->
  exists new, posted st' = posted st ++ new
    /\ forall msgs ending, Forall2 carries (sentTo sb new) msgs ->
       exists w', receiveLoop msgs ending w = (ending, w') /\ mirrors st' w'.
Proof.
  intros Ht Hu Hm Hsteps.
  destruct (server_streams _ _ _ _ Ht Hsteps) as [_ (new & Hp & _ & Hall)].
  exists new. split; [done|]. intros msgs ending Hf. destruct (Hall w msgs Hu Hm Hf) as (w' & Hr & Hm').
  exists w'. split; [|done]. specialize (Hr [] ending). by rewrite app_nil_r in Hr.
Qed.

(** [demo_server] with a standby. *)
Definition demo_primary : Server Node :=
  set_standbys (Some {["server2" := 20%positive]})
    (set_sessions (<[20%positive := demo_node]> (sessions demo_server)) demo_server).
Definition demo_primary1 : Server Node := (propagateCreateFile "b.txt" 0 "alice" [zero] 0 demo_primary).2.
Definition demo_primary2 : Server Node := (propagateUpdateFile "b.txt" 0 "bob" [one] demo_primary1).2.
Definition demo_primary3 : Server Node := (sendHeartbeats demo_primary2).2.

Lemma demo_tracked : tracked "server2" 20%positive demo_primary.
Proof.
  apply (Tracked _ _ _ {["server2" := 20%positive]}).
  - reflexivity.
  - reflexivity.
  - apply (bool_decide_unpack _). vm_compute. exact I.
  - reflexivity.
  - apply (bool_decide_unpack _). vm_compute. exact I.
  - apply (bool_decide_unpack _). vm_compute. exact I.
  - intros path. unfold holdersOf. cbn. rewrite lookup_empty. apply (bool_decide_unpack _).
    vm_compute. exact I.
Qed.

Lemma demo_mirrors : mirrors demo_primary demo_watcher.
Proof. split; [reflexivity|]. split; [|reflexivity]. intros q. unfold holdersOf. cbn. by rewrite !lookup_empty. Qed.

Lemma demo_steps : rtc wstep demo_primary demo_primary3.
Proof.
  apply (rtc_l _ _ demo_primary1).
  { apply (ws_create _ "b.txt" 0 "alice" [zero] 0 true).
    - reflexivity.
    - unfold in_i32. lia.
    - apply (bool_decide_unpack _). vm_compute. exact I.
    - vm_compute. reflexivity. }
  apply (rtc_l _ _ demo_primary2).
  { apply (ws_update _ "b.txt" 0 "bob" [one] 1).
    - apply (bool_decide_unpack _). vm_compute. exact I.
    - vm_compute. reflexivity. }
  apply rtc_once, ws_beat. vm_compute. reflexivity.
Qed.

Lemma standby_tracks_server_witness :
  exists new, posted demo_primary3 = posted demo_primary ++ new
    /\ forall msgs ending, Forall2 carries (sentTo 20%positive new) msgs ->
       exists w', receiveLoop msgs ending demo_watcher = (ending, w') /\ mirrors demo_primary3 w'.
Proof.
  apply (standby_tracks_server demo_primary demo_primary3 "server2" 20%positive demo_watcher).
  - exact demo_tracked.
  - unfold in_u32. cbn. lia.
  - exact demo_mirrors.
  - exact demo_steps.
Defined.

(** ** What a standby misses *)

(** A commit between the snapshot and the registration of a standby is
    lost for it: an update committed while [sb] is not in the table yet posts
    nothing to [sb], so after [addStandby] the standby holds the old version
    until the file is written again. *)
Theorem window_commit_lost {S} `{Session S} (st : Server S) name sb path seen origin data nv st' :
  sb ∉ map_values (default ∅ (standbys st)) -> sb ∉ map_values (clientEndpointMap st) ->
  distinct_sessions (holdersOf path st) ->
  propagateUpdateFile path seen origin data st = (Done (Ok nv), st') -> 0 <= nv ->
  let st'' := (addStandby name sb st').2 in
  persistedVersionMap st'' !! path = Some nv
  /\ sentTo sb (posted st'') = sentTo sb (posted st).
Proof.
  intros Hsb Hcl Hnd Hu Hnv. apply update_inv in Hu as (answers & st1 & Hf & Hres).
  destruct (fanout_spec _ _ _ _ _ Hnd Hf) as (Hos & _).
  destruct (only_sessions_fields _ _ Hos) as (Ep & Ee & Ev & Eh).
  destruct (_ <? Z.min _ _); [destruct Hres; lia|]. destruct Hres as (Hv & Hs & Hvm & Hr & Hp).
  split; [cbn; by rewrite Hvm, lookup_insert_eq|].
  change (posted _) with (posted st') at 1. rewrite Hp, Ep, !sentTo_app, sentTo_pushes, app_nil_r by done.
  rewrite (sentTo_none sb (deltas _ _ _ _ _)), app_nil_r; [done|].
  unfold deltas. unfold only_sessions in Hos. rewrite Hos. cbn [standbys set_sessions].
  destruct (standbys st) as [m|]; [|apply not_elem_of_nil]. intros Hin. apply Hsb.
  by apply (toLive_sids _ _ _ _ Hin).
Qed.

(** A second standby that is about to be registered. *)
Definition demo_joining : Server Node :=
  set_sessions (<[21%positive := demo_node]> (sessions demo_primary1)) demo_primary1.
Definition demo_snapped : Server Node := (sendSnapshot 21%positive demo_joining).2.
Definition demo_window : Server Node := (propagateUpdateFile "b.txt" 0 "bob" [one] demo_snapped).2.

Lemma window_commit_lost_witness :
  let st'' := (addStandby "server3" 21%positive demo_window).2 in
  persistedVersionMap st'' !! "b.txt" = Some 1
  /\ sentTo 21%positive (posted st'') = sentTo 21%positive (posted demo_snapped).
Proof.
  apply (window_commit_lost demo_snapped "server3" 21%positive "b.txt" 0 "bob" [one] 1 demo_window).
  - apply (bool_decide_unpack _). vm_compute. exact I.
  - apply (bool_decide_unpack _). vm_compute. exact I.
  - apply (bool_decide_unpack _). vm_compute. exact I.
  - vm_compute. reflexivity.
  - lia.
Defined.
