(* ===== verification/Server.v ===== *)
(** * The server's request handling

    Models [server/src/server.cpp]: what a server does with an accepted
    connection and with each request of a client, over the managers of
    Replication, LockManager and Standby.  Each handler is one uninterrupted
    run; their interleaving by the threads of [run] is in ServerRun, the pool
    they run on in ThreadPool.  The clock is the argument [now]. *)

From S2P Require Import Prelude Text Wire FileManager FileTransfer Protocol StateStore Session ServerState LockManager Replication ClusterConfig Watcher Standby.

Section requests.
Context {S : Type} `{Session S}.
Local Abbreviation St := (Server S).
Implicit Types st : St.

(** [handleClientRequest]: [i] is the client's session, [me] its process name. *)
Definition handleClientRequest (i : sid) (me : string) (mex : Message) (now : Z) : SO St unit :=
  let filePath := getString mex FILE_PATH "" in
  let fileVersion := i32 (getUint32 mex FILE_VERSION 0) in
  match opcode mex with
  | CREATE_FILE =>
      let! upload := on_session i sess_acceptUpload in
      let! ok := if (upload.1 : bool)
                 then propagateCreateFile filePath fileVersion me upload.2 now
                 else sret false in
      on_session i (sess_response ok)
  | READ_FILE =>
      let! read := getFileFromDataNode filePath in
      if (read.1 : bool) then
        let! ver := sgets (getKnownVersion filePath) in
        do! on_session i (sess_response true) in
        let! sent := on_session i (sess_sendFileData read.2) in
        on_session i (sess_responseV sent ver)
      else on_session i (sess_response false)
  | UPDATE_FILE =>
      let! upload := on_session i sess_acceptUpload in
      let! newVersion := if (upload.1 : bool)
                         then propagateUpdateFile filePath fileVersion me upload.2
                         else sret (-1) in
      if (0 <=? newVersion) then on_session i (sess_responseV true newVersion)
      else on_session i (sess_response false)
  | DELETE_FILE =>
      do! propagateDeleteFile filePath me in
      on_session i (sess_response true)
  | SYNC_STATUS =>
      let! m := Replication.getFileVersionMap in
      on_session i (sess_responseMap m)
  | ACQUIRE_LOCK =>
      let! ok := LockManager.acquireLock filePath me now in
      on_session i (sess_response ok)
  | RELEASE_LOCK =>
      let! ok := LockManager.releaseLock filePath now in
      on_session i (sess_response ok)
  | HEARTBEAT => on_session i (sess_response true)
  | CLOSE =>
      do! on_session i (sess_response true) in
      do! smodify (fun st : St => set_sessions (alter (sess_setIsAlive false) i (sessions st)) st) in
      post_task i (EraseClient me)
  | _ => on_session i (sess_response false)
  end.

(** What the pool runs for [EraseClient]. *)
Definition eraseClient (name : string) : SO St unit :=
  smodify (fun st : St => set_clients (delete name (clientEndpointMap st)) st).

(** The request handler of a client session and the pool task it submits:
    [resumeReads] is reached only when the handler returns. *)
Definition onClientRequest (i : sid) (me : string) (mex : Message) (now : Z) : SO St unit :=
  do! smodify (fun st : St => set_sessions (alter sess_suspendReads i (sessions st)) st) in
  do! handleClientRequest i me mex now in
  smodify (fun st : St => set_sessions (alter sess_resumeReads i (sessions st)) st).

(** [handleStandbyConnect], the session [i] being started. *)
Definition handleStandbyConnect (name : string) (i : sid) : SO St unit :=
  do! smodify (fun st : St => match standbys st with
                              | None => set_standbys (Some ∅) st
                              | Some _ => st
                              end) in
  registerStandby name i.

Definition getDataNodeSession (name : string) st : option sid := dataNodeEndpointMap st !! name.
Definition getClientSession (name : string) st : option sid := clientEndpointMap st !! name.

(** Greeting a client: one push per file that can be read. *)
Definition greet (i : sid) (files : gmap string Z) : SO St unit :=
  sfor_each (map_entries files) (fun file =>
    let! read := getFileFromDataNode file.1 in
    if (read.1 : bool) then post_task i (PushCreate file.1 file.2 read.2) else sret tt).

(** A datanode [me] that has connected with the session [i]. *)
Definition joinDataNode (me : string) (i : sid) (now : Z) : SO St unit :=
  do! smodify (fun st : St => set_endpoints (<[me := i]> (dataNodeEndpointMap st)) st) in
  let! files := on_session i sess_syncStatus in
  if isResponse files then
    do! registerDataNodeFiles me i (Wire.getFileVersionMap files) in
    buildFileLockMap now
  else sret tt.

(** A client [me] that has connected with the session [i], not started yet. *)
Definition joinClient (me : string) (i : sid) : SO St unit :=
  do! smodify (fun st : St => set_clients (<[me := i]> (clientEndpointMap st)) st) in
  let! files := Replication.getFileVersionMap in
  greet i files.
End requests.

(** [try { ... } catch (const std::exception &)]. *)
Definition attempt {S} (m : SO S unit) : SO S unit := fun s =>
  match m s with
  | (Done (Throw _), s) => (Done (Ok tt), s)
  | other => other
  end.

Section accept.
Context {C : Type} `{NetworkChannel C}.
Local Abbreviation St := (Server (ConnectionSession C)).
Implicit Types st : St.

(** [make_shared<ConnectionSession>]: a session nobody else refers to. *)
Definition addSession (s : ConnectionSession C) : SO St sid := fun st =>
  let i := fresh (dom (sessions st)) in
  (Done (Ok i), set_sessions (<[i := s]> (sessions st)) st).

(** The handshake of [handleAccept]: the peer's name, its type and the
    channel, or nothing when the connection is dropped. *)
Definition handshake (channel0 : C) : outcome (option (string * string * C)) :=
  match identify (newProtocol channel0 "[SERVER]" "SERVER") with
  | (Throw e, _) => Done (Throw e)
  | (Ok mex, p) =>
      if negb (alive p) then Done (Ok None)
      else
        let peerProcessName := getString mex PROCESS_NAME "" in
        let peerNodeType := getString mex NODE_TYPE "" in
        if bool_decide (peerNodeType = "DATANODE") || bool_decide (peerNodeType = "CLIENT")
           || bool_decide (peerNodeType = "STANDBY")
        then match response true p with
             | (Throw e, _) => Done (Throw e)
             | (Ok _, p) =>
                 if negb (alive p) then Done (Ok None)
                 else match channel p with
                      | Some c => Done (Ok (Some (peerProcessName, peerNodeType, c)))
                      | None => Done (Ok None)
                      end
             end
        else Done (Ok None)
  end.

Definition acceptDataNode (me : string) (c : C) (now : Z) : SO St unit :=
  let! i := addSession (newSession c "DATANODE" me) in
  joinDataNode me i now.

Definition acceptClient (me : string) (c : C) : SO St unit :=
  let! i := addSession (makeSession c "CLIENT" me) in
  do! joinClient me i in
  smodify (fun st : St => set_sessions (alter start i (sessions st)) st).

Definition acceptStandby (me : string) (c : C) : SO St unit :=
  let! i := addSession (newSession c "STANDBY" me) in
  handleStandbyConnect me i.

Definition handleAccept (channel0 : option C) (now : Z) : SO St unit :=
  match channel0 with
  | None => sret tt
  | Some c0 =>
      attempt
        (let! peer := fun st => (handshake c0, st) in
         match peer with
         | None => sret tt
         | Some (me, nodeType, c) =>
             if decide (nodeType = "STANDBY") then acceptStandby me c
             else if decide (nodeType = "DATANODE") then acceptDataNode me c now
             else acceptClient me c
         end)
  end.

(** The destructor, after the threads have been joined: the sessions of the
    datanodes and then of the clients are stopped. *)
Definition stopAll (ids : list sid) st : St :=
  fold_left (fun st i => set_sessions (alter stop i (sessions st)) st) ids st.
Definition destroyServer st : St :=
  stopAll (map_values (clientEndpointMap st)) (stopAll (map_values (dataNodeEndpointMap st)) st).

Definition stopped (o : option (ConnectionSession C)) : bool :=
  match o with Some s => negb (cs_isAlive s) | None => true end.

Lemma stopAll_stops ids st i : i ∈ ids \/ stopped (sessions st !! i) = true ->
  stopped (sessions (stopAll ids st) !! i) = true.
Proof.
  unfold stopAll. revert st. induction ids as [|j ids IH]; intros st Hi; [by set_solver|]. simpl. apply IH.
  cbn [sessions set_sessions]. destruct (decide (i = j)) as [->|Hne].
  - right. rewrite lookup_alter_eq. by destruct (sessions st !! j).
  - rewrite lookup_alter_ne by done. set_solver.
Qed.

(** No session of a datanode or a client outlives the server. *)
Lemma destroyServer_stops st name i :
  dataNodeEndpointMap st !! name = Some i \/ clientEndpointMap st !! name = Some i ->
  stopped (sessions (destroyServer st) !! i) = true.
Proof.
  assert (forall m : gmap string sid, m !! name = Some i -> i ∈ map_values m) as Hv.
  { intros m Hm. unfold map_values. apply list_elem_of_fmap. exists (name, i). by rewrite elem_of_map_entries. }
  intros [Hd|Hc]; apply stopAll_stops; [right; apply stopAll_stops|]; left; by apply Hv.
Qed.
End accept.

(** ** Answers to writes *)

Section answers.
Context {S : Type} `{DataNodeSession S}.
Local Abbreviation St := (Server S).
Implicit Types st : St.

Lemma on_session_run {A} i (m : SO S A) st s r s' :
  sessions st !! i = Some s -> m s = (r, s') ->
  on_session i m st = (r, set_sessions (<[i := s']> (sessions st)) st).
Proof. intros Hs Hm. unfold on_session. by rewrite Hs, Hm. Qed.

(** The last call of a handler: what the client is told. *)
Lemma told i (m : SO S unit) st c st' :
  sessions st !! i = Some c -> on_session i m st = (Done (Ok tt), st') ->
  exists c', m c = (Done (Ok tt), c') /\ st' = set_sessions (<[i := c']> (sessions st)) st.
Proof.
  intros Hc Hon. apply on_session_ok in Hon as (s & s' & Hs & Hm & ->).
  assert (s = c) as -> by congruence. eauto.
Qed.

(** Sessions other than the client's keep what they hold. *)
Lemma stored_elsewhere (acked : list (string * sid)) i c' path x st :
  i ∉ acked.*2 ->
  (forall n, n ∈ acked -> exists s, sessions st !! n.2 = Some s /\ holds s path = Some x) ->
  forall n, n ∈ acked -> exists s, <[i := c']> (sessions st) !! n.2 = Some s /\ holds s path = Some x.
Proof.
  intros Hi Hall n Hn. destruct (Hall n Hn) as (s & Hs & Hh). exists s. split; [|done].
  rewrite lookup_insert_ne; [done|]. intros ->. apply Hi, list_elem_of_fmap. by exists n.
Qed.

Lemma acked_sids answers nodes i :
  answers.*1 `sublist_of` nodes -> i ∉ nodes.*2 -> (i ∉ (ackedNodes answers).*2) /\ i ∉ answers.*1.*2.
Proof.
  intros Hsub Hi. assert (i ∉ answers.*1.*2) as Hn.
  { intros Hin. apply Hi. eapply elem_of_sublist; [exact Hin|]. by apply fmap_sublist. }
  split; [|done]. intros Hin. apply Hn. eapply elem_of_sublist; [exact Hin|].
  apply fmap_sublist, acked_sublist.
Qed.
End answers.


(** [b.txt] is on three datanodes; [alice] and [bob] have something to send. *)
Definition demo_cluster : Server Node :=
  set_sessions (<[10%positive := mkClient [zero; zero]]> (<[11%positive := mkClient [one]]>
    (sessions demo_created))) demo_created.
Definition request (op : Opcode) (path : string) (v : Z) : Message :=
  mkMessage op 0 0 0 [fieldString FILE_PATH path; fieldUint32 FILE_VERSION v].


(** The answer to a CREATE is the truth about the commit: the client is
    told ACK exactly when a quorum of the datanodes holds the file; then its
    version is recorded, and otherwise no recorded version changes. *)
Theorem create_request_answered {S} `{DataNodeSession S} (st : Server S) i me mex now c data c1 st' path v :
  dn_path path -> opcode mex = CREATE_FILE -> getString mex FILE_PATH "" = path ->
  i32 (getUint32 mex FILE_VERSION 0) = v ->
  sessions st !! i = Some c -> sess_acceptUpload c = (Done (Ok (true, data)), c1) ->
  distinct_sessions (dataNodeEndpointMap st) -> i ∉ map_values (dataNodeEndpointMap st) ->
  handleClientRequest i me mex now st = (Done (Ok tt), st') ->
  exists acked c2, acked `sublist_of` map_entries (dataNodeEndpointMap st)
    /\ (forall n, n ∈ acked -> exists s, sessions st' !! n.2 = Some s /\ holds s path = Some (v, data))
    /\ sessions st' !! i = Some c2
    /\ let ok := quorum st <=? Z.of_nat (length acked) in
       sess_response ok c1 = (Done (Ok tt), c2)
       /\ persistedVersionMap st'
          = if ok then <[path := v]> (persistedVersionMap st) else persistedVersionMap st.
Proof.
  intros Hp Hop Hpath Hv Hc Hup Hnd Hi Hh. unfold handleClientRequest in Hh. rewrite Hop, Hpath, Hv in Hh.
  rewrite (sbind_done _ _ _ _ _ (on_session_run _ _ _ _ _ _ Hc Hup)) in Hh. cbn [fst snd] in Hh.
  set (st0 := set_sessions _ st) in Hh. apply sbind_ok in Hh as (ok & st2 & Hu & Hh).
  apply create_inv in Hu as (answers & st1 & Hf & Hres). cbv zeta in Hres.
  change (dataNodeEndpointMap st0) with (dataNodeEndpointMap st) in *.
  destruct (fanout_spec _ _ _ _ _ Hnd Hf) as (Hos & Hsub & Hans & Hrest & _).
  destruct (acked_sids _ _ _ Hsub Hi) as [Hia Hin].
  assert (sessions st1 !! i = Some c1) as Hc1 by (rewrite Hrest by done; apply lookup_insert_eq).
  assert (forall n, n ∈ ackedNodes answers ->
            exists s, sessions st1 !! n.2 = Some s /\ holds s path = Some (v, data)) as Hhold.
  { eapply acked_hold; [|exact Hans]. intros s r s' Hr. eapply dn_create; [exact Hp| |exact Hr].
    rewrite <- Hv. apply i32_range. }
  unfold only_sessions in Hos. assert (quorum st1 = quorum st) as Hq by by rewrite Hos.
  assert (persistedVersionMap st1 = persistedVersionMap st) as Hv1 by by rewrite Hos.
  assert (sessions st2 = sessions st1 /\ ok = (quorum st <=? Z.of_nat (length (ackedNodes answers)))
    /\ persistedVersionMap st2 = if ok then <[path := v]> (persistedVersionMap st)
                                 else persistedVersionMap st) as (Hs2 & Hok & Hv2).
  { rewrite Hq in Hres. rewrite Z.leb_antisym. destruct (_ <? quorum st).
    - by destruct Hres as [-> ->].
    - destruct Hres as (-> & Hs & Hvm & _). by rewrite Hvm, Hv1. }
  apply (told _ _ _ c1) in Hh as (c2 & Hm & ->); [|congruence].
  exists (ackedNodes answers), c2. split_and!; [transitivity (answers.*1); [apply acked_sublist|done]| | |].
  - cbn [sessions set_sessions]. rewrite Hs2. by apply stored_elsewhere.
  - apply lookup_insert_eq.
  - cbv zeta. rewrite <-Hok. split; [done|exact Hv2].
Qed.

Lemma create_request_answered_witness :
  exists acked c2, acked `sublist_of` map_entries (dataNodeEndpointMap demo_cluster)
    /\ (forall n, n ∈ acked -> exists s,
          sessions (handleClientRequest 10%positive "alice" (request CREATE_FILE "c.txt" 0) 7 demo_cluster).2
            !! n.2 = Some s /\ holds s "c.txt" = Some (0, [zero; zero]))
    /\ sessions (handleClientRequest 10%positive "alice" (request CREATE_FILE "c.txt" 0) 7 demo_cluster).2
         !! 10%positive = Some c2
    /\ let ok := quorum demo_cluster <=? Z.of_nat (length acked) in
       sess_response ok (mkPeer true ∅ [] [zero; zero] false [makeAck]) = (Done (Ok tt), c2)
       /\ persistedVersionMap
            (handleClientRequest 10%positive "alice" (request CREATE_FILE "c.txt" 0) 7 demo_cluster).2
          = if ok then <["c.txt" := 0]> (persistedVersionMap demo_cluster)
            else persistedVersionMap demo_cluster.
Proof.
  apply (create_request_answered demo_cluster 10%positive "alice" (request CREATE_FILE "c.txt" 0) 7
           (mkClient [zero; zero]) [zero; zero]).
  - exact I.
  - reflexivity.
  - vm_compute. reflexivity.
  - vm_compute. reflexivity.
  - vm_compute. reflexivity.
  - vm_compute. reflexivity.
  - apply (bool_decide_unpack _). vm_compute. exact I.
  - apply (bool_decide_unpack _). vm_compute. exact I.
  - vm_compute. reflexivity.
Defined.

(** ** Locks and writes *)

Section ignores.
Context {S : Type} `{Session S}.
Local Abbreviation St := (Server S).
Implicit Types st : St.

(** [m] neither reads nor writes the lock table. *)
Definition ignores_locks {A} (m : SO St A) : Prop :=
  forall l st, m (set_locks l st) = ((m st).1, set_locks l (m st).2).

Lemma il_bind {A B} (m : SO St A) (k : A -> SO St B) :
  ignores_locks m -> (forall a, ignores_locks (k a)) -> ignores_locks (sbind m k).
Proof.
  intros Hm Hk l st. unfold sbind. rewrite Hm. destruct (m st) as [[[a|e]|] st1]; simpl; [apply Hk|done..].
Qed.
Lemma il_ret {A} (a : A) : ignores_locks (sret a).
Proof. done. Qed.
Lemma il_gets {A} (f : St -> A) : (forall l st, f (set_locks l st) = f st) -> ignores_locks (sgets f).
Proof. intros Hf l st. unfold sgets. by rewrite Hf. Qed.
Lemma il_modify (f : St -> St) :
  (forall l st, f (set_locks l st) = set_locks l (f st)) -> ignores_locks (smodify f).
Proof. intros Hf l st. unfold smodify. by rewrite Hf. Qed.
Lemma il_on_session i {A} (m : SO S A) : ignores_locks (on_session i m).
Proof.
  intros l st. unfold on_session. simpl. destruct (sessions st !! i) as [s|]; [|done]. by destruct (m s).
Qed.
Lemma il_for_each {A} (xs : list A) (body : A -> SO St unit) :
  (forall x, ignores_locks (body x)) -> ignores_locks (sfor_each xs body).
Proof. intros Hb. induction xs as [|x xs IH]; [apply il_ret|]. apply il_bind; auto. Qed.
Lemma il_fanout req nodes : ignores_locks (fanout req nodes).
Proof.
  induction nodes as [|[name i] nodes IH]; [apply il_ret|]. cbn [fanout].
  apply il_bind; [by apply il_gets|]. intros []; [|done].
  apply il_bind; [apply il_on_session|]. intros m. apply il_bind; [done|]. intros more. apply il_ret.
Qed.
Lemma il_sendDelta op path v names : ignores_locks (sendDelta op path v names).
Proof. intros l st. by rewrite !sendDelta_spec. Qed.
Lemma il_push clients origin t : ignores_locks (push_others clients origin t).
Proof. intros l st. by rewrite !push_others_spec. Qed.
End ignores.

#[export] Hint Resolve il_ret il_on_session il_fanout il_sendDelta il_push : squid.

Ltac ignore_locks :=
  repeat first
    [ progress auto with squid
    | apply il_bind; [|intros ?]
    | apply il_gets; intros; done
    | apply il_modify; intros; done
    | case_match ].

(** Locks are advisory: the outcome of an UPDATE request, everything it
    does to the server and everything the client is told are the same whatever
    the lock table says, so a client that holds no lock, or whose lease has
    expired, still overwrites a file another client has locked. *)
Theorem locks_are_advisory {S} `{Session S} (st : Server S) locks i me mex now :
  opcode mex = UPDATE_FILE ->
  handleClientRequest i me mex now (set_locks locks st)
  = ((handleClientRequest i me mex now st).1, set_locks locks (handleClientRequest i me mex now st).2).
Proof.
  intros Hop. revert locks st. change (ignores_locks (handleClientRequest i me mex now)).
  unfold handleClientRequest. rewrite Hop. unfold propagateUpdateFile. ignore_locks.
Qed.

Definition alice_lock : FileLock := grant (newFileLock "b.txt" 0) "alice" 7.

Lemma locks_are_advisory_witness :
  handleClientRequest 11%positive "bob" (request UPDATE_FILE "b.txt" 0) 7
    (set_locks {["b.txt" := alice_lock]} demo_cluster)
  = ((handleClientRequest 11%positive "bob" (request UPDATE_FILE "b.txt" 0) 7 demo_cluster).1,
     set_locks {["b.txt" := alice_lock]}
       (handleClientRequest 11%positive "bob" (request UPDATE_FILE "b.txt" 0) 7 demo_cluster).2).
Proof.
  apply (locks_are_advisory demo_cluster {["b.txt" := alice_lock]} 11%positive "bob"
           (request UPDATE_FILE "b.txt" 0) 7).
  reflexivity.
Defined.

(** Bob asks [demo_flaky], where two of three holders refuse, to delete. *)
Definition demo_flaky_client : Server Node :=
  set_sessions (<[11%positive := mkClient []]> (sessions demo_flaky)) demo_flaky.
Definition demo_flaky_deleted : outcome unit * Server Node :=
  handleClientRequest 11%positive "bob" (request DELETE_FILE "b.txt" 0) 7 demo_flaky_client.

(** DELETE is acknowledged even when it failed: with one of three holders
    obeying there is no quorum, the file stays recorded, and yet the client's
    session is answered ACK; the copy on the holder that obeyed is gone. *)
Theorem failed_delete_is_acknowledged :
  demo_flaky_deleted.1 = Done (Ok tt)
  /\ n_sent <$> (sessions demo_flaky_deleted.2 !! 11%positive) = Some [makeAck]
  /\ persistedVersionMap demo_flaky_deleted.2 !! "b.txt" = Some 0
  /\ map_keys (holdersOf "b.txt" demo_flaky_deleted.2) = ["dn1"; "dn2"; "dn3"]
  /\ (n_files <$> (sessions demo_flaky_deleted.2 !! 1%positive)) = Some ∅.
Proof. vm_compute. repeat split. Qed.

(** ** A request that throws *)

Section suspended.
Context {C : Type} `{NetworkChannel C}.
Local Abbreviation St := (Server (ConnectionSession C)).
Implicit Types st : St.

(** Asking the datanodes does not touch other sessions. *)
Lemma collectVersions_other nodes m st m' st' i :
  i ∉ nodes -> collectVersions nodes m st = (Done (Ok m'), st') ->
  sessions st' !! i = sessions st !! i.
Proof.
  revert m st. induction nodes as [|j nodes IH]; intros m st Hi Hc; [by injection Hc as <- <-|].
  apply not_elem_of_cons in Hi as [Hne Hi]. cbn [collectVersions] in Hc. rewrite sbind_gets in Hc.
  destruct (session_alive j st); [|by eapply IH].
  apply sbind_ok in Hc as (mex & st1 & Hon & Hc). rewrite (IH _ _ Hi Hc).
  apply on_session_ok in Hon as (s & s' & _ & _ & ->). cbn [sessions set_sessions]. by rewrite lookup_insert_ne.
Qed.

(** While reads are suspended a turn of the worker takes no input. *)
Lemma suspended_turn (s : ConnectionSession C) ready handle :
  cs_isAlive s = true -> tasks_ s = [] ->
  input (protocol_ (workerTurn true ready handle (suspendReads s)).2) = input (protocol_ s).
Proof.
  intros Hal Ht. unfold workerTurn, drainQueue. change (cs_isAlive (suspendReads s)) with (cs_isAlive s).
  rewrite Hal. cbn [negb tasks_ suspendReads]. rewrite Ht. cbn.
  destruct (negb _); [done|]. by rewrite orb_true_r.
Qed.

Lemma length_versionMapFields (m : gmap string Z) : length (versionMapFields m) = (2 * size m)%nat.
Proof.
  unfold versionMapFields. rewrite <-length_map_entries.
  induction (map_entries m) as [|kv kvs IH]; [done|]. cbn [map concat app length] in *. lia.
Qed.

Lemma responseMap_throws (m : gmap string Z) (p : SquidProtocol C) :
  (127 < size m)%nat -> responseMap m p = (Throw "Too many fields for a single frame", p).
Proof.
  intros Hm. unfold responseMap, responseFileVersionMap.
  rewrite buildFrame_spec, length_versionMapFields.
  by replace (_ <? _) with true by (symmetry; apply Z.ltb_lt; lia).
Qed.
End suspended.

(** A server that knows more than 127 files silences its clients: the
    answer to SYNC_STATUS does not fit a frame, the exception leaves the
    handler before [resumeReads], nothing is sent, and no turn of the worker of
    the client's session reads another request. *)
Theorem large_sync_suspends_client {C} `{NetworkChannel C}
    (st : Server (ConnectionSession C)) i me mex now s m st1 :
  let st0 := set_sessions (alter suspendReads i (sessions st)) st in
  opcode mex = SYNC_STATUS -> sessions st !! i = Some s -> cs_isAlive s = true -> tasks_ s = [] ->
  i ∉ map_values (dataNodeEndpointMap st) ->
  Replication.getFileVersionMap st0 = (Done (Ok m), st1) -> (127 < size m)%nat ->
  exists st', onClientRequest i me mex now st = (Done (Throw "Too many fields for a single frame"), st')
    /\ sessions st' !! i = Some (suspendReads s)
    /\ forall ready handle, input (protocol_ (workerTurn true ready handle (suspendReads s)).2)
                             = input (protocol_ s).
Proof.
  intros st0 Hop Hs Hal Ht Hi Hm Hbig. unfold onClientRequest. rewrite sbind_modify.
  change (set_sessions (alter sess_suspendReads i (sessions st)) st) with st0.
  assert (sessions st1 !! i = Some (suspendReads s)) as Hs1.
  { unfold Replication.getFileVersionMap in Hm. rewrite !sbind_gets in Hm.
    rewrite (collectVersions_other _ _ _ _ _ i Hi Hm). cbn [sessions set_sessions st0].
    by rewrite lookup_alter_eq, Hs. }
  assert (handleClientRequest i me mex now st0
          = (Done (Throw "Too many fields for a single frame"),
             set_sessions (<[i := suspendReads s]> (sessions st1)) st1)) as Hh.
  { unfold handleClientRequest. rewrite Hop, (sbind_done _ _ _ _ _ Hm). eapply on_session_run; [exact Hs1|].
    cbn [sess_responseMap ConnectionSession_session]. rewrite call_idle by done.
    rewrite responseMap_throws by done. by rewrite <-Ht; destruct s. }
  eexists. unfold sbind. rewrite Hh. split; [reflexivity|]. split; [apply lookup_insert_eq|].
  intros ready handle. apply suspended_turn.
  - exact Hal.
  - exact Ht.
Qed.

(** 128 files with one-letter names, and one client. *)
Definition demo_many : gmap string Z :=
  list_to_map (map (fun k => (string_of_bytes [byte_of_Z (Z.of_nat k)], 0)) (List.seq 0 128)).
Definition demo_busy : Server (ConnectionSession Pipe) :=
  ServerState.mkServer 3 0 ∅ {["alice" := 10%positive]} ∅ ∅ demo_many 0 None demo_disk
    {[10%positive := demo_session]} [].

Lemma large_sync_suspends_client_witness :
  exists st', onClientRequest 10%positive "alice" (request SYNC_STATUS "" 0) 7 demo_busy
              = (Done (Throw "Too many fields for a single frame"), st')
    /\ sessions st' !! 10%positive = Some (suspendReads demo_session)
    /\ forall ready handle,
         input (protocol_ (workerTurn true ready handle (suspendReads demo_session)).2)
         = input (protocol_ demo_session).
Proof.
  apply (large_sync_suspends_client demo_busy 10%positive "alice" (request SYNC_STATUS "" 0) 7
           demo_session demo_many
           (set_sessions (alter suspendReads 10%positive (sessions demo_busy)) demo_busy)).
  - reflexivity.
  - reflexivity.
  - reflexivity.
  - reflexivity.
  - apply (bool_decide_unpack _). vm_compute. exact I.
  - reflexivity.
  - apply Nat.ltb_lt. vm_compute. reflexivity.
Defined.
