(* ===== verification/ServerRun.v ===== *)
(** * The running server

    [Server::run] starts threads that accept connections, probe the datanodes,
    expire locks and send heartbeats to the standbys; requests run on a pool.
    [server_step] is one turn of any of them, each being one uninterrupted run
    that may return, throw or never come back, in any order of turns;
    [Concurrent] interleaves what happens inside a turn.  In every state that a
    server reaches, what is on disk covers what it has committed: a server that
    is restarted from the disk knows every file, at a version not below the
    committed one. *)

From S2P Require Import Prelude Text Wire FileManager FileTransfer Protocol StateStore Session ServerState LockManager Replication ClusterConfig Watcher Standby Server.

(** ** Version files in order *)

(** Paths that both readers of the version file take as written. *)
Definition good_path (path : string) : Prop := plain_path path /\ head (bytes_of_string path) <> Some hash.
#[export] Instance good_path_dec path : Decision (good_path path).
Proof. unfold good_path. apply _. Defined.

Definition good_entry (kv : string * Z) : Prop := good_path kv.1 /\ in_i32 kv.2.
Definition entryLine (kv : string * Z) : list byte := versionLine (bytes_of_string kv.1) kv.2.

Lemma good_line_path path : good_path path -> line_path path.
Proof. intros [[_ Hp] Hh]. split; [by apply no_space_free_of|done]. Qed.

Lemma entryLine_free kv : good_entry kv -> free_of newline (entryLine kv).
Proof. intros [[Hp _] _]. by apply versionLine_free. Qed.

Lemma parsedLine_entry kv : good_entry kv -> parsedLine (entryLine kv) = Some kv.
Proof.
  intros [[Hp _] Hv]. unfold parsedLine, entryLine. rewrite parseVersionLine_back by done.
  destruct kv. by rewrite string_of_bytes_of_string.
Qed.

Lemma versionStateEntry_entry kv : good_entry kv -> versionStateEntry (entryLine kv) = Some kv.
Proof.
  intros [Hp Hv]. unfold versionStateEntry, entryLine, versionLine. destruct kv as [p v]. cbn [fst snd] in *.
  rewrite splitStateLine_back; [|by apply good_line_path|apply no_space_free_of; [done|apply decimal_no_space]].
  by rewrite stoi_decimal, string_of_bytes_of_string.
Qed.

(** The version file has one good line per path. *)
Record tidy (d : Disk) (kvs : list (string * Z)) : Prop := {
  tidy_lines : versionLines d = map entryLine kvs;
  tidy_good : Forall good_entry kvs;
  tidy_nodup : NoDup kvs.*1 }.

Lemma tidy_store d kvs : tidy d kvs -> version_store d = list_to_map kvs.
Proof.
  intros [Hl Hg _]. unfold version_store. rewrite Hl. f_equal. apply omap_map_Some.
  eapply Forall_impl; [exact Hg|]. intros kv. apply parsedLine_entry.
Qed.

Lemma store_all_list_to_map {V} (kvs : list (string * V)) :
  NoDup kvs.*1 -> store_all kvs ∅ = list_to_map kvs.
Proof.
  intros Hnd. apply map_eq. intros k. destruct (list_to_map kvs !! k) as [v|] eqn:E.
  - apply elem_of_list_to_map_2 in E. by apply lookup_store_all.
  - apply not_elem_of_list_to_map_2 in E. by rewrite lookup_store_all_ne.
Qed.

(** Both readers see the same map. *)
Lemma tidy_load d kvs : tidy d kvs -> loadVersionMap d = version_store d.
Proof.
  intros Ht. rewrite (tidy_store d kvs Ht). destruct Ht as [Hl Hg Hn]. unfold loadVersionMap.
  change (getlines (read_text d (versionFilePath (root d)))) with (versionLines d). rewrite Hl.
  rewrite omap_map_Some; [by apply store_all_list_to_map|].
  eapply Forall_impl; [exact Hg|]. intros kv. apply versionStateEntry_entry.
Qed.

Lemma update_entry_keys p v kvs : (map (update_entry p v) kvs).*1 = kvs.*1.
Proof.
  induction kvs as [|kv kvs IH]; [done|]. csimpl. rewrite IH. f_equal.
  unfold update_entry. by case_decide.
Qed.

Lemma rewrite_entries p v kvs : Forall good_entry kvs ->
  omap (rewriteVersionLine (bytes_of_string p) v) (map entryLine kvs) = map entryLine (map (update_entry p v) kvs).
Proof.
  induction 1 as [|kv kvs Hkv _ IH]; [done|]. csimpl. rewrite IH.
  unfold rewriteVersionLine at 1. destruct Hkv as [[Hp _] Hv]. unfold entryLine at 1.
  rewrite parseVersionLine_back by done. f_equal. unfold update_entry.
  destruct (decide (kv.1 = p)) as [<-|Hne]; [by rewrite decide_True|]. rewrite decide_False; [done|].
  by intros ?%bytes_of_string_inj.
Qed.

Lemma tidy_set d kvs p v : tidy d kvs -> good_entry (p, v) -> openable d (versionFilePath (root d)) = true ->
  exists kvs', tidy (setFileVersion d p v) kvs'.
Proof.
  intros [Hl Hg Hn] Hpv Ho. unfold setFileVersion. rewrite Hl, rewrite_entries by done.
  assert (Forall good_entry (map (update_entry p v) kvs)) as Hg'.
  { apply Forall_map. eapply Forall_impl; [exact Hg|]. intros kv Hkv. unfold update_entry. by case_decide. }
  assert (omap parsedLine (map entryLine kvs) = kvs) as Hparsed.
  { apply omap_map_Some. eapply Forall_impl; [exact Hg|]. intros kv. apply parsedLine_entry. }
  assert (forall l, Forall good_entry l -> NoDup l.*1 ->
    exists kvs', tidy (write_file d (versionFilePath (root d)) (unlines (map entryLine l))) kvs') as Hw.
  { intros l Hgl Hnl. exists l. split; [|done|done]. apply versionLines_write; [done|].
    apply Forall_map. eapply Forall_impl; [exact Hgl|]. intros kv. apply entryLine_free. }
  destruct (hasVersionLine (bytes_of_string p) (map entryLine kvs)) eqn:Hin.
  - apply Hw; [done|]. by rewrite update_entry_keys.
  - rewrite <- not_true_iff_false, hasVersionLine_parsed, Hparsed in Hin.
    change [versionLine (bytes_of_string p) v] with (map entryLine [(p, v)]). rewrite <- map_app.
    apply Hw; [apply Forall_app; by split; [|constructor]|].
    rewrite fmap_app, update_entry_keys. apply NoDup_app. split; [done|].
    split; [|by apply NoDup_singleton]. intros k Hk ->%list_elem_of_singleton. done.
Qed.

(** ** What holds of the state *)

(** The version file, the replication file and its temporary file are
    different files. *)
Definition files_apart (root : string) : Prop :=
  versionFilePath root <> replicationPath root
  /\ versionFilePath root <> tmpPath (replicationPath root).
#[export] Instance files_apart_dec root : Decision (files_apart root).
Proof. unfold files_apart. apply _. Defined.

Section durable.
Context {S : Type} `{Session S}.
Local Abbreviation St := (Server S).
Implicit Types st : St.

Record Good st : Prop := {
  good_sound : sound (disk st);
  good_root : files_apart (root (disk st));
  good_versions : map_Forall (fun p v => good_entry (p, v)) (persistedVersionMap st) }.

(** [covers]: every committed version is on disk, or a later one. *)
Record Durable st : Prop := {
  durable_good : Good st;
  durable_tidy : exists kvs, tidy (disk st) kvs;
  durable_covers p v : persistedVersionMap st !! p = Some v ->
    exists v', version_store (disk st) !! p = Some v' /\ v <= v' }.

Lemma good_same st st' : disk st' = disk st -> persistedVersionMap st' = persistedVersionMap st ->
  Good st -> Good st'.
Proof. intros E1 E2 [Ho Hr Hv]. split; by rewrite ?E1, ?E2. Qed.
Lemma durable_same st st' : disk st' = disk st -> persistedVersionMap st' = persistedVersionMap st ->
  Durable st -> Durable st'.
Proof. intros E1 E2 [Hg Ht Hc]. split; [by eapply good_same|by rewrite E1|]. by rewrite E1, E2. Qed.

Lemma runFs_sound ops d : sound d -> sound (runFs d ops).
Proof.
  intros Hd. revert d Hd. induction ops as [|op ops IH]; intros d Hd; [done|]. unfold runFs in *. simpl.
  apply IH. destruct op; simpl; try done. by destruct (files d !! src).
Qed.

(** What [persistState] leaves in the version file. *)
Lemma persist_lines (d : Disk) (m : gmap string Z) (rm : gmap string (gset string)) :
  sound d -> files_apart (root d) -> map_Forall (fun p v => good_entry (p, v)) m ->
  let d1 := runFs d (saveVersionMap d m) in
  tidy (runFs d1 (saveReplicationMap d1 rm)) (map_entries m).
Proof.
  intros Ho [Hr1 Hr2] Hg d1. set (d2 := runFs d1 _).
  assert (root d1 = root d) as Er1 by apply runFs_root.
  assert (root d2 = root d) as Er2 by (unfold d2; by rewrite runFs_root).
  assert (Forall good_entry (map_entries m)) as Hge.
  { apply Forall_forall. intros [p v] Hin%elem_of_map_entries. by apply Hg. }
  assert (files d2 !! versionFilePath (root d) = Some (concat (versionPieces m))) as Hf.
  { destruct (atomicWrite_done d (versionFilePath (root d)) (versionPieces m) Ho) as [Hd _].
    rewrite <- Hd. unfold d2, saveReplicationMap. rewrite Er1.
    set (ops := atomicWrite d1 _ _).
    replace ops with (take (length ops) ops) by (by apply take_ge).
    by apply atomicWrite_prefix. }
  split; [|done|apply NoDup_map_keys].
  unfold versionLines, read_text. rewrite Er2, Hf. cbn [default].
  change (from_option Datatypes.id [] (Some ?x)) with x.
  rewrite versionPieces_lines. change (fun kv : string * Z => bytes_of_string kv.1 ++ space :: decimal kv.2) with entryLine.
  apply getlines_unlines. apply Forall_map. eapply Forall_impl; [exact Hge|]. intros kv. apply entryLine_free.
Qed.

Lemma persist_durable st : Good st -> Durable (persistState st).2.
Proof.
  intros [Ho Hr Hg]. cbn [persistState smodify snd]. set (d1 := runFs (disk st) _).
  set (d2 := runFs d1 _).
  assert (tidy d2 (map_entries (persistedVersionMap st))) as Ht by (by apply persist_lines).
  split.
  - split; cbn.
    + by apply runFs_sound, runFs_sound.
    + unfold d2, d1. by rewrite !runFs_root.
    + exact Hg.
  - eexists. exact Ht.
  - cbn. intros p v Hv. exists v. split; [|lia]. rewrite (tidy_store _ _ Ht).
    by rewrite list_to_map_entries.
Qed.

(** [setFileVersion] on the server's disk. *)
Lemma setVersion_good st p v : Good st -> Good (set_disk (setFileVersion (disk st) p v) st).
Proof.
  intros [Ho Hr Hg]. unfold setFileVersion, write_file. rewrite (proj1 (Ho _)). by split.
Qed.

Lemma raise_durable st p v : good_entry (p, v) -> getFileVersion (disk st) p < v -> Durable st ->
  Durable (set_disk (setFileVersion (disk st) p v) st).
Proof.
  intros Hpv Hlt [Hg [kvs Ht] Hc]. split.
  - by apply setVersion_good.
  - apply (tidy_set _ _ _ _ Ht Hpv). apply (good_sound _ Hg).
  - cbn. intros q w Hw. destruct (Hc q w Hw) as (w' & Hw' & Hle).
    rewrite version_store_set; [|apply Hpv|apply Hpv|apply (good_sound _ Hg)].
    destruct (decide (q = p)) as [->|Hne]; [|rewrite lookup_insert_ne by done; eauto].
    rewrite lookup_insert_eq. exists v. split; [done|]. rewrite getFileVersion_store, Hw' in Hlt. cbn in Hlt. lia.
Qed.

(** *** Computations that keep a predicate, whatever their outcome *)

Definition keeping (P : St -> Prop) {A} (m : SO St A) : Prop := forall st, P st -> P (m st).2.
(** ... that bring it about from a weaker one. *)
Definition leading (P Q : St -> Prop) {A} (m : SO St A) : Prop := forall st, P st -> Q (m st).2.

Lemma leading_bind {A B} (P Q R : St -> Prop) (m : SO St A) (k : A -> SO St B) :
  leading P Q m -> (forall st, Q st -> R st) -> (forall a, leading Q R (k a)) -> leading P R (sbind m k).
Proof.
  intros Hm HQR Hk st HP. specialize (Hm st HP). unfold sbind. destruct (m st) as [[[a|e]|] st1]; cbn in *; auto.
  by apply Hk.
Qed.
Lemma keeping_bind {A B} (P : St -> Prop) (m : SO St A) (k : A -> SO St B) :
  keeping P m -> (forall a, keeping P (k a)) -> keeping P (sbind m k).
Proof. intros Hm Hk. by apply (leading_bind P P P). Qed.
Lemma keeping_ret {A} (P : St -> Prop) (a : A) : keeping P (sret a).
Proof. by intros st. Qed.
Lemma keeping_gets {A} (P : St -> Prop) (f : St -> A) : keeping P (sgets f).
Proof. by intros st. Qed.
Lemma keeping_modify (P : St -> Prop) f : (forall st, P st -> P (f st)) -> keeping P (smodify f).
Proof. by intros Hf st HP; apply Hf. Qed.
Lemma keeping_for_each {A} (P : St -> Prop) (xs : list A) (body : A -> SO St unit) :
  (forall x, x ∈ xs -> keeping P (body x)) -> keeping P (sfor_each xs body).
Proof.
  induction xs as [|x xs IH]; intros Hb; cbn [sfor_each]; [apply keeping_ret|].
  apply keeping_bind; [apply Hb; set_solver|]. intros ?. apply IH. intros y Hy. apply Hb. set_solver.
Qed.

(** A predicate on the disk and the version map only. *)
Class OnVersions (P : St -> Prop) : Prop :=
  on_versions st st' : disk st' = disk st -> persistedVersionMap st' = persistedVersionMap st -> P st -> P st'.
#[export] Instance Good_on : OnVersions Good.
Proof. intros st st'. apply good_same. Qed.
#[export] Instance Durable_on : OnVersions Durable.
Proof. intros st st'. apply durable_same. Qed.

Lemma keeping_frame (P : St -> Prop) `{!OnVersions P} f :
  (forall st, disk (f st) = disk st /\ persistedVersionMap (f st) = persistedVersionMap st) -> keeping P (smodify f).
Proof. intros Hf. apply keeping_modify. intros st. destruct (Hf st). by apply on_versions. Qed.

Lemma keeping_on_session {A} (P : St -> Prop) `{!OnVersions P} i (m : SO S A) : keeping P (on_session i m).
Proof.
  intros st HP. unfold on_session. destruct (sessions st !! i) as [s|]; [|done]. destruct (m s) as [r s'].
  by apply (on_versions st).
Qed.
Lemma keeping_post (P : St -> Prop) `{!OnVersions P} i t : keeping P (post_task i t).
Proof. by apply keeping_frame. Qed.
End durable.

Ltac keep :=
  repeat (cbn beta iota zeta; lazymatch goal with
    | |- keeping _ (sbind _ _) => apply keeping_bind; [|intros ?]
    | |- keeping _ (sret _) => apply keeping_ret
    | |- keeping _ (sgets _) => apply keeping_gets
    | |- keeping _ (on_session _ _) => apply keeping_on_session; apply _
    | |- keeping _ (post_task _ _) => apply keeping_post; apply _
    | |- keeping _ (sfor_each _ _) => apply keeping_for_each; intros ? ?
    | |- keeping _ (smodify _) => apply keeping_frame; [apply _|intros ?; split; reflexivity]
    | |- keeping _ (if ?b then _ else _) => destruct b
    | |- keeping _ (match ?x with _ => _ end) => destruct x
    end).

Section frame.
Context {S : Type} `{Session S} (P : Server S -> Prop) `{!OnVersions P}.
Local Abbreviation St := (Server S).

Lemma keeping_fanout req nodes : keeping P (fanout req nodes).
Proof. induction nodes as [|[name i] nodes IH]; cbn [fanout]; keep; apply IH. Qed.
Lemma keeping_sendDelta op path v names : keeping P (sendDelta op path v names).
Proof. unfold sendDelta. keep. Qed.
Lemma keeping_push clients origin t : keeping P (push_others clients origin t).
Proof. unfold push_others. keep. Qed.
Lemma keeping_tryHolders path expected hs : keeping P (tryHolders path expected hs).
Proof. induction hs as [|h rest IH]; cbn [tryHolders]; keep; apply IH. Qed.
Lemma keeping_read path : keeping P (getFileFromDataNode path).
Proof.
  intros st HP. unfold getFileFromDataNode. destruct (_ !! path); [|done].
  destruct (liveHolders path st); [done|]. by apply keeping_tryHolders.
Qed.
Lemma keeping_collect nodes m : keeping P (collectVersions nodes m).
Proof. revert m. induction nodes as [|i rest IH]; intros m; cbn [collectVersions]; keep; apply IH. Qed.
Lemma keeping_getVersions : keeping P Replication.getFileVersionMap.
Proof. unfold Replication.getFileVersionMap. keep. apply keeping_collect. Qed.
Lemma keeping_offer path data candidates holders : keeping P (offer path data candidates holders).
Proof.
  revert holders. induction candidates as [|[name i] rest IH]; intros holders; cbn [offer]; keep; apply IH.
Qed.
Lemma keeping_probe nodes : keeping P (probeAll nodes).
Proof. induction nodes as [|[name i] rest IH]; cbn [probeAll]; keep; apply IH. Qed.
Lemma keeping_insertLock path now : keeping P (insertLock path now).
Proof. apply keeping_frame; [apply _|]. intros st. by destruct (fileLockMap st !! path). Qed.
Lemma keeping_expireOne expired : keeping P (expireOne expired).
Proof.
  unfold expireOne. keep. apply keeping_frame; [apply _|]. intros st. by destruct (fileLockMap st !! expired.1).
Qed.
Lemma keeping_expiration now : keeping P (checkFileLockExpiration now).
Proof. unfold checkFileLockExpiration. keep. apply keeping_expireOne. Qed.
Lemma keeping_greet i files : keeping P (greet i files).
Proof. unfold greet. keep. apply keeping_read. Qed.
Lemma keeping_beatAll snapshot : keeping P (beatAll snapshot).
Proof. induction snapshot as [|[name i] rest IH]; cbn [beatAll]; keep; apply IH. Qed.
Lemma keeping_standbyBeat : keeping P Standby.sendHeartbeats.
Proof.
  unfold Standby.sendHeartbeats. keep. apply keeping_beatAll.
Qed.
Lemma keeping_registerStandby name i : keeping P (registerStandby name i).
Proof. unfold registerStandby, sendSnapshot, addStandby. keep. apply keeping_getVersions. Qed.
End frame.

(** *** The operations that commit *)

Section commits.
Context {S : Type} `{Session S}.
Local Abbreviation St := (Server S).
Implicit Types st : St.

(** A change of the state that leads through [Good] to [persistState]. *)
Lemma leading_modify {B} f (k : unit -> SO St B) :
  (forall st, Good st -> Good (f st)) -> leading Good Durable (k tt) ->
  leading Good Durable (sbind (smodify f) k).
Proof. intros Hf Hk st Hg. rewrite sbind_modify. by apply Hk, Hf. Qed.

Lemma leading_persist {B} (k : unit -> SO St B) :
  keeping Durable (k tt) -> leading Good Durable (sbind persistState k).
Proof.
  intros Hk st Hg. unfold persistState. rewrite sbind_modify. by apply Hk, (persist_durable st).
Qed.

Lemma keeping_leading {A} (m : SO St A) : leading Good Durable m -> keeping Durable m.
Proof. intros Hm st Hd. by apply Hm, durable_good. Qed.

Lemma good_frame st f : disk (f st) = disk st -> persistedVersionMap (f st) = persistedVersionMap st ->
  Good st -> Good (f st : St).
Proof. apply good_same. Qed.

Lemma good_insert p v st : good_entry (p, v) -> Good st ->
  Good (set_versions (<[p := v]> (persistedVersionMap st)) st).
Proof. intros Hpv [Ho Hr Hg]. split; [done|done|]. cbn. by apply map_Forall_insert_2. Qed.

(** A value read, or an answer of the datanodes, before the rest. *)
Lemma keeping_then {A B} (m : SO St A) (k : A -> SO St B) :
  keeping Durable m -> (forall a, keeping Durable (k a)) -> keeping Durable (sbind m k).
Proof. apply keeping_bind. Qed.

Lemma keeping_create path v origin data now :
  good_entry (path, v) -> keeping Durable (propagateCreateFile path v origin data now).
Proof.
  intros Hpv. unfold propagateCreateFile.
  apply keeping_then; [keep|intros nodes]. apply keeping_then; [keep|intros clients].
  apply keeping_then; [apply keeping_fanout, _|intros answers]. apply keeping_then; [keep|intros q].
  case_match; [keep|]. apply keeping_then; [keep|intros ?].
  apply keeping_leading. apply leading_modify; [intros st; by apply good_insert|].
  apply leading_modify; [intros st; destruct (fileLockMap st !! path); [done|by apply good_same]|].
  apply leading_modify; [intros st; apply setVersion_good|]. apply leading_persist.
  apply keeping_then; [apply keeping_sendDelta, _|intros ?].
  apply keeping_then; [apply keeping_push, _|intros ?]. keep.
Qed.

Lemma keeping_value {A B} (f : St -> A) (k : A -> SO St B) (X : A -> Prop) :
  (forall st, X (f st)) -> (forall a, X a -> keeping Durable (k a)) -> keeping Durable (sbind (sgets f) k).
Proof. intros HX Hk st Hd. rewrite sbind_gets. by apply Hk. Qed.

Lemma keeping_update path seen origin data :
  good_path path -> keeping Durable (propagateUpdateFile path seen origin data).
Proof.
  intros Hp. unfold propagateUpdateFile.
  apply (keeping_value _ _ in_i32); [intros st; apply i32_range|intros nv Hnv].
  apply keeping_then; [keep|intros nodes]. apply keeping_then; [keep|intros clients].
  apply keeping_then; [apply keeping_fanout, _|intros answers]. apply keeping_then; [keep|intros q].
  cbn zeta. case_match; [keep|].
  apply keeping_leading. apply leading_modify; [intros st; by apply good_insert|].
  apply leading_modify; [intros st; apply setVersion_good|]. apply leading_persist.
  apply keeping_then; [keep|intros names]. apply keeping_then; [apply keeping_sendDelta, _|intros ?].
  apply keeping_then; [apply keeping_push, _|intros ?]. keep.
Qed.

Lemma deleteFile_frame d path :
  (sound d -> sound (deleteFileAndVersion d path).2) /\ root (deleteFileAndVersion d path).2 = root d.
Proof.
  unfold deleteFileAndVersion, FileManager.deleteFile. destruct (files d !! resolvePath (root d) path) eqn:E; [|done].
  cbn. unfold write_file. by case_match.
Qed.

Lemma good_delete path st : Good st -> Good (set_disk (deleteFileAndVersion (disk st) path).2 st).
Proof.
  intros [Ho Hr Hg]. destruct (deleteFile_frame (disk st) path) as [E1 E2].
  split; cbn; [by apply E1|by rewrite E2|done].
Qed.

Lemma keeping_delete path origin : keeping Durable (propagateDeleteFile path origin).
Proof.
  unfold propagateDeleteFile.
  apply keeping_then; [keep|intros nodes]. apply keeping_then; [keep|intros clients].
  apply keeping_then; [apply keeping_fanout, _|intros answers]. apply keeping_then; [keep|intros q].
  cbn zeta. case_match; [keep|]. apply keeping_then; [apply keeping_push, _|intros ?].
  apply keeping_then; [unfold eraseLock; keep|intros ?].
  apply keeping_leading. apply leading_modify.
  { intros st [Ho Hr Hg]. split; [done|done|]. cbn. by apply map_Forall_delete. }
  apply leading_modify; [apply good_delete|]. apply leading_persist. apply keeping_sendDelta, _.
Qed.

Lemma leading_persist_last : leading Good Durable (persistState (S := S)).
Proof. intros st. apply persist_durable. Qed.

Lemma keeping_rebalance path holders : keeping Durable (rebalanceFileReplication path holders).
Proof.
  unfold rebalanceFileReplication. destruct (map_values holders) as [|source rest]; [keep|].
  apply keeping_then; [keep|intros r]. case_match; [keep|]. apply keeping_then; [keep|intros candidates].
  apply keeping_then; [apply keeping_offer, _|intros holders'].
  apply keeping_leading, leading_modify; [intros st; by apply good_same|]. apply leading_persist_last.
Qed.

Lemma keeping_erase name : keeping Durable (eraseFromReplicationMap name).
Proof.
  unfold eraseFromReplicationMap. apply keeping_then; [keep|intros targets].
  apply keeping_leading, leading_modify; [intros st; by apply good_same|]. apply leading_persist.
  keep. apply keeping_rebalance.
Qed.

Lemma keeping_heartbeats : keeping Durable (Replication.sendHeartbeats (S := S)).
Proof.
  unfold Replication.sendHeartbeats, eraseAllFromReplicationMap. apply keeping_then; [keep|intros nodes].
  apply keeping_then; [apply keeping_probe, _|intros dead]. apply keeping_then; [keep|intros ?].
  keep. apply keeping_erase.
Qed.
End commits.

(** ** Reports of the datanodes *)

(** The datanodes report paths that can be recorded. *)
Class PlainReports (S : Type) `{Session S} : Prop :=
  plain_reports s m s' : sess_syncStatus s = (Done (Ok m), s') -> isResponse m = true ->
    map_Forall (fun p v => good_entry (p, v)) (Wire.getFileVersionMap m).

Section reports.
Context {S : Type} `{Session S} `{!PlainReports S}.
Local Abbreviation St := (Server S).

(** The answer to a question about the files. *)
Lemma keeping_report {B} (P : St -> Prop) `{!OnVersions P} i (k : Message -> SO St B) :
  (forall m, (isResponse m = true -> map_Forall (fun p v => good_entry (p, v)) (Wire.getFileVersionMap m)) ->
     keeping P (k m)) ->
  keeping P (let! m := on_session i sess_syncStatus in k m).
Proof.
  intros Hk st HP. pose proof (keeping_on_session P i sess_syncStatus st HP) as Hs.
  unfold sbind, on_session in *. destruct (sessions st !! i) as [s|]; [|done].
  destruct (sess_syncStatus s) as [[[m|e]|] s'] eqn:E; try done. apply Hk; [|done].
  by eapply plain_reports.
Qed.

Lemma keeping_learn now file : good_entry file -> keeping Durable (learnFile (S := S) now file).
Proof.
  intros Hf. unfold learnFile. apply keeping_bind.
  { apply keeping_frame; [apply _|]. intros st. by destruct (fileLockMap st !! file.1). }
  intros ?. apply keeping_modify. intros st Hd.
  destruct (Z.ltb_spec (getFileVersion (disk st) file.1) file.2); [|done]. destruct file. by apply raise_durable.
Qed.

Lemma keeping_build now : keeping Durable (buildFileLockMap (S := S) now).
Proof.
  unfold buildFileLockMap. apply keeping_bind; [keep|intros nodes]. apply keeping_for_each. intros node _.
  apply keeping_bind; [keep|intros live]. destruct live; cbn [negb]; [|keep].
  apply keeping_report; [apply _|]. intros m Hm. destruct (isResponse m); cbn [negb]; [|keep].
  apply keeping_for_each. intros [p v] Hx. apply keeping_learn. apply elem_of_map_entries in Hx.
  by apply (Hm eq_refl).
Qed.

Lemma keeping_findLock path now : keeping Durable (findLock (S := S) path now).
Proof. unfold findLock. keep. apply keeping_build. Qed.
Lemma keeping_acquire path client now : keeping Durable (LockManager.acquireLock (S := S) path client now).
Proof. unfold LockManager.acquireLock. keep. apply keeping_findLock. Qed.
Lemma keeping_release path now : keeping Durable (LockManager.releaseLock (S := S) path now).
Proof. unfold LockManager.releaseLock. keep. apply keeping_build. Qed.

Lemma good_register name i file : good_entry file -> keeping Good (registerFile (S := S) name i file).
Proof.
  intros Hf. unfold registerFile. apply keeping_bind; [keep|intros ?]. apply keeping_bind; [keep|intros cur].
  case_match; [|keep]. destruct file as [p v]. apply keeping_bind; [|intros ?]; apply keeping_modify; intros st.
  - by apply good_insert.
  - apply setVersion_good.
Qed.

Lemma registerFiles_done name i files (st : St) :
  exists st', sfor_each files (registerFile name i) st = (Done (Ok tt), st').
Proof.
  revert st. induction files as [|file files IH]; intros st; cbn [sfor_each]; [by eexists|].
  assert (exists st1, registerFile name i file st = (Done (Ok tt), st1)) as [st1 E].
  { unfold registerFile. rewrite sbind_modify, sbind_gets. case_match; by eexists. }
  rewrite (sbind_done _ _ _ _ _ E). apply IH.
Qed.

Lemma keeping_registerFiles name i fvm :
  map_Forall (fun p v => good_entry (p, v)) fvm -> keeping Durable (registerDataNodeFiles (S := S) name i fvm).
Proof.
  intros Hg st Hd. unfold registerDataNodeFiles.
  assert (keeping Good (sfor_each (map_entries fvm) (registerFile (S := S) name i))) as Hk.
  { apply keeping_for_each. intros [p v] Hx%elem_of_map_entries. apply good_register. by apply Hg. }
  specialize (Hk st (durable_good _ Hd)).
  destruct (registerFiles_done name i (map_entries fvm) st) as [st' E].
  rewrite E in Hk. rewrite (sbind_done _ _ _ _ _ E). by apply persist_durable.
Qed.

Lemma keeping_joinDataNode me i now : keeping Durable (joinDataNode (S := S) me i now).
Proof.
  unfold joinDataNode. apply keeping_bind; [keep|intros ?]. apply keeping_report; [apply _|]. intros m Hm.
  destruct (isResponse m); [|keep]. apply keeping_bind; [|intros ?; apply keeping_build].
  apply keeping_registerFiles. by apply Hm.
Qed.

Lemma keeping_joinClient me i : keeping Durable (joinClient (S := S) me i).
Proof. unfold joinClient. keep; [apply keeping_getVersions, _|apply keeping_greet, _]. Qed.

Lemma keeping_standbyConnect name i : keeping Durable (handleStandbyConnect (S := S) name i).
Proof.
  unfold handleStandbyConnect. apply keeping_bind; [|intros ?; apply keeping_registerStandby, _].
  apply keeping_frame; [apply _|]. intros st. by destruct (standbys st).
Qed.

(** The requests that record a path record a good one. *)
Definition good_request (mex : Message) : Prop :=
  opcode mex = CREATE_FILE \/ opcode mex = UPDATE_FILE -> good_path (getString mex FILE_PATH "").
#[export] Instance good_request_dec mex : Decision (good_request mex).
Proof. unfold good_request. apply _. Defined.

Lemma keeping_request i me mex now :
  good_request mex -> keeping Durable (handleClientRequest (S := S) i me mex now).
Proof.
  intros Hg. unfold handleClientRequest, good_request in *. set (path := getString mex FILE_PATH "") in *.
  set (v := i32 _). cbn zeta. destruct (opcode mex); try by keep.
  - apply keeping_bind; [apply keeping_getVersions, _|intros m]. keep.
  - apply keeping_bind; [keep|intros up]. apply keeping_bind; [|intros ok; keep].
    destruct (up.1); [|keep]. apply keeping_create. split; [apply Hg; auto|apply i32_range].
  - apply keeping_bind; [apply keeping_read, _|intros rd]. keep.
  - apply keeping_bind; [keep|intros up]. apply keeping_bind; [|intros nv; keep].
    destruct (up.1); [|keep]. apply keeping_update. apply Hg; auto.
  - apply keeping_bind; [apply keeping_delete|intros ?]. keep.
  - apply keeping_bind; [apply keeping_acquire|intros ok]. keep.
  - apply keeping_bind; [apply keeping_release|intros ok]. keep.
Qed.

(** ** Turns of the threads *)

(** One turn: a connection that [handleAccept] takes (its session added), a
    request on the pool, the loops of [run], a task of the pool, or what the
    worker of a session does to it. *)
Inductive server_step (st : St) : St -> Prop :=
| step_datanode me i s now :
    server_step st (joinDataNode me i now (set_sessions (<[i := s]> (sessions st)) st)).2
| step_client me i s :
    server_step st (joinClient me i (set_sessions (<[i := s]> (sessions st)) st)).2
| step_standby me i s :
    server_step st (handleStandbyConnect me i (set_sessions (<[i := s]> (sessions st)) st)).2
| step_request i me mex now :
    good_request mex -> server_step st (onClientRequest i me mex now st).2
| step_heartbeats : server_step st (Replication.sendHeartbeats st).2
| step_expiry now : server_step st (checkFileLockExpiration now st).2
| step_standby_beat : server_step st (Standby.sendHeartbeats st).2
| step_erase name : server_step st (eraseClient name st).2
| step_worker i s : server_step st (set_sessions (<[i := s]> (sessions st)) st).

Lemma step_durable (st st' : St) : server_step st st' -> Durable st -> Durable st'.
Proof.
  assert (forall i s (st0 : St), Durable st0 -> Durable (set_sessions (<[i := s]> (sessions st0)) st0)) as Hset.
  { intros i s st0. by apply durable_same. }
  intros [me i s now|me i s|me i s|i me mex now Hg| |now| |name|i s] Hd.
  - by apply keeping_joinDataNode, Hset.
  - by apply keeping_joinClient, Hset.
  - by apply keeping_standbyConnect, Hset.
  - unfold onClientRequest. revert st Hd. change (keeping Durable (onClientRequest (S := S) i me mex now)).
    unfold onClientRequest. apply keeping_bind; [keep|intros ?].
    apply keeping_bind; [by apply keeping_request|intros ?]. keep.
  - by apply keeping_heartbeats.
  - by apply keeping_expiration; [apply _|].
  - by apply keeping_standbyBeat; [apply _|].
  - by apply (durable_same st).
  - by apply Hset.
Qed.

Lemma run_durable (st st' : St) : rtc server_step st st' -> Durable st -> Durable st'.
Proof. induction 1; eauto using step_durable. Qed.

Lemma new_durable rf ep d kvs :
  tidy d kvs -> sound d -> files_apart (root d) -> Durable (newServer rf ep d : St).
Proof.
  intros Ht Ho Hr. assert (loadVersionMap d = list_to_map kvs) as Hl
    by (rewrite (tidy_load d kvs Ht); by apply tidy_store).
  split; [split; [done|done|]|by eexists|]; cbn.
  - intros p v. rewrite Hl. intros Hin%elem_of_list_to_map_2. destruct Ht as [_ Hg _].
    rewrite Forall_forall in Hg. by apply (Hg (p, v)).
  - intros p v Hv. exists v. split; [|lia]. by rewrite <- (tidy_load d kvs Ht).
Qed.
End reports.

(** C3. No commit is lost by a restart of the process: in every state a server
    reaches by any sequence of connections, requests, heartbeats and
    expirations, each run as one step, and also when some of them throw or never
    return, a server started from its disk knows every committed file, at the
    committed version or a later one.  This holds for paths that the version
    file can record (no white space, no hash at the start: otherwise
    [hash_path_forgotten]), in the requests, in the reports of the datanodes and
    on the disk at the start, and for a disk on which files can be opened,
    written, synced and renamed, with the version file apart from the
    replication file. *)
Theorem restart_keeps_commits {S} `{Session S} `{!PlainReports S} rf ep ep' d kvs (st : Server S) p v :
  tidy d kvs -> sound d -> files_apart (root d) ->
  rtc server_step (newServer rf ep d) st -> persistedVersionMap st !! p = Some v ->
  exists v', persistedVersionMap (newServer rf ep' (disk st) : Server S) !! p = Some v' /\ v <= v'.
Proof.
  intros Ht Ho Hr Hrun Hv.
  destruct (run_durable _ _ Hrun (new_durable rf ep d kvs Ht Ho Hr)) as [_ [kvs' Ht'] Hc].
  cbn. rewrite (tidy_load _ _ Ht'). by apply Hc.
Qed.

(** *** A run *)

(** In-memory datanodes that report only paths that can be recorded. *)
Definition Node_plain : Session Node := {|
  sess_isAlive := n_alive;
  sess_setIsAlive := @sess_setIsAlive Node _;
  sess_createFile := @sess_createFile Node _;
  sess_updateFile := @sess_updateFile Node _;
  sess_readFile := @sess_readFile Node _;
  sess_deleteFile := @sess_deleteFile Node _;
  sess_syncStatus n := (Done (Ok (mkMessage RESPONSE FLAG_RESPONSE 0 0 [])), n);
  sess_heartbeat := @sess_heartbeat Node _;
  sess_response := @sess_response Node _;
  sess_responseV := @sess_responseV Node _;
  sess_responseMap := @sess_responseMap Node _;
  sess_sendFileData := @sess_sendFileData Node _;
  sess_acceptUpload := @sess_acceptUpload Node _;
  sess_suspendReads := @sess_suspendReads Node _;
  sess_resumeReads := @sess_resumeReads Node _;
  sess_sendStateSnap := @sess_sendStateSnap Node _ |}.

Lemma Node_plain_reports : @PlainReports Node Node_plain.
Proof. intros s m s' [= <- <-] _. cbn. apply map_Forall_empty. Qed.

Definition demo_boot : Disk := mkDisk "/data" ∅ (fun _ => true) (fun _ => sound_io).
Definition demo_run0 : Server Node := @newServer Node 1 0 demo_boot.
Definition demo_run1 : Server Node :=
  (@joinDataNode Node Node_plain "dn1" 1 7 (set_sessions (<[1%positive := demo_node]> (sessions demo_run0)) demo_run0)).2.
Definition demo_run2 : Server Node :=
  (@joinClient Node Node_plain "alice" 10 (set_sessions (<[10%positive := mkClient [zero]]> (sessions demo_run1)) demo_run1)).2.
Definition demo_create : Message :=
  mkMessage CREATE_FILE 0 0 0 [fieldString FILE_PATH "a.txt"; fieldUint32 FILE_VERSION 4].
Definition demo_run3 : Server Node := (@onClientRequest Node Node_plain 10 "alice" demo_create 7 demo_run2).2.

Lemma restart_keeps_commits_witness :
  exists v', persistedVersionMap (newServer 1 5 (disk demo_run3) : Server Node) !! "a.txt" = Some v' /\ 4 <= v'.
Proof.
  apply (@restart_keeps_commits Node Node_plain Node_plain_reports 1 0 5 demo_boot [] demo_run3 "a.txt" 4).
  - split; [reflexivity|constructor|constructor].
  - intros p; split; reflexivity.
  - apply (bool_decide_unpack _). vm_compute. exact I.
  - eapply rtc_l; [apply (@step_datanode Node Node_plain _ "dn1" 1 demo_node 7)|].
    eapply rtc_l; [apply (@step_client Node Node_plain _ "alice" 10 (mkClient [zero]))|].
    apply rtc_once. apply (@step_request Node Node_plain _ 10 "alice" demo_create 7).
    apply (bool_decide_unpack _). vm_compute. exact I.
  - vm_compute. reflexivity.
Defined.
