(* ===== verification/Startup.v ===== *)
(** * Starting a server

    Models [server/src/main.cpp]: the command line, the choice between a
    standalone server, the configured primary and a standby, and the process
    of a standby, whose watcher starts a server when it promotes itself.  The
    theorems are about what crosses that hand-over: the epoch does, the copy of
    the primary's maps does not, and nothing takes the leadership back. *)

From S2P Require Import Prelude Text Wire FileManager FileTransfer Protocol StateStore Session ServerState LockManager Replication ClusterConfig Watcher.

(** [atoi]: 0 without a number; the C library converts to [long] and keeps
    the low 32 bits. *)
Definition atoi (s : string) : Z :=
  match read_signed (skip_ws (bytes_of_string s)) with
  | Some (neg, z, _) => i32 (Z.max (- 2 ^ 63) (Z.min (2 ^ 63 - 1) (signed_value neg z)))
  | None => 0
  end.

Definition DEFAULT_PORT : Z := 12345.
Definition DEFAULT_REPLICATION_FACTOR : Z := 2.

Section startup.
Context {S : Type} `{Session S}.
Local Abbreviation St := (Server S).

(** The process of a standby: its watcher, and the server it has started. *)
Record StandbyProcess : Type := mkStandby {
  watcher : Watcher;
  leader : option St }.

Definition startStandby (cfg : ClusterConfig) (me : string) (d : Disk) : StandbyProcess :=
  mkStandby (newWatcher cfg me d) None.

(** [onPromote]: a server on a thread of its own, from the epoch and the
    standby's disk. *)
Definition onPromote (cfg : ClusterConfig) (w : Watcher) : St :=
  newServer (replication_factor cfg) (observedEpoch w) (wdisk w).

(** A turn of the watch loop; [promote] calls [onPromote]. *)
Definition standbyRound (p : StandbyProcess) (r : Round) : StandbyProcess :=
  let w := watchStep r (watcher p) in
  if decide (role (watcher p) = STANDBY /\ role w = ACTIVE)
  then mkStandby w (Some (onPromote (config w) w))
  else mkStandby w (leader p).

Definition standbyRun (rs : list Round) (p : StandbyProcess) : StandbyProcess :=
  fold_left standbyRound rs p.

(** What [main] becomes: it exits, or runs a server, or a standby. *)
Inductive ServerProcess : Type :=
| Exit (code : Z)
| Standalone (port : Z) (srv : St)
| Primary (port : Z) (srv : St)
| Standby (port : Z) (p : StandbyProcess).

(** [args] are the arguments after the name of the program, [config] the
    contents of the files. *)
Definition serverMain (args : list string) (readConfig : string -> option (list byte)) (d : Disk)
  : ServerProcess :=
  let port := from_option atoi DEFAULT_PORT (args !! 0%nat) in
  let replicationFactor := from_option atoi DEFAULT_REPLICATION_FACTOR (args !! 1%nat) in
  let configPath := default "" (args !! 2%nat) in
  let myName := default "" (args !! 3%nat) in
  if bool_decide (configPath = "") || bool_decide (myName = "")
  then Standalone port (newServer replicationFactor 0 d)
  else match fromFile (readConfig configPath) with
       | Throw _ => Exit 1
       | Ok config =>
           if isPrimary config myName
           then Primary port (newServer (replication_factor config) (EpochStore_load d) d)
           else Standby port (startStandby config myName d)
       end.

(** ** What a promotion hands over *)

(** The epoch file and its temporary file are not the version file. *)
Definition epoch_apart (root : string) : Prop :=
  epochPath root <> versionFilePath root /\ tmpPath (epochPath root) <> versionFilePath root.
#[export] Instance epoch_apart_dec root : Decision (epoch_apart root).
Proof. unfold epoch_apart. apply _. Defined.

Lemma promote_versions w : epoch_apart (root (wdisk w)) ->
  loadVersionMap (wdisk (promote w)) = loadVersionMap (wdisk w).
Proof.
  intros [H1 H2]. rewrite promote_eq. unfold loadVersionMap, read_text. cbn [wdisk]. rewrite runFs_root.
  set (ops := EpochStore_save _ _).
  assert (files (runFs (wdisk w) ops) !! versionFilePath (root (wdisk w))
          = files (wdisk w) !! versionFilePath (root (wdisk w))) as ->; [|done].
  rewrite <- (take_ge ops (length ops)) by done. by apply atomicWrite_prefix.
Qed.

(** While a standby follows, its disk does not change; when it leads, the
    server it started is the one of that moment. *)
Record process_inv (d0 : Disk) (p : StandbyProcess) : Prop := {
  pr_follows : role (watcher p) = STANDBY -> leader p = None /\ wdisk (watcher p) = d0;
  pr_leads srv : leader p = Some srv ->
    role (watcher p) = ACTIVE /\ epoch srv = observedEpoch (watcher p)
    /\ persistedVersionMap srv = loadVersionMap d0 }.

Lemma round_inv d0 p r : epoch_apart (root d0) -> process_inv d0 p -> process_inv d0 (standbyRound p r).
Proof.
  intros Ha [Hf Hl]. unfold standbyRound. destruct (role (watcher p)) eqn:Hr.
  - destruct (Hf eq_refl) as [Hn Hd].
    destruct (watchStep_cases r (watcher p) Hr) as (w1 & (_ & _ & Hr1 & Hd1) & _ & _ & Hs).
    destruct Hs as [->|[-> _]].
    + rewrite decide_False by (rewrite Hr1, Hr; by intros [_ ?]). rewrite Hn.
      split; cbn; [by rewrite Hd1|done].
    + rewrite decide_True by (by rewrite promote_eq). split; cbn [leader watcher]; [by rewrite promote_eq|].
      intros srv [= <-]. split; [by rewrite promote_eq|]. split; [done|].
      unfold onPromote, newServer. cbn [persistedVersionMap]. rewrite promote_versions; by rewrite Hd1, Hd.
  - rewrite decide_False by (by intros [? _]). unfold watchStep. rewrite decide_True by done.
    split; cbn [leader watcher]; [by rewrite Hr|]. intros srv Hs. by destruct (Hl srv Hs) as (_ & ? & ?).
Qed.

Lemma standby_run_inv cfg me d rs : epoch_apart (root d) -> process_inv d (standbyRun rs (startStandby cfg me d)).
Proof.
  intros Ha. unfold standbyRun. assert (process_inv d (startStandby cfg me d)) as Hi by (by split).
  revert Hi. generalize (startStandby cfg me d). induction rs as [|r rs IH]; intros p Hi; [done|].
  apply IH. by apply round_inv.
Qed.

Lemma leader_stays p r srv : leader p = Some srv -> role (watcher p) = ACTIVE -> standbyRound p r = p.
Proof.
  intros Hl Hr. unfold standbyRound. rewrite decide_False by (rewrite Hr; by intros [? _]).
  unfold watchStep. rewrite decide_True by done. by destruct p.
Qed.

Lemma leader_stays_run p rs srv :
  leader p = Some srv -> role (watcher p) = ACTIVE -> standbyRun rs p = p.
Proof.
  intros Hl Hr. induction rs as [|r rs IH]; [done|]. cbn [standbyRun fold_left].
  by rewrite (leader_stays p r srv).
Qed.
End startup.

(** A promoted standby does not know what it mirrored: the server it starts
    has the epoch of the promotion, but its version map is the one that was on
    the standby's disk when the process began, whatever snapshots and deltas
    the primary sent in between. *)
Theorem promotion_forgets_mirror {S} cfg me d rs (srv : Server S) :
  epoch_apart (root d) -> leader (standbyRun rs (startStandby cfg me d)) = Some srv ->
  persistedVersionMap srv = loadVersionMap d
  /\ epoch srv = observedEpoch (watcher (standbyRun rs (startStandby (S := S) cfg me d))).
Proof.
  intros Ha Hl. destruct (pr_leads _ _ (standby_run_inv cfg me d rs Ha) srv Hl) as (_ & He & Hv). done.
Qed.

(** Two rounds: the primary sends its maps, then it is gone. *)
Definition demo_mirrored : Round :=
  mkRound (fun _ => true) true true [snapMessage 0 demo_snap_vm demo_snap_rm 2] false (fun _ _ => true).
Definition demo_promoted : StandbyProcess (S := Node) :=
  standbyRun [demo_mirrored; demo_alone] (startStandby demo_config "server2" demo_disk).

Lemma promotion_forgets_mirror_witness :
  exists srv, leader demo_promoted = Some srv
  /\ versionMap (watcher demo_promoted) !! "b.txt" = Some 0
  /\ persistedVersionMap srv !! "b.txt" = None
  /\ persistedVersionMap srv = loadVersionMap demo_disk
  /\ epoch srv = observedEpoch (watcher demo_promoted).
Proof.
  eexists. split; [reflexivity|]. split; [reflexivity|]. split; [vm_compute; reflexivity|].
  apply (promotion_forgets_mirror (S := Node) demo_config "server2" demo_disk [demo_mirrored; demo_alone]).
  - apply (bool_decide_unpack _). vm_compute. exact I.
  - reflexivity.
Defined.

(** Leadership is never given back: once a standby has promoted itself, no
    round changes its process again, whatever frames a leader with a higher
    epoch sends; and the configured primary starts as a leader whenever it
    starts, with the epoch of its own disk.  After a failover and a restart of
    the primary there are two leaders. *)
Theorem leadership_is_kept {S} cfg me d rs rs' (srv : Server S) path name port rf readConfig d0 :
  epoch_apart (root d) -> leader (standbyRun rs (startStandby cfg me d)) = Some srv ->
  path <> "" -> name <> "" -> fromFile (readConfig path) = Ok cfg -> isPrimary cfg name = true ->
  standbyRun (rs ++ rs') (startStandby (S := S) cfg me d) = standbyRun rs (startStandby cfg me d)
  /\ serverMain (S := S) [port; rf; path; name] readConfig d0
     = Primary (atoi port) (newServer (replication_factor cfg) (EpochStore_load d0) d0).
Proof.
  intros Ha Hl Hp Hn Hf Hpr. destruct (pr_leads _ _ (standby_run_inv cfg me d rs Ha) srv Hl) as (Hr & _). split.
  - unfold standbyRun in *. rewrite fold_left_app. by eapply leader_stays_run.
  - unfold serverMain. cbn. by rewrite !bool_decide_eq_false_2, Hf, Hpr by done.
Qed.

Lemma leadership_is_kept_witness :
  standbyRun ([demo_mirrored; demo_alone] ++ [demo_mirrored; demo_mirrored])
    (startStandby (S := Node) demo_config "server2" demo_disk) = demo_promoted
  /\ serverMain (S := Node) ["9000"; "1"; "cluster.conf"; "server1"]
       (fun _ => Some (unlines (configLines demo_config))) demo_disk
     = Primary 9000 (newServer 3 0 demo_disk).
Proof.
  eapply (leadership_is_kept (S := Node) demo_config "server2" demo_disk
            [demo_mirrored; demo_alone] [demo_mirrored; demo_mirrored] _ "cluster.conf" "server1" "9000" "1").
  - apply (bool_decide_unpack _). vm_compute. exact I.
  - reflexivity.
  - done.
  - done.
  - vm_compute. reflexivity.
  - reflexivity.
Defined.
