(* ===== verification/ServerLife.v ===== *)
(** * The life of a server object

    [server/src/server.cpp]: the constructors, [run], which starts four threads
    and joins them, and the destructor.  The thread that owns the server works
    through a list of commands ([todo]); the other threads loop while
    [running_], each turn being the operation that the code calls, on the
    server's state, with its outcome: a turn that never returns leaves the
    thread stuck, an exception ends the process.  Sleeping is left out. *)

From S2P Require Import Prelude Text Wire FileManager FileTransfer Protocol StateStore Session ServerState LockManager Replication ClusterConfig Watcher Standby Server Startup.

Inductive Who : Type := AcceptThread | HeartbeatThread | LockExpiryThread | StandbyHbThread.
#[export] Instance Who_eq_dec : EqDecision Who.
Proof. solve_decision. Defined.

(** A [std::thread] member: not joinable; looping; in a turn for ever; or its
    function has returned. *)
Inductive Slot : Type := Empty | Looping | Stuck | Finished.
#[export] Instance Slot_eq_dec : EqDecision Slot.
Proof. solve_decision. Defined.

Inductive Cmd : Type :=
| SetRunning (b : bool)
| WriteReady
| Spawn (w : Who)
| JoinIf (w : Who)
| CloseListener
| RemoveReady
| StopSessions.
#[export] Instance Cmd_eq_dec : EqDecision Cmd.
Proof. solve_decision. Defined.

(** [Server::run] and [Server::~Server]. *)
Definition run : list Cmd :=
  [SetRunning true; WriteReady;
   Spawn AcceptThread; Spawn HeartbeatThread; Spawn LockExpiryThread; Spawn StandbyHbThread;
   JoinIf AcceptThread; SetRunning false;
   JoinIf HeartbeatThread; JoinIf LockExpiryThread; JoinIf StandbyHbThread].
Definition destructor : list Cmd :=
  [SetRunning false; CloseListener; RemoveReady;
   JoinIf AcceptThread; JoinIf HeartbeatThread; JoinIf LockExpiryThread; JoinIf StandbyHbThread;
   StopSessions].

(** [main.cpp] runs a server that is a local variable. *)
Definition program : list Cmd := run ++ destructor.

Section life.
Context {C : Type} `{NetworkChannel C}.
Local Abbreviation St := (Server (ConnectionSession C)).

(** [lf_ready]: the contents of [/tmp/squid_ready]; [lf_dead]: the process has
    been terminated. *)
Record Life : Type := mkLife {
  lf_port : Z;
  lf_running : bool;
  lf_listening : bool;
  lf_ready : option Z;
  lf_slots : Who -> Slot;
  lf_todo : list Cmd;
  lf_server : St;
  lf_dead : bool }.

(** The constructors; the listener's may throw. *)
Definition construct (listener : result unit) (port replicationFactor epoch : Z) (ready : option Z)
    (d : Disk) (todo : list Cmd) : result Life :=
  match listener with
  | Throw e => Throw e
  | Ok _ => Ok (mkLife port false true ready (fun _ => Empty) todo (newServer replicationFactor epoch d) false)
  end.
Definition construct3 listener port replicationFactor ready d todo :=
  construct listener port replicationFactor 0 ready d todo.
Definition construct2 listener port ready d todo :=
  construct3 listener port DEFAULT_REPLICATION_FACTOR ready d todo.
Definition construct1 listener ready d todo := construct2 listener DEFAULT_PORT ready d todo.

Definition set_slot (w : Who) (s : Slot) (lf : Life) : Life :=
  mkLife (lf_port lf) (lf_running lf) (lf_listening lf) (lf_ready lf)
    (fun x => if decide (x = w) then s else lf_slots lf x) (lf_todo lf) (lf_server lf) (lf_dead lf).
Definition set_todo (cs : list Cmd) (lf : Life) : Life :=
  mkLife (lf_port lf) (lf_running lf) (lf_listening lf) (lf_ready lf) (lf_slots lf) cs (lf_server lf) (lf_dead lf).
Definition set_running (b : bool) (lf : Life) : Life :=
  mkLife (lf_port lf) b (lf_listening lf) (lf_ready lf) (lf_slots lf) (lf_todo lf) (lf_server lf) (lf_dead lf).
Definition set_listening (b : bool) (lf : Life) : Life :=
  mkLife (lf_port lf) (lf_running lf) b (lf_ready lf) (lf_slots lf) (lf_todo lf) (lf_server lf) (lf_dead lf).
Definition set_ready (r : option Z) (lf : Life) : Life :=
  mkLife (lf_port lf) (lf_running lf) (lf_listening lf) r (lf_slots lf) (lf_todo lf) (lf_server lf) (lf_dead lf).
Definition set_server (st : St) (lf : Life) : Life :=
  mkLife (lf_port lf) (lf_running lf) (lf_listening lf) (lf_ready lf) (lf_slots lf) (lf_todo lf) st (lf_dead lf).
Definition terminate (lf : Life) : Life :=
  mkLife (lf_port lf) (lf_running lf) (lf_listening lf) (lf_ready lf) (lf_slots lf) (lf_todo lf) (lf_server lf) true.

(** The owner's next command: a join waits for the thread's function. *)
Definition ownerStep (lf : Life) : Life :=
  match lf_todo lf with
  | [] => lf
  | c :: cs =>
      let lf' := set_todo cs lf in
      match c with
      | SetRunning b => set_running b lf'
      | WriteReady => set_ready (Some (lf_port lf)) lf'
      | Spawn w => set_slot w Looping lf'
      | JoinIf w =>
          match lf_slots lf w with
          | Empty => lf'
          | Finished => set_slot w Empty lf'
          | Looping | Stuck => lf
          end
      | CloseListener => set_listening false lf'
      | RemoveReady => set_ready None lf'
      | StopSessions => set_server (destroyServer (lf_server lf)) lf'
      end
  end.

(** What a turn of a thread does to the server.  The accept thread only waits
    and hands the connection to the pool. *)
Definition turnOf (w : Who) (now : Z) : SO St unit :=
  match w with
  | AcceptThread => sret tt
  | HeartbeatThread => Replication.sendHeartbeats
  | LockExpiryThread => checkFileLockExpiration now
  | StandbyHbThread =>
      let! sb := sgets standbys in
      match sb with Some _ => Standby.sendHeartbeats | None => sret tt end
  end.

Definition threadStep (w : Who) (now : Z) (lf : Life) : Life :=
  match lf_slots lf w with
  | Looping =>
      if negb (lf_running lf) then set_slot w Finished lf
      else
        let '(r, st) := turnOf w now (lf_server lf) in
        let lf := set_server st lf in
        match r with
        | Done (Ok _) => lf
        | Done (Throw _) => terminate lf
        | Hang => set_slot w Stuck lf
        end
  | _ => lf
  end.

(** The owner moves, a thread makes a turn, or the pool runs a task. *)
Inductive Happening : Type :=
| Owner
| Turn (w : Who) (now : Z)
| Pool (task : SO St unit).

Definition happens (lf : Life) (e : Happening) : Life :=
  if lf_dead lf then lf
  else match e with
       | Owner => ownerStep lf
       | Turn w now => threadStep w now lf
       | Pool task => set_server (task (lf_server lf)).2 lf
       end.

Definition lives (es : list Happening) (lf : Life) : Life := fold_left happens es lf.
End life.
Arguments Life C : clear implicits.
Arguments Happening C : clear implicits.

(** ** [run] does not return *)

Section forever.
Context {C : Type} `{NetworkChannel C}.
Implicit Types lf : Life C.

(** The owner is in [run], at the latest at the join of the accept thread,
    which loops as [running_] holds. *)
Definition in_run lf : Prop :=
  exists k : nat, (k <= 6)%nat /\ lf_todo lf = drop k program
    /\ ((1 <= k)%nat -> lf_running lf = true)
    /\ lf_slots lf AcceptThread = if decide (k <= 2)%nat then Empty else Looping.

Lemma in_run_owner lf : in_run lf -> in_run (ownerStep lf).
Proof.
  intros (k & Hk & Ht & Hr & Hs). unfold ownerStep. rewrite Ht.
  destruct k as [|[|[|[|[|[|k]]]]]]; simpl in Hr, Hs |- *.
  - exists 1%nat. by split_and!; [lia|reflexivity| |].
  - exists 2%nat. split_and!; [lia|reflexivity|intros _; apply Hr; lia|exact Hs].
  - exists 3%nat. split_and!; [lia|reflexivity|intros _; apply Hr; lia|reflexivity].
  - exists 4%nat. split_and!; [lia|reflexivity|intros _; apply Hr; lia|exact Hs].
  - exists 5%nat. split_and!; [lia|reflexivity|intros _; apply Hr; lia|exact Hs].
  - exists 6%nat. split_and!; [lia|reflexivity|intros _; apply Hr; lia|exact Hs].
  - assert (k = 0%nat) as -> by lia. simpl in Hs |- *. rewrite Hs. exists 6%nat.
    split_and!; [lia|exact Ht|intros _; apply Hr; lia|exact Hs].
Qed.

Lemma in_run_turn w now lf : in_run lf -> in_run (threadStep w now lf).
Proof.
  intros Hin. pose proof Hin as (k & Hk & Ht & Hr & Hs). unfold threadStep.
  destruct (lf_slots lf w) eqn:Hw; try done. destruct (decide (w = AcceptThread)) as [->|Hne].
  - rewrite Hw in Hs. case_decide as Hk2; [done|]. rewrite Hr by lia. simpl.
    exists k. split_and!; [done..|]. simpl. rewrite Hw. by rewrite decide_False.
  - destruct (negb (lf_running lf)).
    { exists k. split_and!; [done..|]. simpl. by rewrite decide_False by congruence. }
    destruct (turnOf w now (lf_server lf)) as [[[u|e]|] st];
      (exists k; split_and!; [done..|]; simpl; try done). by rewrite decide_False by congruence.
Qed.

Lemma in_run_lives es lf : in_run lf -> in_run (lives es lf).
Proof.
  revert lf. induction es as [|e es IH]; intros lf Hin; [done|]. apply IH. unfold happens.
  destruct (lf_dead lf); [done|]. destruct e as [|w now|task]; [by apply in_run_owner|by apply in_run_turn|exact Hin].
Qed.
End forever.

(** A server never stops.  Nothing but the destructor and the end of the accept
    thread clears [running_], and the destructor only comes after [run]: under
    every schedule, whatever the pool does, the thread that called [run] has
    not passed the join of the accept thread.  So the sessions are never
    stopped, the listener is never closed and the readiness file is never
    removed by a server process that ends. *)
Theorem server_never_stops {C} `{NetworkChannel C} listener port rf ep ready d es (lf : Life C) :
  construct listener port rf ep ready d program = Ok lf ->
  exists cs, lf_todo (lives es lf) =
    cs ++ [JoinIf AcceptThread; SetRunning false; JoinIf HeartbeatThread; JoinIf LockExpiryThread;
           JoinIf StandbyHbThread] ++ destructor.
Proof.
  unfold construct. destruct listener; [|done]. intros [= <-].
  destruct (in_run_lives es (mkLife port false true ready (fun _ => Empty) program (newServer rf ep d) false))
    as (k & Hk & Ht & _).
  { exists 0%nat. split_and!; [lia|done|lia|done]. }
  exists (take (6 - k) (drop k program)). rewrite Ht.
  change ([JoinIf AcceptThread; _; _; _; _] ++ destructor) with (drop 6 program).
  replace (drop 6 program) with (drop (6 - k) (drop k program)); [by rewrite take_drop|].
  rewrite drop_drop. f_equal. lia.
Qed.

Lemma server_never_stops_witness :
  let lf := mkLife 12345 false true None (fun _ => Empty) program (newServer 2 0 demo_disk) false in
  exists cs, lf_todo (lives (C := Pipe) (repeat Owner 20 ++ [Turn AcceptThread 0; Turn HeartbeatThread 0]) lf) =
    cs ++ [JoinIf AcceptThread; SetRunning false; JoinIf HeartbeatThread; JoinIf LockExpiryThread;
           JoinIf StandbyHbThread] ++ destructor.
Proof. apply (server_never_stops (Ok tt) 12345 2 0 None demo_disk). reflexivity. Defined.

(** ** The destructor *)

Section destruction.
Context {C : Type} `{NetworkChannel C}.
Implicit Types lf : Life C.

(** In the destructor, after its first command. *)
Record closing lf : Prop := mkClosing {
  cl_alive : lf_dead lf = false;
  cl_running : lf_running lf = false;
  cl_free : forall w, lf_slots lf w <> Stuck;
  cl_todo : exists k : nat, (1 <= k)%nat /\ lf_todo lf = drop k destructor }.

Definition looping lf (w : Who) : nat := if decide (lf_slots lf w = Looping) then 1 else 0.
Definition pending lf : nat :=
  length (lf_todo lf) + looping lf AcceptThread + looping lf HeartbeatThread
  + looping lf LockExpiryThread + looping lf StandbyHbThread.

Lemma looping_set w s lf x :
  looping (set_slot w s lf) x = if decide (x = w) then (if decide (s = Looping) then 1 else 0)%nat else looping lf x.
Proof. unfold looping. simpl. by destruct (decide (x = w)). Qed.

(** A thread that is still looping can finish. *)
Lemma closing_turn w now lf : closing lf ->
  closing (threadStep w now lf)
  /\ (if decide (lf_slots lf w = Looping) then (pending (threadStep w now lf) < pending lf)%nat
      else threadStep w now lf = lf).
Proof.
  intros [Hd Hr Hf Ht]. unfold threadStep. destruct (lf_slots lf w) eqn:Hw; simpl; try done; rewrite Hr; simpl.
  split; [constructor; try done; intros x; simpl; by case_decide|].
  assert (looping lf w = 1%nat) as Hl by (unfold looping; by rewrite Hw).
  unfold pending. rewrite !looping_set. simpl. destruct w; simpl; lia.
Qed.

Lemma destructor_rest k c cs : (1 <= k)%nat -> drop k destructor = c :: cs ->
  match c with SetRunning _ | Spawn _ => False | _ => True end.
Proof.
  intros Hk E. do 8 (destruct k as [|k]; [first [lia|by injection E as <- _]|]). simpl in E.
  by rewrite drop_nil in E.
Qed.

(** The owner's next command. *)
Lemma closing_owner lf : closing lf ->
  closing (ownerStep lf)
  /\ match lf_todo lf with
     | [] => ownerStep lf = lf
     | JoinIf w :: _ => if decide (lf_slots lf w = Looping) then ownerStep lf = lf
                        else (pending (ownerStep lf) < pending lf)%nat
     | _ :: _ => (pending (ownerStep lf) < pending lf)%nat
     end.
Proof.
  intros [Hd Hr Hf (k & Hk & Ht)]. unfold ownerStep. rewrite Ht.
  assert (forall cs c, drop k destructor = c :: cs -> cs = drop (S k) destructor) as Hnext.
  { intros cs c E. rewrite <-(Nat.add_1_r k), <-drop_drop, E. done. }
  destruct (drop k destructor) as [|c cs] eqn:E; [split; [|done]; constructor; try done; exists k; by rewrite E|].
  specialize (Hnext cs c eq_refl).
  assert (exists j : nat, (1 <= j)%nat /\ cs = drop j destructor) as Hcs by (exists (S k); split; [lia|done]).
  assert (forall lf', lf_todo lf' = cs -> (forall x, (looping lf' x <= looping lf x)%nat) ->
    (pending lf' < pending lf)%nat) as Hless.
  { intros lf' Hc Hl. unfold pending. rewrite Hc, Ht. simpl.
    pose proof (Hl AcceptThread). pose proof (Hl HeartbeatThread). pose proof (Hl LockExpiryThread).
    pose proof (Hl StandbyHbThread). lia. }
  destruct c as [b| |w|w| | |]; try by (split; [constructor|by apply Hless]).
  - by destruct (destructor_rest k (SetRunning b) cs Hk E).
  - by destruct (destructor_rest k (Spawn w) cs Hk E).
  - destruct (lf_slots lf w) eqn:Hw; simpl.
    + split; [by constructor|by apply Hless].
    + split; [|done]. constructor; try done. exists k. by rewrite E.
    + by destruct (Hf w).
    + split; [constructor; try done; intros x; simpl; by case_decide|]. apply Hless; [done|]. intros x.
      rewrite looping_set. simpl. case_decide; [lia|done].
Qed.

Lemma closing_happens lf e : closing lf -> closing (happens lf e).
Proof.
  intros Hc. unfold happens. rewrite (cl_alive lf Hc). destruct e as [|w now|task].
  - by apply closing_owner.
  - by apply closing_turn.
  - by destruct Hc; constructor.
Qed.

Lemma pending_happens lf e : closing lf -> (pending (happens lf e) <= pending lf)%nat.
Proof.
  intros Hc. unfold happens. rewrite (cl_alive lf Hc). destruct e as [|w now|task]; [| |done].
  - destruct (closing_owner lf Hc) as [_ Ho]. destruct (lf_todo lf) as [|[] cs]; try (rewrite Ho; done); try lia.
    case_decide; [by rewrite Ho|lia].
  - destruct (closing_turn w now lf Hc) as [_ Ht]. case_decide; [lia|by rewrite Ht].
Qed.
End destruction.

(** The destructor ends.  Once it has cleared [running_] and as long as no
    thread is stuck in a turn, no step of anybody brings the end further away,
    the conditions stay, and until everything is done there is a step of the
    owner or of a thread it waits for that brings the end nearer. *)
Theorem destructor_ends {C} `{NetworkChannel C} es (lf : Life C) :
  closing lf ->
  let lf' := lives es lf in
  closing lf' /\ (pending lf' <= pending lf)%nat
  /\ (lf_todo lf' <> [] -> exists e, (e = Owner \/ exists w, e = Turn w 0) /\ (pending (happens lf' e) < pending lf')%nat).
Proof.
  intros Hc. cbv zeta. assert (closing (lives es lf) /\ (pending (lives es lf) <= pending lf)%nat) as [Hc' Hp].
  { revert lf Hc. induction es as [|e es IH]; intros lf Hc; [done|].
    destruct (IH (happens lf e) (closing_happens lf e Hc)) as [Hc1 Hp1]. split; [exact Hc1|].
    pose proof (pending_happens lf e Hc). simpl. lia. }
  split_and!; [done..|]. set (lf' := lives es lf) in *. intros Hne.
  destruct (closing_owner lf' Hc') as [_ Ho]. destruct (lf_todo lf') as [|c cs]; [done|].
  assert ((pending (ownerStep lf') < pending lf')%nat \/ exists w, lf_slots lf' w = Looping) as [Hless|[w Hw]].
  { destruct c; auto. case_decide; eauto. }
  - exists Owner. split; [auto|]. unfold happens. by rewrite (cl_alive lf' Hc').
  - exists (Turn w 0). split; [eauto|]. unfold happens. rewrite (cl_alive lf' Hc').
    destruct (closing_turn w 0 lf' Hc') as [_ Ht]. by rewrite decide_True in Ht.
Qed.

Definition demo_slots (h : Slot) (w : Who) : Slot := if decide (w = HeartbeatThread) then h else Looping.
Definition demo_life (todo : list Cmd) (running : bool) (st : Server (ConnectionSession Pipe)) : Life Pipe :=
  mkLife 12345 running true (Some 12345) (demo_slots Looping) todo st false.

Lemma destructor_ends_witness :
  let lf' := lives [Owner; Turn AcceptThread 1; Owner; Pool (sret tt)] (demo_life (drop 1 destructor) false (newServer 2 0 demo_disk)) in
  closing lf' /\ (pending lf' <= 11)%nat
  /\ (lf_todo lf' <> [] -> exists e, (e = Owner \/ exists w, e = Turn w 0) /\ (pending (happens lf' e) < pending lf')%nat).
Proof.
  apply (destructor_ends [Owner; Turn AcceptThread 1; Owner; Pool (sret tt)]).
  constructor; [reflexivity|reflexivity| |exists 1%nat; by split].
  intros w. simpl. unfold demo_slots. by case_decide.
Defined.

(** A turn that does not come back. *)
Section stuck.
Context {C : Type} `{NetworkChannel C}.
Implicit Types lf : Life C.

Definition stuck_at (w : Who) lf : Prop :=
  lf_slots lf w = Stuck /\ JoinIf w ∈ lf_todo lf /\ Spawn w ∉ lf_todo lf.

Lemma stuck_stays w lf e : stuck_at w lf -> stuck_at w (happens lf e).
Proof.
  intros (Hs & Hj & Hn). unfold happens. destruct (lf_dead lf); [done|]. destruct e as [|x now|task]; [| |done].
  - unfold ownerStep. destruct (lf_todo lf) as [|c cs] eqn:E; [by apply elem_of_nil in Hj|].
    apply not_elem_of_cons in Hn as [Hc Hn].
    assert (JoinIf w <> c -> JoinIf w ∈ cs) as Hcs by (intros Hne; by apply elem_of_cons in Hj as [?|?]).
    destruct c as [b| |x|x| | |]; simpl; try (split_and!; [done|by apply Hcs|done]).
    + split_and!; simpl; [|by apply Hcs|done]. case_decide; [subst; congruence|done].
    + destruct (decide (x = w)) as [->|Hne].
      * rewrite Hs. split_and!; [done|rewrite E; by left|]. rewrite E. by apply not_elem_of_cons.
      * assert (JoinIf w ∈ cs) as Hin by (apply Hcs; congruence).
        destruct (lf_slots lf x); simpl;
          split_and!; simpl; rewrite ?E; rewrite ?decide_False by congruence; try done; set_solver.
  - unfold threadStep. destruct (lf_slots lf x) eqn:Hx; try done.
    assert (w <> x) as Hne by congruence. destruct (negb (lf_running lf)).
    + split_and!; simpl; [by rewrite decide_False|done..].
    + destruct (turnOf x now (lf_server lf)) as [[[u|e]|] st]; split_and!; simpl; try done. by rewrite decide_False.
Qed.

Lemma stuck_for_ever w es lf : stuck_at w lf -> stuck_at w (lives es lf).
Proof. revert lf. induction es as [|e es IH]; intros lf Hs; [done|]. by apply IH, stuck_stays. Qed.
End stuck.

(** A round of heartbeats that hangs, as one does on the session of a datanode
    that has gone, keeps the heartbeat thread from ever being joined: the
    owner never gets past that join, in [run] or in the destructor. *)
Theorem stuck_heartbeat_blocks_owner {C} `{NetworkChannel C} (lf : Life C) now es :
  lf_dead lf = false -> lf_running lf = true -> lf_slots lf HeartbeatThread = Looping ->
  (Replication.sendHeartbeats (lf_server lf)).1 = Hang ->
  JoinIf HeartbeatThread ∈ lf_todo lf -> Spawn HeartbeatThread ∉ lf_todo lf ->
  JoinIf HeartbeatThread ∈ lf_todo (lives es (happens lf (Turn HeartbeatThread now))).
Proof.
  intros Hd Hr Hs Hh Hj Hn. apply (stuck_for_ever HeartbeatThread es). unfold happens, threadStep.
  rewrite Hd, Hs, Hr. simpl. destruct (Replication.sendHeartbeats (lf_server lf)) as [r st]. simpl in Hh. subst r.
  split_and!; simpl; [reflexivity|done..].
Qed.

(** A datanode whose session has ended. *)
Definition demo_gone : Server (ConnectionSession Pipe) :=
  ServerState.mkServer 2 0 {["dn1" := 1%positive]} ∅ ∅ ∅ ∅ 0 None demo_disk
    {[1%positive := cs_setIsAlive false demo_session]} [].

Lemma stuck_heartbeat_blocks_owner_witness :
  JoinIf HeartbeatThread ∈ lf_todo (lives (repeat Owner 30)
    (happens (demo_life destructor true demo_gone) (Turn HeartbeatThread 0))).
Proof.
  apply (stuck_heartbeat_blocks_owner (demo_life destructor true demo_gone) 0 (repeat Owner 30)).
  - reflexivity.
  - reflexivity.
  - reflexivity.
  - vm_compute. reflexivity.
  - apply (bool_decide_unpack _). vm_compute. exact I.
  - apply (bool_decide_unpack _). vm_compute. exact I.
Defined.

(** ** Printing *)

(** [printMap]: what is written for a map of names. *)
Definition printMap {V} (show : V -> list byte) (m : gmap string V) (name : string) : list byte :=
  bytes_of_string "[SERVER]: " ++ bytes_of_string name ++ [newline]
  ++ concat (map (fun kv => bytes_of_string kv.1 ++ bytes_of_string " => " ++ show kv.2 ++ [newline]) (map_entries m)).

(** [SquidProtocol::toString], what is shown of a session. *)
Definition Protocol_toString {C} (p : SquidProtocol C) : list byte :=
  bytes_of_string "Protocol{" ++ bytes_of_string (nodeType p) ++ bytes_of_string ":"
  ++ bytes_of_string (processName p) ++ bytes_of_string "}".

Definition printSessions {C} (st : Server (ConnectionSession C)) (m : gmap string sid) (name : string) : list byte :=
  printMap (fun i => match sessions st !! i with
                     | Some s => Protocol_toString (protocol_ s)
                     | None => bytes_of_string "<null>"
                     end) m name.
