(* ===== verification/Peer.v ===== *)
(** * Peers: datanodes and clients

    Models [common/src/peer/peer.{hpp,cpp}] (the handshake from the peer's side,
    failover over the configured servers, reconnection) and the request handler
    of [datanode/src/datanode.cpp].
    [TCPConnectorChannel] is the argument [dial]: the channel the connection
    attempt number [k] to an address gives, or nothing. *)

From S2P Require Import Prelude Text Wire FileManager FileTransfer Protocol StateStore Session ServerState LockManager Replication ClusterConfig Watcher Standby Server.

Record Peer (C : Type) : Type := mkPeerState {
  server_ip : string;
  server_port : Z;
  nodeType_ : string;
  processName_ : string;
  session_ : option (ConnectionSession C);
  lastSeenEpoch_ : Z;
  clusterConfig_ : ClusterConfig }.
Arguments mkPeerState {C}.
Arguments server_ip {C}.
Arguments server_port {C}.
Arguments nodeType_ {C}.
Arguments processName_ {C}.
Arguments session_ {C}.
Arguments lastSeenEpoch_ {C}.
Arguments clusterConfig_ {C}.

Section peer.
Context {C : Type} `{NetworkChannel C}.
Local Abbreviation Pe := (Peer C).
Implicit Types pe : Pe.

Definition newPeer (addr : string) (prt : Z) (nodeType processName : string) : Pe :=
  mkPeerState addr prt nodeType processName None 0 defaultConfig.

Definition set_session (s : option (ConnectionSession C)) pe : Pe :=
  mkPeerState (server_ip pe) (server_port pe) (nodeType_ pe) (processName_ pe) s
    (lastSeenEpoch_ pe) (clusterConfig_ pe).
Definition set_target (e : ServerEntry) pe : Pe :=
  mkPeerState (ip e) (port e) (nodeType_ pe) (processName_ pe) (session_ pe)
    (lastSeenEpoch_ pe) (clusterConfig_ pe).
Definition set_epoch (ep : Z) pe : Pe :=
  mkPeerState (server_ip pe) (server_port pe) (nodeType_ pe) (processName_ pe) (session_ pe)
    ep (clusterConfig_ pe).
Definition set_config (cfg : ClusterConfig) pe : Pe :=
  mkPeerState (server_ip pe) (server_port pe) (nodeType_ pe) (processName_ pe) (session_ pe)
    (lastSeenEpoch_ pe) cfg.

(** [performHandshake] on the protocol object: the new [lastSeenEpoch_], or
    nothing when it returns false. *)
Definition handshakeBody pe : M C (option Z) :=
  let* identify := receive in
  let* live := gets alive in
  if negb live || negb (bool_decide (opcode identify = IDENTIFY)) then ret None
  else
    do* responseOfIdentity (nodeType_ pe) (processName_ pe) in
    let* live := gets alive in
    if negb live then ret None
    else
      let* ack := receive in
      let* live := gets alive in
      if negb live || negb (isAck ack) then ret None
      else
        let serverEpoch := getUint32 ack EPOCH 0 in
        if (serverEpoch <? lastSeenEpoch_ pe) then
          do* sendNackStaleEpoch (lastSeenEpoch_ pe) in ret None
        else ret (Some (if (lastSeenEpoch_ pe <? serverEpoch) then serverEpoch else lastSeenEpoch_ pe)).

(** Its result and the channel afterwards. *)
Definition performHandshake (c : C) pe : result (option Z) * option C :=
  let '(r, p) := handshakeBody pe (newProtocol c (nodeType_ pe) (processName_ pe)) in (r, channel p).

(** A session on a channel that passed the handshake. *)
Definition join (ep : Z) (c : option C) pe : Pe :=
  set_epoch ep
    (set_session ((fun c => newSession c (nodeType_ pe) (processName_ pe)) <$> c) pe).

(** [connectToServer]. *)
Definition connectToServer (dial : nat -> string -> Z -> option C) pe : result unit * Pe :=
  match dial 0%nat (server_ip pe) (server_port pe) with
  | None => (Throw "TCPConnectorChannel: connect failed", pe)
  | Some c =>
      match performHandshake c pe with
      | (Throw e, _) => (Throw e, pe)
      | (Ok None, _) => (Throw "handshake failed", pe)
      | (Ok (Some ep), c) => (Ok tt, join ep c pe)
      end
  end.

(** The inner loop of [connectWithFailover]: whether a server took us. *)
Fixpoint tryServers (dial : string -> Z -> option C) (entries : list ServerEntry) pe
  : result bool * Pe :=
  match entries with
  | [] => (Ok false, pe)
  | entry :: rest =>
      match dial (ip entry) (port entry) with
      | None => tryServers dial rest pe
      | Some c =>
          match performHandshake c pe with
          | (Throw e, _) => (Throw e, pe)
          | (Ok None, _) => tryServers dial rest pe
          | (Ok (Some ep), c) => (Ok true, join ep c (set_target entry pe))
          end
      end
  end.

(** [n] more attempts, the next one being number [k]. *)
Fixpoint failoverLoop (dial : nat -> string -> Z -> option C) (k n : nat) pe : result unit * Pe :=
  match n with
  | O => (Throw "could not connect to any server in cluster", pe)
  | S n =>
      match tryServers (dial k) (servers (clusterConfig_ pe)) pe with
      | (Throw e, pe) => (Throw e, pe)
      | (Ok true, pe) => (Ok tt, pe)
      | (Ok false, pe) => failoverLoop dial (S k) n pe
      end
  end.

Definition connectWithFailover (dial : nat -> string -> Z -> option C) (cfg : ClusterConfig) pe
  : result unit * Pe :=
  failoverLoop dial 0 (Z.to_nat (Z.max 1 (reconnect_attempts cfg))) (set_config cfg pe).

(** What [disconnect] does with the session it has taken: [closeConn] if it
    lives, then [stop], which closes the channel and waits for the worker to
    leave its loop.  When [closeConn] throws, it is the destructor that stops it. *)
Definition shutDown (old : ConnectionSession C) : outcome unit * ConnectionSession C :=
  if cs_isAlive old then
    match call closeConn old with
    | (Done (Ok _), s) => (Done (Ok tt), workerStep (stop s))
    | (Done (Throw e), s) => (Done (Throw e), workerStep (stop s))
    | (Hang, s) => (Hang, s)
    end
  else (Done (Ok tt), workerStep (stop old)).

(** [disconnect]: only the peer is left. *)
Definition disconnect pe : outcome unit * Pe :=
  match session_ pe with
  | None => (Done (Ok tt), pe)
  | Some old => ((shutDown old).1, set_session None pe)
  end.

Definition reconnect (dial : nat -> string -> Z -> option C) : SO Pe unit := fun pe =>
  match disconnect pe with
  | (Done (Ok _), pe) =>
      let '(r, pe) := if valid (clusterConfig_ pe)
                      then connectWithFailover dial (clusterConfig_ pe) pe
                      else connectToServer dial pe in
      (Done r, pe)
  | other => other
  end.

Definition peerAlive pe : bool :=
  match session_ pe with Some s => cs_isAlive s | None => false end.

(** [DataNode::makeRequestHandler], on the worker of the session, [d] being
    the datanode's files. *)
Definition datanodeRequest (msg : Message) (d : Disk) pe : result Disk * Pe :=
  match session_ pe with
  | None => (Ok d, pe)
  | Some s =>
      if decide (opcode msg = NACK_STALE_EPOCH) then
        let theirEpoch := getUint32 msg EPOCH 0 in
        (Ok d, set_session (Some (cs_setIsAlive false s))
                 (if (lastSeenEpoch_ pe <? theirEpoch) then set_epoch theirEpoch pe else pe))
      else
        let '(r, p) := responseDispatcher msg d (protocol_ s) in
        (r, set_session (Some (mkSession (alive_ s) p (tasks_ s) (readSuspended_ s))) pe)
  end.
End peer.

(** ** The handshake *)

Section handshakes.
Context {C : Type} `{StreamChannel C}.

Lemma newProtocol_conn (c : C) nodeType processName :
  writable c -> conn (newProtocol c nodeType processName) 0 0 (inbound c) (outbound c).
Proof. intros Hw. by constructor. Qed.

Lemma conn_channel (p : SquidProtocol C) a b i o :
  conn p a b i o -> exists c, channel p = Some c /\ writable c /\ inbound c = i /\ outbound c = o.
Proof.
  intros [_ Hw _ _ _ Hi Ho]. unfold can_write, input, output in *.
  destruct (channel p) as [c|]; [eauto|done].
Qed.
End handshakes.

(** The frames of a handshake. *)
Definition identity_fields (nodeType processName : string) : list BinaryField :=
  [fieldString NODE_TYPE nodeType; fieldString PROCESS_NAME processName].

Lemma handshake_frames nodeType processName :
  short nodeType = true -> short processName = true ->
  exists f1 f2 f3,
    identifyFormat = Ok f1 /\ wellframed (stampSeq f1 0) (mkMessage IDENTIFY 0 0 0 [])
    /\ responseAck true = Ok f2
    /\ wellframed (stampSeq f2 1) (mkMessage RESPONSE FLAG_RESPONSE 1 0 [fieldBool ACK true])
    /\ responseIdentity nodeType processName = Ok f3
    /\ wellframed (stampSeq f3 0)
         (mkMessage RESPONSE FLAG_RESPONSE 0 0 (identity_fields nodeType processName)).
Proof.
  intros Hn Hp.
  destruct (buildFrame_wellframed IDENTIFY 0 [] 0) as (f1 & H1 & W1); try (done || (unfold in_u8, in_u32; lia)).
  destruct (buildFrame_wellframed RESPONSE FLAG_RESPONSE [fieldBool ACK true] 1) as (f2 & H2 & W2);
    try (done || (unfold in_u8, in_u32, FLAG_RESPONSE; lia)).
  destruct (buildFrame_wellframed RESPONSE FLAG_RESPONSE (identity_fields nodeType processName) 0)
    as (f3 & H3 & W3); try (done || (unfold in_u8, in_u32, FLAG_RESPONSE; lia)).
  { change (short nodeType && (short processName && true) = true). by rewrite Hn, Hp. }
  exists f1, f2, f3. done.
Qed.

Section agreement.
Context {C : Type} `{StreamChannel C}.

Lemma server_handshake (c : C) nodeType me f1 f2 f3 rest :
  nodeType ∈ ["DATANODE"; "CLIENT"; "STANDBY"] -> identifyFormat = Ok f1 -> responseAck true = Ok f2 ->
  wellframed (stampSeq f3 0) (mkMessage RESPONSE FLAG_RESPONSE 0 0 (identity_fields nodeType me)) ->
  writable c -> inbound c = stampSeq f3 0 ++ rest ->
  exists c', handshake c = Done (Ok (Some (me, nodeType, c'))) /\ writable c'
    /\ inbound c' = rest /\ outbound c' = outbound c ++ stampSeq f1 0 ++ stampSeq f2 1.
Proof.
  intros Ht H1 H2 W3 Hw Hin. unfold handshake, identify, bind.
  pose proof (newProtocol_conn c "[SERVER]" "SERVER" Hw) as Hc. rewrite Hin in Hc.
  destruct (send_ok _ _ _ _ _ _ _ H1 Hc) as (p1 & -> & Hc1).
  destruct (receive_ok _ _ _ _ _ _ _ W3 eq_refl Hc1) as (p2 & -> & Hc2).
  rewrite (co_alive _ _ _ _ _ Hc2). cbn [negb].
  rewrite (getString_field _ PROCESS_NAME me), (getString_field _ NODE_TYPE nodeType) by done.
  assert (bool_decide (nodeType = "DATANODE") || bool_decide (nodeType = "CLIENT")
          || bool_decide (nodeType = "STANDBY") = true) as ->.
  { set_unfold in Ht. by destruct Ht as [->|[->|[->|[]]]]. }
  destruct (send_ok _ _ _ _ _ _ _ H2 Hc2) as (p3 & Hs3 & Hc3). unfold response. rewrite Hs3.
  rewrite (co_alive _ _ _ _ _ Hc3). cbn [negb].
  destruct (conn_channel _ _ _ _ _ Hc3) as (c' & -> & Hw' & Hi' & Ho').
  exists c'. split_and!; [done..|]. by rewrite Ho', <-app_assoc.
Qed.

Lemma peer_handshake (c : C) pe f1 f2 f3 rest :
  wellframed (stampSeq f1 0) (mkMessage IDENTIFY 0 0 0 []) ->
  wellframed (stampSeq f2 1) (mkMessage RESPONSE FLAG_RESPONSE 1 0 [fieldBool ACK true]) ->
  responseIdentity (nodeType_ pe) (processName_ pe) = Ok f3 -> 0 <= lastSeenEpoch_ pe ->
  writable c -> inbound c = stampSeq f1 0 ++ stampSeq f2 1 ++ rest ->
  exists c', performHandshake c pe = (Ok (if (lastSeenEpoch_ pe =? 0) then Some 0 else None), Some c')
    /\ inbound c' = rest
    /\ (lastSeenEpoch_ pe = 0 -> writable c' /\ outbound c' = outbound c ++ stampSeq f3 0).
Proof.
  intros W1 W2 H3 Hep Hw Hin. unfold performHandshake, handshakeBody, bind.
  pose proof (newProtocol_conn c (nodeType_ pe) (processName_ pe) Hw) as Hc. rewrite Hin in Hc.
  destruct (receive_ok _ _ _ _ _ _ _ W1 eq_refl Hc) as (p1 & -> & Hc1).
  unfold gets at 1. rewrite (co_alive _ _ _ _ _ Hc1). cbn [negb orb opcode].
  rewrite bool_decide_eq_true_2 by done. cbn [negb].
  destruct (send_ok _ _ _ _ _ _ _ H3 Hc1) as (p2 & Hs2 & Hc2). unfold responseOfIdentity. rewrite Hs2.
  unfold gets at 1. rewrite (co_alive _ _ _ _ _ Hc2). cbn [negb].
  destruct (receive_ok _ _ _ _ _ _ _ W2 eq_refl Hc2) as (p3 & -> & Hc3).
  unfold gets. rewrite (co_alive _ _ _ _ _ Hc3). cbn [negb orb].
  change (isAck _) with true. cbn [negb]. change (getUint32 _ EPOCH 0) with 0.
  destruct (Z.ltb_spec 0 (lastSeenEpoch_ pe)) as [Hlt|Hge].
  - assert (exists f, nackStaleEpochFormat (lastSeenEpoch_ pe) = Ok f) as [f Hf]
      by (eexists; by apply buildFrame_ok).
    destruct (send_ok _ _ _ _ _ _ _ Hf Hc3) as (p4 & Hs4 & Hc4). unfold sendNackStaleEpoch. rewrite Hs4.
    destruct (conn_channel _ _ _ _ _ Hc4) as (c' & Hch & _ & Hi' & _). exists c'. cbn [ret].
    unfold ret. rewrite Hch. destruct (Z.eqb_spec (lastSeenEpoch_ pe) 0); [lia|]. split_and!; [done..|lia].
  - assert (lastSeenEpoch_ pe = 0) as He by lia. unfold ret.
    destruct (conn_channel _ _ _ _ _ Hc3) as (c' & Hch & Hw' & Hi' & Ho'). exists c'. rewrite He, Hch. done.
Qed.
End agreement.

(** Server and peer agree on the handshake: there are bytes for either
    direction such that the server, receiving the peer's, sends its own and
    learns the peer's name and type, and a peer that has seen no epoch yet,
    receiving the server's, sends its own and accepts.  A peer that has seen an
    epoch above 0 refuses every server, since the server's ACK carries no
    epoch and reads as epoch 0. *)
Theorem handshake_agreement {C D} `{StreamChannel C, StreamChannel D} nodeType me :
  nodeType ∈ ["DATANODE"; "CLIENT"; "STANDBY"] -> short me = true ->
  exists fromServer fromPeer,
    (forall (c : C) rest, writable c -> inbound c = fromPeer ++ rest ->
       exists c', handshake c = Done (Ok (Some (me, nodeType, c'))) /\ writable c'
         /\ inbound c' = rest /\ outbound c' = outbound c ++ fromServer)
    /\ (forall (c : D) pe rest, nodeType_ pe = nodeType -> processName_ pe = me ->
          0 <= lastSeenEpoch_ pe -> writable c -> inbound c = fromServer ++ rest ->
       exists c', performHandshake c pe
                  = (Ok (if (lastSeenEpoch_ pe =? 0) then Some 0 else None), Some c')
         /\ inbound c' = rest
         /\ (lastSeenEpoch_ pe = 0 -> writable c' /\ outbound c' = outbound c ++ fromPeer)).
Proof.
  intros Ht Hme. assert (short nodeType = true) as Hs.
  { set_unfold in Ht. by destruct Ht as [->|[->|[->|[]]]]. }
  destruct (handshake_frames nodeType me Hs Hme) as (f1 & f2 & f3 & E1 & W1 & E2 & W2 & E3 & W3).
  exists (stampSeq f1 0 ++ stampSeq f2 1), (stampSeq f3 0). split.
  - intros c rest Hw Hin. by eapply server_handshake.
  - intros c pe rest Hnt Hpn Hep Hw Hin. rewrite <-app_assoc in Hin. eapply peer_handshake; try done.
    by rewrite Hnt, Hpn.
Qed.

Lemma handshake_agreement_witness :
  exists fromServer fromPeer,
    (forall (c : Pipe) rest, writable c -> inbound c = fromPeer ++ rest ->
       exists c', handshake c = Done (Ok (Some ("dn1", "DATANODE", c'))) /\ writable c'
         /\ inbound c' = rest /\ outbound c' = outbound c ++ fromServer)
    /\ (forall (c : Pipe) pe rest, nodeType_ pe = "DATANODE" -> processName_ pe = "dn1" ->
          0 <= lastSeenEpoch_ pe -> writable c -> inbound c = fromServer ++ rest ->
       exists c', performHandshake c pe
                  = (Ok (if (lastSeenEpoch_ pe =? 0) then Some 0 else None), Some c')
         /\ inbound c' = rest
         /\ (lastSeenEpoch_ pe = 0 -> writable c' /\ outbound c' = outbound c ++ fromPeer)).
Proof.
  apply (handshake_agreement "DATANODE" "dn1").
  - apply (bool_decide_unpack _). reflexivity.
  - reflexivity.
Defined.

(** ** Failover *)

Section failover.
Context {C : Type} `{NetworkChannel C}.
Implicit Types pe : Peer C.

(** What a connection attempt to one server gives: the epoch and channel of
    a peer that was taken, if it was. *)
Definition attemptAt (dial : string -> Z -> option C) pe (entry : ServerEntry) : option (Z * option C) :=
  match dial (ip entry) (port entry) with
  | None => None
  | Some c => match performHandshake c pe with
              | (Ok (Some ep), c) => Some (ep, c)
              | _ => None
              end
  end.

(** The specification: the first pair of attempt and server, attempts first,
    that takes the peer. *)
Definition firstTaken (dial : nat -> string -> Z -> option C) pe (ks : list nat)
  : option (ServerEntry * (Z * option C)) :=
  head (omap (fun ke => (fun r => (ke.2, r)) <$> attemptAt (dial ke.1) pe ke.2)
             (list_prod ks (servers (clusterConfig_ pe)))).

(** The peer's own names fit a frame. *)
Definition named pe : Prop := short (nodeType_ pe) = true /\ short (processName_ pe) = true.

Lemma handshake_no_throw (c : C) pe : named pe -> exists r ch, performHandshake c pe = (Ok r, ch).
Proof.
  intros [Hn Hp]. unfold performHandshake, handshakeBody, bind, gets, ret, receive, lift.
  destruct (receiveAndParse _) as [m p]. destruct (_ || _); [eauto|].
  assert (exists f, responseIdentity (nodeType_ pe) (processName_ pe) = Ok f) as [f Hf].
  { eexists. apply buildFrame_ok. change (short (nodeType_ pe) && (short (processName_ pe) && true) = true).
    by rewrite Hn, Hp. }
  unfold responseOfIdentity, send. rewrite Hf. destruct (negb _); [eauto|].
  destruct (receiveAndParse _) as [m2 p2]. destruct (_ || _); [eauto|].
  destruct (_ <? _); [|eauto].
  assert (exists f, nackStaleEpochFormat (lastSeenEpoch_ pe) = Ok f) as [f2 Hf2]
    by (eexists; by apply buildFrame_ok).
  unfold sendNackStaleEpoch, send. rewrite Hf2. eauto.
Qed.

Lemma tryServers_spec dial entries pe :
  named pe ->
  tryServers dial entries pe =
    match head (omap (fun e => (fun r => (e, r)) <$> attemptAt dial pe e) entries) with
    | Some (e, (ep, c)) => (Ok true, join ep c (set_target e pe))
    | None => (Ok false, pe)
    end.
Proof.
  intros Hn. induction entries as [|e entries IH]; [done|]. cbn [tryServers omap list_omap].
  unfold attemptAt at 1. destruct (dial (ip e) (port e)) as [c|]; [|exact IH].
  destruct (handshake_no_throw c pe Hn) as (r & ch & ->). destruct r as [ep|]; [done|exact IH].
Qed.

Lemma head_app {A} (l k : list A) : head (l ++ k) = match head l with Some x => Some x | None => head k end.
Proof. by destruct l. Qed.

Lemma omap_map {A B D} (f : A -> B) (g : B -> option D) l : omap g (map f l) = omap (fun x => g (f x)) l.
Proof. induction l as [|x l IH]; [done|]. csimpl. by rewrite IH. Qed.

Lemma failoverLoop_spec dial k n pe :
  named pe ->
  failoverLoop dial k n pe =
    match firstTaken dial pe (List.seq k n) with
    | Some (e, (ep, c)) => (Ok tt, join ep c (set_target e pe))
    | None => (Throw "could not connect to any server in cluster", pe)
    end.
Proof.
  intros Hn. revert k. induction n as [|n IH]; intros k; [done|]. cbn [failoverLoop List.seq].
  rewrite tryServers_spec by done. unfold firstTaken. cbn [list_prod].
  rewrite omap_app, head_app, omap_map. cbn [fst snd].
  destruct (head _) as [[e [ep c]]|]; [done|]. apply IH.
Qed.
End failover.

(** C37. Failover: [connectWithFailover] connects to the first server that
    takes the peer, trying the configured servers in order of priority once per
    attempt; it throws exactly when no server takes it in any attempt, and then
    leaves the session and the target address as they were. *)
Theorem failover_takes_first {C} `{NetworkChannel C} (pe : Peer C) dial cfg :
  named pe ->
  connectWithFailover dial cfg pe =
    match firstTaken dial (set_config cfg pe)
            (List.seq 0 (Z.to_nat (Z.max 1 (reconnect_attempts cfg)))) with
    | Some (e, (ep, c)) => (Ok tt, join ep c (set_target e (set_config cfg pe)))
    | None => (Throw "could not connect to any server in cluster", set_config cfg pe)
    end.
Proof. intros Hn. unfold connectWithFailover. by apply failoverLoop_spec. Qed.

(** The bytes of a server that takes a peer. *)
Definition welcome : list byte :=
  match identifyFormat, responseAck true with
  | Ok f1, Ok f2 => stampSeq f1 0 ++ stampSeq f2 1
  | _, _ => []
  end.
Definition demo_peer : Peer Pipe := newPeer "127.0.0.1" 12345 "CLIENT" "alice".
(** Only the second server answers, at the second attempt. *)
Definition demo_dial (k : nat) (addr : string) (prt : Z) : option Pipe :=
  if bool_decide (k = 1%nat /\ (ip <$> find demo_config "server2") = Some addr)
  then Some (demo_pipe welcome) else None.

Lemma failover_takes_first_witness :
  connectWithFailover demo_dial demo_config demo_peer =
    match firstTaken demo_dial (set_config demo_config demo_peer)
            (List.seq 0 (Z.to_nat (Z.max 1 (reconnect_attempts demo_config)))) with
    | Some (e, (ep, c)) => (Ok tt, join ep c (set_target e (set_config demo_config demo_peer)))
    | None => (Throw "could not connect to any server in cluster", set_config demo_config demo_peer)
    end.
Proof. apply (failover_takes_first demo_peer demo_dial demo_config). split; reflexivity. Defined.

Example failover_demo :
  (connectWithFailover demo_dial demo_config demo_peer).1 = Ok tt
  /\ Some (server_ip (connectWithFailover demo_dial demo_config demo_peer).2) = ip <$> find demo_config "server2"
  /\ peerAlive (connectWithFailover demo_dial demo_config demo_peer).2 = true.
Proof. vm_compute. repeat split. Qed.
