(* ===== verification/DataNode.v ===== *)
(** * The process of a datanode

    Models [datanode/src/datanode.cpp] (its name, its constructors, the loop of
    [run]) and [datanode/src/main.cpp].  [dial] is the outcome of the connection
    attempts ([Sockets.tryConnectChannel]); a turn of the loop has a [dial] of
    its own, as what the network does changes over time. *)

From S2P Require Import Prelude Text Wire FileManager FileTransfer Protocol StateStore Session ServerState LockManager Replication ClusterConfig Watcher Standby Server Startup Peer.

Definition SERVER_IP : string := "127.0.0.1".
Definition SERVER_PORT : Z := 12345.

Definition dot : byte := "."%char.
Definition underscore : byte := "_"%char.

Definition generateName (ip : string) (port : Z) : string :=
  let safe_ip := string_of_bytes (map (fun c => if decide (c = dot) then underscore else c) (bytes_of_string ip)) in
  "DATANODE_" +:+ safe_ip +:+ "_" +:+ to_string port.

Section datanode.
Context {C : Type} `{NetworkChannel C}.
Local Abbreviation Pe := (Peer C).
Implicit Types pe : Pe.

(** [DataNode(server_ip, port)] and the constructor with a given identity; the
    other constructors are these with [SERVER_IP] and [SERVER_PORT]. *)
Definition newDataNode (server_ip : string) (port : Z) : Pe :=
  newPeer server_ip port "DATANODE" (generateName server_ip port).
Definition namedDataNode (server_ip : string) (port : Z) (nodeType processName : string) : Pe :=
  newPeer server_ip port nodeType processName.

(** [run] before its loop: an exception of the first connection leaves [run]. *)
Definition runStart (dial : nat -> string -> Z -> option C) pe : result unit * Pe :=
  if peerAlive pe then (Ok tt, pe) else connectToServer dial pe.

(** One turn of the loop. *)
Definition runTurn (dial : nat -> string -> Z -> option C) : SO Pe unit := fun pe =>
  if peerAlive pe then (Done (Ok tt), pe) else attempt (reconnect dial) pe.

Fixpoint runTurns (dials : list (nat -> string -> Z -> option C)) : SO Pe unit :=
  match dials with
  | [] => sret tt
  | dial :: dials => do! runTurn dial in runTurns dials
  end.

(** [main] up to the loop: [cwd] is the name of the working directory. *)
Definition datanodeMain (args : list string) (cwd : string) (readConfig : string -> option (list byte))
    (dial : nat -> string -> Z -> option C) : result unit * Pe :=
  let server_ip := default SERVER_IP (args !! 0%nat) in
  let server_port := from_option atoi SERVER_PORT (args !! 1%nat) in
  let node_identity := default "" (args !! 2%nat) in
  let configPath := default "" (args !! 3%nat) in
  let node_identity := if decide (node_identity = "") then cwd else node_identity in
  let pe := namedDataNode server_ip server_port "DATANODE" node_identity in
  let pe := if decide (configPath = "") then pe
            else match fromFile (readConfig configPath) with
                 | Throw _ => pe
                 | Ok config => (connectWithFailover dial config pe).2
                 end in
  runStart dial pe.

(** ** Coming back *)

(** The attempts of one reconnection. *)
Definition attempts pe : list nat := List.seq 0 (Z.to_nat (Z.max 1 (reconnect_attempts (clusterConfig_ pe)))).

(** Disconnecting a peer without a live session makes no request. *)
Lemma disconnect_dead pe : peerAlive pe = false -> disconnect pe = (Done (Ok tt), set_session None pe).
Proof.
  unfold peerAlive, disconnect, shutDown. intros Hd. destruct (session_ pe) as [s|] eqn:E; [by rewrite Hd|].
  destruct pe. simpl in *. by subst.
Qed.

(** What a turn does to a datanode that has lost its server: it returns, and
    is connected to the first server that takes it. *)
Lemma turn_dead dial pe :
  named pe -> valid (clusterConfig_ pe) = true -> peerAlive pe = false ->
  runTurn dial pe = (Done (Ok tt),
    match firstTaken dial pe (attempts pe) with
    | Some (e, (ep, c)) => Peer.join ep c (set_target e pe)
    | None => set_session None pe
    end).
Proof.
  intros Hn Hv Hd. unfold runTurn, attempt, reconnect. rewrite Hd, disconnect_dead by done.
  change (clusterConfig_ (set_session None pe)) with (clusterConfig_ pe). rewrite Hv.
  unfold connectWithFailover. rewrite failoverLoop_spec by exact Hn.
  change (firstTaken dial (set_config (clusterConfig_ pe) (set_session None pe))) with (firstTaken dial pe).
  fold (attempts pe). destruct (firstTaken dial pe (attempts pe)) as [[e [ep c]]|]; done.
Qed.

Lemma turns_dead dials pe :
  named pe -> valid (clusterConfig_ pe) = true -> peerAlive pe = false ->
  Forall (fun dial => firstTaken dial pe (attempts pe) = None) dials ->
  exists s, runTurns dials pe = (Done (Ok tt), set_session s pe)
    /\ peerAlive (set_session s pe) = false.
Proof.
  intros Hn Hv Hd Hf. revert pe Hn Hv Hd Hf. induction dials as [|dial dials IH]; intros pe Hn Hv Hd Hf.
  { exists (session_ pe). destruct pe. done. }
  apply Forall_cons in Hf as [H1 Hf]. cbn [runTurns]. unfold sbind.
  rewrite (turn_dead dial pe), H1 by done.
  destruct (IH (set_session None pe)) as (s & -> & Hs); [done..|]. by exists s.
Qed.
Lemma runTurns_app ds1 ds2 pe :
  runTurns (ds1 ++ ds2) pe = match runTurns ds1 pe with
                             | (Done (Ok _), pe) => runTurns ds2 pe
                             | other => other
                             end.
Proof.
  revert pe. induction ds1 as [|d ds1 IH]; intros pe; [done|]. cbn [runTurns app]. unfold sbind.
  by destruct (runTurn d pe) as [[[[]|]|] pe1].
Qed.
End datanode.

(** C33. A datanode that has lost its server comes back by itself: in each turn of
    its loop it goes through its configured servers again, no failure ends the
    loop or makes it wait for ever, and in the first turn in which a server
    takes it, it is connected to the first such server. *)
Theorem datanode_comes_back {C} `{NetworkChannel C} (pe : Peer C) dials dial e ep c :
  named pe -> valid (clusterConfig_ pe) = true -> peerAlive pe = false ->
  Forall (fun dial => firstTaken dial pe (attempts pe) = None) dials ->
  firstTaken dial pe (attempts pe) = Some (e, (ep, Some c)) ->
  exists pe', runTurns (dials ++ [dial]) pe = (Done (Ok tt), pe')
    /\ peerAlive pe' = true /\ server_ip pe' = ip e /\ server_port pe' = port e
    /\ lastSeenEpoch_ pe' = ep.
Proof.
  intros Hn Hv Hd Hf Ht. destruct (turns_dead dials pe Hn Hv Hd Hf) as (s & Hs & Hds).
  rewrite (runTurns_app dials [dial] pe), Hs. cbn [runTurns]. unfold sbind at 1.
  rewrite (turn_dead dial (set_session s pe)) by done.
  change (firstTaken dial (set_session s pe)) with (firstTaken dial pe).
  change (attempts (set_session s pe)) with (attempts pe). rewrite Ht.
  eexists. split; [reflexivity|]. done.
Qed.

(** Nobody answers in the first turn; in the second, the second server does at
    the second attempt. *)
Definition demo_lost : Peer Pipe := set_config demo_config (namedDataNode "10.0.0.1" 9000 "DATANODE" "dn1").

Lemma datanode_comes_back_witness :
  exists pe', runTurns [fun _ _ _ => None; demo_dial] demo_lost = (Done (Ok tt), pe')
    /\ peerAlive pe' = true /\ server_ip pe' = "10.0.0.2" /\ server_port pe' = 9000
    /\ lastSeenEpoch_ pe' = 0.
Proof.
  assert (exists c, firstTaken demo_dial demo_lost (attempts demo_lost)
            = Some (ClusterConfig.mkServer "server2" "10.0.0.2" 9000, (0, Some c))) as [c Hc]
    by (eexists; vm_compute; reflexivity).
  eapply (datanode_comes_back demo_lost [fun _ _ _ => None] demo_dial
            (ClusterConfig.mkServer "server2" "10.0.0.2" 9000) 0 c); [| | | |exact Hc].
  - split; reflexivity.
  - reflexivity.
  - reflexivity.
  - repeat constructor.
Defined.

(** The generated name is made of the address of the server: two datanodes of
    one server that rely on it have the same name. *)
Example generateName_demo : generateName "127.0.0.1" 12345 = "DATANODE_127_0_0_1_12345".
Proof. vm_compute. reflexivity. Qed.
