(* ===== verification/Client.v ===== *)
(** * The client

    Models [client/src/client.{hpp,cpp}]: the requests of a client, its
    in-memory version map, and the handling of pushes.  [notified] records what
    the push callback is called with, in order; the callback that [SquidFS]
    installs is [SquidFS.pushHandler]. *)

From S2P Require Import Prelude Text Wire FileManager FileTransfer Protocol StateStore Session ServerState LockManager Replication ClusterConfig Watcher Standby Server Peer.

Record Client (C : Type) : Type := mkClientState {
  peer : Peer C;
  versions : gmap string Z;
  notified : list (Message * list byte) }.
Arguments mkClientState {C}.
Arguments peer {C}.
Arguments versions {C}.
Arguments notified {C}.

Section client.
Context {C : Type} `{NetworkChannel C}.
Local Abbreviation Cl := (Client C).
Implicit Types cl : Cl.

Definition set_peer (pe : Peer C) cl : Cl := mkClientState pe (versions cl) (notified cl).
Definition setVersions (m : gmap string Z) cl : Cl := mkClientState (peer cl) m (notified cl).
Definition notify (m : Message) (data : list byte) cl : Cl :=
  mkClientState (peer cl) (versions cl) (notified cl ++ [(m, data)]).

Definition getFileVersion (path : string) cl : Z := default (-1) (versions cl !! path).
Definition setFileVersion (path : string) (v : Z) cl : Cl := setVersions (<[path := v]> (versions cl)) cl.
Definition deleteFileVersion (path : string) cl : Cl := setVersions (delete path (versions cl)) cl.

Definition setVersionFromAck (path : string) (ack : Message) cl : Cl :=
  if negb (isAck ack) then cl
  else
    let v := getUint32 ack FILE_VERSION (2 ^ 32 - 1) in
    if (v =? 2 ^ 32 - 1) then cl else setFileVersion path (i32 v) cl.

(** [sess->call(fn)] on [lockedSession()], nothing without a session. *)
Definition onSession (fn : M C Message) : SO Cl (option Message) := fun cl =>
  match session_ (peer cl) with
  | None => (Done (Ok None), cl)
  | Some s =>
      let '(r, s) := call fn s in
      (match r with
       | Done (Ok m) => Done (Ok (Some m))
       | Done (Throw e) => Done (Throw e)
       | Hang => Hang
       end, set_peer (set_session (Some s) (peer cl)) cl)
  end.

Definition syncStatus : SO Cl Message :=
  let! r := onSession Protocol.syncStatus in
  match r with
  | None => sret emptyMessage
  | Some response =>
      if negb (isResponse response) then sret response
      else
        do! smodify (fun cl : Cl =>
              setVersions (store_all (map_entries (Wire.getFileVersionMap response)) (versions cl)) cl) in
        sret response
  end.

Definition heartbeat : SO Cl Message :=
  let! r := onSession Protocol.heartbeat in sret (default emptyMessage r).

(** [reconnect()] inside [try]: whether it returned. *)
Definition tryReconnect (dial : nat -> string -> Z -> option C) : SO Cl bool := fun cl =>
  match reconnect dial (peer cl) with
  | (Done (Ok _), pe) => (Done (Ok true), set_peer pe cl)
  | (Done (Throw _), pe) => (Done (Ok false), set_peer pe cl)
  | (Hang, pe) => (Hang, set_peer pe cl)
  end.

Definition ensureConnected (dial : nat -> string -> Z -> option C) : SO Cl bool :=
  let! live := sgets (fun cl : Cl => peerAlive (peer cl)) in
  if (live : bool) then sret true
  else
    let! ok := tryReconnect dial in
    let! live := sgets (fun cl : Cl => peerAlive (peer cl)) in
    if negb (ok && live) then sret false
    else do! syncStatus in sret true.

(** The common part of the requests: [sessionLocked], the call, and what is
    made of the answer. *)
Definition request (dial : nat -> string -> Z -> option C) (fn : M C Message)
    (learn : Message -> Cl -> Cl) : SO Cl Message :=
  let! ok := ensureConnected dial in
  if negb ok then sret emptyMessage
  else
    let! r := onSession fn in
    match r with
    | None => sret emptyMessage
    | Some ack => do! smodify (learn ack) in sret ack
    end.

Definition createFile dial (path : string) (data : list byte) (v : Z) : SO Cl Message :=
  request dial (createFileData path v data) (setVersionFromAck path).
Definition updateFile dial (path : string) (data : list byte) (v : Z) : SO Cl Message :=
  request dial (updateFileData path v data) (setVersionFromAck path).
Definition deleteFile dial (path : string) : SO Cl Message :=
  request dial (Protocol.deleteFile path)
    (fun ack cl => if isAck ack then deleteFileVersion path cl else cl).
Definition acquireLock dial (path : string) : SO Cl Message :=
  request dial (Protocol.acquireLock path) (fun _ cl => cl).
Definition releaseLock dial (path : string) : SO Cl Message :=
  request dial (Protocol.releaseLock path) (fun _ cl => cl).

(** [readFile]: the data comes back through an out-parameter. *)
Definition readFile dial (path : string) : SO Cl (Message * list byte) :=
  let! ok := ensureConnected dial in
  if negb ok then sret (emptyMessage, [])
  else fun cl =>
    match session_ (peer cl) with
    | None => (Done (Ok (emptyMessage, [])), cl)
    | Some s =>
        let '(r, s) := call (Protocol.readFile path) s in
        let cl := set_peer (set_session (Some s) (peer cl)) cl in
        match r with
        | Done (Ok (ack, data)) => (Done (Ok (ack, data)), setVersionFromAck path ack cl)
        | other => (other, cl)
        end
    end.

(** ** Pushes

    On the worker thread of the session, so [receiveFileData] runs at once. *)
Definition onWorker {A} (fn : ConnectionSession C -> result A * ConnectionSession C) : SO Cl (option A) :=
  fun cl =>
    match session_ (peer cl) with
    | None => (Done (Ok None), cl)
    | Some s =>
        let '(r, s) := fn s in
        (match r with Ok a => Done (Ok (Some a)) | Throw e => Done (Throw e) end,
         set_peer (set_session (Some s) (peer cl)) cl)
    end.

Definition receiveHere (s : ConnectionSession C) : result (bool * list byte) * ConnectionSession C :=
  let '(r, p) := receiveFileData (protocol_ s) in
  (r, mkSession (alive_ s) p (tasks_ s) (readSuspended_ s)).

Definition handlePush (message : Message) : SO Cl unit :=
  let path := getString message FILE_PATH "" in
  match opcode message with
  | PUSH_CREATE_FILE | PUSH_UPDATE_FILE =>
      let! r := onWorker receiveHere in
      let data := match r with Some (_, data) => data | None => [] end in
      let version := i32 (getUint32 message FILE_VERSION 0) in
      do! (if decide (path = "") then sret tt else smodify (setFileVersion path version)) in
      smodify (notify message data)
  | PUSH_DELETE_FILE =>
      do! smodify (notify message []) in
      if decide (path = "") then sret tt else smodify (deleteFileVersion path)
  | RELEASE_LOCK => smodify (notify message [])
  | HEARTBEAT => do! onWorker (fun s => (Ok tt, post (response true) s)) in sret tt
  | CLOSE => do! onWorker (fun s => (Ok tt, cs_setIsAlive false s)) in sret tt
  | NACK_STALE_EPOCH =>
      do! onWorker (fun s => (Ok tt, cs_setIsAlive false s)) in
      smodify (notify message [])
  | _ => sret tt
  end.

(** ** The life of a client *)

Definition newClient (serverIp : string) (serverPort : Z) (processName : string) : Cl :=
  mkClientState (newPeer serverIp serverPort "CLIENT" processName) ∅ [].

Definition destroyClient : SO Cl unit := fun cl =>
  let '(r, pe) := disconnect (peer cl) in (r, set_peer pe cl).

Definition connect (dial : nat -> string -> Z -> option C) : SO Cl unit := fun cl =>
  let '(r, pe) := connectToServer dial (peer cl) in (Done r, set_peer pe cl).

(** The polls of [run]: between two of them the worker of the session runs,
    [worker k] being what it does in the [k]th second.  [n] bounds the polls;
    a client that is alive at the last of them is still waiting. *)
Fixpoint pollAlive (worker : nat -> Cl -> Cl) (k n : nat) : SO Cl unit := fun cl =>
  if peerAlive (peer cl) then
    match n with
    | O => (Hang, cl)
    | S n => pollAlive worker (k + 1) n (worker k cl)
    end
  else (Done (Ok tt), cl).

Definition run (dial : nat -> string -> Z -> option C) (worker : nat -> Cl -> Cl) (n : nat) : SO Cl unit :=
  do! connect dial in
  do! syncStatus in
  pollAlive worker 0 n.

(** What the worker has done after [k] seconds. *)
Fixpoint worked (worker : nat -> Cl -> Cl) (k n : nat) cl : Cl :=
  match n with O => cl | S n => worked worker (k + 1) n (worker k cl) end.

(** The polls end when the session does: [run] returns within [n] polls
    exactly when the session has died by then. *)
Lemma pollAlive_ends worker n k cl :
  (exists cl', pollAlive worker k n cl = (Done (Ok tt), cl'))
  <-> exists m, (m <= n)%nat /\ peerAlive (peer (worked worker k m cl)) = false.
Proof.
  revert k cl. induction n as [|n IH]; intros k cl; simpl.
  - destruct (peerAlive (peer cl)) eqn:E.
    + split; [by intros [? ?]|]. intros (m & Hm & Hd). destruct m; [simpl in Hd; congruence|lia].
    + split; [intros _; exists O; split; [lia|done]|eauto].
  - destruct (peerAlive (peer cl)) eqn:E.
    + rewrite IH. split; intros (m & Hm & Hd).
      * exists (S m). split; [lia|done].
      * destruct m as [|m]; simpl in Hd; [congruence|]. exists m. split; [lia|done].
    + split; [intros _; exists O; split; [lia|done]|eauto].
Qed.
End client.

(** ** Answers and pushes share one sequence *)

Section confusion.
Context {C : Type} `{StreamChannel C}.

Lemma ensureConnected_live (cl : Client C) dial :
  peerAlive (peer cl) = true -> ensureConnected dial cl = (Done (Ok true), cl).
Proof. intros Hal. unfold ensureConnected. rewrite sbind_gets. by rewrite Hal. Qed.

(** A request of one frame is answered by whatever message comes next. *)
Lemma request_next (cl : Client C) dial fmt frame learn s raw m a b i o :
  session_ (peer cl) = Some s -> cs_isAlive s = true -> tasks_ s = [] ->
  fmt = Ok frame -> wellframed raw m -> seq m = b -> conn (protocol_ s) a b (raw ++ i) o ->
  exists p', conn p' (u32 (a + 1)) (u32 (b + 1)) i (o ++ stampSeq frame a)
    /\ request dial (do* send fmt in receive) learn cl
       = (Done (Ok m), learn m (set_peer (set_session
            (Some (mkSession (alive_ s) p' [] (readSuspended_ s))) (peer cl)) cl)).
Proof.
  intros Hs Hal Ht Hf Hw Hsq Hc. destruct (send_ok _ _ _ _ _ _ _ Hf Hc) as (p1 & Hsend & Hc1).
  destruct (receive_ok _ _ _ _ _ _ _ Hw Hsq Hc1) as (p2 & Hrecv & Hc2). exists p2. split; [done|].
  unfold request.
  rewrite (sbind_done _ _ _ _ _ (ensureConnected_live cl dial ltac:(unfold peerAlive; by rewrite Hs))).
  cbn [negb]. assert (onSession (do* send fmt in receive) cl = (Done (Ok (Some m)), set_peer (set_session
    (Some (mkSession (alive_ s) p2 [] (readSuspended_ s))) (peer cl)) cl)) as Hon.
  { unfold onSession. rewrite Hs, call_idle by done. unfold bind. by rewrite Hsend, Hrecv. }
  by rewrite (sbind_done _ _ _ _ _ Hon).
Qed.
End confusion.

(** A push that overtakes an answer shifts all answers by one: if a
    PUSH_DELETE_FILE frame is ahead of the server's answer to a DELETE, the
    client takes the push for the answer (not an ACK: the delete seems to have
    failed), the push handler is never called, and the ACK of the delete is
    taken for the answer to the next request, here a lock the server has not
    granted. *)
Theorem push_taken_for_answer {C} `{StreamChannel C} (cl : Client C) dial path lockPath s
    push ack pushed acked a b i o :
  session_ (peer cl) = Some s -> cs_isAlive s = true -> tasks_ s = [] ->
  short path = true -> short lockPath = true ->
  wellframed pushed push -> seq push = b -> opcode push = PUSH_DELETE_FILE -> flags push = 0 ->
  wellframed acked ack -> seq ack = u32 (b + 1) -> isAck ack = true ->
  conn (protocol_ s) a b (pushed ++ acked ++ i) o ->
  exists cl1 cl2, deleteFile dial path cl = (Done (Ok push), cl1) /\ isAck push = false
    /\ acquireLock dial lockPath cl1 = (Done (Ok ack), cl2) /\ isAck ack = true
    /\ versions cl2 = versions cl /\ notified cl2 = notified cl.
Proof.
  intros Hs Hal Ht Hp Hl Wp Sp Op Fp Wa Sa Ha Hc.
  assert (exists f, deleteFileFormat path = Ok f) as [f1 F1].
  { eexists. apply buildFrame_ok. change (short path && true = true). by rewrite Hp. }
  assert (exists f, acquireLockFormat lockPath = Ok f) as [f2 F2].
  { eexists. apply buildFrame_ok. change (short lockPath && true = true). by rewrite Hl. }
  assert (isAck push = false) as Hna by (unfold isAck, isResponse; by rewrite Fp).
  destruct (request_next cl dial _ _ (fun ack cl => if isAck ack then deleteFileVersion path cl else cl)
              s _ _ _ _ _ _ Hs Hal Ht F1 Wp Sp Hc) as (p1 & Hc1 & Hdel).
  rewrite Hna in Hdel. set (cl1 := set_peer _ cl) in Hdel.
  set (s1 := mkSession (alive_ s) p1 [] (readSuspended_ s)) in cl1.
  assert (cs_isAlive s1 = true) as Hal1.
  { unfold cs_isAlive in *. cbn. apply andb_prop in Hal as [-> _]. by rewrite (co_alive _ _ _ _ _ Hc1). }
  destruct (request_next cl1 dial _ _ (fun _ cl => cl) s1 _ _ _ _ _ _ eq_refl Hal1 eq_refl F2 Wa Sa Hc1)
    as (p2 & _ & Hlock).
  eexists _, _. split; [exact Hdel|]. split; [done|]. split; [exact Hlock|]. done.
Qed.

Definition demo_pushed : list byte := demo_frame PUSH_DELETE_FILE 0.
Definition demo_acked : list byte :=
  match responseAck true with Ok f => stampSeq f 1 | Throw _ => [] end.
Definition demo_shifted : ConnectionSession Pipe :=
  newSession (demo_pipe (demo_pushed ++ demo_acked)) "CLIENT" "alice".
Definition demo_client : Client Pipe :=
  mkClientState (set_session (Some demo_shifted) demo_peer) ∅ [].

Lemma push_taken_for_answer_witness :
  exists cl1 cl2,
    deleteFile demo_dial "a.txt" demo_client = (Done (Ok (mkMessage PUSH_DELETE_FILE 0 0 0 [])), cl1)
    /\ isAck (mkMessage PUSH_DELETE_FILE 0 0 0 []) = false
    /\ acquireLock demo_dial "b.txt" cl1
       = (Done (Ok (mkMessage RESPONSE FLAG_RESPONSE 1 0 [fieldBool ACK true])), cl2)
    /\ isAck (mkMessage RESPONSE FLAG_RESPONSE 1 0 [fieldBool ACK true]) = true
    /\ versions cl2 = versions demo_client /\ notified cl2 = notified demo_client.
Proof.
  apply (push_taken_for_answer demo_client demo_dial "a.txt" "b.txt" demo_shifted
           (mkMessage PUSH_DELETE_FILE 0 0 0 [])
           (mkMessage RESPONSE FLAG_RESPONSE 1 0 [fieldBool ACK true])
           demo_pushed demo_acked 0 0 [] []).
  - reflexivity.
  - reflexivity.
  - reflexivity.
  - reflexivity.
  - reflexivity.
  - apply demo_frame_wellframed; [reflexivity|unfold in_u32; lia].
  - reflexivity.
  - reflexivity.
  - reflexivity.
  - destruct (handshake_frames "CLIENT" "alice") as (_ & f & _ & _ & _ & E & W & _); [done..|].
    unfold demo_acked. rewrite E. exact W.
  - reflexivity.
  - reflexivity.
  - rewrite app_nil_r. constructor; reflexivity.
Defined.
