(* ===== verification/Posted.v ===== *)
(** * What is posted arrives

    The replication manager, the standby manager and the lock manager post
    tasks to sessions and go on.  Here a task is the function on the protocol
    that the code posts ([pushCreateFile] and its kin in
    [common/src/networking/ConnectionSession.hpp], the lambdas of
    [standby_replica_manager.cpp] and [lock_manager.cpp]); the session's worker
    drains its queue onto the connection, and the other end, a standby or a
    client, reads the bytes. *)

From S2P Require Import Prelude Text Wire FileManager FileTransfer Protocol StateStore Session ServerState LockManager Replication ClusterConfig Watcher Standby Server Peer Client.

(** ** Tasks as functions *)

Section tasks.
Context {C : Type} `{NetworkChannel C}.

(** [RollbackDelete] goes through the pool to [deleteFile] of the session, its
    answer ignored; [EraseClient] is for the pool alone. *)
Definition postedFn (t : Task) : SE (SquidProtocol C) unit :=
  match t with
  | PushCreate path version data => pushCreateFile path version data
  | PushUpdate path version data => pushUpdateFile path version data
  | PushDelete path => pushDeleteFile path
  | ReleaseLock path => do* Protocol.releaseLock path in ret tt
  | RollbackDelete path => do* Protocol.deleteFile path in ret tt
  | StateDelta op path version names ep => sendStateDelta op path version names ep
  | LeaderHb ep => sendLeaderHb ep
  | EraseClient _ => ret tt
  end.

Definition postAll (ts : list Task) (s : ConnectionSession C) : ConnectionSession C :=
  fold_left (fun s t => post (postedFn t) s) ts s.

Lemma postAll_tasks ts s :
  postAll ts s = mkSession (alive_ s) (protocol_ s) (tasks_ s ++ map postedFn ts) (readSuspended_ s).
Proof.
  revert s. induction ts as [|t ts IH]; intros s; [destruct s; simpl; by rewrite app_nil_r|].
  cbn [postAll fold_left]. fold (postAll ts (post (postedFn t) s)). rewrite IH. simpl. by rewrite <-app_assoc.
Qed.
End tasks.

(** ** On the wire *)

(** The frame of a task that waits for no answer, and the bytes after it. *)
Definition taskFrame (t : Task) : option (Opcode * list BinaryField * list byte) :=
  match t with
  | PushCreate path v data =>
      Some (PUSH_CREATE_FILE, [fieldString FILE_PATH path; fieldUint32 FILE_VERSION (u32 v)], transferBytes data)
  | PushUpdate path v data =>
      Some (PUSH_UPDATE_FILE, [fieldString FILE_PATH path; fieldUint32 FILE_VERSION (u32 v)], transferBytes data)
  | PushDelete path => Some (PUSH_DELETE_FILE, [fieldString FILE_PATH path], [])
  | StateDelta op path v names ep => Some (STATE_DELTA, stateDeltaFields op path v names ep, [])
  | LeaderHb ep => Some (LEADER_HB, [fieldUint32 EPOCH ep], [])
  | ReleaseLock _ | RollbackDelete _ | EraseClient _ => None
  end.

(** The data of a push, and whether it and the fields fit. *)
Definition payload (t : Task) : list byte :=
  match t with PushCreate _ _ data | PushUpdate _ _ data => data | _ => [] end.

Definition sendable (t : Task) : Prop :=
  transferable (payload t)
  /\ match taskFrame t with Some (_, fs, _) => frame_fits fs = true | None => False end.

Definition taskMessage (sq : Z) (t : Task) : Message :=
  match taskFrame t with Some (op, fs, _) => mkMessage op 0 sq 0 fs | None => makeNack end.
Definition taskTail (t : Task) : list byte :=
  match taskFrame t with Some (_, _, tail) => tail | None => [] end.

(** [bs] are the bytes of [ts], numbered from [a]. *)
Inductive on_wire : Z -> list Task -> list byte -> Prop :=
| wire_nil a : on_wire a [] []
| wire_cons a t ts raw bs :
    wellframed raw (taskMessage a t) -> on_wire (u32 (a + 1)) ts bs ->
    on_wire a (t :: ts) (raw ++ taskTail t ++ bs).

(** The sequence number after [n] frames. *)
Fixpoint seqAfter (a : Z) (n : nat) : Z :=
  match n with O => a | S n => seqAfter (u32 (a + 1)) n end.

Lemma names_fields_wf names : fields_wf (map (fieldString DATANODE_NAME) names) = true.
Proof. induction names; simpl; [done|by rewrite IHnames]. Qed.

Lemma task_fields_wf t op fs tail : taskFrame t = Some (op, fs, tail) ->
  fields_wf fs = true /\ opcode_wf op = true.
Proof.
  destruct t; intros [= <- <- <-]; try done. split; [|done].
  unfold stateDeltaFields, fields_wf. rewrite forallb_app. apply names_fields_wf.
Qed.

Section sending.
Context {C : Type} `{StreamChannel C}.

Lemma frame_sent op fs (p : SquidProtocol C) a b i o :
  frame_fits fs = true -> fields_wf fs = true -> opcode_wf op = true -> in_u32 a -> conn p a b i o ->
  exists raw p', send (buildFrame op 0 fs 0) p = (Ok tt, p')
    /\ wellframed raw (mkMessage op 0 a 0 fs) /\ conn p' (u32 (a + 1)) b i (o ++ raw).
Proof.
  intros Hfit Hwf Hop Ha Hc.
  destruct (buildFrame_wellframed op 0 fs a Hfit Hwf Hop ltac:(unfold in_u8; lia) Ha) as (f & Hf & Hw).
  destruct (send_ok _ _ _ _ _ _ _ Hf Hc) as (p' & Hs & Hc'). eauto.
Qed.

Lemma task_sent t (p : SquidProtocol C) a b i o :
  sendable t -> in_u32 a -> conn p a b i o ->
  exists raw p', postedFn t p = (Ok tt, p') /\ wellframed raw (taskMessage a t)
    /\ conn p' (u32 (a + 1)) b i (o ++ raw ++ taskTail t).
Proof.
  intros [Hd Hfit] Ha Hc. unfold taskMessage, taskTail.
  destruct (taskFrame t) as [[[op fs] tail]|] eqn:Ht; [|done].
  destruct (task_fields_wf _ _ _ _ Ht) as [Hwf Hop].
  destruct (frame_sent op fs p a b i o Hfit Hwf Hop Ha Hc) as (raw & p1 & Hs & Hw & Hc1).
  exists raw. destruct t; try discriminate Ht; injection Ht as <- <- <-; try (exists p1; by rewrite app_nil_r).
  all: destruct (sendFileData_ok data p1 _ _ _ _ Hd Hc1) as (p2 & Hs2 & Hc2); exists p2;
    rewrite <-app_assoc in Hc2; split; [|done]; simpl postedFn;
    unfold pushCreateFile, pushUpdateFile, pushCreateFileFormat, pushUpdateFileFormat, bind;
    by rewrite Hs, Hs2.
Qed.

Lemma tasks_sent ts (p : SquidProtocol C) a b i o :
  Forall sendable ts -> in_u32 a -> conn p a b i o ->
  exists bs p', for_each (map postedFn ts) (fun task => task) p = (Ok tt, p')
    /\ on_wire a ts bs /\ conn p' (seqAfter a (length ts)) b i (o ++ bs).
Proof.
  intros Hts. revert p a o. induction Hts as [|t ts Ht _ IH]; intros p a o Ha Hc.
  { exists [], p. rewrite app_nil_r. split; [done|]. split; [constructor|done]. }
  destruct (task_sent t p a b i o Ht Ha Hc) as (raw & p1 & Hs & Hw & Hc1).
  destruct (IH p1 _ _ (u32_range _) Hc1) as (bs & p' & Hs' & Hwire & Hc').
  exists (raw ++ taskTail t ++ bs), p'. split; [|split; [by constructor|]].
  - simpl. unfold bind at 1. by rewrite Hs.
  - by rewrite <-!app_assoc in Hc'.
Qed.

(** The worker drains the posts onto the connection. *)
Lemma posts_drained ts (s : ConnectionSession C) a b i o :
  tasks_ s = [] -> Forall sendable ts -> in_u32 a -> conn (protocol_ s) a b i o ->
  exists bs s', drainQueue (postAll ts s) = (Ok tt, s') /\ tasks_ s' = []
    /\ on_wire a ts bs /\ conn (protocol_ s') (seqAfter a (length ts)) b i (o ++ bs).
Proof.
  intros Ht Hts Ha Hc. destruct (tasks_sent ts _ a b i o Hts Ha Hc) as (bs & p' & Hs & Hw & Hc').
  exists bs. eexists. unfold drainQueue. rewrite postAll_tasks, Ht. cbn [app tasks_ protocol_].
  rewrite Hs. split; [reflexivity|done].
Qed.
End sending.

(** ** A standby *)

Section standby.
Context {C : Type} `{StreamChannel C}.

Lemma stream_arrives ts (p : SquidProtocol C) a b bs rest o :
  Forall onStream ts -> in_u32 b -> on_wire b ts bs -> conn p a b (bs ++ rest) o ->
  exists msgs p', receiveMany (length ts) p = (msgs, p') /\ Forall2 carries ts msgs
    /\ conn p' a (seqAfter b (length ts)) rest o.
Proof.
  intros Hts Hb Hwire. revert p Hts Hb.
  induction Hwire as [b|b t ts raw bs Hw _ IH]; intros p Hts Hb Hc; [by exists [], p|].
  apply Forall_cons in Hts as [Ht Hts].
  assert (taskTail t = [] /\ taskMessage b t = streamMessage b t) as [Etail Emsg] by by destruct t.
  rewrite Etail, Emsg in *. rewrite <-app_assoc in Hc. cbn [app] in Hc.
  assert (seq (streamMessage b t) = b) as Hseq by by destruct t.
  destruct (receive_ok _ _ _ _ _ _ _ Hw Hseq Hc) as (p1 & Hr & Hc1).
  destruct (IH p1 Hts (u32_range _) Hc1) as (msgs & p' & Hmany & Hf & Hc').
  exists (streamMessage b t :: msgs), p'. split; [|split; [constructor; [by exists b|done]|done]].
  cbn [length receiveMany]. unfold receive, lift in Hr.
  destruct (receiveAndParse p) as [m p1']. injection Hr as -> ->. by rewrite Hmany.
Qed.
End standby.

(** C2. A standby keeps up over the wire.  The server goes through any sequence
    of creations of files that have no holder, of updates, of deletions and of
    leader heartbeats, each of which returns; the worker of the standby's
    session drains what was posted to it onto the connection; the standby reads
    those bytes.  Then its copy of the version map and of the holders is the
    server's, and the connection is ready for more, as long as every frame fits
    its format.  Creating a file that has holders already, the registration and
    the loss of a datanode are not in the sequence: the server does not tell
    the standbys of what they do to the holders. *)
Theorem wired_standby_tracks {S} `{Session S} {C D} `{StreamChannel C, StreamChannel D}
    (st st' : Server S) new name sb w (s : ConnectionSession C) a b i o :
  tracked name sb st -> in_u32 (epoch st) -> mirrors st w -> rtc wstep st st' ->
  posted st' = posted st ++ new -> Forall sendable (sentTo sb new) ->
  tasks_ s = [] -> in_u32 a -> conn (protocol_ s) a b i o ->
  let n := length (sentTo sb new) in
  exists bs s', drainQueue (postAll (sentTo sb new) s) = (Ok tt, s') /\ tasks_ s' = []
    /\ conn (protocol_ s') (seqAfter a n) b i (o ++ bs)
    /\ forall (p : SquidProtocol D) c rest out ending, conn p c a (bs ++ rest) out ->
       exists msgs p' w', receiveMany n p = (msgs, p') /\ conn p' c (seqAfter a n) rest out
         /\ receiveLoop msgs ending w = (ending, w') /\ mirrors st' w'.
Proof.
  intros Htr Hu Hm Hsteps Hnew Hsend Ht Ha Hc n.
  destruct (server_streams _ _ _ _ Htr Hsteps) as [_ (new' & Hp & Hon & Hall)].
  assert (new' = new) as -> by (apply (app_inv_head (posted st)); congruence).
  destruct (posts_drained _ s a b i o Ht Hsend Ha Hc) as (bs & s' & Hd & Ht' & Hwire & Hc').
  exists bs, s'. split_and!; [done..|]. intros p c rest out ending Hp'.
  destruct (stream_arrives _ p c a bs rest out Hon Ha Hwire Hp') as (msgs & p' & Hmany & Hf & Hcp).
  destruct (Hall w msgs Hu Hm Hf) as (w' & Hr & Hm'). exists msgs, p', w'.
  split_and!; [done..| |done]. specialize (Hr [] ending). by rewrite app_nil_r in Hr.
Qed.

Definition demo_new : list (sid * Task) := drop (length (posted demo_primary)) (posted demo_primary3).
Definition demo_feed : list Task := sentTo 20%positive demo_new.

Lemma demo_feed_is : demo_feed =
  [StateDelta 0 "b.txt" 0 ["dn1"; "dn2"; "dn3"] 0; StateDelta 0 "b.txt" 1 ["dn1"; "dn2"; "dn3"] 0; LeaderHb 0].
Proof. vm_compute. reflexivity. Qed.

Lemma demo_feed_sendable : Forall sendable demo_feed.
Proof.
  rewrite demo_feed_is.
  repeat constructor; done.
Qed.

Lemma demo_conn : conn (protocol_ demo_session) 0 0 [] [].
Proof. by constructor. Qed.

Lemma demo_protocol_conn bs : conn (demo_protocol bs) 0 0 bs [].
Proof. by constructor. Qed.

(** The standby's end, with what the worker has sent. *)
Definition demo_follower : SquidProtocol Pipe :=
  demo_protocol (output (protocol_ (drainQueue (postAll demo_feed demo_session)).2)).

Lemma wired_standby_tracks_witness :
  exists msgs p' w', receiveMany 3 demo_follower = (msgs, p') /\ conn p' 0 3 [] []
    /\ receiveLoop msgs true demo_watcher = (true, w') /\ mirrors demo_primary3 w'.
Proof.
  destruct (wired_standby_tracks (D := Pipe) demo_primary demo_primary3 demo_new "server2" 20%positive demo_watcher
           demo_session 0 0 [] []) as (bs & s' & Hd & _ & Hc & Hall).
  - exact demo_tracked.
  - unfold in_u32. cbn. lia.
  - exact demo_mirrors.
  - exact demo_steps.
  - vm_compute. reflexivity.
  - exact demo_feed_sendable.
  - reflexivity.
  - unfold in_u32. lia.
  - exact demo_conn.
  - apply Hall. change (sentTo 20%positive demo_new) with demo_feed in Hd.
    assert (demo_follower = demo_protocol bs) as ->
      by (unfold demo_follower; rewrite Hd; cbn [snd]; f_equal; exact (co_output _ _ _ _ _ Hc)).
    rewrite app_nil_r. apply demo_protocol_conn.
Defined.

(** ** A client *)

Section client.
Context {C : Type} `{NetworkChannel C}.

(** A turn of the client's worker that finds a message: [run] hands it to
    [handlePush], unless the connection has died. *)
Definition clientTurn : SO (Client C) unit :=
  let! r := onWorker (fun s =>
    let '(m, p) := receiveAndParse (protocol_ s) in
    (Ok (if alive p then Some m else None), mkSession (alive_ s && alive p) p (tasks_ s) (readSuspended_ s))) in
  match r with Some (Some m) => handlePush m | _ => sret tt end.

Fixpoint clientTurns (n : nat) : SO (Client C) unit :=
  match n with O => sret tt | S n => do! clientTurn in clientTurns n end.
End client.

(** A push of a version that fits its field, of a path that is not empty. *)
Definition pushes_well (t : Task) : Prop :=
  match t with
  | PushCreate path v _ | PushUpdate path v _ => path <> "" /\ in_i32 v
  | PushDelete path => path <> ""
  | _ => False
  end.

(** What a client should make of the pushes. *)
Definition learns (vm : gmap string Z) (t : Task) : gmap string Z :=
  match t with
  | PushCreate path v _ | PushUpdate path v _ => <[path := v]> vm
  | PushDelete path => delete path vm
  | _ => vm
  end.

Section pushes.
Context {C : Type} `{StreamChannel C}.
Implicit Types cl : Client C.

(** The client between two turns: its worker runs, the bytes [i] are to come. *)
Definition reads_from cl (a b : Z) (i o : list byte) : Prop :=
  exists s, session_ (peer cl) = Some s /\ alive_ s = true /\ conn (protocol_ s) a b i o.

Lemma received_frame cl a b raw m i o :
  reads_from cl a b (raw ++ i) o -> wellframed raw m -> seq m = b ->
  exists cl1, clientTurn cl = handlePush m cl1 /\ reads_from cl1 a (u32 (b + 1)) i o
    /\ versions cl1 = versions cl /\ notified cl1 = notified cl.
Proof.
  intros (s & Hs & Hal & Hc) Hw Hsq. destruct (receive_ok _ _ _ _ _ _ _ Hw Hsq Hc) as (p1 & Hr & Hc1).
  unfold receive, lift in Hr. destruct (receiveAndParse (protocol_ s)) as [m' p1'] eqn:E. injection Hr as -> ->.
  unfold clientTurn, sbind, onWorker. rewrite Hs, E, (co_alive _ _ _ _ _ Hc1), Hal. eexists.
  split; [reflexivity|]. split; [|done]. eexists. split; [reflexivity|done].
Qed.

Lemma received_data cl a b data i o :
  reads_from cl a b (transferBytes data ++ i) o -> transferable data ->
  exists cl1, onWorker receiveHere cl = (Done (Ok (Some (true, data))), cl1) /\ reads_from cl1 a b i o
    /\ versions cl1 = versions cl /\ notified cl1 = notified cl.
Proof.
  intros (s & Hs & Hal & Hc) Hd. destruct (receiveFileData_ok data _ a b i o Hd Hc) as (p1 & Hr & Hc1).
  unfold onWorker, receiveHere. rewrite Hs, Hr. eexists.
  split; [reflexivity|]. split; [|done]. eexists. split; [reflexivity|done].
Qed.

Lemma push_path op path sq fs : getString (mkMessage op 0 sq 0 (fieldString FILE_PATH path :: fs)) FILE_PATH "" = path.
Proof. by apply getString_field. Qed.

Lemma push_version op path v sq : in_i32 v ->
  i32 (getUint32 (mkMessage op 0 sq 0 [fieldString FILE_PATH path; fieldUint32 FILE_VERSION (u32 v)]) FILE_VERSION 0) = v.
Proof.
  intros Hv. rewrite (getUint32_field _ _ (u32 v)) by done. rewrite u32_small by auto with squid. by apply i32_u32.
Qed.

(** One push of a file. *)
Lemma upload_handled op path v data cl a b raw i o :
  op = PUSH_CREATE_FILE \/ op = PUSH_UPDATE_FILE -> path <> "" -> in_i32 v -> transferable data ->
  let m := mkMessage op 0 b 0 [fieldString FILE_PATH path; fieldUint32 FILE_VERSION (u32 v)] in
  wellframed raw m -> reads_from cl a b (raw ++ transferBytes data ++ i) o ->
  exists cl', clientTurn cl = (Done (Ok tt), cl') /\ reads_from cl' a (u32 (b + 1)) i o
    /\ versions cl' = <[path := v]> (versions cl) /\ notified cl' = notified cl ++ [(m, data)].
Proof.
  intros Hop Hpath Hv Hd m Hw Hr.
  destruct (received_frame cl a b raw m _ o Hr Hw eq_refl) as (cl1 & -> & Hr1 & Hv1 & Hn1).
  destruct (received_data cl1 a _ data i o Hr1 Hd) as (cl2 & Hrec & Hr2 & Hv2 & Hn2).
  exists (notify m data (setFileVersion path v cl2)). rewrite <-Hv1, <-Hv2, <-Hn1, <-Hn2.
  split; [|split; [exact Hr2|done]].
  assert (handlePush m cl1 = sbind (onWorker receiveHere) (fun r =>
    do! (if decide (path = "") then sret tt else smodify (setFileVersion path v)) in
    smodify (notify m match r with Some (_, data) => data | None => [] end)) cl1) as ->.
  { unfold handlePush, m. rewrite push_path, (push_version _ _ v) by done. by destruct Hop as [-> | ->]. }
  unfold sbind at 1. rewrite Hrec. by rewrite decide_False.
Qed.

Lemma push_handled t cl a b raw i o :
  pushes_well t -> sendable t -> wellframed raw (taskMessage b t) ->
  reads_from cl a b (raw ++ taskTail t ++ i) o ->
  exists cl', clientTurn cl = (Done (Ok tt), cl') /\ reads_from cl' a (u32 (b + 1)) i o
    /\ versions cl' = learns (versions cl) t /\ notified cl' = notified cl ++ [(taskMessage b t, payload t)].
Proof.
  intros Hwell [Hd _] Hw Hr. destruct t as [path v data|path v data|path| | | | |]; try done.
  - destruct Hwell as [Hp Hv]. by eapply (upload_handled PUSH_CREATE_FILE); eauto.
  - destruct Hwell as [Hp Hv]. by eapply (upload_handled PUSH_UPDATE_FILE); eauto.
  - cbn [taskTail taskFrame app] in Hr.
    destruct (received_frame cl a b raw _ _ o Hr Hw eq_refl) as (cl1 & -> & Hr1 & Hv1 & Hn1).
    exists (deleteFileVersion path (notify (taskMessage b (PushDelete path)) [] cl1)).
    rewrite <-Hv1, <-Hn1. split; [|split; [exact Hr1|done]].
    unfold handlePush. cbn [taskMessage taskFrame opcode]. rewrite push_path. unfold sbind, smodify.
    by rewrite decide_False.
Qed.

Lemma pushes_handled ts cl a b bs i o :
  Forall pushes_well ts -> Forall sendable ts -> on_wire b ts bs -> reads_from cl a b (bs ++ i) o ->
  exists cl' ms, clientTurns (length ts) cl = (Done (Ok tt), cl')
    /\ reads_from cl' a (seqAfter b (length ts)) i o
    /\ versions cl' = fold_left learns ts (versions cl)
    /\ Forall2 (fun t m => exists sq, m = taskMessage sq t) ts ms
    /\ notified cl' = notified cl ++ zip ms (map payload ts).
Proof.
  intros Hwell Hsend Hwire. revert cl Hwell Hsend.
  induction Hwire as [b|b t ts raw bs Hw _ IH]; intros cl Hwell Hsend Hr.
  { exists cl, []. rewrite app_nil_r. split_and!; [done..|constructor|done]. }
  apply Forall_cons in Hwell as [Ht Hwell]. apply Forall_cons in Hsend as [Hst Hsend].
  rewrite <-!app_assoc in Hr. destruct (push_handled t cl a b raw _ o Ht Hst Hw Hr) as (cl1 & Hturn & Hr1 & Hv1 & Hn1).
  destruct (IH cl1 Hwell Hsend Hr1) as (cl' & ms & Hturns & Hr' & Hv' & Hms & Hn').
  exists cl', (taskMessage b t :: ms). split_and!; [|done| | |].
  - cbn [length clientTurns]. unfold sbind at 1. by rewrite Hturn.
  - by rewrite Hv', Hv1.
  - constructor; [by exists b|done].
  - by rewrite Hn', Hn1, <-app_assoc.
Qed.
End pushes.

(** C29. Other clients learn of a change.  The pushes that the server has posted
    to a client's session are drained onto its connection and handled by the
    client's worker: its version map takes every version and forgets every
    deleted file, in the order of the posts, and its push handler is called
    once for each, with the data of the file. *)
Theorem pushes_reach_client {C D} `{StreamChannel C, StreamChannel D} ts
    (s : ConnectionSession C) (cl : Client D) a b i o :
  Forall pushes_well ts -> Forall sendable ts -> tasks_ s = [] -> in_u32 a -> conn (protocol_ s) a b i o ->
  exists bs s', drainQueue (postAll ts s) = (Ok tt, s')
    /\ conn (protocol_ s') (seqAfter a (length ts)) b i (o ++ bs)
    /\ forall c rest out, reads_from cl c a (bs ++ rest) out ->
       exists cl' ms, clientTurns (length ts) cl = (Done (Ok tt), cl')
         /\ reads_from cl' c (seqAfter a (length ts)) rest out
         /\ versions cl' = fold_left learns ts (versions cl)
         /\ Forall2 (fun t m => exists sq, m = taskMessage sq t) ts ms
         /\ notified cl' = notified cl ++ zip ms (map payload ts).
Proof.
  intros Hwell Hsend Ht Ha Hc.
  destruct (posts_drained ts s a b i o Ht Hsend Ha Hc) as (bs & s' & Hd & _ & Hwire & Hc').
  exists bs, s'. split_and!; [done..|]. intros c rest out Hr. by eapply pushes_handled.
Qed.

(** [bob]'s session on the server, and the client at the other end. *)
Definition demo_pushes : list Task :=
  [PushCreate "b.txt" 0 [zero]; PushUpdate "b.txt" 1 [one; zero]; PushDelete "a.txt"].
Definition demo_bytes : list byte := output (protocol_ (drainQueue (postAll demo_pushes demo_session)).2).
Definition demo_reader : Client Pipe :=
  mkClientState (set_session (Some (newSession (demo_pipe demo_bytes) "CLIENT" "bob")) (newPeer "" 0 "CLIENT" "bob"))
    {["a.txt" := 4]} [].

Lemma pushes_reach_client_witness :
  exists cl' ms, clientTurns 3 demo_reader = (Done (Ok tt), cl')
    /\ reads_from cl' 0 3 [] []
    /\ versions cl' = fold_left learns demo_pushes {["a.txt" := 4]}
    /\ Forall2 (fun t m => exists sq, m = taskMessage sq t) demo_pushes ms
    /\ notified cl' = [] ++ zip ms (map payload demo_pushes).
Proof.
  assert (Forall sendable demo_pushes) as Hsend by (repeat constructor; done).
  destruct (pushes_reach_client demo_pushes demo_session demo_reader 0 0 [] []) as (bs & s' & Hd & Hc & Hall).
  - repeat constructor; try discriminate; unfold in_i32; lia.
  - exact Hsend.
  - reflexivity.
  - unfold in_u32. lia.
  - exact demo_conn.
  - apply Hall. assert (bs = demo_bytes) as ->.
    { unfold demo_bytes. rewrite Hd. symmetry. exact (co_output _ _ _ _ _ Hc). }
    rewrite app_nil_r. exists (newSession (demo_pipe demo_bytes) "CLIENT" "bob").
    split; [reflexivity|]. split; [reflexivity|]. by constructor.
Defined.

(** ** The notice of an expired lock *)

(** C36. The notice that a lock has expired costs its holder a request.  The
    server posts [releaseLock] to the holder's session, which sends a request
    and waits for its answer on the session's worker.  No client answers it:
    [handlePush] only calls the push handler.  So whatever the client sends
    next, a request of its own, is taken for the answer: it is consumed, the
    request handler never sees it and nothing is sent back. *)
Theorem expiry_notice_eats_request {C D} `{StreamChannel C, StreamChannel D} path
    (s : ConnectionSession C) a b raw m rest o :
  short path = true -> tasks_ s = [] -> in_u32 a -> conn (protocol_ s) a b (raw ++ rest) o ->
  wellframed raw m -> seq m = b ->
  let notice := mkMessage RELEASE_LOCK 0 a 0 [fieldString FILE_PATH path] in
  (forall cl : Client D, handlePush notice cl = (Done (Ok tt), notify notice [] cl))
  /\ exists sent s', drainQueue (postAll [ReleaseLock path] s) = (Ok tt, s') /\ tasks_ s' = []
    /\ wellframed sent notice
    /\ conn (protocol_ s') (u32 (a + 1)) (u32 (b + 1)) rest (o ++ sent).
Proof.
  intros Hp Ht Ha Hc Hw Hsq notice. split; [done|].
  destruct (frame_path RELEASE_LOCK path a Hp eq_refl Ha) as (f & Hf & Hwf).
  destruct (send_ok _ _ _ _ _ _ _ Hf Hc) as (p1 & Hs & Hc1).
  destruct (receive_ok _ _ _ _ _ _ _ Hw Hsq Hc1) as (p2 & Hr & Hc2).
  exists (stampSeq f a). eexists. rewrite postAll_tasks, Ht. unfold drainQueue.
  cbn [app map tasks_ protocol_ for_each postedFn]. unfold Protocol.releaseLock, releaseLockFormat, bind.
  rewrite Hs, Hr. split; [reflexivity|done].
Qed.

(** A client that sends a request after its lock has expired. *)
Definition demo_asking : ConnectionSession Pipe :=
  newSession (demo_pipe (demo_frame HEARTBEAT 0)) "CLIENT" "bob".

Lemma expiry_notice_eats_request_witness :
  let notice := mkMessage RELEASE_LOCK 0 0 0 [fieldString FILE_PATH "a.txt"] in
  (forall cl : Client Pipe, handlePush notice cl = (Done (Ok tt), notify notice [] cl))
  /\ exists sent s', drainQueue (postAll [ReleaseLock "a.txt"] demo_asking) = (Ok tt, s') /\ tasks_ s' = []
    /\ wellframed sent notice
    /\ conn (protocol_ s') 1 1 [] ([] ++ sent).
Proof.
  apply (expiry_notice_eats_request "a.txt" demo_asking 0 0 (demo_frame HEARTBEAT 0) (mkMessage HEARTBEAT 0 0 0 [])).
  - reflexivity.
  - reflexivity.
  - unfold in_u32. lia.
  - rewrite app_nil_r. by constructor.
  - apply demo_frame_wellframed; [done|unfold in_u32; lia].
  - reflexivity.
Defined.
