(* ===== verification/EndToEnd.v ===== *)
(** * A client, the server and its datanodes

    The program put together: a client's request ([client/src/client.cpp]), its
    bytes on the connection, the turn of the session's worker that takes it
    ([ConnectionSession::run]), the server's handler ([server/src/server.cpp]),
    the fan-out to datanodes that run the protocol themselves (the links of
    [Linked]), their disks, and the answer back.  The sessions of the server are
    of two kinds, links to datanodes and connections to clients. *)

From S2P Require Import Prelude Text Wire FileManager FileTransfer Protocol StateStore Session ServerState LockManager Replication Linked ClusterConfig Watcher Standby Server Peer Client.

(** ** Sessions of two kinds *)

Definition either {S T A} (f : SO S A) (g : SO T A) : SO (S + T) A := fun x =>
  match x with
  | inl s => let '(r, s) := f s in (r, inl s)
  | inr t => let '(r, t) := g t in (r, inr t)
  end.

#[export] Instance sum_session {S T} `{Session S, Session T} : Session (S + T) := {
  sess_isAlive x := match x with inl s => sess_isAlive s | inr t => sess_isAlive t end;
  sess_setIsAlive b x := match x with inl s => inl (sess_setIsAlive b s) | inr t => inr (sess_setIsAlive b t) end;
  sess_createFile path v data := either (sess_createFile path v data) (sess_createFile path v data);
  sess_updateFile path v data := either (sess_updateFile path v data) (sess_updateFile path v data);
  sess_readFile path := either (sess_readFile path) (sess_readFile path);
  sess_deleteFile path := either (sess_deleteFile path) (sess_deleteFile path);
  sess_syncStatus := either sess_syncStatus sess_syncStatus;
  sess_heartbeat := either sess_heartbeat sess_heartbeat;
  sess_response b := either (sess_response b) (sess_response b);
  sess_responseV b v := either (sess_responseV b v) (sess_responseV b v);
  sess_responseMap m := either (sess_responseMap m) (sess_responseMap m);
  sess_sendFileData data := either (sess_sendFileData data) (sess_sendFileData data);
  sess_acceptUpload := either sess_acceptUpload sess_acceptUpload;
  sess_suspendReads x := match x with inl s => inl (sess_suspendReads s) | inr t => inr (sess_suspendReads t) end;
  sess_resumeReads x := match x with inl s => inl (sess_resumeReads s) | inr t => inr (sess_resumeReads t) end;
  sess_sendStateSnap vm rm ep := either (sess_sendStateSnap vm rm ep) (sess_sendStateSnap vm rm ep) }.

(** ** A turn of the server for a client *)

Section turn.
Context {C : Type} `{NetworkChannel C}.
Local Abbreviation CS := (ConnectionSession C).

(** The worker's turn up to the request handler: the message it hands over. *)
Definition takeRequest : SO CS (option Message) := fun s =>
  if negb (cs_isAlive s) then (Done (Ok None), workerStep s)
  else
    let '(r, s) := drainQueue s in
    match r with
    | Throw e => (Done (Throw e), s)
    | Ok _ =>
        if negb match channel (protocol_ s) with Some c => isOpen c | None => false end
        then (Done (Ok None), mkSession false (protocol_ s) (tasks_ s) (readSuspended_ s))
        else if readSuspended_ s then (Done (Ok None), s)
        else
          let '(mex, p) := receiveAndParse (protocol_ s) in
          if negb (alive p) then (Done (Ok None), mkSession false p (tasks_ s) (readSuspended_ s))
          else (Done (Ok (Some mex)), mkSession (alive_ s) p (tasks_ s) (readSuspended_ s))
    end.

(** It is [workerTurn], with the handler to come. *)
Lemma takeRequest_is_turn handle s :
  workerTurn true true handle s =
  match takeRequest s with
  | (Done (Ok (Some mex)), s) => handle mex s
  | (Done (Ok None), s) => (Ok tt, s)
  | (Done (Throw e), s) => (Throw e, s)
  | (Hang, s) => (Ok tt, s)
  end.
Proof.
  unfold workerTurn, takeRequest. destruct (negb (cs_isAlive s)); [done|].
  destruct (drainQueue s) as [[u|e] s1]; [|done]. cbn [negb orb].
  destruct (negb _); [done|]. destruct (readSuspended_ s1); [done|].
  destruct (receiveAndParse _) as [mex p]. by destruct (negb (alive p)).
Qed.

Context {S : Type} `{Session S}.

(** The worker of the client's session takes a request and the pool handles
    it; the sessions of datanodes read nothing by themselves. *)
Definition serveClient (i : sid) (me : string) (now : Z) : SO (Server (S + CS)) unit :=
  let! r := on_session i (either (sret None) takeRequest) in
  match r with
  | Some mex => onClientRequest i me mex now
  | None => sret tt
  end.
End turn.

(** ** The two ends of a client's connection *)

(** A session whose worker runs and has nothing queued, with its connection. *)
Definition idle {C} `{StreamChannel C} (s : ConnectionSession C) (suspended : bool) (a b : Z) (i o : list byte) : Prop :=
  alive_ s = true /\ tasks_ s = [] /\ readSuspended_ s = suspended /\ conn (protocol_ s) a b i o.

Section calls.
Context {C : Type} `{StreamChannel C}.
Local Abbreviation CS := (ConnectionSession C).
Implicit Types s : CS.

Lemma idle_alive s u a b i o : idle s u a b i o -> cs_isAlive s = true.
Proof. intros (Hal & _ & _ & Hc). unfold cs_isAlive. by rewrite Hal, (co_alive _ _ _ _ _ Hc). Qed.

(** A call that keeps the connection healthy. *)
Lemma idle_call {A} (fn : M C A) s u a b i o r a' b' i' o' :
  idle s u a b i o ->
  (forall p, conn p a b i o -> exists p', fn p = (Ok r, p') /\ conn p' a' b' i' o') ->
  exists s', call fn s = (Done (Ok r), s') /\ idle s' u a' b' i' o'.
Proof.
  intros Hs Hfn. pose proof (idle_alive _ _ _ _ _ _ Hs) as Hal. destruct Hs as (Ha & Ht & Hu & Hc).
  destruct (Hfn _ Hc) as (p' & Hp & Hc'). rewrite call_idle by done. rewrite Hp.
  eexists. split; [reflexivity|]. done.
Qed.

Lemma idle_takes s a b i o raw m :
  idle s false a b (raw ++ i) o -> wellframed raw m -> seq m = b ->
  exists s', takeRequest s = (Done (Ok (Some m)), s') /\ idle s' false a (u32 (b + 1)) i o.
Proof.
  intros Hs Hw Hm. pose proof (idle_alive _ _ _ _ _ _ Hs) as Hal. destruct Hs as (Ha & Ht & Hu & Hc).
  unfold takeRequest. rewrite Hal. cbn [negb]. unfold drainQueue. rewrite Ht. cbn [for_each]. unfold ret.
  cbn [protocol_ readSuspended_ alive_ tasks_]. rewrite Hu.
  pose proof (co_write _ _ _ _ _ Hc) as Hcw. unfold can_write in Hcw.
  destruct (channel (protocol_ s)) as [c|] eqn:Hch; [|done]. rewrite (write_open _ Hcw). cbn [negb].
  destruct (receive_ok _ _ _ _ _ _ _ Hw Hm Hc) as (p1 & Hr & Hc1).
  unfold receive, lift in Hr. destruct (receiveAndParse (protocol_ s)) as [m' p1'].
  injection Hr as -> ->. rewrite (co_alive _ _ _ _ _ Hc1). cbn [negb].
  eexists. split; [reflexivity|]. done.
Qed.
End calls.

(** *** The server's end *)

Section server_end.
Context {S : Type} `{Session S} {C : Type} `{StreamChannel C}.
Local Abbreviation St := (Server (S + ConnectionSession C)).
Implicit Types st : St.

Definition server_end st (i : sid) (suspended : bool) (a b : Z) (inp out : list byte) : Prop :=
  exists s, sessions st !! i = Some (inr s) /\ idle s suspended a b inp out.

(** Only the session [i] has changed. *)
Definition only_session (i : sid) st st' : Prop :=
  only_sessions st st' /\ forall j, j <> i -> sessions st' !! j = sessions st !! j.

#[export] Instance only_session_preorder i : PreOrder (only_session i).
Proof.
  split; [by split; [apply only_sessions_refl|]|]. intros st1 st2 st3 [H12 E12] [H23 E23].
  split; [by eapply only_sessions_trans|]. intros j Hj. by rewrite E23, E12.
Qed.

Lemma only_session_set i s st : only_session i st (set_sessions (<[i := s]> (sessions st)) st).
Proof. split; [apply only_sessions_set|]. intros j Hj. simpl. by rewrite lookup_insert_ne. Qed.

Lemma server_call {A} (f : SO S A) (fn : M C A) st i u a b inp out r a' b' inp' out' :
  server_end st i u a b inp out ->
  (forall p, conn p a b inp out -> exists p', fn p = (Ok r, p') /\ conn p' a' b' inp' out') ->
  exists st', on_session i (either f (call fn)) st = (Done (Ok r), st')
    /\ server_end st' i u a' b' inp' out' /\ only_session i st st'.
Proof.
  intros (s & Hs & Hi) Hfn. destruct (idle_call fn s _ _ _ _ _ _ _ _ _ _ Hi Hfn) as (s' & Hc & Hi').
  unfold on_session, either. rewrite Hs, Hc. eexists. split; [reflexivity|]. split; [|apply only_session_set].
  exists s'. split; [apply lookup_insert_eq|done].
Qed.

Lemma server_takes st i a b inp out raw m :
  server_end st i false a b (raw ++ inp) out -> wellframed raw m -> seq m = b ->
  exists st', on_session i (either (sret None) takeRequest) st = (Done (Ok (Some m)), st')
    /\ server_end st' i false a (u32 (b + 1)) inp out /\ only_session i st st'.
Proof.
  intros (s & Hs & Hi) Hw Hm. destruct (idle_takes s a b inp out raw m Hi Hw Hm) as (s' & Ht & Hi').
  unfold on_session, either. rewrite Hs, Ht. eexists. split; [reflexivity|]. split; [|apply only_session_set].
  exists s'. split; [apply lookup_insert_eq|done].
Qed.

(** [suspendReads] and [resumeReads] around the handler. *)
Lemma server_suspends (v : bool) st i u a b inp out :
  server_end st i u a b inp out ->
  let st' := set_sessions (alter (if v then sess_suspendReads else sess_resumeReads) i (sessions st)) st in
  server_end st' i v a b inp out /\ only_session i st st'.
Proof.
  intros (s & Hs & Ha & Ht & Hu & Hc) st'. split.
  - exists (if v then suspendReads s else resumeReads s). split; [|by destruct v].
    simpl. rewrite lookup_alter_eq, Hs. by destruct v.
  - split; [apply only_sessions_set|]. intros j Hj. simpl. by rewrite lookup_alter_ne.
Qed.

Lemma server_end_same st st' i u a b inp out :
  sessions st' !! i = sessions st !! i -> server_end st i u a b inp out -> server_end st' i u a b inp out.
Proof. intros E (s & Hs & Hi). exists s. by rewrite E. Qed.

(** A request handled: what the handler does to the state and the connection
    is what the turn does. *)
Lemma turn_handled st i me now a b inp out raw m (Q : St -> Prop) a' b' inp' out' :
  server_end st i false a b (raw ++ inp) out -> wellframed raw m -> seq m = b ->
  (forall st1 st', only_session i st1 st' -> Q st1 -> Q st') ->
  (forall st1, only_session i st st1 -> server_end st1 i true a (u32 (b + 1)) inp out ->
     exists st2, handleClientRequest i me m now st1 = (Done (Ok tt), st2)
       /\ server_end st2 i true a' b' inp' out' /\ Q st2) ->
  exists st', serveClient i me now st = (Done (Ok tt), st') /\ server_end st' i false a' b' inp' out' /\ Q st'.
Proof.
  intros Hs Hw Hm HQ Hh. destruct (server_takes _ _ _ _ _ _ _ _ Hs Hw Hm) as (st1 & Ht & Hs1 & Ho1).
  unfold serveClient. rewrite (sbind_done _ _ _ _ _ Ht). unfold onClientRequest. rewrite sbind_modify.
  destruct (server_suspends true st1 i _ _ _ _ _ Hs1) as [Hs2 Ho2]. cbn [negb] in Hs2.
  set (st2 := set_sessions _ st1) in *.
  destruct (Hh st2 (transitivity Ho1 Ho2) Hs2) as (st3 & Hrun & Hs3 & HQ3).
  rewrite (sbind_done _ _ _ _ _ Hrun). destruct (server_suspends false st3 i _ _ _ _ _ Hs3) as [Hs4 Ho4].
  eexists. split; [reflexivity|]. split; [exact Hs4|]. by eapply HQ.
Qed.
End server_end.

(** *** The client's end *)

Section client_end.
Context {C : Type} `{StreamChannel C}.
Implicit Types cl : Client C.

Definition client_end cl (a b : Z) (inp out : list byte) : Prop :=
  exists s, session_ (peer cl) = Some s /\ idle s false a b inp out.

Lemma client_live cl a b i o : client_end cl a b i o -> peerAlive (peer cl) = true.
Proof. intros (s & Hs & Hi). unfold peerAlive. rewrite Hs. by eapply idle_alive. Qed.

(** What a request of the client does, [fn] being its conversation. *)
Lemma client_request (fn : M C Message) learn dial cl a b i o m a' b' i' o' :
  client_end cl a b i o ->
  (forall p, conn p a b i o -> exists p', fn p = (Ok m, p') /\ conn p' a' b' i' o') ->
  exists cl1, Client.request dial fn learn cl = (Done (Ok m), learn m cl1)
    /\ client_end cl1 a' b' i' o' /\ versions cl1 = versions cl /\ notified cl1 = notified cl.
Proof.
  intros Hc Hfn. pose proof (client_live _ _ _ _ _ Hc) as Hl. destruct Hc as (s & Hs & Hi).
  destruct (idle_call fn s _ _ _ _ _ _ _ _ _ _ Hi Hfn) as (s' & Hcall & Hi').
  exists (set_peer (set_session (Some s') (peer cl)) cl).
  split; [|by split; [exists s'|]]. unfold Client.request.
  rewrite (sbind_done _ _ _ _ _ (ensureConnected_live cl dial Hl)). cbn [negb].
  assert (onSession fn cl = (Done (Ok (Some m)), set_peer (set_session (Some s') (peer cl)) cl)) as Hon
    by (unfold onSession; by rewrite Hs, Hcall).
  by rewrite (sbind_done _ _ _ _ _ Hon).
Qed.

Lemma client_read dial path cl a b i o m data a' b' i' o' :
  client_end cl a b i o ->
  (forall p, conn p a b i o -> exists p', Protocol.readFile path p = (Ok (m, data), p') /\ conn p' a' b' i' o') ->
  exists cl1, Client.readFile dial path cl = (Done (Ok (m, data)), setVersionFromAck path m cl1)
    /\ client_end cl1 a' b' i' o' /\ versions cl1 = versions cl /\ notified cl1 = notified cl.
Proof.
  intros Hc Hfn. pose proof (client_live _ _ _ _ _ Hc) as Hl. destruct Hc as (s & Hs & Hi).
  destruct (idle_call _ s _ _ _ _ _ _ _ _ _ _ Hi Hfn) as (s' & Hcall & Hi').
  exists (set_peer (set_session (Some s') (peer cl)) cl).
  split; [|by split; [exists s'|]]. unfold Client.readFile.
  rewrite (sbind_done _ _ _ _ _ (ensureConnected_live cl dial Hl)). cbn [negb]. by rewrite Hs, Hcall.
Qed.

(** The version that an acknowledgement carries is learnt. *)
Lemma learnt path m v cl a b i o :
  isAck m = true -> 0 <= v -> in_i32 v -> getUint32 m FILE_VERSION (2 ^ 32 - 1) = u32 v -> client_end cl a b i o ->
  client_end (setVersionFromAck path m cl) a b i o
  /\ versions (setVersionFromAck path m cl) = <[path := v]> (versions cl)
  /\ notified (setVersionFromAck path m cl) = notified cl.
Proof.
  intros Hack Hpos Hv Hm Hc. unfold setVersionFromAck. rewrite Hack, Hm. cbn [negb].
  destruct (Z.eqb_spec (u32 v) (2 ^ 32 - 1)) as [E|_].
  { rewrite u32_small in E by (unfold in_u32, in_i32 in *; lia). unfold in_i32 in Hv. lia. }
  rewrite i32_u32 by done. by split.
Qed.
End client_end.

(** ** An update *)

(** A frame at a sequence number. *)
Definition frameOf (fmt : result (list byte)) (sq : Z) : list byte :=
  match fmt with Ok f => stampSeq f sq | Throw _ => [] end.

(** What is sent for an update and a read, and what is answered. *)
Definition updateRequest (path : string) (v : Z) (data : list byte) (sq : Z) : list byte :=
  frameOf (updateFileFormatV path v) sq ++ transferBytes data.
Definition updateReply (nv : Z) (sq : Z) : list byte :=
  frameOf (responseAck true) sq ++ frameOf (responseAckWithVersion true nv) (u32 (sq + 1)).
Definition readRequest (path : string) (sq : Z) : list byte := frameOf (readFileFormat path) sq.
Definition readReply (v : Z) (data : list byte) (sq : Z) : list byte :=
  frameOf (responseAck true) sq ++ transferBytes data ++ frameOf (responseAckWithVersion true v) (u32 (sq + 1)).

Section server_side.
Context {N : Naming} {C : Type} `{StreamChannel C}.
Local Abbreviation End_ := (Link N + ConnectionSession C)%type.
Local Abbreviation St := (Server End_).
Implicit Types st : St.

(** Every holder of [path] is a link of which [P] holds. *)
Definition holders_are (P : Link N -> Prop) st (path : string) : Prop :=
  forall n, n ∈ map_entries (holdersOf path st) -> exists l, sessions st !! n.2 = Some (inl l) /\ P l.

(** The session [i] belongs to the client [me] and to no standby. *)
Definition owned st (i : sid) (me : string) : Prop :=
  (forall name, clientEndpointMap st !! name = Some i -> name = me)
  /\ i ∉ map_values (default ∅ (standbys st)).

Lemma not_holder st i u a b inp out P path :
  server_end st i u a b inp out -> holders_are P st path -> i ∉ map_values (holdersOf path st).
Proof.
  intros (s & Hs & _) Hall Hin. apply list_elem_of_fmap in Hin as (n & -> & Hn).
  destruct (Hall n Hn) as (l & Hl & _). congruence.
Qed.

Lemma holders_kept P st st' i path :
  only_session i st st' -> i ∉ map_values (holdersOf path st) -> holders_are P st path -> holders_are P st' path.
Proof.
  intros [Hos Hsame] Hi Hall n Hn. unfold only_sessions in Hos.
  assert (holdersOf path st' = holdersOf path st) as E by (unfold holdersOf; by rewrite Hos).
  rewrite E in Hn. destruct (Hall n Hn) as (l & Hl & HP). exists l. split; [|done].
  rewrite Hsame; [done|]. intros E'. apply Hi. apply list_elem_of_fmap. exists n. by rewrite E'.
Qed.

(** The update of [path] by the client on [i] has been committed. *)
Record committed (i : sid) (path : string) (nv : Z) (data : list byte) st st' : Prop := mkCommitted {
  cm_version : persistedVersionMap st' = <[path := nv]> (persistedVersionMap st);
  cm_holders : dataNodeReplicationMap st' = dataNodeReplicationMap st;
  cm_stored : forall n, n ∈ map_entries (holdersOf path st) -> exists l l',
    sessions st !! n.2 = Some (inl l) /\ sessions st' !! n.2 = Some (inl l') /\ updated path nv data l l';
  cm_quiet : exists new, posted st' = posted st ++ new /\ i ∉ new.*1;
  cm_locks : fileLockMap st' = fileLockMap st }.

Lemma quiet_posts st st1 i me path nv names t :
  owned st i me -> only_sessions st st1 ->
  i ∉ (deltas 0 path nv names st1 ++ pushes (map_entries (clientEndpointMap st)) me t).*1.
Proof.
  intros [Hc Hsb] Hos. unfold only_sessions in Hos. rewrite fmap_app, elem_of_app. intros [Hin|Hin].
  - unfold deltas in Hin. rewrite Hos in Hin. cbn [standbys set_sessions] in Hin. apply Hsb.
    destruct (standbys st) as [m|]; [|by apply elem_of_nil in Hin]. simpl.
    apply list_elem_of_fmap in Hin as ([j t'] & -> & Hin).
    apply list_elem_of_In, List.in_concat in Hin as (l & Hl & Hin).
    apply List.in_map_iff in Hl as (e & <- & He). destruct (session_alive _ _); [|done].
    destruct Hin as [[= <- <-]|[]]. apply list_elem_of_fmap. exists e. split; [done|]. by apply list_elem_of_In.
  - apply list_elem_of_fmap in Hin as ([j t'] & -> & Hin). unfold pushes in Hin.
    apply list_elem_of_In, List.in_concat in Hin as (l & Hl & Hin).
    apply List.in_map_iff in Hl as ([name k] & <- & He). simpl in Hin. case_decide as Hne; [done|].
    destruct Hin as [[= <- <-]|[]]. apply Hne, Hc. by apply elem_of_map_entries, list_elem_of_In.
Qed.

(** What only concerns the client's session does not matter to the commit. *)
Lemma committed_from i path nv data st st1 st' :
  only_session i st st1 -> i ∉ map_values (holdersOf path st) ->
  committed i path nv data st1 st' -> committed i path nv data st st'.
Proof.
  intros [Hos Hsame] Hi [Hv Hh Hst Hq Hlk]. unfold only_sessions in Hos.
  assert (holdersOf path st1 = holdersOf path st) as E by (unfold holdersOf; by rewrite Hos).
  rewrite Hos in Hv, Hh, Hq, Hlk. rewrite E in Hst. constructor; try done.
  intros n Hn. destruct (Hst n Hn) as (l & l' & Hl & Hrest). exists l, l'. split; [|done].
  rewrite <-Hsame; [done|]. intros E'. apply Hi, list_elem_of_fmap. exists n. by rewrite E'.
Qed.

Lemma committed_to i path nv data st st1 st' :
  only_session i st1 st' -> i ∉ map_values (holdersOf path st) ->
  committed i path nv data st st1 -> committed i path nv data st st'.
Proof.
  intros [Hos Hsame] Hi [Hv Hh Hst Hq Hlk]. unfold only_sessions in Hos. rewrite Hos.
  constructor; try done. intros n Hn. destruct (Hst n Hn) as (l & l' & Hl & Hl' & Hrest). exists l, l'.
  split_and!; [done| |done]. simpl. rewrite Hsame; [done|].
  intros E'. apply Hi, list_elem_of_fmap. exists n. by rewrite E'.
Qed.

(** The server's answers on the client's connection. *)
Lemma accepts (p : SquidProtocol C) a b data inp out :
  in_u32 a -> transferable data -> conn p a b (transferBytes data ++ inp) out ->
  exists p', acceptUpload p = (Ok (true, data), p')
    /\ conn p' (u32 (a + 1)) b inp (out ++ frameOf (responseAck true) a).
Proof.
  intros Ha Hd Hc. destruct (frame_ack true a Ha) as (k & Hk & _). unfold frameOf. rewrite Hk.
  destruct (send_ok _ _ _ _ _ _ _ Hk Hc) as (p1 & Hs & Hc1).
  destruct (receiveFileData_ok data p1 _ _ _ _ Hd Hc1) as (p2 & Hr & Hc2).
  exists p2. unfold acceptUpload, response, bind. by rewrite Hs.
Qed.

Lemma answers_ack (v : bool) (p : SquidProtocol C) a b inp out : in_u32 a -> conn p a b inp out ->
  exists p', response v p = (Ok tt, p') /\ conn p' (u32 (a + 1)) b inp (out ++ frameOf (responseAck v) a).
Proof.
  intros Ha Hc. destruct (frame_ack v a Ha) as (k & Hk & _). unfold frameOf. rewrite Hk.
  by apply (send_ok _ _ _ _ _ _ _ Hk).
Qed.

Lemma answers_version (p : SquidProtocol C) a b nv inp out : in_u32 a -> conn p a b inp out ->
  exists p', responseV true nv p = (Ok tt, p')
    /\ conn p' (u32 (a + 1)) b inp (out ++ frameOf (responseAckWithVersion true nv) a).
Proof.
  intros Ha Hc. destruct (frame_ack_version true nv a Ha) as (k & Hk & _). unfold frameOf. rewrite Hk.
  by apply (send_ok _ _ _ _ _ _ _ Hk).
Qed.

(** The handler of UPDATE_FILE. *)
Lemma handles_update st i me m now a b inp out path v data :
  let nv := nextVersion path v st in
  opcode m = UPDATE_FILE -> getString m FILE_PATH "" = path -> i32 (getUint32 m FILE_VERSION 0) = v ->
  Linked.named (N := N) path -> transferable data -> 0 <= nv -> in_u32 a ->
  distinct_sessions (holdersOf path st) -> holders_are (ready path) st path -> owned st i me ->
  server_end st i true a b (transferBytes data ++ inp) out ->
  exists st', handleClientRequest i me m now st = (Done (Ok tt), st')
    /\ server_end st' i true (u32 (u32 (a + 1) + 1)) b inp (out ++ updateReply nv a)
    /\ committed i path nv data st st'.
Proof.
  intros nv Hop Hpath Hver Hn Hd Hpos Ha Hnd Hall Hown Hs. pose proof (not_holder _ _ _ _ _ _ _ _ _ Hs Hall) as Hi.
  unfold handleClientRequest. rewrite Hop, Hpath, Hver.
  destruct (server_call sess_acceptUpload acceptUpload st i _ _ _ _ _ _ _ _ _ _ Hs
    (fun p => accepts p a b data inp out Ha Hd)) as (st1 & Hacc & Hs1 & Ho1).
  change (either sess_acceptUpload (call acceptUpload)) with (sess_acceptUpload (S := End_)) in Hacc.
  rewrite (sbind_done _ _ _ _ _ Hacc). cbn [fst snd].
  assert (Hst1 := proj1 Ho1). unfold only_sessions in Hst1.
  assert (nextVersion path v st1 = nv /\ holdersOf path st1 = holdersOf path st) as [Hnv Hh]
    by (unfold nv, nextVersion, holdersOf; by rewrite Hst1).
  destruct (update_all path v me data
    (fun x => match x with inl l => ready path l | inr _ => False end)
    (fun x y => match x, y with inl l, inl l' => updated path nv data l l' | _, _ => False end) st1)
    as (st2 & st3 & Hu & Hv3 & Hr3 & Hin3 & Hout3 & Hos2 & Hp3 & Hl3).
  { by rewrite Hh. }
  { rewrite Hnv. intros [l|s] Hl; [|done].
    destruct (ready_updates path nv data l Hn (i32_range _) Hd Hl) as (Hal & r & l' & Hr & Hack & Hup).
    split; [done|]. exists r, (inl l'). cbn [sess_updateFile sum_session either]. by rewrite Hr. }
  { intros n Hn'. destruct (holders_kept _ _ _ _ _ Ho1 Hi Hall n Hn') as (l & Hl & HP). by exists (inl l). }
  rewrite (sbind_done _ _ _ _ _ Hu), Hnv. destruct (Z.leb_spec 0 nv); [|lia]. rewrite Hh in *. rewrite Hnv in *.
  apply (server_end_same st1 st3) in Hs1; [|by apply Hout3].
  destruct (server_call (sess_responseV true nv) (responseV true nv) st3 i _ _ _ _ _ _ _ _ _ _ Hs1
    (fun p => answers_version p _ b nv inp _ (u32_range _))) as (st4 & Hans & Hs4 & Ho4).
  exists st4. split; [exact Hans|]. rewrite <-app_assoc in Hs4. split; [exact Hs4|].
  apply (committed_from i path nv data st st1 st4 Ho1 Hi), (committed_to i path nv data st1 st3 st4 Ho4); [by rewrite Hh|].
  constructor; try done; rewrite ?Hh.
  - intros n Hn'. destruct (Hin3 n Hn') as ([l|] & [l'|] & Hl & Hl' & Hup); try done. by exists l, l'.
  - eexists. split; [exact Hp3|]. rewrite Hst1. cbn [clientEndpointMap set_sessions].
    apply quiet_posts; [done|]. by eapply only_sessions_trans; [exact (proj1 Ho1)|].
Qed.

(** A datanode that is in step and has the contents under the version. *)
Definition serving (path : string) (v : Z) (data : list byte) (l : Link N) : Prop :=
  in_step l /\ held (l_disk l) path = Some (v, data).

(** The handler of READ_FILE. *)
Lemma handles_read st i me m now a b inp out path v data :
  opcode m = READ_FILE -> getString m FILE_PATH "" = path ->
  Linked.named (N := N) path -> transferable data -> in_u32 a ->
  holdersOf path st <> ∅ -> persistedVersionMap st !! path = Some v ->
  holders_are (serving path v data) st path -> server_end st i true a b inp out ->
  exists st', handleClientRequest i me m now st = (Done (Ok tt), st')
    /\ server_end st' i true (u32 (u32 (a + 1) + 1)) b inp (out ++ readReply v data a)
    /\ only_sessions st st' /\ holders_are (serving path v data) st' path.
Proof.
  intros Hop Hpath Hn Hd Ha Hne Hv Hall Hs. pose proof (not_holder _ _ _ _ _ _ _ _ _ Hs Hall) as Hi.
  unfold handleClientRequest. rewrite Hop, Hpath.
  destruct (read_all path v data (fun x => match x with inl l => serving path v data l | inr _ => False end) st)
    as (st1 & Hr & Hos1 & Hout1 & Hin1); [|done|done| |].
  { intros [l|s] Hl; [|done]. destruct Hl as [Hl Hheld]. split; [by apply step_alive|].
    destruct (wired_read path v data l Hn Hl Hheld Hd) as (r & l' & Hrd & Hrest).
    exists r, (inl l'). cbn [sess_readFile sum_session either]. rewrite Hrd. destruct Hrest as (? & ? & ? & ?). done. }
  { intros n Hn'. destruct (Hall n Hn') as (l & Hl & HP). by exists (inl l). }
  rewrite (sbind_done _ _ _ _ _ Hr). cbn [fst snd]. rewrite sbind_gets.
  assert (getKnownVersion path st1 = v) as ->.
  { unfold only_sessions in Hos1. unfold getKnownVersion. rewrite Hos1. cbn. by rewrite Hv. }
  apply (server_end_same st st1) in Hs; [|by apply Hout1].
  destruct (server_call (sess_response true) (response true) st1 i _ _ _ _ _ _ _ _ _ _ Hs
    (fun p => answers_ack true p a b inp out Ha)) as (st2 & Hack & Hs2 & Ho2).
  destruct (server_call (sess_sendFileData data) (sendFileData data) st2 i _ _ _ _ _ _ _ _ _ _ Hs2
    (fun p => sendFileData_ok data p _ b inp _ Hd)) as (st3 & Hsend & Hs3 & Ho3).
  destruct (server_call (sess_responseV true v) (responseV true v) st3 i _ _ _ _ _ _ _ _ _ _ Hs3
    (fun p => answers_version p _ b v inp _ (u32_range _))) as (st4 & Hans & Hs4 & Ho4).
  exists st4. split; [|split; [|split]].
  - change (either (sess_response true) (call (response true))) with (sess_response (S := End_) true) in Hack.
    change (either (sess_sendFileData data) (call (sendFileData data)))
      with (sess_sendFileData (S := End_) data) in Hsend.
    rewrite (sbind_done _ _ _ _ _ Hack), (sbind_done _ _ _ _ _ Hsend). exact Hans.
  - rewrite <-!app_assoc in Hs4. exact Hs4.
  - eapply only_sessions_trans; [exact Hos1|]. eapply only_sessions_trans; [exact (proj1 Ho2)|].
    eapply only_sessions_trans; [exact (proj1 Ho3)|]. exact (proj1 Ho4).
  - assert (holders_are (serving path v data) st1 path) as Hall1.
    { intros n Hn'. assert (holdersOf path st1 = holdersOf path st) as E
        by (unfold only_sessions in Hos1; unfold holdersOf; by rewrite Hos1).
      rewrite E in Hn'. destruct (Hin1 n Hn') as ([l|] & Hl & HP); [by exists l|done]. }
    assert (only_session i st1 st4) as Ho14 by (etransitivity; [exact Ho2|]; by etransitivity).
    eapply holders_kept; [exact Ho14| |exact Hall1]. eapply not_holder; [exact Hs|exact Hall1].
Qed.

(** The turns of the server. *)
Lemma serves_update st i me now a b inp out path v data :
  let nv := nextVersion path v st in
  Linked.named (N := N) path -> transferable data -> in_i32 v -> 0 <= nv -> in_u32 a -> in_u32 b ->
  distinct_sessions (holdersOf path st) -> holders_are (ready path) st path -> owned st i me ->
  server_end st i false a b (updateRequest path v data b ++ inp) out ->
  exists st', serveClient i me now st = (Done (Ok tt), st')
    /\ server_end st' i false (u32 (u32 (a + 1) + 1)) (u32 (b + 1)) inp (out ++ updateReply nv a)
    /\ committed i path nv data st st'.
Proof.
  intros nv Hn Hd Hv Hpos Ha Hb Hnd Hall Hown Hs. pose proof (not_holder _ _ _ _ _ _ _ _ _ Hs Hall) as Hi.
  destruct (named_good path Hn) as (_ & Hshort & _).
  destruct (frame_path_version UPDATE_FILE path v b Hshort eq_refl Hb) as (f & Hf & Hw).
  unfold updateRequest, frameOf, updateFileFormatV in Hs. rewrite Hf, <-app_assoc in Hs.
  apply (turn_handled st i me now a b _ out _ _ (committed i path nv data st) _ _ _ _ Hs Hw eq_refl).
  { intros st1 st' Ho Hc. by eapply committed_to. }
  intros st1 Ho Hs1. assert (Hst1 := proj1 Ho). unfold only_sessions in Hst1.
  assert (nextVersion path v st1 = nv /\ holdersOf path st1 = holdersOf path st) as [Hnv Hh]
    by (unfold nv, nextVersion, holdersOf; by rewrite Hst1).
  destruct (handles_update st1 i me (mkMessage UPDATE_FILE 0 b 0
      [fieldString FILE_PATH path; fieldUint32 FILE_VERSION (u32 v)]) now a (u32 (b + 1)) inp out path v data)
    as (st2 & Hrun & Hs2 & Hc); [done|by apply getString_field| |done|done|by rewrite Hnv|done|by rewrite Hh|..].
  { rewrite (getUint32_field _ _ (u32 v)) by done. rewrite u32_small by auto with squid. by apply i32_u32. }
  { by eapply holders_kept. }
  { unfold owned. by rewrite Hst1. }
  { exact Hs1. }
  rewrite Hnv in *. exists st2. split_and!; [done..|]. by eapply committed_from.
Qed.

Lemma serves_read st i me now a b inp out path v data :
  Linked.named (N := N) path -> transferable data -> in_u32 a -> in_u32 b ->
  holdersOf path st <> ∅ -> persistedVersionMap st !! path = Some v ->
  holders_are (serving path v data) st path ->
  server_end st i false a b (readRequest path b ++ inp) out ->
  exists st', serveClient i me now st = (Done (Ok tt), st')
    /\ server_end st' i false (u32 (u32 (a + 1) + 1)) (u32 (b + 1)) inp (out ++ readReply v data a)
    /\ only_sessions st st' /\ holders_are (serving path v data) st' path.
Proof.
  intros Hn Hd Ha Hb Hne Hv Hall Hs. pose proof (not_holder _ _ _ _ _ _ _ _ _ Hs Hall) as Hi.
  destruct (named_good path Hn) as (_ & Hshort & _).
  destruct (frame_path READ_FILE path b Hshort eq_refl Hb) as (f & Hf & Hw).
  unfold readRequest, frameOf, readFileFormat in Hs. rewrite Hf in Hs.
  apply (turn_handled st i me now a b _ out _ _
    (fun st' => only_sessions st st' /\ holders_are (serving path v data) st' path) _ _ _ _ Hs Hw eq_refl).
  { intros st1 st' Ho [Hc Hall1]. split; [eapply only_sessions_trans; [exact Hc|exact (proj1 Ho)]|].
    eapply holders_kept; [exact Ho| |exact Hall1].
    unfold only_sessions in Hc. unfold holdersOf in *. by rewrite Hc. }
  intros st1 Ho Hs1. assert (Hst1 := proj1 Ho). unfold only_sessions in Hst1.
  assert (holdersOf path st1 = holdersOf path st) as Hh by (unfold holdersOf; by rewrite Hst1).
  destruct (handles_read st1 i me (mkMessage READ_FILE 0 b 0 [fieldString FILE_PATH path]) now a (u32 (b + 1)) inp out path v data)
    as (st2 & Hrun & Hs2 & Hc & Hall2); [done|by apply getString_field|done|done|done|by rewrite Hh|by rewrite Hst1| |exact Hs1|].
  { by eapply holders_kept. }
  exists st2. split_and!; [done..| |done]. eapply only_sessions_trans; [exact (proj1 Ho)|done].
Qed.
End server_side.

Section client_side.
Context {C : Type} `{StreamChannel C}.
Implicit Types cl : Client C.

Lemma client_updates dial cl a b path v nv data inp out :
  short path = true -> transferable data -> in_i32 nv -> 0 <= nv -> in_u32 a -> in_u32 b ->
  client_end cl b a (updateReply nv a ++ inp) out ->
  exists m cl', Client.updateFile dial path data v cl = (Done (Ok m), cl') /\ isAck m = true
    /\ client_end cl' (u32 (b + 1)) (u32 (u32 (a + 1) + 1)) inp (out ++ updateRequest path v data b)
    /\ versions cl' = <[path := nv]> (versions cl) /\ notified cl' = notified cl.
Proof.
  intros Hs Hd Hnv Hpos Ha Hb Hc.
  destruct (frame_path_version UPDATE_FILE path v b Hs eq_refl Hb) as (f & Hf & _).
  destruct (frame_ack true a Ha) as (k1 & Hk1 & Hw1).
  destruct (frame_ack_version true nv (u32 (a + 1)) (u32_range _)) as (k2 & Hk2 & Hw2).
  unfold updateReply, frameOf in Hc. rewrite Hk1, Hk2, <-app_assoc in Hc.
  unfold updateRequest, frameOf, updateFileFormatV. rewrite Hf. eexists.
  destruct (client_request (updateFileData path v data) (setVersionFromAck path) dial cl b a _ out _ _ _ _ _ Hc
    (fun p => upload_ok _ f data p b a inp out _ _ _ _ Hf Hd Hw1 eq_refl eq_refl Hw2 eq_refl))
    as (cl1 & Hreq & Hc1 & Hv1 & Hn1).
  eexists. split; [exact Hreq|]. split; [done|]. rewrite <-Hv1, <-Hn1. eapply learnt; try done.
  rewrite (getUint32_field _ _ (u32 nv)) by done. by rewrite u32_small by auto with squid.
Qed.

Lemma client_reads dial cl a b path v data inp out :
  short path = true -> transferable data -> in_i32 v -> 0 <= v -> in_u32 a -> in_u32 b ->
  client_end cl b a (readReply v data a ++ inp) out ->
  exists m cl', Client.readFile dial path cl = (Done (Ok (m, data)), cl') /\ isAck m = true
    /\ client_end cl' (u32 (b + 1)) (u32 (u32 (a + 1) + 1)) inp (out ++ readRequest path b)
    /\ versions cl' = <[path := v]> (versions cl) /\ notified cl' = notified cl.
Proof.
  intros Hs Hd Hv Hpos Ha Hb Hc.
  destruct (frame_path READ_FILE path b Hs eq_refl Hb) as (f & Hf & _).
  destruct (frame_ack true a Ha) as (k1 & Hk1 & Hw1).
  destruct (frame_ack_version true v (u32 (a + 1)) (u32_range _)) as (k2 & Hk2 & Hw2).
  unfold readReply, frameOf in Hc. rewrite Hk1, Hk2, <-!app_assoc in Hc.
  unfold readRequest, frameOf, readFileFormat. rewrite Hf. eexists.
  destruct (client_read dial path cl b a _ out _ data _ _ _ _ Hc
    (fun p => readFile_ok path b a f data p inp out _ _ _ _ Hf Hd Hw1 eq_refl eq_refl Hw2 eq_refl))
    as (cl1 & Hreq & Hc1 & Hv1 & Hn1).
  eexists. split; [exact Hreq|]. split; [done|]. rewrite <-Hv1, <-Hn1. eapply learnt; try done.
  rewrite (getUint32_field _ _ (u32 v)) by done. by rewrite u32_small by auto with squid.
Qed.
End client_side.

(** C1. A client reads what it wrote, through the whole system.  A client
    updates a file and then reads it; the server's worker takes the two
    requests from the connection and its handlers serve them; the holders are
    datanodes that run the protocol over their own disks.  The file must have
    a path without white space, of a length that fits a frame, that is not the
    version file, and at least one holder; every holder is alive, in step with
    the server, and can open the file; the data fits a transfer (1 GiB), the
    next version is not negative, and no push is on the client's connection.
    Then client and server agree byte for byte on the conversation: with what the
    server answers the client sends exactly what the server was given, both
    requests succeed, the read returns exactly the data written, and the client
    knows the new version; the server has recorded the version, every holder has
    the data on its disk under it with its other files untouched, and nothing
    was pushed to the writer.  Outside these conditions see
    [space_path_has_no_version], [update_without_holders_commits],
    [refused_update_resurfaces] and [push_taken_for_answer]. *)
Theorem client_reads_its_write {N} {C D} `{StreamChannel C, StreamChannel D}
    (st : Server (Link N + ConnectionSession C)) i me now now' path v data a b :
  let nv := nextVersion path v st in
  let a' := u32 (u32 (a + 1) + 1) in
  let requests := updateRequest path v data b ++ readRequest path (u32 (b + 1)) in
  let replies := updateReply nv a ++ readReply nv data a' in
  Linked.named (N := N) path -> Z.of_nat (length data) <= FILETRANSFER_MAX_SIZE -> in_i32 v -> 0 <= nv ->
  in_u32 a -> in_u32 b -> holdersOf path st <> ∅ -> distinct_sessions (holdersOf path st) ->
  holders_are (ready path) st path -> owned st i me ->
  (forall (cl : Client D) dial inC outC, client_end cl b a (replies ++ inC) outC ->
     exists m1 m2 cl1 cl2, Client.updateFile dial path data v cl = (Done (Ok m1), cl1) /\ isAck m1 = true
       /\ Client.readFile dial path cl1 = (Done (Ok (m2, data)), cl2) /\ isAck m2 = true
       /\ versions cl2 = <[path := nv]> (versions cl) /\ notified cl2 = notified cl
       /\ client_end cl2 (u32 (u32 (b + 1) + 1)) (u32 (u32 (a' + 1) + 1)) inC (outC ++ requests))
  /\ (forall inS outS, server_end st i false a b (requests ++ inS) outS ->
     exists st1 st2, serveClient i me now st = (Done (Ok tt), st1)
       /\ serveClient i me now' st1 = (Done (Ok tt), st2)
       /\ committed i path nv data st st1 /\ only_sessions st1 st2
       /\ server_end st2 i false (u32 (u32 (a' + 1) + 1)) (u32 (u32 (b + 1) + 1)) inS (outS ++ replies)).
Proof.
  intros nv a' requests replies Hn Hd Hv Hpos Ha Hb Hne Hnd Hall Hown.
  destruct (named_good path Hn) as (_ & Hshort & _). assert (in_i32 nv) as Hnv by apply i32_range. split.
  - intros cl dial inC outC Hc. unfold replies in Hc. rewrite <-app_assoc in Hc.
    destruct (client_updates dial cl a b path v nv data _ outC Hshort Hd Hnv Hpos Ha Hb Hc)
      as (m1 & cl1 & Hup & Hk1 & Hc1 & Hv1 & Hn1).
    destruct (client_reads dial cl1 a' (u32 (b + 1)) path nv data _ _ Hshort Hd Hnv Hpos (u32_range _) (u32_range _) Hc1)
      as (m2 & cl2 & Hrd & Hk2 & Hc2 & Hv2 & Hn2).
    exists m1, m2, cl1, cl2. rewrite <-app_assoc in Hc2. split_and!; try done; [|congruence].
    by rewrite Hv2, Hv1, insert_insert_eq.
  - intros inS outS Hs. unfold requests in Hs. rewrite <-app_assoc in Hs.
    destruct (serves_update st i me now a b _ outS path v data Hn Hd Hv Hpos Ha Hb Hnd Hall Hown Hs)
      as (st1 & Hrun1 & Hs1 & Hc). pose proof (not_holder _ _ _ _ _ _ _ _ _ Hs Hall) as Hi.
    assert (holdersOf path st1 = holdersOf path st) as Hh by (unfold holdersOf; by rewrite (cm_holders _ _ _ _ _ _ Hc)).
    destruct (serves_read st1 i me now' a' (u32 (b + 1)) inS (outS ++ updateReply nv a) path nv data Hn Hd (u32_range _) (u32_range _))
      as (st2 & Hrun2 & Hs2 & Ho & _); [by rewrite Hh|rewrite (cm_version _ _ _ _ _ _ Hc); apply lookup_insert_eq| |exact Hs1|].
    { intros n Hn'. rewrite Hh in Hn'. destruct (cm_stored _ _ _ _ _ _ Hc n Hn') as (l & l' & _ & Hl' & Hst & Hheld & _).
      by exists l'. }
    exists st1, st2. rewrite <-app_assoc in Hs2. done.
Qed.

(** Two datanodes, and [bob], who sends an update and a read. *)
Definition demo_data : list byte := bytes_of_string "new".
Definition demo_requests : list byte := updateRequest "a.txt" 4 demo_data 0 ++ readRequest "a.txt" 1.
Definition demo_answers : list byte := updateReply 5 0 ++ readReply 5 demo_data 2.
Definition demo_end (bs : list byte) : ConnectionSession Pipe := newSession (demo_pipe bs) "CLIENT" "bob".

Definition demo_full : Server (Link demo_names + ConnectionSession Pipe) :=
  let both := {["dn1" := 1%positive; "dn2" := 2%positive]} in
  ServerState.mkServer 3 0 both {["bob" := 11%positive]} ∅ {["a.txt" := both]} {["a.txt" := 4]} 0 None demo_disk
    {[1%positive := inl demo_link; 2%positive := inl demo_link; 11%positive := inr (demo_end demo_requests)]} [].

Definition demo_bob : Client Pipe :=
  mkClientState (set_session (Some (demo_end demo_answers)) (newPeer "" 0 "CLIENT" "bob")) {["a.txt" := 4]} [].

Lemma demo_end_idle bs : idle (demo_end bs) false 0 0 bs [].
Proof. by repeat constructor. Qed.

Lemma demo_full_ready : holders_are (ready "a.txt") demo_full "a.txt".
Proof.
  intros n Hn. exists demo_link. split; [|apply (bool_decide_unpack _); vm_compute; exact I].
  change (map_entries (holdersOf "a.txt" demo_full)) with [("dn1", 1%positive); ("dn2", 2%positive)] in Hn.
  apply elem_of_cons in Hn as [->|[->|[]%elem_of_nil]%elem_of_cons]; reflexivity.
Qed.

Lemma demo_full_owned : owned demo_full 11%positive "bob".
Proof.
  split.
  - intros name Hname. change (({["bob" := 11%positive]} : gmap string sid) !! name = Some 11%positive) in Hname.
    by apply lookup_singleton_Some in Hname as [-> _].
  - apply not_elem_of_nil.
Qed.

Lemma client_reads_its_write_witness :
  (exists m1 m2 cl1 cl2, Client.updateFile demo_dial "a.txt" demo_data 4 demo_bob = (Done (Ok m1), cl1) /\ isAck m1 = true
     /\ Client.readFile demo_dial "a.txt" cl1 = (Done (Ok (m2, demo_data)), cl2) /\ isAck m2 = true
     /\ versions cl2 = <["a.txt" := 5]> (versions demo_bob) /\ notified cl2 = notified demo_bob
     /\ client_end cl2 2 4 [] ([] ++ demo_requests))
  /\ (exists st1 st2, serveClient 11%positive "bob" 0 demo_full = (Done (Ok tt), st1)
     /\ serveClient 11%positive "bob" 1 st1 = (Done (Ok tt), st2)
     /\ committed 11%positive "a.txt" 5 demo_data demo_full st1 /\ only_sessions st1 st2
     /\ server_end st2 11%positive false 4 2 [] ([] ++ demo_answers)).
Proof.
  destruct (client_reads_its_write (D := Pipe) demo_full 11%positive "bob" 0 1 "a.txt" 4 demo_data 0 0) as [Hcl Hsv].
  - apply (bool_decide_unpack _). vm_compute. exact I.
  - vm_compute. discriminate.
  - unfold in_i32. lia.
  - vm_compute. discriminate.
  - unfold in_u32. lia.
  - unfold in_u32. lia.
  - apply (bool_decide_unpack _). vm_compute. exact I.
  - apply (bool_decide_unpack _). vm_compute. exact I.
  - exact demo_full_ready.
  - exact demo_full_owned.
  - split.
    + apply Hcl. exists (demo_end demo_answers). split; [reflexivity|]. rewrite app_nil_r. apply demo_end_idle.
    + apply Hsv. exists (demo_end demo_requests). split; [reflexivity|]. rewrite app_nil_r. apply demo_end_idle.
Defined.
