(* ===== verification/LockService.v ===== *)
(** * The lock service over its connections

    Clients that ask for locks and give them back ([client/src/client.cpp]),
    each over a connection of its own, and the server that answers them
    ([server/src/server.cpp], [server/src/lock_manager.cpp]), in any order of
    the requests.  The specification is a map from files to owners; the
    refinement theorem relates the bytes on all connections to it. *)

From S2P Require Import Prelude Text Wire FileManager FileTransfer Protocol StateStore Session ServerState LockManager Replication Linked ClusterConfig Watcher Standby Server Peer Client EndToEnd.

(** ** The specification *)

Inductive LockReq : Type :=
| AskLock (path : string)
| GiveLock (path : string).

Definition reqPath (r : LockReq) : string := match r with AskLock p | GiveLock p => p end.

(** A request of the client [ev_name], on the session [ev_sid]. *)
Record Event : Type := mkEvent { ev_sid : sid; ev_name : string; ev_now : Z; ev_req : LockReq }.

(** Who owns each file: a lock is granted when nobody owns the file; giving
    back always succeeds. *)
Definition ownerSpec (who : string) (r : LockReq) (m : gmap string (option string)) : bool * gmap string (option string) :=
  match r with
  | AskLock p =>
      match m !! p with
      | Some None => (true, <[p := Some who]> m)
      | _ => (false, m)
      end
  | GiveLock p =>
      match m !! p with
      | Some _ => (true, <[p := None]> m)
      | None => (false, m)
      end
  end.

Definition ownersAfter (es : list Event) (m : gmap string (option string)) : gmap string (option string) :=
  fold_left (fun m e => (ownerSpec (ev_name e) (ev_req e) m).2) es m.

(** The requests of one session and their answers. *)
Definition mine (i : sid) (es : list Event) : list LockReq :=
  ev_req <$> List.filter (fun e => bool_decide (ev_sid e = i)) es.

Fixpoint answersOf (i : sid) (es : list Event) (m : gmap string (option string)) : list bool :=
  match es with
  | [] => []
  | e :: es =>
      let '(ok, m) := ownerSpec (ev_name e) (ev_req e) m in
      (if decide (ev_sid e = i) then [ok] else []) ++ answersOf i es m
  end.

(** Sequence numbers and frames. *)
Fixpoint seqAfter (n : nat) (a : Z) : Z := match n with O => a | S n => seqAfter n (u32 (a + 1)) end.

Definition requestFormat (r : LockReq) : result (list byte) :=
  match r with AskLock p => acquireLockFormat p | GiveLock p => releaseLockFormat p end.

Fixpoint requestBytes (rs : list LockReq) (b : Z) : list byte :=
  match rs with
  | [] => []
  | r :: rs => frameOf (requestFormat r) b ++ requestBytes rs (u32 (b + 1))
  end.
Fixpoint replyBytes (ks : list bool) (a : Z) : list byte :=
  match ks with
  | [] => []
  | k :: ks => frameOf (responseAck k) a ++ replyBytes ks (u32 (a + 1))
  end.

Lemma frame_request r b : short (reqPath r) = true -> in_u32 b ->
  exists f m, requestFormat r = Ok f /\ wellframed (stampSeq f b) m /\ seq m = b
    /\ opcode m = match r with AskLock _ => ACQUIRE_LOCK | GiveLock _ => RELEASE_LOCK end
    /\ getString m FILE_PATH "" = reqPath r.
Proof.
  intros Hs Hb. destruct r as [p|p]; simpl in Hs |- *.
  - destruct (frame_path ACQUIRE_LOCK p b Hs eq_refl Hb) as (f & Hf & Hw).
    exists f. eexists. split_and!; [exact Hf|exact Hw|done|done|by apply getString_field].
  - destruct (frame_path RELEASE_LOCK p b Hs eq_refl Hb) as (f & Hf & Hw).
    exists f. eexists. split_and!; [exact Hf|exact Hw|done|done|by apply getString_field].
Qed.

(** ** The clients *)

Section clients.
Context {D : Type} `{StreamChannel D}.
Implicit Types cl : Client D.

Definition lockCall dial (r : LockReq) : SO (Client D) Message :=
  match r with AskLock p => Client.acquireLock dial p | GiveLock p => Client.releaseLock dial p end.

Fixpoint lockCalls dial (rs : list LockReq) : SO (Client D) (list bool) :=
  match rs with
  | [] => sret []
  | r :: rs =>
      let! m := lockCall dial r in
      let! more := lockCalls dial rs in
      sret (isAck m :: more)
  end.

Lemma client_asks dial cl a b r (k : bool) inp out :
  short (reqPath r) = true -> in_u32 a -> in_u32 b ->
  client_end cl b a (frameOf (responseAck k) a ++ inp) out ->
  exists m cl', lockCall dial r cl = (Done (Ok m), cl') /\ isAck m = k
    /\ client_end cl' (u32 (b + 1)) (u32 (a + 1)) inp (out ++ frameOf (requestFormat r) b)
    /\ versions cl' = versions cl /\ notified cl' = notified cl.
Proof.
  intros Hs Ha Hb Hc. destruct (frame_request r b Hs Hb) as (f & _ & Hf & _).
  destruct (frame_ack k a Ha) as (g & Hg & Hw). unfold frameOf in *. rewrite Hg in Hc. rewrite Hf.
  assert (forall p, conn p b a (stampSeq g a ++ inp) out -> exists p',
    (do* send (requestFormat r) in receive) p = (Ok (mkMessage RESPONSE FLAG_RESPONSE a 0 [fieldBool ACK k]), p')
    /\ conn p' (u32 (b + 1)) (u32 (a + 1)) inp (out ++ stampSeq f b)) as Hfn.
  { intros p Hp. destruct (send_ok _ _ _ _ _ _ _ Hf Hp) as (p1 & Hsend & Hp1).
    destruct (receive_ok _ _ _ _ _ _ _ Hw eq_refl Hp1) as (p2 & Hrecv & Hp2). exists p2.
    unfold bind. by rewrite Hsend, Hrecv. }
  destruct (client_request _ (fun _ cl => cl) dial cl _ _ _ _ _ _ _ _ _ Hc Hfn) as (cl1 & Hreq & Hc1 & Hv & Hn).
  eexists. exists cl1. split; [by destruct r; exact Hreq|]. split; [by destruct k|]. done.
Qed.

Lemma clients_ask dial rs cl a b ks inp out :
  Forall (fun r => short (reqPath r) = true) rs -> length ks = length rs -> in_u32 a -> in_u32 b ->
  client_end cl b a (replyBytes ks a ++ inp) out ->
  exists cl', lockCalls dial rs cl = (Done (Ok ks), cl')
    /\ client_end cl' (seqAfter (length rs) b) (seqAfter (length rs) a) inp (out ++ requestBytes rs b)
    /\ versions cl' = versions cl /\ notified cl' = notified cl.
Proof.
  revert cl a b ks out. induction rs as [|r rs IH]; intros cl a b ks out Hs Hl Ha Hb Hc; destruct ks as [|k ks]; try done.
  { exists cl. simpl in Hc |- *. by rewrite app_nil_r. }
  apply Forall_cons in Hs as [Hr Hs]. cbn [replyBytes] in Hc. rewrite <-app_assoc in Hc.
  destruct (client_asks dial cl a b r k _ out Hr Ha Hb Hc) as (m & cl1 & Hcall & Hk & Hc1 & Hv1 & Hn1).
  destruct (IH cl1 _ _ ks _ Hs ltac:(simpl in Hl; lia) (u32_range _) (u32_range _) Hc1) as (cl2 & Hcalls & Hc2 & Hv2 & Hn2).
  exists cl2. cbn [lockCalls requestBytes length seqAfter].
  rewrite (sbind_done _ _ _ _ _ Hcall), (sbind_done _ _ _ _ _ Hcalls), Hk, app_assoc.
  split_and!; [done|done|congruence..].
Qed.
End clients.

(** ** The server *)

Definition ownerOf (l : FileLock) : option string := if locked l then Some (clientHolder l) else None.
Definition owners (locks : gmap string FileLock) : gmap string (option string) := ownerOf <$> locks.

Section service.
Context {S : Type} `{Session S} {C : Type} `{StreamChannel C}.
Local Abbreviation St := (Server (S + ConnectionSession C)).
Implicit Types st : St.

Definition lockOp (r : LockReq) (me : string) (now : Z) : SO St bool :=
  match r with AskLock p => LockManager.acquireLock p me now | GiveLock p => LockManager.releaseLock p now end.

(** The server takes the requests in the order of the events. *)
Definition serveAll (es : list Event) : SO St unit :=
  sfor_each es (fun e => serveClient (ev_sid e) (ev_name e) (ev_now e)).

(** The lock table after a request, up to expiration times. *)
Definition lockStep (r : LockReq) (me : string) (locks locks' : gmap string FileLock) : Prop :=
  owners locks' = (ownerSpec me r (owners locks)).2 /\ dom locks' = dom locks.

Lemma lockOp_spec r me now st : is_Some (fileLockMap st !! reqPath r) ->
  exists L, lockOp r me now st = (Done (Ok (ownerSpec me r (owners (fileLockMap st))).1), set_locks L st)
    /\ lockStep r me (fileLockMap st) L.
Proof.
  intros [l Hl]. assert (set_locks (fileLockMap st) st = st) as Hsame by by destruct st.
  assert (forall p l', p ∈ dom (fileLockMap st) ->
    dom (<[p := l']> (fileLockMap st)) = dom (fileLockMap st)) as Hdom by (intros; rewrite dom_insert_L; set_solver).
  assert (reqPath r ∈ dom (fileLockMap st)) as Hin by (apply elem_of_dom; eauto).
  unfold lockStep, ownerSpec, owners. destruct r as [p|p]; cbn [reqPath lockOp] in *; rewrite lookup_fmap, Hl; simpl.
  - assert (findLock p now st = (Done (Ok (Some l)), st)) as Hfind by (unfold findLock; rewrite sbind_gets; by rewrite Hl).
    unfold LockManager.acquireLock. rewrite (sbind_done _ _ _ _ _ Hfind).
    destruct (locked l) eqn:Hk; cbn [negb].
    + assert (ownerOf l = Some (clientHolder l)) as -> by (unfold ownerOf; by rewrite Hk).
      exists (fileLockMap st). by rewrite Hsame.
    + assert (ownerOf l = None) as -> by (unfold ownerOf; by rewrite Hk).
      eexists. split; [reflexivity|]. split; [by rewrite fmap_insert|by apply Hdom].
  - unfold LockManager.releaseLock. rewrite sbind_gets, Hl.
    eexists. split; [reflexivity|]. split; [by rewrite fmap_insert|by apply Hdom].
Qed.

(** The handler of a request about a lock. *)
Lemma handles_lock st i me now m r a b inp out :
  opcode m = match r with AskLock _ => ACQUIRE_LOCK | GiveLock _ => RELEASE_LOCK end ->
  getString m FILE_PATH "" = reqPath r -> is_Some (fileLockMap st !! reqPath r) -> in_u32 a ->
  server_end st i true a b inp out ->
  exists st' L, handleClientRequest i me m now st = (Done (Ok tt), st')
    /\ server_end st' i true (u32 (a + 1)) b inp
         (out ++ frameOf (responseAck (ownerSpec me r (owners (fileLockMap st))).1) a)
    /\ only_session i (set_locks L st) st' /\ lockStep r me (fileLockMap st) L.
Proof.
  intros Hop Hpath Hl Ha Hs. destruct (lockOp_spec r me now st Hl) as (L & Hop' & HL).
  set (ok := (ownerSpec me r (owners (fileLockMap st))).1) in *.
  apply (server_end_same st (set_locks L st)) in Hs; [|done].
  destruct (server_call (sess_response ok) (response ok) _ i _ _ _ _ _ _ _ _ _ _ Hs
    (fun p => answers_ack ok p a b inp out Ha)) as (st2 & Hack & Hs2 & Ho2).
  exists st2, L. split; [|done]. unfold handleClientRequest. rewrite Hop, Hpath.
  destruct r as [p|p]; cbn [lockOp reqPath] in Hop' |- *; rewrite (sbind_done _ _ _ _ _ Hop'); exact Hack.
Qed.

(** A turn for a client that asks about a lock. *)
Lemma serve_lock st i me now r a b inp out :
  short (reqPath r) = true -> is_Some (fileLockMap st !! reqPath r) -> in_u32 a -> in_u32 b ->
  server_end st i false a b (frameOf (requestFormat r) b ++ inp) out ->
  exists st', serveClient i me now st = (Done (Ok tt), st')
    /\ server_end st' i false (u32 (a + 1)) (u32 (b + 1)) inp
         (out ++ frameOf (responseAck (ownerSpec me r (owners (fileLockMap st))).1) a)
    /\ exists L, only_session i (set_locks L st) st' /\ lockStep r me (fileLockMap st) L.
Proof.
  intros Hsh Hl Ha Hb Hs. destruct (frame_request r b Hsh Hb) as (f & m & Hf & Hw & Hm & Hop & Hpath).
  unfold frameOf at 1 in Hs. rewrite Hf in Hs.
  apply (turn_handled st i me now a b inp out _ m
    (fun st' => exists L, only_session i (set_locks L st) st' /\ lockStep r me (fileLockMap st) L) _ _ _ _ Hs Hw Hm).
  { intros st1 st' Ho (L & HoL & HL). exists L. split; [by etransitivity|done]. }
  intros st1 [Hos Hsame] Hs1. unfold only_sessions in Hos.
  assert (fileLockMap st1 = fileLockMap st) as E by by rewrite Hos. rewrite <-E.
  destruct (handles_lock st1 i me now m r a (u32 (b + 1)) inp out) as (st2 & L & Hrun & Hs2 & Ho2 & HL); try done.
  { by rewrite E. }
  exists st2. split_and!; [done..|]. exists L. split; [|done]. transitivity (set_locks L st1); [|done].
  split; [|done]. unfold only_sessions. by rewrite Hos at 1.
Qed.
End service.

(** ** Any number of clients *)

Section refinement.
Context {S : Type} `{Session S} {C : Type} `{StreamChannel C}.
Local Abbreviation St := (Server (S + ConnectionSession C)).
Implicit Types st : St.

(** Every request fits its frame and asks for a file the server knows. *)
Definition answerable st (es : list Event) : Prop :=
  Forall (fun e => short (reqPath (ev_req e)) = true /\ reqPath (ev_req e) ∈ dom (fileLockMap st)) es.

(** The connections of the sessions [I], [A] and [B] being the numbers of the
    next frame to send and to receive. *)
Definition connected st (I : gset sid) (A B : sid -> Z) (inp out : sid -> list byte) : Prop :=
  forall i, i ∈ I -> in_u32 (A i) /\ in_u32 (B i) /\ server_end st i false (A i) (B i) (inp i) (out i).

Lemma mine_cons i e es : mine i (e :: es) = (if decide (ev_sid e = i) then [ev_req e] else []) ++ mine i es.
Proof. unfold mine. simpl. case_bool_decide; [by rewrite decide_True|by rewrite decide_False]. Qed.

Lemma answersOf_length i es m : length (answersOf i es m) = length (mine i es).
Proof.
  revert m. induction es as [|e es IH]; intros m; [done|]. rewrite mine_cons. simpl.
  destruct (ownerSpec _ _ m) as [ok m']. rewrite !length_app, IH. by destruct (decide _).
Qed.

(** The numbers and the output of the session that was served. *)
Definition bump (i : sid) (f : sid -> Z) (j : sid) : Z := if decide (j = i) then u32 (f j + 1) else f j.
Definition emit (i : sid) (bs : list byte) (out : sid -> list byte) (j : sid) : list byte :=
  if decide (j = i) then out j ++ bs else out j.

(** One request of a session in [I]. *)
Lemma serve_event st e es I A B inS outS :
  let ok := (ownerSpec (ev_name e) (ev_req e) (owners (fileLockMap st))).1 in
  ev_sid e ∈ I -> answerable st [e] ->
  connected st I A B (fun i => requestBytes (mine i (e :: es)) (B i) ++ inS i) outS ->
  exists st' L, serveClient (ev_sid e) (ev_name e) (ev_now e) st = (Done (Ok tt), st')
    /\ only_sessions (set_locks L st) st' /\ lockStep (ev_req e) (ev_name e) (fileLockMap st) L
    /\ connected st' I (bump (ev_sid e) A) (bump (ev_sid e) B)
         (fun i => requestBytes (mine i es) (bump (ev_sid e) B i) ++ inS i)
         (emit (ev_sid e) (frameOf (responseAck ok) (A (ev_sid e))) outS).
Proof.
  intros ok Hin Hans Hc. apply Forall_cons in Hans as [[Hsh Hdom%elem_of_dom] _].
  destruct (Hc _ Hin) as (Ha & Hb & Hs). rewrite mine_cons, decide_True in Hs by done. cbn [app requestBytes] in Hs.
  rewrite <-app_assoc in Hs.
  destruct (serve_lock st _ (ev_name e) (ev_now e) _ _ _ _ _ Hsh Hdom Ha Hb Hs) as (st' & Hrun & Hs' & L & [Hos Hsame] & HL).
  exists st', L. split_and!; [done..|]. intros j Hj. unfold bump, emit. destruct (decide (j = ev_sid e)) as [->|Hne].
  - split_and!; [apply u32_range..|exact Hs'].
  - destruct (Hc j Hj) as (Haj & Hbj & Hsj). split_and!; [done..|].
    rewrite mine_cons, decide_False in Hsj by congruence. apply (server_end_same st st'); [by apply Hsame|done].
Qed.

Lemma serve_all es st I A B inS outS :
  Forall (fun e => ev_sid e ∈ I) es -> answerable st es ->
  connected st I A B (fun i => requestBytes (mine i es) (B i) ++ inS i) outS ->
  exists st', serveAll es st = (Done (Ok tt), st')
    /\ owners (fileLockMap st') = ownersAfter es (owners (fileLockMap st))
    /\ only_sessions (set_locks (fileLockMap st') st) st'
    /\ connected st' I (fun i => seqAfter (length (mine i es)) (A i)) (fun i => seqAfter (length (mine i es)) (B i)) inS
         (fun i => outS i ++ replyBytes (answersOf i es (owners (fileLockMap st))) (A i)).
Proof.
  revert st A B outS. induction es as [|e es IH]; intros st A B outS HI Hans Hc.
  { exists st. split_and!; try done; [by destruct st|]. intros i Hi. simpl. rewrite app_nil_r. by apply Hc. }
  apply Forall_cons in HI as [Hin HI]. apply Forall_cons in Hans as [He Hans].
  destruct (serve_event st e es I A B inS outS Hin) as (st1 & L & Hrun & Hos & [Hown Hdom] & Hc1); [by constructor|done|].
  unfold only_sessions in Hos. assert (fileLockMap st1 = L) as HL by by rewrite Hos.
  assert (answerable st1 es) as Hans1 by (unfold answerable; by rewrite HL, Hdom).
  destruct (IH st1 _ _ _ HI Hans1 Hc1) as (st2 & Hall & Hown2 & Hos2 & Hc2).
  exists st2. unfold serveAll. cbn [sfor_each]. rewrite (sbind_done _ _ _ _ _ Hrun).
  rewrite HL, Hown in Hown2, Hc2. split_and!; [exact Hall|exact Hown2| |].
  - unfold only_sessions in *. rewrite Hos2 at 1. by rewrite Hos.
  - intros i Hi. destruct (Hc2 i Hi) as (Ha & Hb & Hs). rewrite mine_cons. cbn [answersOf].
    destruct (ownerSpec _ _ (owners (fileLockMap st))) as [ok m] eqn:E. unfold bump, emit in Ha, Hb, Hs.
    destruct (decide (i = ev_sid e)) as [->|Hne].
    + rewrite !decide_True by done. cbn [app length seqAfter replyBytes]. by rewrite app_assoc.
    + by rewrite !decide_False by congruence.
Qed.
End refinement.

(** C5. The lock service refines a map from files to owners.  Any number of
    clients send requests for locks and give them back, each over its own
    connection, and the server takes the requests in some order: then every
    request is answered, on the connection it came from, as the map answers it
    in that order (granted exactly when nobody owned the file), every client's
    calls return these answers, client and server agree on all bytes, and at
    the end the lock table names the owners of the map.  Nothing else of the
    server changes. *)
Theorem lock_service_refines {S} `{Session S} {C D} `{StreamChannel C, StreamChannel D}
    (st : Server (S + ConnectionSession C)) es I A B inS outS :
  let m := owners (fileLockMap st) in
  Forall (fun e => ev_sid e ∈ I) es -> answerable st es ->
  connected st I A B (fun i => requestBytes (mine i es) (B i) ++ inS i) outS ->
  (exists st', serveAll es st = (Done (Ok tt), st')
    /\ owners (fileLockMap st') = ownersAfter es m
    /\ only_sessions (set_locks (fileLockMap st') st) st'
    /\ connected st' I (fun i => seqAfter (length (mine i es)) (A i)) (fun i => seqAfter (length (mine i es)) (B i)) inS
         (fun i => outS i ++ replyBytes (answersOf i es m) (A i)))
  /\ forall i (cl : Client D) dial inC outC, i ∈ I ->
       client_end cl (B i) (A i) (replyBytes (answersOf i es m) (A i) ++ inC) outC ->
       exists cl', lockCalls dial (mine i es) cl = (Done (Ok (answersOf i es m)), cl')
         /\ client_end cl' (seqAfter (length (mine i es)) (B i)) (seqAfter (length (mine i es)) (A i)) inC
              (outC ++ requestBytes (mine i es) (B i))
         /\ versions cl' = versions cl /\ notified cl' = notified cl.
Proof.
  intros m HI Hans Hc. split; [by apply serve_all|]. intros i cl dial inC outC Hi Hcl.
  destruct (Hc i Hi) as (Ha & Hb & _). apply clients_ask; try done; [|by apply answersOf_length].
  unfold mine. apply Forall_forall. intros r ([ ] & -> & Hin)%list_elem_of_fmap.
  apply list_elem_of_In, List.filter_In in Hin as [Hin%list_elem_of_In _].
  by apply (proj1 (Forall_forall _ _) Hans _ Hin).
Qed.

(** Two clients ask for the same file; the second gets it when the first has
    given it back. *)
Definition demo_events : list Event :=
  [mkEvent 10%positive "alice" 0 (AskLock "b.txt"); mkEvent 11%positive "bob" 0 (AskLock "b.txt");
   mkEvent 10%positive "alice" 1 (GiveLock "b.txt"); mkEvent 11%positive "bob" 2 (AskLock "b.txt")].

Definition demo_lockers : Server (Node + ConnectionSession Pipe) :=
  let sess i := inr (demo_end (requestBytes (mine i demo_events) 0 ++ [])) in
  ServerState.mkServer 3 0 ∅ {["alice" := 10%positive; "bob" := 11%positive]} {["b.txt" := newFileLock "b.txt" 0]}
    ∅ {["b.txt" := 0]} 0 None demo_disk {[10%positive := sess 10%positive; 11%positive := sess 11%positive]} [].

Lemma demo_lockers_connected :
  connected demo_lockers {[10%positive; 11%positive]} (fun _ => 0) (fun _ => 0)
    (fun i => requestBytes (mine i demo_events) 0 ++ []) (fun _ => []).
Proof.
  intros i Hi. split_and!; [done..|]. exists (demo_end (requestBytes (mine i demo_events) 0 ++ [])).
  split; [|apply demo_end_idle]. apply elem_of_union in Hi as [Hi|Hi]; apply elem_of_singleton in Hi as ->; reflexivity.
Qed.

Example demo_lock_answers :
  answersOf 10%positive demo_events (owners (fileLockMap demo_lockers)) = [true; true]
  /\ answersOf 11%positive demo_events (owners (fileLockMap demo_lockers)) = [false; true].
Proof. by vm_compute. Qed.

Lemma lock_service_refines_witness :
  exists st', serveAll demo_events demo_lockers = (Done (Ok tt), st')
    /\ owners (fileLockMap st') = {["b.txt" := Some "bob"]}.
Proof.
  destruct (lock_service_refines (D := Pipe) demo_lockers demo_events {[10%positive; 11%positive]}
    (fun _ => 0) (fun _ => 0) (fun _ => []) (fun _ => [])) as [(st' & Hrun & Hown & _) _].
  - unfold demo_events. repeat (apply Forall_cons_2; [simpl; set_solver|]). by apply Forall_nil_2.
  - unfold demo_events, answerable.
    repeat (apply Forall_cons_2; [split; [reflexivity|apply elem_of_dom; eexists; reflexivity]|]). by apply Forall_nil_2.
  - exact demo_lockers_connected.
  - exists st'. split; [exact Hrun|]. rewrite Hown. vm_compute. reflexivity.
Defined.
