(* ===== verification/SquidFS.v ===== *)
(** * The FUSE file system

    Models [client/src/squidfs.{hpp,cpp}]: the cache of open files with its
    reference counts, the virtual directories, every FUSE operation, the push
    handler that [SquidFS] installs in the client, the health monitor and the
    mount loop.  [SquidFS] is the state of the object together with the heap of
    [FileHandle]s; the client is used through the class [FsClient], of which
    [Client] over any channel is an instance.

    [fuse_loop] runs the operations one after the other on one thread.  The
    threads beside it are the worker of the session, which handles pushes, and
    the health monitor.  What they do is an [event]; [env] is the schedule of
    the batches of events that take place while the loop's thread does not hold
    [cacheMutex_]: one before each lock and one before each request to the
    server.  Every theorem holds for every schedule unless it says otherwise.
    [cacheMutex_] is a flag: locking it while it is held never returns. *)

From S2P Require Import Prelude Text Wire FileManager FileTransfer Protocol StateStore Session ServerState LockManager Replication ClusterConfig Watcher Standby Server Peer Client.

(** ** Strings *)

(** [d.substr(0, p.size()) == p]. *)
Definition starts_with (p d : string) : bool :=
  bool_decide (String.substring 0 (String.length p) d = p).
(** [s.substr(n)], for [n] at most [s.size()]. *)
Definition drop_str (n : nat) (s : string) : string :=
  String.substring n (String.length s - n) s.
Definition slash : byte := "/"%char.
Definition find_slash (s : string) : option nat := find_char slash (bytes_of_string s).
Definition rfind_slash (s : string) : option nat := rfind_char slash (bytes_of_string s).

(** ** Constants of the system headers *)

Definition ENOENT : Z := 2.
Definition EIO : Z := 5.
Definition EBADF : Z := 9.
Definition EACCES : Z := 13.
Definition EEXIST : Z := 17.
Definition EISDIR : Z := 21.
Definition EINVAL : Z := 22.
Definition ENOTEMPTY : Z := 39.
Definition O_RDONLY : Z := 0.
Definition O_RDWR : Z := 2.
Definition O_ACCMODE : Z := 3.
Definition O_TRUNC : Z := 512.
Definition S_IFDIR : Z := 16384.
Definition S_IFREG : Z := 32768.
Definition PTRDIFF_MAX : Z := 2 ^ 63 - 1.

(** ** Data *)

Record CacheEntry : Type := mkEntry {
  e_data : list byte;
  dirty : bool;
  lockCount : Z;
  openCount : Z;
  e_version : Z }.

(** The entry that [cache_[r]] makes. *)
Definition newEntry : CacheEntry := mkEntry [] false 0 0 0.

Definition set_data (d : list byte) (e : CacheEntry) : CacheEntry :=
  mkEntry d (dirty e) (lockCount e) (openCount e) (e_version e).
Definition set_dirty (b : bool) (e : CacheEntry) : CacheEntry :=
  mkEntry (e_data e) b (lockCount e) (openCount e) (e_version e).
Definition set_lockCount (n : Z) (e : CacheEntry) : CacheEntry :=
  mkEntry (e_data e) (dirty e) n (openCount e) (e_version e).
Definition set_openCount (n : Z) (e : CacheEntry) : CacheEntry :=
  mkEntry (e_data e) (dirty e) (lockCount e) n (e_version e).
Definition set_version (v : Z) (e : CacheEntry) : CacheEntry :=
  mkEntry (e_data e) (dirty e) (lockCount e) (openCount e) v.

Record FileHandle : Type := mkHandle { h_path : string; h_writable : bool }.
#[export] Instance FileHandle_eq_dec : EqDecision FileHandle.
Proof. solve_decision. Defined.

(** [fuse_file_info]: the flags of the open and the address of the handle. *)
Record FileInfo : Type := mkInfo { fi_flags : Z; fi_fh : Z }.
Definition set_fh (a : Z) (fi : FileInfo) : FileInfo := mkInfo (fi_flags fi) a.

(** [struct stat], what the code sets of it. *)
Record Stat : Type := mkStat { st_mode : Z; st_nlink : Z; st_size : Z }.
Definition emptyStat : Stat := mkStat 0 0 0.
Definition dirStat : Stat := mkStat (Z.lor S_IFDIR 493) 2 0.
Definition fileStat (size : Z) : Stat := mkStat (Z.lor S_IFREG 420) 1 size.

(** What the other threads do: the two halves of [handlePush] on the version
    map and on the push handler, and a turn of the health monitor. *)
Inductive event : Type :=
| LearnVersion (path : string) (v : Z)
| ForgetVersion (path : string)
| RunPushHandler (m : Message) (data : list byte)
| HealthTurn.

(** ** What the file system uses of the client *)

Class FsClient (Cl : Type) : Type := {
  fc_isAlive : Cl -> bool;
  fc_reconnect : SO Cl unit;
  fc_syncStatus : SO Cl Message;
  fc_createFile : string -> list byte -> Z -> SO Cl Message;
  fc_readFile : string -> SO Cl (Message * list byte);
  fc_updateFile : string -> list byte -> Z -> SO Cl Message;
  fc_deleteFile : string -> SO Cl Message;
  fc_acquireLock : string -> SO Cl Message;
  fc_releaseLock : string -> SO Cl Message;
  fc_getFileVersion : string -> Cl -> Z;
  fc_getVersionMap : Cl -> gmap string Z;
  fc_setFileVersion : string -> Z -> Cl -> Cl;
  fc_deleteFileVersion : string -> Cl -> Cl }.

(** ** State *)

Record SquidFS (Cl : Type) : Type := mkFS {
  client_ : Cl;
  cacheMutex_ : bool;
  cache_ : gmap string CacheEntry;
  createdDirs_ : gset string;
  fuse_ : bool;
  healthStop_ : bool;
  handlerSet : bool;
  handles : gmap Z FileHandle;
  nextHandle : Z;
  invalidated : list string;
  env : list (list event) }.
Arguments mkFS {Cl}.
Arguments client_ {Cl}.
Arguments cacheMutex_ {Cl}.
Arguments cache_ {Cl}.
Arguments createdDirs_ {Cl}.
Arguments fuse_ {Cl}.
Arguments healthStop_ {Cl}.
Arguments handlerSet {Cl}.
Arguments handles {Cl}.
Arguments nextHandle {Cl}.
Arguments invalidated {Cl}.
Arguments env {Cl}.

Section squidfs.
Context {Cl : Type} `{FsClient Cl}.
Local Abbreviation FS := (SquidFS Cl).
Local Abbreviation M A := (SO FS A).
Implicit Types s : FS.

Definition set_client (c : Cl) s : FS :=
  mkFS c (cacheMutex_ s) (cache_ s) (createdDirs_ s) (fuse_ s) (healthStop_ s) (handlerSet s)
       (handles s) (nextHandle s) (invalidated s) (env s).
Definition set_mutex (b : bool) s : FS :=
  mkFS (client_ s) b (cache_ s) (createdDirs_ s) (fuse_ s) (healthStop_ s) (handlerSet s)
       (handles s) (nextHandle s) (invalidated s) (env s).
Definition set_cache (c : gmap string CacheEntry) s : FS :=
  mkFS (client_ s) (cacheMutex_ s) c (createdDirs_ s) (fuse_ s) (healthStop_ s) (handlerSet s)
       (handles s) (nextHandle s) (invalidated s) (env s).
Definition set_dirs (d : gset string) s : FS :=
  mkFS (client_ s) (cacheMutex_ s) (cache_ s) d (fuse_ s) (healthStop_ s) (handlerSet s)
       (handles s) (nextHandle s) (invalidated s) (env s).
Definition set_fuse (b : bool) s : FS :=
  mkFS (client_ s) (cacheMutex_ s) (cache_ s) (createdDirs_ s) b (healthStop_ s) (handlerSet s)
       (handles s) (nextHandle s) (invalidated s) (env s).
Definition set_healthStop (b : bool) s : FS :=
  mkFS (client_ s) (cacheMutex_ s) (cache_ s) (createdDirs_ s) (fuse_ s) b (handlerSet s)
       (handles s) (nextHandle s) (invalidated s) (env s).
Definition set_handler (b : bool) s : FS :=
  mkFS (client_ s) (cacheMutex_ s) (cache_ s) (createdDirs_ s) (fuse_ s) (healthStop_ s) b
       (handles s) (nextHandle s) (invalidated s) (env s).
Definition set_handles (h : gmap Z FileHandle) (n : Z) s : FS :=
  mkFS (client_ s) (cacheMutex_ s) (cache_ s) (createdDirs_ s) (fuse_ s) (healthStop_ s) (handlerSet s)
       h n (invalidated s) (env s).
Definition set_invalidated (l : list string) s : FS :=
  mkFS (client_ s) (cacheMutex_ s) (cache_ s) (createdDirs_ s) (fuse_ s) (healthStop_ s) (handlerSet s)
       (handles s) (nextHandle s) l (env s).
Definition set_env (l : list (list event)) s : FS :=
  mkFS (client_ s) (cacheMutex_ s) (cache_ s) (createdDirs_ s) (fuse_ s) (healthStop_ s) (handlerSet s)
       (handles s) (nextHandle s) (invalidated s) l.

(** The constructor: [instance_] is whether there is an object already. *)
Definition newSquidFS (instance_ : bool) (cl : Cl) (schedule : list (list event)) : result FS :=
  if instance_ then Throw "SquidFS: only one instance allowed"
  else Ok (mkFS cl false ∅ ∅ false false true ∅ 1 [] schedule).

(** ** The push handler and the health monitor *)

(** [fuse_invalidate_path] is called for a mounted file system only. *)
Definition invalidatePath (path : string) s : FS :=
  if fuse_ s then set_invalidated (invalidated s ++ ["/" +:+ path]) s else s.

Definition upd_entry (r : string) (f : CacheEntry -> CacheEntry) s : FS :=
  set_cache (<[r := f (default newEntry (cache_ s !! r))]> (cache_ s)) s.
Definition erase (r : string) s : FS := set_cache (delete r (cache_ s)) s.

Definition pushHandler (msg : Message) (data : list byte) s : FS :=
  let path := getString msg FILE_PATH "" in
  let version := i32 (getUint32 msg FILE_VERSION 0) in
  let s :=
    match opcode msg with
    | PUSH_CREATE_FILE | PUSH_UPDATE_FILE =>
        upd_entry path (fun e => if dirty e then e else set_version version (set_data data e)) s
    | PUSH_DELETE_FILE => erase path s
    | _ => s
    end in
  if decide (path = "") then s else invalidatePath path s.

(** One turn of [healthLoop] on the client; exceptions are caught, and a call
    that does not return keeps only the monitor's thread. *)
Definition healthTurn (cl : Cl) : Cl :=
  if fc_isAlive cl then cl else (sbind fc_reconnect (fun _ => fc_syncStatus) cl).2.

Definition runEvent (ev : event) s : FS :=
  match ev with
  | LearnVersion path v => set_client (fc_setFileVersion path v (client_ s)) s
  | ForgetVersion path => set_client (fc_deleteFileVersion path (client_ s)) s
  | RunPushHandler m data => if handlerSet s then pushHandler m data s else s
  | HealthTurn => if healthStop_ s then s else set_client (healthTurn (client_ s)) s
  end.

Definition runEvents (evs : list event) s : FS := fold_left (fun s ev => runEvent ev s) evs s.

(** The next batch of the schedule. *)
Definition deliver s : FS :=
  match env s with
  | [] => s
  | batch :: rest => runEvents batch (set_env rest s)
  end.

(** ** Locking and requests *)

Definition lock : M unit := fun s =>
  if cacheMutex_ s then (Hang, s) else (Done (Ok tt), set_mutex true (deliver s)).
Definition unlock : M unit := smodify (set_mutex false).

(** The scope of a [unique_lock] or [lock_guard]: it unlocks when the scope
    is left, by an exception too. *)
Definition scoped {A} (m : M A) : M A := fun s =>
  let '(r, s) := m s in
  match r with
  | Done _ => (r, set_mutex false s)
  | Hang => (Hang, s)
  end.
Definition guarded {A} (m : M A) : M A := scoped (do! lock in m).

(** A request to the server, made without the mutex. *)
Definition rpc {A} (m : SO Cl A) : M A := fun s =>
  let s := deliver s in
  let '(r, c) := m (client_ s) in (r, set_client c s).

(** [cache_[r]]: an entry is made when there is none. *)
Definition touch (r : string) : M unit := smodify (upd_entry r (fun e => e)).
Definition find_entry (r : string) : M (option CacheEntry) := sgets (fun s => cache_ s !! r).
(** [if (it != end && it->second.openCount == 0) cache_.erase(r)]. *)
Definition eraseUnused (r : string) : M unit := smodify (fun s =>
  match cache_ s !! r with
  | Some e => if openCount e =? 0 then erase r s else s
  | None => s
  end).

Definition throw {A} (e : string) : M A := fun s => (Done (Throw e), s).

(** ** Paths and directories *)

Definition rel (path : string) : string :=
  match path with
  | String c rest => if decide (c = slash) then rest else path
  | EmptyString => ""
  end.

Definition localVersionMap s : gmap string Z := fc_getVersionMap (client_ s).

(** The name a created directory contributes to the listing of [dirRel]. *)
Definition childOfDir (dirRel prefix d : string) : option string :=
  if decide (d = dirRel) then None
  else if negb (bool_decide (prefix = "")) && negb (starts_with prefix d) then None
  else
    let rest := drop_str (String.length prefix) d in
    match find_slash rest with
    | None => Some (rest +:+ "/")
    | Some _ => None
    end.

(** The name a known file contributes. *)
Definition childOfFile (prefix filePath : string) : option string :=
  if negb (bool_decide (prefix = "")) && negb (starts_with prefix filePath) then None
  else
    let rest := drop_str (String.length prefix) filePath in
    match find_slash rest with
    | None => Some rest
    | Some i => Some (String.substring 0 (i + 1) rest)
    end.

Definition listChildren (dirRel : string) s : gset string :=
  let prefix := if decide (dirRel = "") then "" else dirRel +:+ "/" in
  list_to_set (omap (childOfDir dirRel prefix) (set_elems (createdDirs_ s)))
  ∪ list_to_set (omap (childOfFile prefix) (map_keys (localVersionMap s))).

Definition isKnownDir (dirRel : string) s : bool :=
  bool_decide (dirRel ∈ createdDirs_ s)
  || existsb (fun filePath =>
       (String.length (dirRel +:+ "/") <? String.length filePath)%nat
       && starts_with (dirRel +:+ "/") filePath) (map_keys (localVersionMap s)).

Definition op_getattr (path : string) : M (Z * Stat) :=
  if decide (path = "/") then sret (0, dirStat)
  else
    let r := rel path in
    let! it := guarded (find_entry r) in
    match it with
    | Some e => sret (0, fileStat (Z.of_nat (length (e_data e))))
    | None =>
        let! known := sgets (isKnownDir r) in
        if (known : bool) then sret (0, dirStat)
        else
          let! localVersion := sgets (fun s => fc_getFileVersion r (client_ s)) in
          if localVersion <? 0 then sret (- ENOENT, emptyStat) else sret (0, fileStat 0)
    end.

(** The name of the entry that [filler] is given. *)
Definition dirent (child : string) : string :=
  if bool_decide (last (bytes_of_string child) = Some slash)
  then String.substring 0 (String.length child - 1) child
  else child.

(** The names given to [filler], in order. *)
Definition op_readdir (path : string) : M (Z * list string) :=
  let dirRel := rel path in
  let! known := sgets (isKnownDir dirRel) in
  if negb (bool_decide (dirRel = "")) && negb known then sret (- ENOENT, [])
  else
    let! children := sgets (listChildren dirRel) in
    sret (0, "." :: ".." :: map dirent (set_elems children)).

Definition op_mkdir (path : string) : M Z :=
  let r := rel path in
  if decide (r = "") then sret 0
  else
    let! v := sgets (fun s => fc_getFileVersion r (client_ s)) in
    if 0 <=? v then sret (- EEXIST)
    else
      let! parentOk := sgets (fun s =>
        match rfind_slash r with
        | Some i => isKnownDir (String.substring 0 i r) s
        | None => true
        end) in
      if negb parentOk then sret (- ENOENT)
      else
        do! smodify (fun s => set_dirs ({[ r ]} ∪ createdDirs_ s) s) in
        sret 0.

Definition op_rmdir (path : string) : M Z :=
  let dirRel := rel path in
  let! known := sgets (isKnownDir dirRel) in
  if negb known then sret (- ENOENT)
  else
    let! children := sgets (listChildren dirRel) in
    if decide (children = ∅) then sret 0 else sret (- ENOTEMPTY).

(** ** Opening *)

(** Called with the mutex held, which is dropped around the request. *)
Definition fetchIntoCache (relPath : string) : M Z :=
  do! unlock in
  let! r := rpc (fc_readFile relPath) in
  do! lock in
  let (ack, data) := (r : Message * list byte) in
  if negb (isAck ack) then sret (- EIO)
  else
    do! smodify (upd_entry relPath (fun e =>
          set_dirty false (set_version (i32 (getUint32 ack FILE_VERSION 0)) (set_data data e)))) in
    sret 0.

(** The server lock, taken by the first writable open; 0 to go on. *)
Definition acquireForOpen (r : string) (writable : bool) : M Z :=
  do! touch r in
  let! it := find_entry r in
  if writable && (lockCount (default newEntry it) =? 0) then
    do! unlock in
    let! ack := rpc (fc_acquireLock r) in
    do! lock in
    if negb (isAck ack) then do! eraseUnused r in sret (- EACCES)
    else
      let! it := find_entry r in
      match it with
      | None => sret (- EIO)
      | Some _ => sret 0
      end
  else sret 0.

(** The contents, fetched when no handle has the file open; 0 to go on. *)
Definition fetchForOpen (r : string) (writable : bool) : M Z :=
  do! touch r in
  let! it := find_entry r in
  if openCount (default newEntry it) =? 0 then
    let! rc := fetchIntoCache r in
    if negb (rc =? 0) then
      do! (if writable then do! unlock in do! rpc (fc_releaseLock r) in lock else sret tt) in
      do! eraseUnused r in
      sret rc
    else sret 0
  else sret 0.

(** [new FileHandle{r, writable}] and its address. *)
Definition newHandle (r : string) (writable : bool) : M Z := fun s =>
  (Done (Ok (nextHandle s)),
   set_handles (<[nextHandle s := mkHandle r writable]> (handles s)) (nextHandle s + 1) s).

Definition op_open (path : string) (fi : FileInfo) : M (Z * FileInfo) :=
  let r := rel path in
  if decide (r = "") then sret (- EISDIR, fi)
  else
    let writable := negb (Z.land (fi_flags fi) O_ACCMODE =? O_RDONLY) in
    scoped (
      do! lock in
      let! rc := acquireForOpen r writable in
      if negb (rc =? 0) then sret (rc, fi)
      else
        let! rc := fetchForOpen r writable in
        if negb (rc =? 0) then sret (rc, fi)
        else
          do! smodify (upd_entry r (fun e =>
                if negb (Z.land (fi_flags fi) O_TRUNC =? 0) && writable
                then set_dirty true (set_data [] e) else e)) in
          do! smodify (upd_entry r (fun e =>
                set_openCount (openCount e + 1)
                  (if writable then set_lockCount (lockCount e + 1) e else e))) in
          let! fh := newHandle r writable in
          sret (0, set_fh fh fi)).

Definition op_create (path : string) (fi : FileInfo) : M (Z * FileInfo) :=
  let r := rel path in
  if decide (r = "") then sret (- EINVAL, fi)
  else
    (* inside the scope of the guard: [op_open] runs with the mutex held *)
    let! opened := guarded (
      let! it := find_entry r in
      match it with
      | Some _ => let! res := op_open path fi in sret (Some res)
      | None => sret None
      end) in
    match opened with
    | Some res => sret res
    | None =>
        let! v := sgets (fun s => fc_getFileVersion r (client_ s)) in
        if 0 <=? v then op_open path fi
        else
          let! cAck := rpc (fc_createFile r [] 0) in
          if negb (isAck cAck) then sret (- EIO, fi)
          else
            let! lAck := rpc (fc_acquireLock r) in
            if negb (isAck lAck) then do! rpc (fc_deleteFile r) in sret (- EACCES, fi)
            else
              do! guarded (smodify (upd_entry r (fun _ =>
                    mkEntry [] false 1 1 (i32 (getUint32 cAck FILE_VERSION 0))))) in
              let! fh := newHandle r true in
              sret (0, set_fh fh fi)
    end.

(** ** Contents *)

(** [memcpy] out of and into the vector; outside of its bounds the behaviour
    is undefined. *)
Definition copyOut (data : list byte) (offset n : Z) : option (list byte) :=
  if (0 <=? offset) && (offset + n <=? Z.of_nat (length data))
  then Some (take (Z.to_nat n) (drop (Z.to_nat offset) data)) else None.
Definition copyIn (data buf : list byte) (offset : Z) : option (list byte) :=
  if (0 <=? offset) && (offset + Z.of_nat (length buf) <=? Z.of_nat (length data))
  then Some (take (Z.to_nat offset) data ++ buf
             ++ drop (Z.to_nat offset + length buf) data)
  else None.

(** [data.resize(n, 0)]. *)
Definition resizeTo (n : Z) (data : list byte) : result (list byte) :=
  if PTRDIFF_MAX <? n then Throw "vector::_M_fill_insert"
  else Ok (take (Z.to_nat n) data
           ++ replicate (Z.to_nat n - length data) (byte_of_Z 0)).

(** The first half of [op_read]: a missing entry, or an empty buffer, is
    fetched; 0 to go on. *)
Definition fetchForRead (r : string) : M Z :=
  let! it := find_entry r in
  match it with
  | Some e => if decide (e_data e = []) then do! touch r in fetchIntoCache r else sret 0
  | None => do! touch r in fetchIntoCache r
  end.

(** The second half: the copy out of the buffer. *)
Definition copyFromEntry (r : string) (size offset : Z) : M (Z * list byte) :=
  let! it := find_entry r in
  match it with
  | None => sret (- EIO, [])
  | Some e =>
      let data := e_data e in
      if Z.of_nat (length data) <=? offset then sret (0, [])
      else
        let avail := u64 (Z.of_nat (length data) - u64 offset) in
        let toCopy := Z.min size avail in
        match copyOut data offset toCopy with
        | Some bs => sret (i32 toCopy, bs)
        | None => throw "undefined: read outside of the buffer"
        end
  end.

Definition op_read (path : string) (size offset : Z) : M (Z * list byte) :=
  let r := rel path in
  scoped (
    do! lock in
    let! rc := fetchForRead r in
    if negb (rc =? 0) then sret (rc, []) else copyFromEntry r size offset).

Definition op_write (path : string) (buf : list byte) (offset : Z) : M Z :=
  let r := rel path in
  let size := Z.of_nat (length buf) in
  guarded (
    let! it := find_entry r in
    match it with
    | None => sret (- EBADF)
    | Some e =>
        let newEnd := u64 (u64 offset + size) in
        let resized := if Z.of_nat (length (e_data e)) <? newEnd
                       then resizeTo newEnd (e_data e) else Ok (e_data e) in
        match resized with
        | Throw err => throw err
        | Ok data =>
            match copyIn data buf offset with
            | None => throw "undefined: write outside of the buffer"
            | Some data =>
                do! smodify (upd_entry r (fun e => set_dirty true (set_data data e))) in
                sret (i32 size)
            end
        end
    end).

Definition op_truncate (path : string) (size : Z) : M Z :=
  let r := rel path in
  guarded (
    let! it := find_entry r in
    match it with
    | None => sret (- ENOENT)
    | Some e =>
        match resizeTo (u64 size) (e_data e) with
        | Throw err => throw err
        | Ok data =>
            do! smodify (upd_entry r (fun e => set_dirty true (set_data data e))) in
            sret 0
        end
    end).

(** ** Closing *)

(** The buffer is sent to the server if it is dirty.  Called with the mutex
    held; it is free afterwards. *)
Definition flush (r : string) (e : CacheEntry) : M unit :=
  if dirty e then
    do! unlock in
    let! ack := rpc (fc_updateFile r (e_data e) (e_version e)) in
    do! lock in
    let! it2 := find_entry r in
    do! (match it2 with
         | None => sret tt
         | Some _ =>
             if isAck ack then
               let v := getUint32 ack FILE_VERSION 0 in
               smodify (upd_entry r (fun e =>
                 set_dirty false (if v =? 0 then e else set_version (i32 v) e)))
             else smodify (upd_entry r (set_dirty false))
         end) in
    unlock
  else unlock.

Definition op_release (fi : FileInfo) : M (Z * FileInfo) :=
  let fi' := set_fh 0 fi in
  if fi_fh fi =? 0 then sret (0, fi')
  else
    let! h := sgets (fun s => handles s !! fi_fh fi) in
    match h with
    | None => throw "undefined: no such handle"
    | Some fh =>
        let r := h_path fh in
        let writable := h_writable fh in
        do! smodify (fun s => set_handles (delete (fi_fh fi) (handles s)) (nextHandle s) s) in
        scoped (
          do! lock in
          let! it := find_entry r in
          match it with
          | None =>
              do! (if writable then do! unlock in do! rpc (fc_releaseLock r) in lock else sret tt) in
              sret (0, fi')
          | Some _ =>
              do! smodify (upd_entry r (fun e =>
                    if writable then set_lockCount (Z.max 0 (lockCount e - 1)) e else e)) in
              do! smodify (upd_entry r (fun e => set_openCount (Z.max 0 (openCount e - 1)) e)) in
              let! it := find_entry r in
              let entry := default newEntry it in
              do! (if writable && (lockCount entry =? 0) then
                     do! flush r entry in
                     do! rpc (fc_releaseLock r) in
                     lock
                   else sret tt) in
              do! eraseUnused r in
              sret (0, fi')
          end)
    end.

Definition op_unlink (path : string) : M Z :=
  let r := rel path in
  let! ack := rpc (fc_deleteFile r) in
  if negb (isAck ack) then sret (- EIO)
  else do! guarded (smodify (erase r)) in sret 0.

(** ** The mount *)

(** What [fuse_loop] asks for, one constructor per entry of [ops_]. *)
Inductive fuse_request : Type :=
| Getattr (path : string)
| Readdir (path : string)
| Mkdir (path : string)
| Rmdir (path : string)
| Open (path : string) (fi : FileInfo)
| Create (path : string) (fi : FileInfo)
| Read (path : string) (size offset : Z)
| Write (path : string) (buf : list byte) (offset : Z)
| Release (fi : FileInfo)
| Unlink (path : string)
| Truncate (path : string) (size : Z).

(** What the caller gets: the result code and the out-parameters. *)
Inductive fuse_reply : Type :=
| ReplyStat (rc : Z) (st : Stat)
| ReplyNames (rc : Z) (names : list string)
| ReplyInfo (rc : Z) (fi : FileInfo)
| ReplyBytes (rc : Z) (bs : list byte)
| ReplyCode (rc : Z).

Definition ops_ (rq : fuse_request) : M fuse_reply :=
  match rq with
  | Getattr p => let! r := op_getattr p in sret (ReplyStat r.1 r.2)
  | Readdir p => let! r := op_readdir p in sret (ReplyNames r.1 r.2)
  | Mkdir p => let! r := op_mkdir p in sret (ReplyCode r)
  | Rmdir p => let! r := op_rmdir p in sret (ReplyCode r)
  | Open p fi => let! r := op_open p fi in sret (ReplyInfo r.1 r.2)
  | Create p fi => let! r := op_create p fi in sret (ReplyInfo r.1 r.2)
  | Read p sz off => let! r := op_read p sz off in sret (ReplyBytes r.1 r.2)
  | Write p buf off => let! r := op_write p buf off in sret (ReplyCode r)
  | Release fi => let! r := op_release fi in sret (ReplyInfo r.1 r.2)
  | Unlink p => let! r := op_unlink p in sret (ReplyCode r)
  | Truncate p sz => let! r := op_truncate p sz in sret (ReplyCode r)
  end.

Fixpoint serve (rqs : list fuse_request) : M (list fuse_reply) :=
  match rqs with
  | [] => sret []
  | rq :: rqs => let! a := ops_ rq in let! l := serve rqs in sret (a :: l)
  end.

(** [run]: [newOk] and [mountOk] are what [fuse_new] and [fuse_mount] answer,
    [rqs] what [fuse_loop] asks for and [rc] what it returns. *)
Definition run (newOk mountOk : bool) (rqs : list fuse_request) (rc : Z) : M Z :=
  do! smodify (set_fuse newOk) in
  if negb newOk then sret (-1)
  else if negb mountOk then do! smodify (set_fuse false) in sret (-1)
  else
    do! smodify (set_healthStop false) in
    do! serve rqs in
    do! smodify (set_healthStop true) in
    do! smodify (set_fuse false) in
    sret rc.

(** The destructor. *)
Definition destroy s : FS := set_fuse false (set_healthStop true (set_handler false s)).
End squidfs.

(** The push handler changes the cache and nothing else of the state, but for
    the record of invalidated paths. *)
Lemma pushHandler_frame {Cl} m d (s : SquidFS Cl) :
  let s' := pushHandler m d s in
  client_ s' = client_ s /\ env s' = env s /\ cacheMutex_ s' = cacheMutex_ s
  /\ handles s' = handles s /\ nextHandle s' = nextHandle s.
Proof.
  unfold pushHandler, invalidatePath, upd_entry, erase.
  destruct (opcode m), (decide (getString m FILE_PATH "" = "")), (fuse_ s) eqn:E; simpl; rewrite ?E; done.
Qed.
