(* ===== verification/FsClients.v ===== *)
(** * Clients of the file system

    The instances of [FsClient]: [Client] over a channel; [Logged], which
    records next to any client which locks were granted and not given back and
    which updates were sent; and [Mem], an in-memory server.  [FileServer] is
    what the file system may rely on of the server behind a client. *)

From S2P Require Import Prelude Text Wire FileManager FileTransfer Protocol StateStore Session ServerState LockManager Replication ClusterConfig Watcher Standby Server Peer Client SquidFS.

(** ** The client of the program *)

Section client.
Context {C : Type} `{NetworkChannel C}.

(** [Peer::reconnect] on the client. *)
Definition reconnectClient (dial : nat -> string -> Z -> option C) : SO (Client C) unit := fun cl =>
  let '(r, pe) := reconnect dial (peer cl) in (r, set_peer pe cl).

Definition getVersionMap (cl : Client C) : gmap string Z := versions cl.

Definition Client_fs (dial : nat -> string -> Z -> option C) : FsClient (Client C) := {|
  fc_isAlive cl := peerAlive (peer cl);
  fc_reconnect := reconnectClient dial;
  fc_syncStatus := Client.syncStatus;
  fc_createFile path data v := Client.createFile dial path data v;
  fc_readFile path := Client.readFile dial path;
  fc_updateFile path data v := Client.updateFile dial path data v;
  fc_deleteFile path := Client.deleteFile dial path;
  fc_acquireLock path := Client.acquireLock dial path;
  fc_releaseLock path := Client.releaseLock dial path;
  fc_getFileVersion path cl := Client.getFileVersion path cl;
  fc_getVersionMap := getVersionMap;
  fc_setFileVersion path v cl := Client.setFileVersion path v cl;
  fc_deleteFileVersion path cl := Client.deleteFileVersion path cl |}.
End client.

(** [handlePush] as events: what it does to the version map and when it calls
    the push handler. *)
Definition pushEvents (message : Message) (data : list byte) : list event :=
  let path := getString message FILE_PATH "" in
  match opcode message with
  | PUSH_CREATE_FILE | PUSH_UPDATE_FILE =>
      (if decide (path = "") then []
       else [LearnVersion path (i32 (getUint32 message FILE_VERSION 0))])
      ++ [RunPushHandler message data]
  | PUSH_DELETE_FILE =>
      RunPushHandler message [] :: (if decide (path = "") then [] else [ForgetVersion path])
  | RELEASE_LOCK | NACK_STALE_EPOCH => [RunPushHandler message []]
  | _ => []
  end.

Definition handlerCalls (evs : list event) : list (Message * list byte) :=
  omap (fun ev => match ev with RunPushHandler m d => Some (m, d) | _ => None end) evs.

(** What the events do to the version map of a client. *)
Definition versionsAfter (evs : list event) (vm : gmap string Z) : gmap string Z :=
  fold_left (fun vm ev => match ev with
                          | LearnVersion path v => <[path := v]> vm
                          | ForgetVersion path => delete path vm
                          | _ => vm
                          end) evs vm.

Section pushes.
Context {C : Type} `{NetworkChannel C}.

Lemma onWorker_versions {A} (fn : ConnectionSession C -> result A * ConnectionSession C) cl res cl1 :
  onWorker fn cl = (res, cl1) -> versions cl1 = versions cl /\ notified cl1 = notified cl.
Proof.
  unfold onWorker. destruct (session_ (peer cl)) as [c|]; [|by intros [= <- <-]].
  destruct (fn c). by intros [= <- <-].
Qed.

(** A push that the client handles is the events above: the same version map,
    the same calls of the push handler. *)
Theorem handlePush_is_events (cl : Client C) m cl' :
  handlePush m cl = (Done (Ok tt), cl') ->
  exists data, versions cl' = versionsAfter (pushEvents m data) (versions cl)
    /\ notified cl' = notified cl ++ handlerCalls (pushEvents m data).
Proof.
  unfold handlePush, pushEvents. set (path := getString m FILE_PATH ""). unfold sbind.
  destruct (opcode m).
  all: try (destruct (onWorker _ cl) as [[[a|e]|] cl1] eqn:E; [|done|done];
            destruct (onWorker_versions _ _ _ _ E) as [Hv Hn]).
  all: try by (intros [= <-]; exists []; rewrite ?app_nil_r).
  all: try by (intros [= <-]; exists []; rewrite <- Hv, <- Hn).
  all: try by (case_decide; intros [= <-];
    exists match a with Some (_, data) => data | None => [] end; simpl; rewrite ?Hv, ?Hn).
  simpl. case_decide; intros [= <-]; by exists [].
Qed.
End pushes.

(** Such events reach the client of the file system as that change of its
    version map. *)
Lemma runEvents_versions {C} `{NetworkChannel C} dial evs (s : SquidFS (Client C)) :
  Forall (fun ev => ev <> HealthTurn) evs ->
  versions (client_ (runEvents (H := Client_fs dial) evs s)) = versionsAfter evs (versions (client_ s)).
Proof.
  unfold runEvents, versionsAfter. intros Hf. revert s.
  induction Hf as [|ev evs Hev _ IH]; intros s; [done|]. simpl. rewrite IH. f_equal.
  destruct ev; simpl; [done|done| |done]. destruct (handlerSet s); [|done].
  by destruct (pushHandler_frame m data s) as (-> & _).
Qed.

(** ** A client that keeps a record *)

(** The requests the record is about. *)
Inductive sent_request : Type :=
| SentUpdate (path : string) (data : list byte) (version : Z) (acked : bool)
| SentRelease (path : string).

Record Logged (Cl : Type) : Type := mkLogged {
  inner : Cl;
  held : gset string;
  sent : list sent_request }.
Arguments mkLogged {Cl}.
Arguments inner {Cl}.
Arguments held {Cl}.
Arguments sent {Cl}.

Section logged.
Context {Cl : Type} `{FsClient Cl}.

Definition logging {A} (m : SO Cl A) (note : outcome A -> Logged Cl -> Logged Cl) : SO (Logged Cl) A :=
  fun l => let '(r, c) := m (inner l) in (r, note r (mkLogged c (held l) (sent l))).

Definition acked (r : outcome Message) : bool :=
  match r with
  | Done (Ok m) => isAck m
  | _ => false
  end.

#[export] Instance Logged_fs : FsClient (Logged Cl) := {|
  fc_isAlive l := fc_isAlive (inner l);
  fc_reconnect := logging fc_reconnect (fun _ l => l);
  fc_syncStatus := logging fc_syncStatus (fun _ l => l);
  fc_createFile path data v := logging (fc_createFile path data v) (fun _ l => l);
  fc_readFile path := logging (fc_readFile path) (fun _ l => l);
  fc_updateFile path data v := logging (fc_updateFile path data v) (fun r l =>
    mkLogged (inner l) (held l) (sent l ++ [SentUpdate path data v (acked r)]));
  fc_deleteFile path := logging (fc_deleteFile path) (fun _ l => l);
  fc_acquireLock path := logging (fc_acquireLock path) (fun r l =>
    if acked r then mkLogged (inner l) ({[ path ]} ∪ held l) (sent l) else l);
  fc_releaseLock path := logging (fc_releaseLock path) (fun _ l =>
    mkLogged (inner l) (held l ∖ {[ path ]}) (sent l ++ [SentRelease path]));
  fc_getFileVersion path l := fc_getFileVersion path (inner l);
  fc_getVersionMap l := fc_getVersionMap (inner l);
  fc_setFileVersion path v l := mkLogged (fc_setFileVersion path v (inner l)) (held l) (sent l);
  fc_deleteFileVersion path l := mkLogged (fc_deleteFileVersion path (inner l)) (held l) (sent l) |}.
End logged.

(** ** An in-memory server *)

(** [m_answers] are the answers still to come, an acknowledgement when there
    are no more; a request that is refused changes nothing. *)
Record Mem : Type := mkMem {
  m_files : gmap string (Z * list byte);
  m_versions : gmap string Z;
  m_answers : list bool }.

Definition mem_request {A} (ok : Mem -> A * Mem) (refuse : A) : SO Mem A := fun c =>
  match m_answers c with
  | false :: rest => (Done (Ok refuse), mkMem (m_files c) (m_versions c) rest)
  | answers => let '(a, c) := ok (mkMem (m_files c) (m_versions c) (tail answers)) in (Done (Ok a), c)
  end.

Definition mem_store (path : string) (data : list byte) (c : Mem) : Message * Mem :=
  let v := match m_files c !! path with Some (v, _) => i32 (v + 1) | None => 0 end in
  (node_ack v, mkMem (<[path := (v, data)]> (m_files c)) (<[path := v]> (m_versions c)) (m_answers c)).

#[export] Instance Mem_fs : FsClient Mem := {|
  fc_isAlive c := true;
  fc_reconnect := sret tt;
  fc_syncStatus := sret makeAck;
  fc_createFile path data v := mem_request (mem_store path data) makeNack;
  fc_readFile path := mem_request (fun c =>
    match m_files c !! path with
    | Some (v, data) => ((node_ack v, data), c)
    | None => ((makeNack, []), c)
    end) (makeNack, []);
  fc_updateFile path data v := mem_request (mem_store path data) makeNack;
  fc_deleteFile path := mem_request (fun c =>
    (makeAck, mkMem (delete path (m_files c)) (delete path (m_versions c)) (m_answers c))) makeNack;
  fc_acquireLock path := mem_request (fun c => (makeAck, c)) makeNack;
  fc_releaseLock path := mem_request (fun c => (makeAck, c)) makeNack;
  fc_getFileVersion path c := default (-1) (m_versions c !! path);
  fc_getVersionMap c := m_versions c;
  fc_setFileVersion path v c := mkMem (m_files c) (<[path := v]> (m_versions c)) (m_answers c);
  fc_deleteFileVersion path c := mkMem (m_files c) (delete path (m_versions c)) (m_answers c) |}.

(** ** What the file system relies on of the server

    [takes_update p d v c]: the server behind [c] can be sent an update of [p]
    with the contents [d] at the version [v]; [keeps_file p d c]: it has [p]
    with the contents [d] and can be asked for it.  [Mounted] proves these laws
    of the program itself: the client, the server and its datanodes. *)
Class FileServer (Cl : Type) `{FsClient Cl} : Type := {
  takes_update : string -> list byte -> Z -> Cl -> Prop;
  keeps_file : string -> list byte -> Cl -> Prop;
  sv_update p d v c : takes_update p d v c ->
    exists m c', fc_updateFile p d v c = (Done (Ok m), c') /\ isAck m = true /\ keeps_file p d c';
  sv_read p d c : keeps_file p d c ->
    exists m c', fc_readFile p c = (Done (Ok (m, d)), c') /\ isAck m = true /\ keeps_file p d c';
  sv_acquire p d c : keeps_file p d c ->
    exists m c', fc_acquireLock p c = (Done (Ok m), c') /\ keeps_file p d c';
  sv_release p d c : keeps_file p d c ->
    exists m c', fc_releaseLock p c = (Done (Ok m), c') /\ keeps_file p d c';
  sv_learn p d q v c : keeps_file p d c -> keeps_file p d (fc_setFileVersion q v c);
  sv_forget p d q c : keeps_file p d c -> keeps_file p d (fc_deleteFileVersion q c);
  sv_health p d c : keeps_file p d c -> keeps_file p d (healthTurn c);
  su_learn p d v q w c : takes_update p d v c -> takes_update p d v (fc_setFileVersion q w c);
  su_forget p d v q c : takes_update p d v c -> takes_update p d v (fc_deleteFileVersion q c);
  su_health p d v c : takes_update p d v c -> takes_update p d v (healthTurn c) }.
