(* ===== verification/FsCounts.v ===== *)
(** * Reference counts and locks of the file system

    The entry of a path counts the handles that have it open.  A push that
    deletes the path drops the counts while the handles live on, so what holds
    in general is a bound, and what holds for a path that is not deleted under
    its handles is equality; in that case the server's lock is held as long as
    there is a handle for writing.  Both are instances of one invariant, which
    every operation preserves under every schedule. *)

From S2P Require Import Prelude Text Wire FileManager FileTransfer Protocol StateStore Session ServerState LockManager Replication ClusterConfig Watcher Standby Server Peer Client SquidFS FsClients.

(** ** Triples *)

(** From a state with [P], [m] returns [a] in a state with [Q a] or throws in a
    state with [E], or does not return. *)
Definition triple {S A} (P : S -> Prop) (m : SO S A) (Q : A -> S -> Prop) (E : S -> Prop) : Prop :=
  forall s, P s ->
    match m s with
    | (Done (Ok a), s') => Q a s'
    | (Done (Throw _), s') => E s'
    | (Hang, _) => True
    end.

Section triples.
Context {S : Type}.
Implicit Types P E : S -> Prop.

Lemma triple_ret {A} P (a : A) (Q : A -> S -> Prop) E :
  (forall s, P s -> Q a s) -> triple P (sret a) Q E.
Proof. intros HQ s Hs. by apply HQ. Qed.

Lemma triple_stay {A} P (a : A) E : triple P (sret a) (fun _ => P) E.
Proof. by apply triple_ret. Qed.

Lemma triple_bind {A B} P (m : SO S A) (R : A -> S -> Prop) (k : A -> SO S B) Q E :
  triple P m R E -> (forall a, triple (R a) (k a) Q E) -> triple P (sbind m k) Q E.
Proof.
  intros Hm Hk s Hs. specialize (Hm s Hs). unfold sbind.
  destruct (m s) as [[[a|e]|] s1]; [by apply Hk|done|done].
Qed.

Lemma triple_conseq {A} P P' (m : SO S A) (Q Q' : A -> S -> Prop) E E' :
  triple P' m Q' E' -> (forall s, P s -> P' s) -> (forall a s, Q' a s -> Q a s) ->
  (forall s, E' s -> E s) -> triple P m Q E.
Proof.
  intros Hm HP HQ HE s Hs. specialize (Hm s (HP s Hs)).
  destruct (m s) as [[[a|e]|] s1]; auto.
Qed.

Lemma triple_pre {A} P P' (m : SO S A) (Q : A -> S -> Prop) E :
  triple P' m Q E -> (forall s, P s -> P' s) -> triple P m Q E.
Proof. intros Hm HP s Hs. by apply Hm, HP. Qed.

Lemma triple_modify P f (Q : unit -> S -> Prop) E :
  (forall s, P s -> Q tt (f s)) -> triple P (smodify f) Q E.
Proof. intros HQ s Hs. by apply HQ. Qed.

(** The value read is known when the rest runs. *)
Lemma triple_gets {A B} P (f : S -> A) (k : A -> SO S B) Q E :
  (forall a, triple (fun s => P s /\ f s = a) (k a) Q E) -> triple P (sbind (sgets f) k) Q E.
Proof. intros Hk s Hs. rewrite sbind_gets. by apply Hk. Qed.

Lemma triple_any {A} P (m : SO S A) : triple P m (fun _ _ => True) (fun _ => True).
Proof. intros s _. by destruct (m s) as [[[a|e]|] s1]. Qed.

Lemma triple_pure {A} P (X : Prop) (m : SO S A) (Q : A -> S -> Prop) E :
  (X -> triple P m Q E) -> triple (fun s => P s /\ X) m Q E.
Proof. intros Hm s [Hs HX]. by apply Hm. Qed.
End triples.

(** ** Counting handles *)

Definition opens (r : string) (hs : list FileHandle) : Z :=
  Z.of_nat (length (filter (fun h => h_path h = r) hs)).
Definition writers (r : string) (hs : list FileHandle) : Z :=
  Z.of_nat (length (filter (fun h => h_path h = r /\ h_writable h = true) hs)).

Lemma writers_le_opens r hs : 0 <= writers r hs <= opens r hs.
Proof.
  unfold writers, opens. induction hs as [|h hs IH]; [done|].
  rewrite !filter_cons. repeat case_decide; simpl; naive_solver lia.
Qed.

Lemma opens_cons r h hs :
  opens r (h :: hs) = (if decide (h_path h = r) then 1 else 0) + opens r hs.
Proof. unfold opens. rewrite filter_cons. case_decide; simpl; lia. Qed.
Lemma writers_cons r h hs :
  writers r (h :: hs)
  = (if decide (h_path h = r /\ h_writable h = true) then 1 else 0) + writers r hs.
Proof. unfold writers. rewrite filter_cons. case_decide; simpl; lia. Qed.

#[export] Instance opens_perm r : Proper ((≡ₚ) ==> eq) (opens r).
Proof. intros hs hs' Hp. unfold opens. by rewrite Hp. Qed.
#[export] Instance writers_perm r : Proper ((≡ₚ) ==> eq) (writers r).
Proof. intros hs hs' Hp. unfold writers. by rewrite Hp. Qed.

Section counts.
Context {Cl : Type} `{FsClient Cl}.
Local Abbreviation FS := (SquidFS Cl).
Implicit Types s : FS.

Definition live s : list FileHandle := (map_to_list (handles s)).*2.
Definition lockOf (r : string) s : Z := default 0 (lockCount <$> cache_ s !! r).
Definition openOf (r : string) s : Z := default 0 (openCount <$> cache_ s !! r).

Lemma live_insert s a h n :
  handles s !! a = None -> live (set_handles (<[a := h]> (handles s)) n s) ≡ₚ h :: live s.
Proof. intros Ha. unfold live. simpl. by rewrite map_to_list_insert. Qed.
Lemma live_delete s a h n :
  handles s !! a = Some h -> h :: live (set_handles (delete a (handles s)) n s) ≡ₚ live s.
Proof. intros Ha. unfold live. simpl. by rewrite <- (map_to_list_delete (handles s) a h Ha). Qed.

(** A push that removes the entry of [r]. *)
Definition deletes (r : string) (ev : event) : bool :=
  match ev with
  | RunPushHandler m _ =>
      match opcode m with
      | PUSH_DELETE_FILE => bool_decide (getString m FILE_PATH "" = r)
      | _ => false
      end
  | _ => false
  end.
Definition keeps (r : string) (schedule : list (list event)) : bool :=
  forallb (forallb (fun ev => negb (deletes r ev))) schedule.
Definition unlinks (r : string) (rq : fuse_request) : bool :=
  match rq with
  | Unlink p => bool_decide (rel p = r)
  | _ => false
  end.
End counts.

(** ** The invariant *)

(** [ok l o w n] relates the counts [l], [o] of the entry to the number [w] of
    handles for writing and [n] of all handles; [locked] is what is known of
    the client while there are handles for writing.  [lossy] is whether the
    relation survives the loss of the entry. *)
Class CountLaws {Cl : Type} `{FsClient Cl} (r : string) (ok : Z -> Z -> Z -> Z -> Prop)
    (locked : Cl -> Prop) (lossy : bool) : Prop := {
  ok_open l o w n : ok l o w n -> ok (l + 1) (o + 1) (w + 1) (n + 1);
  ok_open_ro l o w n : ok l o w n -> ok l (o + 1) w (n + 1);
  ok_create w n : ok 0 0 w n -> ok 1 1 (w + 1) (n + 1);
  ok_close l o w n : 0 <= w -> 0 <= n -> ok l o (w + 1) (n + 1) ->
    ok (Z.max 0 (l - 1)) (Z.max 0 (o - 1)) w n;
  ok_close_ro l o w n : 0 <= w -> 0 <= n -> ok l o w (n + 1) -> ok l (Z.max 0 (o - 1)) w n;
  ok_unused l w n : 0 <= w <= n -> ok l 0 w n -> ok 0 0 w n;
  ok_lossy l o w n : lossy = true -> ok l o w n -> ok 0 0 w n;
  ok_lock_free l o w n : 0 <= w <= n -> ok l o w n -> l = 0 \/ o = 0 ->
    (forall c, locked c) \/ w = 0;
  ok_lock_taken l o w n : 0 <= w <= n -> ok l o w n -> l <> 0 -> (forall c, locked c) \/ 0 < w;
  locked_sync c : locked c -> locked (healthTurn c);
  locked_learn c p v : locked c -> locked (fc_setFileVersion p v c);
  locked_forget c p : locked c -> locked (fc_deleteFileVersion p c);
  locked_create c p d v : locked c -> locked (fc_createFile p d v c).2;
  locked_read c p : locked c -> locked (fc_readFile p c).2;
  locked_update c p d v : locked c -> locked (fc_updateFile p d v c).2;
  locked_delete c p : locked c -> locked (fc_deleteFile p c).2;
  locked_acquire c p : locked c -> locked (fc_acquireLock p c).2;
  locked_release c p : p <> r -> locked c -> locked (fc_releaseLock p c).2;
  locked_acquired c m c' : fc_acquireLock r c = (Done (Ok m), c') -> isAck m = true -> locked c' }.

Section invariant.
Context {Cl : Type} `{FsClient Cl} {r : string} {ok : Z -> Z -> Z -> Z -> Prop}
        {locked : Cl -> Prop} {lossy : bool} `{!CountLaws r ok locked lossy}.
Local Abbreviation FS := (SquidFS Cl).
Implicit Types s : FS.

Record Inv (ex : list FileHandle) s : Prop := {
  inv_env : lossy = true \/ keeps r (env s) = true;
  inv_fresh : 0 < nextHandle s /\ forall a, nextHandle s <= a -> handles s !! a = None;
  inv_ok : ok (lockOf r s) (openOf r s) (writers r (ex ++ live s)) (opens r (ex ++ live s));
  inv_locked : 0 < writers r (ex ++ live s) -> locked (client_ s) }.

(** What an update of the state keeps when it leaves the handles alone. *)
Lemma inv_transfer ex s s' :
  Inv ex s -> env s' = env s -> nextHandle s' = nextHandle s -> handles s' = handles s ->
  lockOf r s' = lockOf r s -> openOf r s' = openOf r s ->
  (locked (client_ s) -> locked (client_ s')) -> Inv ex s'.
Proof.
  intros [He Hf Ho Hl] E1 E2 E3 E4 E5 E6. split; rewrite ?E1, ?E2, ?E3, ?E4, ?E5; try done.
  - unfold live in *. by rewrite E3.
  - unfold live in *. rewrite E3. auto.
Qed.

Lemma counts_upd_ne p f s : p <> r ->
  lockOf r (upd_entry p f s) = lockOf r s /\ openOf r (upd_entry p f s) = openOf r s.
Proof. intros Hp. unfold lockOf, openOf. simpl. by rewrite lookup_insert_ne. Qed.

Lemma lockOf_upd p f s : lockOf p (upd_entry p f s) = lockCount (f (default newEntry (cache_ s !! p))).
Proof. unfold lockOf. simpl. by rewrite lookup_insert_eq. Qed.
Lemma openOf_upd p f s : openOf p (upd_entry p f s) = openCount (f (default newEntry (cache_ s !! p))).
Proof. unfold openOf. simpl. by rewrite lookup_insert_eq. Qed.
Lemma lockOf_default p s : lockCount (default newEntry (cache_ s !! p)) = lockOf p s.
Proof. unfold lockOf. by destruct (cache_ s !! p). Qed.
Lemma openOf_default p s : openCount (default newEntry (cache_ s !! p)) = openOf p s.
Proof. unfold openOf. by destruct (cache_ s !! p). Qed.

(** An update of an entry that does not touch its counts. *)
Definition count_free (f : CacheEntry -> CacheEntry) : Prop :=
  forall e, lockCount (f e) = lockCount e /\ openCount (f e) = openCount e.

Lemma counts_upd_free p f s : count_free f ->
  lockOf r (upd_entry p f s) = lockOf r s /\ openOf r (upd_entry p f s) = openOf r s.
Proof.
  intros Hf. destruct (decide (p = r)) as [->|Hp]; [|by apply counts_upd_ne].
  rewrite lockOf_upd, openOf_upd, <- (lockOf_default r), <- (openOf_default r).
  apply Hf.
Qed.

Lemma inv_upd_free ex p f s : count_free f -> Inv ex s -> Inv ex (upd_entry p f s).
Proof.
  intros Hf Hi. destruct (counts_upd_free p f s Hf) as [Hl Ho].
  by eapply (inv_transfer ex s).
Qed.

Lemma inv_upd_ne ex p f s : p <> r -> Inv ex s -> Inv ex (upd_entry p f s).
Proof.
  intros Hp Hi. destruct (counts_upd_ne p f s Hp) as [Hl Ho]. by eapply (inv_transfer ex s).
Qed.

Lemma counts_erase s : lockOf r (erase r s) = 0 /\ openOf r (erase r s) = 0.
Proof. unfold lockOf, openOf. simpl. by rewrite lookup_delete_eq. Qed.

Lemma inv_erase_ne ex p s : p <> r -> Inv ex s -> Inv ex (erase p s).
Proof.
  intros Hp Hi. eapply (inv_transfer ex s); try done; unfold lockOf, openOf; simpl;
    by rewrite lookup_delete_ne.
Qed.

Lemma inv_erase ex s :
  ok 0 0 (writers r (ex ++ live s)) (opens r (ex ++ live s)) -> Inv ex s -> Inv ex (erase r s).
Proof.
  intros Ho [He Hf _ Hl]. destruct (counts_erase s) as [E1 E2]. split; rewrite ?E1, ?E2; done.
Qed.

Lemma inv_eraseUnused ex p s : Inv ex s ->
  Inv ex (match cache_ s !! p with
          | Some e => if openCount e =? 0 then erase p s else s
          | None => s
          end).
Proof.
  intros Hi. destruct (cache_ s !! p) as [e|] eqn:He; [|done].
  destruct (openCount e =? 0) eqn:Hz; [|done]. apply Z.eqb_eq in Hz.
  destruct (decide (p = r)) as [->|Hp]; [|by apply inv_erase_ne].
  apply inv_erase; [|done]. destruct Hi as [_ _ Ho _].
  unfold openOf in Ho. rewrite He in Ho. simpl in Ho. rewrite Hz in Ho.
  eapply ok_unused; [apply writers_le_opens|exact Ho].
Qed.

(** *** Events *)

Lemma inv_client ex c s : (locked (client_ s) -> locked c) -> Inv ex s -> Inv ex (set_client c s).
Proof. intros Hc Hi. by eapply (inv_transfer ex s). Qed.

Lemma inv_pushHandler ex m d s :
  lossy = true \/ deletes r (RunPushHandler m d) = false -> Inv ex s -> Inv ex (pushHandler m d s).
Proof.
  intros Hd Hi. unfold pushHandler. set (path := getString m FILE_PATH "").
  match goal with |- Inv ex (if _ then ?x else _) => assert (Inv ex x) as Hx end.
  { set (f := fun e => _). assert (count_free f) as Hf by (intros e; subst f; simpl; by destruct (dirty e)).
    destruct (opcode m) eqn:Eo; try done; try by apply inv_upd_free.
    destruct (decide (path = r)) as [Hp|Hp]; [|by apply inv_erase_ne].
    rewrite Hp. destruct Hd as [Hd|Hd].
    - apply inv_erase; [|done]. destruct Hi as [_ _ Ho _]. by eapply ok_lossy.
    - unfold deletes in Hd. rewrite Eo in Hd. apply bool_decide_eq_false in Hd. done. }
  case_decide; [exact Hx|]. unfold invalidatePath.
  match goal with |- context [if fuse_ ?x then _ else _] => destruct (fuse_ x) end; [|exact Hx].
  by eapply (inv_transfer ex _ _ Hx).
Qed.

Lemma inv_event ex ev s :
  lossy = true \/ deletes r ev = false -> Inv ex s -> Inv ex (runEvent ev s).
Proof.
  intros Hd Hi. destruct ev; simpl.
  - apply inv_client; [apply locked_learn|done].
  - apply inv_client; [apply locked_forget|done].
  - destruct (handlerSet s); [|done]. by apply inv_pushHandler.
  - destruct (healthStop_ s); [done|]. apply inv_client; [apply locked_sync|done].
Qed.

Lemma inv_events ex evs s :
  lossy = true \/ forallb (fun ev => negb (deletes r ev)) evs = true ->
  Inv ex s -> Inv ex (runEvents evs s).
Proof.
  unfold runEvents. revert s. induction evs as [|ev evs IH]; intros s Hd Hi; [done|]. simpl.
  apply IH.
  - destruct Hd as [Hd|Hd]; [by left|right]. simpl in Hd. by apply andb_prop in Hd as [_ ?].
  - apply inv_event; [|done]. destruct Hd as [Hd|Hd]; [by left|right].
    simpl in Hd. apply andb_prop in Hd as [Hd _]. by apply negb_true_iff.
Qed.

Lemma inv_deliver ex s : Inv ex s -> Inv ex (deliver s).
Proof.
  intros Hi. unfold deliver. destruct (env s) as [|batch rest] eqn:He; [done|].
  assert (lossy = true \/ keeps r (batch :: rest) = true) as Hk by (rewrite <- He; apply Hi).
  apply inv_events.
  - destruct Hk as [Hk|Hk]; [by left|right]. simpl in Hk. by apply andb_prop in Hk as [? _].
  - destruct Hi as [_ Hf Ho Hl]. split; try done. simpl.
    destruct Hk as [Hk|Hk]; [by left|right]. simpl in Hk. by apply andb_prop in Hk as [_ ?].
Qed.

(** *** Windows

    What is known across the points where the mutex is free: the invariant, the
    handles, and, once it is acquired, the lock. *)

Definition W (ex : list FileHandle) (hs : gmap Z FileHandle) (b : bool) s : Prop :=
  Inv ex s /\ handles s = hs /\ (b = true -> locked (client_ s)).

Lemma events_keep evs s :
  handles (runEvents evs s) = handles s /\ (locked (client_ s) -> locked (client_ (runEvents evs s))).
Proof.
  unfold runEvents. revert s. induction evs as [|ev evs IH]; intros s; [done|]. simpl.
  destruct (IH (runEvent ev s)) as [-> Hl].
  enough (handles (runEvent ev s) = handles s /\ (locked (client_ s) -> locked (client_ (runEvent ev s))))
    as [-> ?] by tauto.
  destruct ev; simpl.
  - split; [done|apply locked_learn].
  - split; [done|apply locked_forget].
  - destruct (handlerSet s); [|done]. by destruct (pushHandler_frame m data s) as (-> & _ & _ & -> & _).
  - destruct (healthStop_ s); [done|]. split; [done|apply locked_sync].
Qed.

Lemma deliver_keeps s :
  handles (deliver s) = handles s /\ (locked (client_ s) -> locked (client_ (deliver s))).
Proof. unfold deliver. destruct (env s); [done|]. apply (events_keep _ (set_env _ s)). Qed.

Lemma W_deliver ex hs b s : W ex hs b s -> W ex hs b (deliver s).
Proof.
  intros (Hi & Hh & Hl). destruct (deliver_keeps s) as [E HL].
  split; [by apply inv_deliver|]. rewrite E. auto.
Qed.

Lemma W_mutex ex hs b m s : W ex hs b s -> W ex hs b (set_mutex m s).
Proof. intros (Hi & Hh & Hl). split; [by destruct Hi|done]. Qed.

Lemma W_upd ex hs b p f s : count_free f -> W ex hs b s -> W ex hs b (upd_entry p f s).
Proof. intros Hf (Hi & Hh & Hl). split; [by apply inv_upd_free|done]. Qed.

Lemma inv_W ex s : Inv ex s -> W ex (handles s) false s.
Proof. done. Qed.
Lemma W_inv ex hs b s : W ex hs b s -> Inv ex s.
Proof. by intros [? _]. Qed.
Lemma W_weaken ex hs b s : W ex hs b s -> W ex hs false s.
Proof. intros (Hi & Hh & _). by split. Qed.

Lemma lock_W ex hs b : triple (W ex hs b) lock (fun _ => W ex hs b) (Inv ex).
Proof. intros s Hs. unfold lock. destruct (cacheMutex_ s); [done|]. by apply W_mutex, W_deliver. Qed.

Lemma unlock_W ex hs b : triple (W ex hs b) unlock (fun _ => W ex hs b) (Inv ex).
Proof. apply triple_modify. intros s. apply W_mutex. Qed.

Lemma rpc_W {A} (m : SO Cl A) ex hs b :
  (forall c, locked c -> locked (m c).2) -> triple (W ex hs b) (rpc m) (fun _ => W ex hs b) (Inv ex).
Proof.
  intros Hm s Hs%W_deliver. unfold rpc. destruct (m (client_ (deliver s))) as [res c] eqn:Ec.
  assert (W ex hs b (set_client c (deliver s))) as Hw.
  { specialize (Hm (client_ (deliver s))). rewrite Ec in Hm. destruct Hs as (Hi & Hh & Hl).
    split; [by apply inv_client|]. split; [done|auto]. }
  destruct res as [[a|e]|]; [done|by eapply W_inv|done].
Qed.

(** The lock of [r] may be given back when there is no handle for writing. *)
Lemma rpc_release_W p ex hs b :
  p <> r \/ (forall c, locked c) \/ writers r (ex ++ (map_to_list hs).*2) = 0 ->
  triple (W ex hs b) (rpc (fc_releaseLock p)) (fun _ => W ex hs false) (Inv ex).
Proof.
  intros Hp s Hs%W_deliver. unfold rpc.
  destruct (fc_releaseLock p (client_ (deliver s))) as [res c] eqn:Ec.
  assert (W ex hs false (set_client c (deliver s))) as Hw.
  { destruct Hs as (Hi & Hh & Hl). split; [|done]. destruct Hi as [He Hf Ho HL]. split; try done.
    simpl. change (live (set_client c (deliver s))) with (live (deliver s)). unfold live in *. rewrite Hh in *.
    intros Hw. destruct Hp as [Hp|[Hp|Hp]]; [|apply Hp|lia].
    pose proof (locked_release _ _ Hp (HL Hw)) as Hr. by rewrite Ec in Hr. }
  destruct res as [[a|e]|]; [done|by eapply W_inv|done].
Qed.

Lemma rpc_acquire_W p ex hs b :
  triple (W ex hs b) (rpc (fc_acquireLock p))
    (fun ack s => W ex hs b s /\ (p = r -> isAck ack = true -> locked (client_ s))) (Inv ex).
Proof.
  intros s Hs. pose proof (rpc_W (fc_acquireLock p) ex hs b (fun c => locked_acquire c p) s Hs) as Hr.
  unfold rpc in *. destruct (fc_acquireLock p (client_ (deliver s))) as [[[a|e]|] c] eqn:Ec; try done.
  split; [done|]. intros -> Ha. by eapply locked_acquired.
Qed.

Lemma scoped_inv {A} (P : FS -> Prop) (m : SO FS A) :
  triple P m (fun _ => Inv []) (Inv []) -> triple P (scoped m) (fun _ => Inv []) (Inv []).
Proof.
  intros Hm s Hs. specialize (Hm s Hs). unfold scoped.
  destruct (m s) as [[[a|e]|] s1]; [| |done]; by destruct Hm.
Qed.

(** *** Operations *)

Lemma fetchIntoCache_W p ex hs b :
  triple (W ex hs b) (fetchIntoCache p) (fun _ => W ex hs b) (Inv ex).
Proof.
  unfold fetchIntoCache. eapply triple_bind; [apply unlock_W|intros ?].
  eapply triple_bind; [apply rpc_W; intros c; apply locked_read|intros [ack data]].
  eapply triple_bind; [apply lock_W|intros ?]. cbn beta iota.
  destruct (isAck ack); cbn [negb]; [|apply triple_stay].
  eapply triple_bind; [|intros ?; apply triple_stay].
  apply triple_modify. intros s. by apply W_upd.
Qed.

(** What the counts of the entry say about the lock. *)
Lemma free_entry ex hs b p s :
  W ex hs b s -> lockOf p s = 0 \/ openOf p s = 0 ->
  p <> r \/ (forall c, locked c) \/ writers r (ex ++ (map_to_list hs).*2) = 0.
Proof.
  intros (Hi & Hh & _) Hz. destruct (decide (p = r)) as [->|]; [right|by left].
  destruct Hi as [_ _ Ho _]. unfold live in Ho. rewrite Hh in Ho.
  eapply ok_lock_free; [apply writers_le_opens|exact Ho|exact Hz].
Qed.

Lemma held_entry ex hs b s : W ex hs b s -> lockOf r s <> 0 -> locked (client_ s).
Proof.
  intros (Hi & Hh & _) Hz. destruct Hi as [_ _ Ho Hl].
  destruct (ok_lock_taken _ _ _ _ (writers_le_opens _ _) Ho Hz) as [Hc|Hw]; auto.
Qed.

(** Reading an entry after [cache_[p]]. *)
Lemma triple_touched {A} p (P : FS -> Prop) (k : option CacheEntry -> SO FS A) Q E :
  (forall s, P s -> P (upd_entry p (fun e => e) s)) ->
  (forall e, triple (fun s => P s /\ cache_ s !! p = Some e) (k (Some e)) Q E) ->
  triple P (do! touch p in let! it := find_entry p in k it) Q E.
Proof.
  intros HP Hk s Hs. unfold touch, find_entry. rewrite sbind_modify, sbind_gets.
  apply HP in Hs. revert Hs. set (s1 := upd_entry p _ s). intros Hs.
  assert (exists e, cache_ s1 !! p = Some e) as [e He] by (eexists; apply lookup_insert_eq).
  rewrite He. by apply Hk.
Qed.

Definition opening (hs : gmap Z FileHandle) (b : bool) (rc : Z) s : Prop :=
  W [] hs (b && (rc =? 0)) s.

Lemma eraseUnused_W p hs b :
  triple (W [] hs b) (eraseUnused p) (fun _ => W [] hs false) (Inv []).
Proof.
  apply triple_modify. intros s (Hi & Hh & _). split; [by apply inv_eraseUnused|].
  split; [|done]. repeat case_match; done.
Qed.

Lemma acquireForOpen_W p w hs :
  triple (W [] hs false) (acquireForOpen p w) (opening hs (w && bool_decide (p = r))) (Inv []).
Proof.
  apply triple_touched; [intros s; by apply W_upd|]. intros e. change (default newEntry (Some e)) with e.
  destruct (w && (lockCount e =? 0)) eqn:Hw.
  - eapply triple_bind; [eapply triple_pre; [apply unlock_W|by intros s [? _]]|intros ?].
    eapply triple_bind; [apply rpc_acquire_W|intros ack].
    eapply triple_bind with (R := fun _ s => W [] hs (isAck ack && bool_decide (p = r)) s).
    { eapply triple_pre; [apply lock_W|]. intros s [(Hi & Hh & _) Hl]. split; [done|]. split; [done|].
      intros [Ha Hp%bool_decide_eq_true]%andb_prop. auto. }
    intros ?. destruct (isAck ack) eqn:Ha; cbn [negb andb].
    + apply triple_gets. intros [e'|].
      * apply triple_ret. intros s [(Hi & Hh & Hl) _]. split; [done|]. split; [done|].
        intros [Hp _]%andb_prop. apply andb_prop in Hp as [_ Hp]. auto.
      * apply triple_ret. intros s [Hs _]. unfold opening. rewrite andb_false_r. by eapply W_weaken.
    + eapply triple_bind; [apply eraseUnused_W|]. intros ?. apply triple_ret. intros s Hs.
      unfold opening. by rewrite andb_false_r.
  - apply triple_ret. intros s [Hs He]. split; [apply Hs|]. split; [apply Hs|].
    rewrite andb_true_r. intros [-> ->%bool_decide_eq_true]%andb_prop. cbn in Hw.
    eapply held_entry; [exact Hs|]. unfold lockOf. rewrite He. simpl. by apply Z.eqb_neq.
Qed.

Lemma fetchForOpen_W p w hs b :
  triple (W [] hs b) (fetchForOpen p w) (opening hs b) (Inv []).
Proof.
  apply triple_touched; [intros s; by apply W_upd|]. intros e. change (default newEntry (Some e)) with e.
  destruct (openCount e =? 0) eqn:Ho.
  - intros s [Hs He]. assert (openOf p s = 0) as Hz
      by (unfold openOf; rewrite He; by apply Z.eqb_eq). pose proof (free_entry _ _ _ _ _ Hs (or_intror Hz)) as Hf.
    clear He Hz. revert s Hs. change (triple (W [] hs b) (let! rc := fetchIntoCache p in
      if negb (rc =? 0) then
        do! (if w then do! unlock in do! rpc (fc_releaseLock p) in lock else sret tt) in
        do! eraseUnused p in sret rc
      else sret 0) (opening hs b) (Inv [])).
    eapply triple_bind; [apply fetchIntoCache_W|intros rc]. destruct (rc =? 0) eqn:Hrc; cbn [negb].
    + apply triple_ret. intros s. unfold opening. by rewrite andb_true_r.
    + eapply triple_bind with (R := fun _ => W [] hs false).
      { destruct w; [|apply triple_ret; intros s; apply W_weaken].
        eapply triple_bind; [apply unlock_W|intros ?].
        eapply triple_bind; [by apply rpc_release_W|intros ?]. apply lock_W. }
      intros ?. eapply triple_bind; [apply eraseUnused_W|intros ?]. apply triple_ret. intros s Hs.
      unfold opening. by rewrite Hrc, andb_false_r.
  - apply triple_ret. intros s [Hs _]. unfold opening. by rewrite andb_true_r.
Qed.

(** A new handle. *)
Lemma inv_add p w f s :
  W [] (handles s) (w && bool_decide (p = r)) s ->
  (p = r -> ok (lockOf r (upd_entry p f s)) (openOf r (upd_entry p f s))
               (Z.b2z w + writers r (live s)) (1 + opens r (live s))) ->
  Inv [] (set_handles (<[nextHandle s := mkHandle p w]> (handles s)) (nextHandle s + 1) (upd_entry p f s)).
Proof.
  intros ([He [Hn Hf] Ho Hl] & _ & HL) Hok. set (s' := set_handles _ _ _).
  assert (live s' ≡ₚ mkHandle p w :: live s) as Hlive
    by (apply (live_insert (upd_entry p f s)); apply Hf; lia).
  split; simpl; rewrite ?Hlive.
  - done.
  - split; [lia|]. intros a Ha. rewrite lookup_insert_ne by lia. apply Hf. lia.
  - rewrite writers_cons, opens_cons. cbn [h_path h_writable].
    change (lockOf r s') with (lockOf r (upd_entry p f s)).
    change (openOf r s') with (openOf r (upd_entry p f s)).
    destruct (decide (p = r)) as [Hp|Hp].
    + specialize (Hok Hp). rewrite (decide_ext _ (w = true)) by naive_solver. by destruct w.
    + destruct (counts_upd_ne p f s Hp) as [-> ->]. rewrite decide_False by tauto. done.
  - rewrite writers_cons. cbn [h_path h_writable]. destruct (decide (p = r /\ w = true)) as [[-> ->]|]; [|auto].
    intros _. apply HL. by rewrite bool_decide_true.
Qed.

Lemma op_open_inv path fi : triple (Inv []) (op_open path fi) (fun _ => Inv []) (Inv []).
Proof.
  unfold op_open. set (p := rel path). case_decide; [apply triple_stay|].
  set (w := negb _). apply scoped_inv. intros s Hs%inv_W. revert s Hs.
  enough (forall hs, triple (W [] hs false) _ (fun _ => Inv []) (Inv [])) as Hh by (intros s; apply Hh).
  intros hs. eapply triple_bind; [apply lock_W|intros ?].
  eapply triple_bind; [apply acquireForOpen_W|intros rc]. unfold opening.
  destruct (rc =? 0) eqn:Hrc; cbn [negb]; [|apply triple_ret; intros s; apply W_inv].
  rewrite andb_true_r. eapply triple_bind; [apply fetchForOpen_W|intros rc2]. unfold opening.
  destruct (rc2 =? 0) eqn:Hrc2; cbn [negb]; [|apply triple_ret; intros s; apply W_inv].
  rewrite andb_true_r. eapply triple_bind with (R := fun _ => W [] hs (w && bool_decide (p = r))).
  { apply triple_modify. intros s. apply W_upd. intros e. by case_match. }
  intros ? s (Hi & Hh & Hl). cbn. subst hs. apply inv_add; [by split|]. intros ->.
  rewrite lockOf_upd, openOf_upd. destruct Hi as [_ _ Ho _]. cbn in Ho.
  rewrite <- lockOf_default, <- openOf_default in Ho. destruct w; cbn; rewrite (Z.add_comm 1).
  - rewrite (Z.add_comm 1). by apply ok_open.
  - by apply ok_open_ro.
Qed.

Lemma guarded_W {A} (m : SO FS A) (Q : A -> FS -> Prop) hs b :
  triple (W [] hs b) m (fun a s => W [] hs b s /\ Q a s) (Inv []) ->
  (forall a s, Q a s -> Q a (set_mutex false s)) ->
  triple (W [] hs b) (guarded m) (fun a s => W [] hs b s /\ Q a s) (Inv []).
Proof.
  intros Hm HQ s Hs. unfold guarded, scoped, sbind.
  pose proof (lock_W [] hs b s Hs) as Hl. destruct (lock s) as [[[u|e]|] s1]; [|by destruct Hl|done].
  specialize (Hm s1 Hl). destruct (m s1) as [[[a|e]|] s2]; [|by destruct Hm|done].
  destruct Hm as [Hw Hq]. split; [by apply W_mutex|by apply HQ].
Qed.

Lemma created_inv p v hs fi :
  (p = r -> ok 0 0 (writers r (map_to_list hs).*2) (opens r (map_to_list hs).*2)) ->
  triple (W [] hs (bool_decide (p = r)))
    (do! guarded (smodify (upd_entry p (fun _ => mkEntry [] false 1 1 v))) in
     let! fh := newHandle p true in sret (0, set_fh fh fi)) (fun _ => Inv []) (Inv []).
Proof.
  intros Hok s Hs. unfold guarded, scoped, sbind, lock, smodify, newHandle, sret.
  destruct (cacheMutex_ s); [done|]. cbn -[deliver].
  apply W_deliver in Hs. destruct Hs as (Hi & Hh & Hl).
  apply (inv_add p true (fun _ => mkEntry [] false 1 1 v) (set_mutex false (deliver s))).
  - split; [by destruct Hi|]. split; [done|exact Hl].
  - intros ->. rewrite lockOf_upd, openOf_upd. cbn -[deliver]. rewrite (Z.add_comm 1), (Z.add_comm 1).
    apply ok_create. unfold live. cbn -[deliver]. rewrite Hh. by apply Hok.
Qed.

Lemma op_create_inv path fi : triple (Inv []) (op_create path fi) (fun _ => Inv []) (Inv []).
Proof.
  unfold op_create. set (p := rel path). case_decide; [apply triple_stay|].
  intros s Hs%inv_W. revert s Hs.
  enough (forall hs, triple (W [] hs false) _ (fun _ => Inv []) (Inv [])) as Hh by (intros s; apply Hh).
  intros hs. eapply triple_bind with (R := fun opened s => match opened with
    | Some _ => Inv [] s
    | None => W [] hs false s
        /\ (p = r -> ok 0 0 (writers r (map_to_list hs).*2) (opens r (map_to_list hs).*2))
    end).
  { intros s Hs. unfold guarded, scoped, sbind at 1.
    pose proof (lock_W [] hs false s Hs) as Hl. destruct (lock s) as [[[u|e]|] s1]; [|by destruct Hl|done].
    unfold find_entry. rewrite sbind_gets. destruct (cache_ s1 !! p) eqn:Hc.
    - unfold sbind. pose proof (op_open_inv path fi s1 (W_inv _ _ _ _ Hl)) as Hi.
      destruct (op_open path fi s1) as [[[a|e]|] s2]; [|by destruct Hi|done]. by destruct Hi.
    - split; [by apply W_mutex|]. intros ->. destruct Hl as ([_ _ Ho _] & <- & _).
      unfold lockOf, openOf in Ho. by rewrite Hc in Ho. }
  intros [res|]; [apply triple_stay|]. apply triple_pure. intros Hok.
  apply triple_gets. intros v. eapply triple_pre; [|intros s [Hs _]; exact Hs].
  destruct (0 <=? v); [eapply triple_pre; [apply op_open_inv|intros s; apply W_inv]|].
  eapply triple_bind; [apply rpc_W; intros c; apply locked_create|intros cAck].
  destruct (isAck cAck); cbn [negb]; [|apply triple_ret; intros s; apply W_inv].
  eapply triple_bind; [apply rpc_acquire_W|intros lAck]. destruct (isAck lAck) eqn:Ha; cbn [negb].
  - eapply triple_pre; [by apply created_inv|]. intros s [(Hi & Hh & _) Hl].
    split; [done|]. split; [done|]. intros Hp%bool_decide_eq_true. auto.
  - eapply triple_pre; [|intros s [Hs _]; exact Hs].
    eapply triple_bind; [apply rpc_W; intros c; apply locked_delete|intros ?].
    apply triple_ret. intros s. apply W_inv.
Qed.

Lemma op_read_inv path size offset : triple (Inv []) (op_read path size offset) (fun _ => Inv []) (Inv []).
Proof.
  unfold op_read. apply scoped_inv. intros s Hs%inv_W. revert s Hs.
  enough (forall hs, triple (W [] hs false) _ (fun _ => Inv []) (Inv [])) as Hh by (intros s; apply Hh).
  intros hs. set (p := rel path). eapply triple_bind; [apply lock_W|intros ?].
  assert (triple (W [] hs false) (do! touch p in fetchIntoCache p) (fun _ => W [] hs false) (Inv [])) as Hfetch.
  { eapply triple_bind; [|intros ?; apply fetchIntoCache_W]. apply triple_modify. intros s. by apply W_upd. }
  eapply triple_bind with (R := fun _ => W [] hs false).
  { apply triple_gets. intros it. eapply triple_pre; [|intros s [Hs _]; exact Hs].
    destruct it as [e|]; [case_decide; [exact Hfetch|apply triple_stay]|exact Hfetch]. }
  intros rc. destruct (rc =? 0); cbn [negb]; [|apply triple_ret; intros s; apply W_inv].
  unfold copyFromEntry, find_entry.
  apply triple_gets. intros [e|]; [|apply triple_ret; intros s [Hs _]; by eapply W_inv].
  eapply triple_pre; [|intros s [Hs _]; exact (W_inv _ _ _ _ Hs)].
  case_match; [apply triple_stay|]. case_match; [apply triple_stay|]. by intros s Hs.
Qed.

(** The operations that only change the contents of an entry. *)
Lemma guarded_inv {A} (m : SO FS A) :
  triple (Inv []) m (fun _ => Inv []) (Inv []) -> triple (Inv []) (guarded m) (fun _ => Inv []) (Inv []).
Proof.
  intros Hm. apply scoped_inv. eapply triple_bind; [|intros ?; exact Hm].
  intros s Hs%inv_W. pose proof (lock_W _ _ _ s Hs) as Hl.
  destruct (lock s) as [[[u|e]|] s1]; [by eapply W_inv|done|done].
Qed.

Lemma upd_inv p f (rc : Z) : count_free f ->
  triple (Inv []) (do! smodify (upd_entry p f) in sret rc) (fun _ => Inv []) (Inv []).
Proof.
  intros Hf. eapply triple_bind; [|intros ?; apply triple_stay].
  apply triple_modify. intros s. by apply inv_upd_free.
Qed.

Lemma op_write_inv path buf offset : triple (Inv []) (op_write path buf offset) (fun _ => Inv []) (Inv []).
Proof.
  apply guarded_inv, triple_gets. intros it. eapply triple_pre; [|intros s [Hs _]; exact Hs].
  destruct it as [e|]; [|apply triple_stay]. cbn zeta.
  match goal with |- context [match ?x with Ok _ => _ | Throw _ => _ end] => destruct x end;
    [|by intros s Hs].
  destruct (copyIn _ _ _); [|by intros s Hs]. by apply upd_inv.
Qed.

Lemma op_truncate_inv path size : triple (Inv []) (op_truncate path size) (fun _ => Inv []) (Inv []).
Proof.
  apply guarded_inv, triple_gets. intros it. eapply triple_pre; [|intros s [Hs _]; exact Hs].
  destruct it as [e|]; [|apply triple_stay].
  destruct (resizeTo _ _); [|by intros s Hs]. by apply upd_inv.
Qed.

Lemma flush_W p e hs b : triple (W [] hs b) (flush p e) (fun _ => W [] hs b) (Inv []).
Proof.
  unfold flush. destruct (dirty e); [|apply unlock_W].
  eapply triple_bind; [apply unlock_W|intros ?].
  eapply triple_bind; [apply rpc_W; intros c; apply locked_update|intros ack].
  eapply triple_bind; [apply lock_W|intros ?].
  apply triple_gets. intros it2. eapply triple_pre; [|intros s [Hs _]; exact Hs].
  eapply triple_bind with (R := fun _ => W [] hs b); [|intros ?; apply unlock_W].
  destruct it2; [|apply triple_stay].
  destruct (isAck ack); apply triple_modify; intros s; apply W_upd; [|done].
  intros e'. by destruct (_ =? 0).
Qed.

(** A handle goes. *)
Lemma writers_tail fh hs : writers r hs <= writers r (fh :: hs).
Proof. rewrite writers_cons. case_decide; lia. Qed.

Lemma inv_close fh s s' :
  Inv [fh] s -> env s' = env s -> nextHandle s' = nextHandle s -> handles s' = handles s ->
  client_ s' = client_ s ->
  (h_path fh <> r -> lockOf r s' = lockOf r s /\ openOf r s' = openOf r s) ->
  (h_path fh = r -> openOf r s' = Z.max 0 (openOf r s - 1)
     /\ lockOf r s' = if h_writable fh then Z.max 0 (lockOf r s - 1) else lockOf r s) ->
  Inv [] s'.
Proof.
  intros [He Hf Ho Hl] E1 E2 E3 E4 Hne Heq.
  assert (live s' = live s) as E5 by (unfold live; by rewrite E3).
  cbn [app] in *. split; rewrite ?E1, ?E2, ?E3, ?E4; cbn [app]; rewrite ?E5; try done.
  - rewrite writers_cons, opens_cons in Ho. pose proof (writers_le_opens r (live s)) as Hw.
    destruct (decide (h_path fh = r)) as [Hp|Hp].
    + destruct (Heq Hp) as [-> ->]. rewrite (decide_ext _ (h_writable fh = true)) in Ho by naive_solver.
      destruct (h_writable fh); cbn in Ho; rewrite !(Z.add_comm 1) in Ho.
      * apply ok_close; [lia..|done].
      * rewrite Z.add_0_l in Ho. apply ok_close_ro; [lia..|done].
    + destruct (Hne Hp) as [-> ->]. rewrite decide_False in Ho by tauto. done.
  - pose proof (writers_tail fh (live s)). intros Hw. apply Hl. lia.
Qed.

(** [releaseLock] for the last handle for writing, if [last]. *)
Lemma release_lock_W (last : bool) p e hs :
  (last = true -> p <> r \/ (forall c, locked c) \/ writers r (map_to_list hs).*2 = 0) ->
  triple (W [] hs false)
    (if last then do! flush p e in do! rpc (fc_releaseLock p) in lock else sret tt)
    (fun _ => W [] hs false) (Inv []).
Proof.
  intros Hl. destruct last; [|apply triple_stay].
  eapply triple_bind; [apply flush_W|intros ?].
  eapply triple_bind; [apply rpc_release_W; by apply Hl|intros ?]. apply lock_W.
Qed.

Lemma release_found_inv fh hs (fi : FileInfo) :
  triple (W [fh] hs false)
    (do! smodify (upd_entry (h_path fh) (fun e =>
           if h_writable fh then set_lockCount (Z.max 0 (lockCount e - 1)) e else e)) in
     do! smodify (upd_entry (h_path fh) (fun e => set_openCount (Z.max 0 (openCount e - 1)) e)) in
     let! it := find_entry (h_path fh) in
     let entry := default newEntry it in
     do! (if h_writable fh && (lockCount entry =? 0) then
            do! flush (h_path fh) entry in do! rpc (fc_releaseLock (h_path fh)) in lock
          else sret tt) in
     do! eraseUnused (h_path fh) in
     sret (0, fi)) (fun _ => Inv []) (Inv []).
Proof.
  set (p := h_path fh). set (w := h_writable fh). intros s (Hi & Hh & _).
  rewrite !sbind_modify. unfold find_entry. rewrite sbind_gets. cbn zeta.
  set (s1 := upd_entry p _ (upd_entry p _ s)).
  assert (W [] hs false s1) as Hs.
  { split; [|done]. apply (inv_close fh s); try done; fold p.
    - intros Hp. subst s1. destruct (counts_upd_ne p (fun e => set_openCount (Z.max 0 (openCount e - 1)) e)
        (upd_entry p (fun e => if w then set_lockCount (Z.max 0 (lockCount e - 1)) e else e) s) Hp) as [-> ->].
      by apply counts_upd_ne.
    - intros ->. subst s1. rewrite lockOf_upd, openOf_upd. cbn [cache_ upd_entry set_cache].
      rewrite lookup_insert_eq. cbn. rewrite <- lockOf_default, <- openOf_default. fold w. by destruct w. }
  assert (lockCount (default newEntry (cache_ s1 !! p)) = lockOf p s1) as Hlk by apply lockOf_default.
  revert Hlk. generalize (default newEntry (cache_ s1 !! p)) as entry. intros entry Hlk.
  assert (w && (lockCount entry =? 0) = true ->
    p <> r \/ (forall c, locked c) \/ writers r (map_to_list hs).*2 = 0) as Hfree.
  { intros [_ Hz%Z.eqb_eq]%andb_prop. apply (free_entry _ _ _ _ _ Hs). left. by rewrite <- Hlk. }
  clearbody s1. revert s1 Hs Hlk. intros s1 Hs _. revert s1 Hs.
  eapply triple_bind; [by apply release_lock_W|intros ?].
  eapply triple_bind; [apply eraseUnused_W|intros ?]. apply triple_ret. intros s'. apply W_inv.
Qed.

Lemma op_release_inv fi : triple (Inv []) (op_release fi) (fun _ => Inv []) (Inv []).
Proof.
  unfold op_release. destruct (fi_fh fi =? 0); [apply triple_stay|].
  intros s Hs. rewrite sbind_gets. destruct (handles s !! fi_fh fi) as [fh|] eqn:Hfh; [|done].
  rewrite sbind_modify. set (s1 := set_handles _ _ s).
  assert (W [fh] (handles s1) false s1) as Hw.
  { split; [|done]. pose proof (live_delete s (fi_fh fi) fh (nextHandle s) Hfh) as Hlive. fold s1 in Hlive.
    destruct Hs as [He [Hn Hf] Ho Hl]. split; try done; cbn [app] in *; rewrite ?Hlive; try done.
    split; [done|]. intros a Ha. apply lookup_delete_None. right. by apply Hf. }
  clearbody s1. revert s1 Hw. enough (forall hs, triple (W [fh] hs false) _ (fun _ => Inv []) (Inv [])) as Hh
    by (intros s1; apply Hh).
  intros hs. apply scoped_inv. eapply triple_bind with (R := fun _ => W [fh] hs false).
  { intros s1 Hs1. pose proof (lock_W _ _ _ s1 Hs1) as Hl. unfold lock in *. destruct (cacheMutex_ s1); [done|].
    exact Hl. }
  intros ?. apply triple_gets. intros it. destruct it as [e|] eqn:Eit.
  - eapply triple_pre; [apply release_found_inv|by intros s1 [? _]].
  - intros s1 [(Hi & Hh & _) Hc].
    assert (lockOf (h_path fh) s1 = 0) as Hz1 by (unfold lockOf; by rewrite Hc).
    assert (openOf (h_path fh) s1 = 0) as Hz2 by (unfold openOf; by rewrite Hc).
    assert (W [] hs false s1) as Hw.
    { split; [|done]. apply (inv_close fh s1); try done. intros <-. rewrite Hz1, Hz2. by destruct (h_writable fh). }
    pose proof (free_entry _ _ _ _ _ Hw (or_introl Hz1)) as Hfree.
    clear Hc Hz1 Hz2 Hi Hh. revert s1 Hw.
    eapply triple_bind with (R := fun _ => W [] hs false); [|intros ?; apply triple_ret; intros s1; apply W_inv].
    destruct (h_writable fh); [|apply triple_stay].
    eapply triple_bind; [apply unlock_W|intros ?].
    eapply triple_bind; [by apply rpc_release_W|intros ?]. apply lock_W.
Qed.

(** [unlink] drops the entry, so it needs a path without handles when the
    relation does not survive that. *)
Lemma op_unlink_inv path s :
  rel path <> r \/ lossy = true \/ ok 0 0 (writers r (live s)) (opens r (live s)) ->
  Inv [] s -> match op_unlink path s with
              | (Done _, s') => Inv [] s'
              | (Hang, _) => True
              end.
Proof.
  intros Hok Hs. unfold op_unlink. set (p := rel path) in *.
  apply inv_W in Hs. unfold live in Hok. revert Hs Hok. generalize (handles s) as hs. intros hs Hs Hok.
  enough (triple (W [] hs false) (let! ack := rpc (fc_deleteFile p) in
    if negb (isAck ack) then sret (- EIO) else do! guarded (smodify (erase p)) in sret 0)
    (fun _ => Inv []) (Inv [])) as Ht.
  { specialize (Ht s Hs). by destruct (sbind _ _ s) as [[[a|e]|] s1]. }
  eapply triple_bind; [apply rpc_W; intros c; apply locked_delete|intros ack].
  destruct (isAck ack); cbn [negb]; [|apply triple_ret; intros s1; apply W_inv].
  eapply triple_bind with (R := fun _ => Inv []); [|intros ?; apply triple_stay].
  apply scoped_inv. eapply triple_bind; [apply lock_W|intros ?]. apply triple_modify.
  intros s1 (Hi & Hh & _). destruct (decide (p = r)) as [->|Hp]; [|by apply inv_erase_ne].
  apply inv_erase; [|done]. unfold live. rewrite Hh. destruct Hok as [?|[Hl|Hok]]; [done| |exact Hok].
  destruct Hi as [_ _ Ho _]. unfold live in Ho. rewrite Hh in Ho. by eapply ok_lossy.
Qed.

(** *** All operations *)

Lemma quiet_inv {A} (f : FS -> A) : triple (Inv []) (sgets f) (fun _ => Inv []) (Inv []).
Proof. by intros s Hs. Qed.

Lemma op_getattr_inv path : triple (Inv []) (op_getattr path) (fun _ => Inv []) (Inv []).
Proof.
  unfold op_getattr. case_decide; [apply triple_stay|].
  eapply triple_bind; [apply guarded_inv, quiet_inv|intros [e|]]; [apply triple_stay|].
  eapply triple_bind; [apply quiet_inv|intros known]. destruct known; [apply triple_stay|].
  eapply triple_bind; [apply quiet_inv|intros v]. case_match; apply triple_stay.
Qed.

Lemma op_readdir_inv path : triple (Inv []) (op_readdir path) (fun _ => Inv []) (Inv []).
Proof.
  eapply triple_bind; [apply quiet_inv|intros known]. case_match; [apply triple_stay|].
  eapply triple_bind; [apply quiet_inv|intros c]. apply triple_stay.
Qed.

Lemma op_mkdir_inv path : triple (Inv []) (op_mkdir path) (fun _ => Inv []) (Inv []).
Proof.
  unfold op_mkdir. case_decide; [apply triple_stay|].
  eapply triple_bind; [apply quiet_inv|intros v]. case_match; [apply triple_stay|].
  eapply triple_bind; [apply quiet_inv|intros ok']. destruct ok'; [|apply triple_stay].
  eapply triple_bind with (R := fun _ => Inv []); [|intros ?; apply triple_stay].
  apply triple_modify. by intros s [].
Qed.

Lemma op_rmdir_inv path : triple (Inv []) (op_rmdir path) (fun _ => Inv []) (Inv []).
Proof.
  eapply triple_bind; [apply quiet_inv|intros known]. destruct known; [|apply triple_stay].
  eapply triple_bind; [apply quiet_inv|intros c]. case_decide; apply triple_stay.
Qed.

Lemma reply_inv {A} (m : SO FS A) (f : A -> fuse_reply) :
  triple (Inv []) m (fun _ => Inv []) (Inv []) ->
  triple (Inv []) (let! a := m in sret (f a)) (fun _ => Inv []) (Inv []).
Proof. intros Hm. eapply triple_bind; [exact Hm|intros ?; apply triple_stay]. Qed.

Lemma ops_inv rq : lossy = true \/ unlinks r rq = false ->
  triple (Inv []) (ops_ rq) (fun _ => Inv []) (Inv []).
Proof.
  intros Hu. destruct rq; cbn [ops_]; apply reply_inv.
  - apply op_getattr_inv.
  - apply op_readdir_inv.
  - apply op_mkdir_inv.
  - apply op_rmdir_inv.
  - apply op_open_inv.
  - apply op_create_inv.
  - apply op_read_inv.
  - apply op_write_inv.
  - apply op_release_inv.
  - intros s Hs. pose proof (op_unlink_inv path s) as Ht.
    assert (rel path <> r \/ lossy = true) as Hp
      by (destruct Hu as [|Hu%bool_decide_eq_false]; auto).
    specialize (Ht ltac:(tauto) Hs). by destruct (op_unlink path s) as [[[a|e]|] s1].
  - apply op_truncate_inv.
Qed.

Lemma serve_inv rqs : lossy = true \/ forallb (fun rq => negb (unlinks r rq)) rqs = true ->
  triple (Inv []) (serve rqs) (fun _ => Inv []) (Inv []).
Proof.
  induction rqs as [|rq rqs IH]; intros Hu; [apply triple_stay|].
  assert (lossy = true \/ unlinks r rq = false) as Hu1.
  { destruct Hu as [Hu|Hu]; [by left|right]. apply andb_prop in Hu as [Hu _]. by apply negb_true_iff. }
  assert (lossy = true \/ forallb (fun rq => negb (unlinks r rq)) rqs = true) as Hu2.
  { destruct Hu as [Hu|Hu]; [by left|right]. by apply andb_prop in Hu as [_ Hu]. }
  cbn [serve]. eapply triple_bind; [by apply ops_inv|intros a].
  eapply triple_bind; [by apply IH|intros l]. apply triple_stay.
Qed.
End invariant.

(** ** The two invariants *)

(** The counts never exceed the handles. *)
Definition bounded (l o w n : Z) : Prop := 0 <= l <= w /\ 0 <= o <= n.
(** The counts are the handles. *)
Definition exactly (l o w n : Z) : Prop := l = w /\ o = n.

#[export] Instance bounded_laws {Cl} `{FsClient Cl} r : CountLaws r bounded (fun _ : Cl => True) true.
Proof. split; unfold bounded; intros; try done; try lia; by left. Qed.

#[export] Instance exact_laws {Cl} `{FsClient Cl} r :
  CountLaws r exactly (fun c : Logged Cl => r ∈ held c) false.
Proof.
  split; unfold exactly; intros; try done; try lia; try (right; lia).
  all: cbn [Logged_fs fc_setFileVersion fc_deleteFileVersion fc_createFile fc_readFile fc_updateFile
    fc_deleteFile fc_acquireLock fc_releaseLock]; unfold logging; try done.
  - unfold healthTurn, sbind. cbn [Logged_fs fc_isAlive fc_reconnect fc_syncStatus]. unfold logging.
    destruct (fc_isAlive _); [done|]. destruct (fc_reconnect _) as [[[u|e]|] c1]; cbn; try done.
    by destruct (fc_syncStatus _).
  - by destruct (fc_createFile _ _ _ _).
  - by destruct (fc_readFile _ _).
  - by destruct (fc_updateFile _ _ _ _).
  - by destruct (fc_deleteFile _ _).
  - destruct (fc_acquireLock _ _) as [res c1]. cbn. destruct (acked res); cbn; set_solver.
  - destruct (fc_releaseLock _ _) as [res c1]. cbn. set_solver.
  - cbn in *. unfold logging in *. destruct (fc_acquireLock _ _) as [res c1]. simplify_eq.
    cbn. match goal with Hm : isAck _ = true |- _ => rewrite Hm end. cbn. set_solver.
Qed.

Lemma new_inv {Cl} `{FsClient Cl} {r ok locked lossy} `{!CountLaws r ok locked lossy} (cl : Cl) schedule s :
  ok 0 0 0 0 -> lossy = true \/ keeps r schedule = true ->
  newSquidFS false cl schedule = Ok s -> Inv (r := r) (ok := ok) (locked := locked) (lossy := lossy) [] s.
Proof. intros Hok Hk [= <-]. by split. Qed.

Section counted.
Context {Cl : Type} `{FsClient Cl}.

(** C30. However the operations and the pushes interleave, the counts of an
    entry stay between zero and the number of live handles: [lockCount] counts
    handles for writing, [openCount] all handles of the path, and both are
    never negative. *)
Theorem counts_bounded (cl : Cl) schedule rqs s res s' r e :
  newSquidFS false cl schedule = Ok s -> serve rqs s = (Done res, s') -> cache_ s' !! r = Some e ->
  0 <= lockCount e <= writers r (live s') /\ 0 <= openCount e <= opens r (live s').
Proof.
  intros Hnew Hrun He. assert (Inv (r := r) (ok := bounded) (locked := fun _ => True) (lossy := true) [] s)
    as Hi by (eapply new_inv; [done|by left|done]).
  pose proof (serve_inv rqs (or_introl eq_refl) s Hi) as Hs. rewrite Hrun in Hs.
  assert (Inv (r := r) (ok := bounded) (locked := fun _ => True) (lossy := true) [] s') as [_ _ Ho _]
    by (destruct res; exact Hs).
  unfold lockOf, openOf in Ho. by rewrite He in Ho.
Qed.

(** C11. For a path that is not deleted under its handles, by a push or by
    [unlink], the counts are exact, and as long as a handle for writing is
    open the server's lock is held. *)
Theorem writers_hold_lock (cl : Logged Cl) schedule rqs s res s' r :
  newSquidFS false cl schedule = Ok s ->
  keeps r schedule = true -> forallb (fun rq => negb (unlinks r rq)) rqs = true ->
  serve rqs s = (Done res, s') ->
  lockOf r s' = writers r (live s') /\ openOf r s' = opens r (live s')
  /\ (0 < writers r (live s') -> r ∈ held (client_ s')).
Proof.
  intros Hnew Hk Hu Hrun.
  assert (Inv (r := r) (ok := exactly) (locked := fun c => r ∈ held c) (lossy := false) [] s)
    as Hi by (eapply new_inv; [done|by right|done]).
  pose proof (serve_inv rqs (or_intror Hu) s Hi) as Hs. rewrite Hrun in Hs.
  assert (Inv (r := r) (ok := exactly) (locked := fun c => r ∈ held c) (lossy := false) [] s')
    as [_ _ [Hl Ho] HL] by (destruct res; exact Hs).
  done.
Qed.
End counted.

(** *** A mounted example *)

Definition demo_mem : Mem :=
  mkMem {[ "a.txt" := (3, ["x"%char; "y"%char]) ]} {[ "a.txt" := 3 ]} [].
Definition demo_push (op : Opcode) (path : string) : event :=
  RunPushHandler (mkMessage op 0 0 0 [fieldString FILE_PATH path]) ["z"%char].
Definition demo_fs {Cl} (cl : Cl) (schedule : list (list event)) : SquidFS Cl :=
  mkFS cl false ∅ ∅ false false true ∅ 1 [] schedule.
Definition demo_schedule : list (list event) :=
  [[]; [LearnVersion "b" 1]; [demo_push PUSH_UPDATE_FILE "a.txt"]; [demo_push PUSH_DELETE_FILE "b"]].
Definition demo_requests : list fuse_request :=
  [Open "/a.txt" (mkInfo O_RDWR 0); Open "/a.txt" (mkInfo O_RDONLY 0);
   Write "/a.txt" ["w"%char] 1; Release (mkInfo O_RDONLY 2)].

Definition result_of {A} (o : outcome A) : result A :=
  match o with
  | Done r => r
  | Hang => Throw "hang"
  end.

Lemma counts_bounded_witness :
  let s' := (serve demo_requests (demo_fs demo_mem demo_schedule)).2 in
  let e := default newEntry (cache_ s' !! "a.txt") in
  0 <= lockCount e <= writers "a.txt" (live s') /\ 0 <= openCount e <= opens "a.txt" (live s').
Proof.
  apply (counts_bounded demo_mem demo_schedule demo_requests (demo_fs demo_mem demo_schedule)
           (result_of (serve demo_requests (demo_fs demo_mem demo_schedule)).1)).
  - reflexivity.
  - vm_compute. reflexivity.
  - vm_compute. reflexivity.
Defined.

Lemma writers_hold_lock_witness :
  let s' := (serve demo_requests (demo_fs (mkLogged demo_mem ∅ []) demo_schedule)).2 in
  lockOf "a.txt" s' = writers "a.txt" (live s') /\ openOf "a.txt" s' = opens "a.txt" (live s')
  /\ (0 < writers "a.txt" (live s') -> "a.txt" ∈ held (client_ s')).
Proof.
  apply (writers_hold_lock (mkLogged demo_mem ∅ []) demo_schedule demo_requests
           (demo_fs (mkLogged demo_mem ∅ []) demo_schedule)
           (result_of (serve demo_requests (demo_fs (mkLogged demo_mem ∅ []) demo_schedule)).1)).
  - reflexivity.
  - vm_compute. reflexivity.
  - vm_compute. reflexivity.
  - vm_compute. reflexivity.
Defined.
