(* ===== verification/FsFiles.v ===== *)
(** * Contents of open files

    Reads, writes and truncations of an open file behave as on an array of
    bytes ([pread], [pwrite], [ptruncate] below, stated byte by byte), whatever
    pushes arrive meanwhile, until the file is closed; closing it sends exactly
    these bytes to the server.  What is lost, and when, is stated as well. *)

From S2P Require Import Prelude Text Wire FileManager FileTransfer Protocol StateStore Session ServerState LockManager Replication ClusterConfig Watcher Standby Server Peer Client SquidFS FsClients FsCounts.

(** ** The reference: an array of bytes *)

Definition byte_at (d : list byte) (i : nat) : byte := default (byte_of_Z 0) (d !! i).

(** The bytes from [off] to [off + n], as far as the file goes. *)
Definition pread (d : list byte) (off n : nat) : list byte :=
  byte_at d <$> List.seq off (Nat.min n (length d - off)).
(** The file reaches to the end of what is written, at least; a gap is zero. *)
Definition pwrite (d : list byte) (off : nat) (buf : list byte) : list byte :=
  (fun i => if decide (off <= i < off + length buf)%nat then byte_at buf (i - off) else byte_at d i)
    <$> List.seq 0 (Nat.max (length d) (off + length buf)).
Definition ptruncate (d : list byte) (n : nat) : list byte := byte_at d <$> List.seq 0 n.

Lemma lookup_map_seq {A} (f : nat -> A) a n i :
  (f <$> List.seq a n) !! i = if decide (i < n)%nat then Some (f (a + i)%nat) else None.
Proof.
  rewrite list_lookup_fmap. case_decide as Hi.
  - by rewrite lookup_seq_lt.
  - by rewrite lookup_seq_ge by lia.
Qed.

Lemma byte_at_lookup d i : (i < length d)%nat -> d !! i = Some (byte_at d i).
Proof. intros Hi. unfold byte_at. by destruct (lookup_lt_is_Some_2 d i Hi) as [x ->]. Qed.
Lemma byte_at_beyond d i : (length d <= i)%nat -> byte_at d i = byte_of_Z 0.
Proof. intros Hi. unfold byte_at. by rewrite lookup_ge_None_2. Qed.

Lemma pread_slice d off n : take n (drop off d) = pread d off n.
Proof.
  apply list_eq. intros i. unfold pread. rewrite lookup_map_seq.
  destruct (decide (i < n)%nat) as [Hi|Hi].
  - rewrite lookup_take_lt, lookup_drop by done. case_decide as Hm.
    + apply byte_at_lookup. lia.
    + apply lookup_ge_None. lia.
  - rewrite lookup_take_ge by lia. by rewrite decide_False by lia.
Qed.

Lemma length_pread d off n : length (pread d off n) = Nat.min n (length d - off).
Proof. unfold pread. by rewrite length_fmap, length_seq. Qed.

Lemma ptruncate_resize d n :
  take n d ++ replicate (n - length d) (byte_of_Z 0) = ptruncate d n.
Proof.
  apply list_eq. intros i. unfold ptruncate. rewrite lookup_map_seq.
  destruct (decide (i < Nat.min n (length d))%nat) as [Hi|Hi].
  - rewrite lookup_app_l by (rewrite length_take; lia). rewrite lookup_take_lt by lia.
    rewrite decide_True by lia. apply byte_at_lookup. lia.
  - rewrite lookup_app_r by (rewrite length_take; lia). rewrite length_take.
    case_decide as Hn.
    + rewrite lookup_replicate_2 by lia. by rewrite byte_at_beyond by lia.
    + apply lookup_replicate_None. lia.
Qed.

Lemma length_ptruncate d n : length (ptruncate d n) = n.
Proof. unfold ptruncate. by rewrite length_fmap, length_seq. Qed.

Lemma byte_at_ptruncate d n i : (i < n)%nat -> byte_at (ptruncate d n) i = byte_at d i.
Proof.
  intros Hi. unfold byte_at at 1, ptruncate. rewrite lookup_map_seq. by rewrite decide_True.
Qed.

(** Overwriting inside a buffer that is long enough. *)
Lemma pwrite_splice d off buf : (off + length buf <= length d)%nat ->
  take off d ++ buf ++ drop (off + length buf) d = pwrite d off buf.
Proof.
  intros Hlen. apply list_eq. intros i. unfold pwrite. rewrite lookup_map_seq.
  rewrite Nat.max_l by lia. cbn [Nat.add].
  destruct (decide (i < off)%nat) as [Hi|Hi].
  - rewrite lookup_app_l by (rewrite length_take; lia). rewrite lookup_take_lt by lia.
    rewrite (decide_True (P := (i < length d)%nat)) by lia. rewrite decide_False by lia. apply byte_at_lookup. lia.
  - rewrite lookup_app_r by (rewrite length_take; lia). rewrite length_take, Nat.min_l by lia.
    destruct (decide (i < off + length buf)%nat) as [Hb|Hb].
    + rewrite lookup_app_l by lia. rewrite (decide_True (P := (i < length d)%nat)) by lia.
      rewrite decide_True by lia. apply byte_at_lookup. lia.
    + rewrite lookup_app_r by lia. rewrite lookup_drop.
      replace (off + length buf + (i - off - length buf))%nat with i by lia.
      case_decide as Hd; [|apply lookup_ge_None; lia]. rewrite decide_False by lia. by apply byte_at_lookup.
Qed.

(** ... or is extended first. *)
Lemma pwrite_extended d off buf :
  pwrite (ptruncate d (Nat.max (length d) (off + length buf))) off buf = pwrite d off buf.
Proof.
  unfold pwrite. rewrite length_ptruncate. replace (Nat.max (Nat.max _ _) _) with (Nat.max (length d) (off + length buf)) by lia.
  apply list_fmap_ext. intros i j Hij. apply lookup_seq in Hij as [-> Hj]. cbn [Nat.add].
  case_decide; [done|]. by apply byte_at_ptruncate.
Qed.

(** ** What the operations do to an open file *)

(** A push about [r]. *)
Definition touches (r : string) (ev : event) : bool :=
  match ev with
  | RunPushHandler m _ =>
      match opcode m with
      | PUSH_CREATE_FILE | PUSH_UPDATE_FILE | PUSH_DELETE_FILE =>
          bool_decide (getString m FILE_PATH "" = r)
      | _ => false
      end
  | _ => false
  end.

(** The schedule leaves the entry [e] of [r] alone: a dirty entry is only lost
    to a push that deletes it. *)
Definition undisturbed (r : string) (e : CacheEntry) (schedule : list (list event)) : bool :=
  forallb (forallb (fun ev => negb (if dirty e then deletes r ev else touches r ev))) schedule.

Lemma touches_deletes r ev : touches r ev = false -> deletes r ev = false.
Proof. destruct ev; try done. simpl. by destruct (opcode m). Qed.

Lemma undisturbed_dirty r e e' schedule :
  dirty e' = true -> undisturbed r e schedule = true -> undisturbed r e' schedule = true.
Proof.
  unfold undisturbed. intros -> Hu. apply forallb_forall. intros batch Hb.
  rewrite forallb_forall in Hu. specialize (Hu batch Hb). apply forallb_forall. intros ev Hev.
  rewrite forallb_forall in Hu. specialize (Hu ev Hev). apply negb_true_iff. apply negb_true_iff in Hu.
  destruct (dirty e); [done|]. by apply touches_deletes.
Qed.

Section files.
Context {Cl : Type} `{FsClient Cl}.
Local Abbreviation FS := (SquidFS Cl).
Implicit Types s : FS.

(** The mutex is free, [r] has the entry [e], and no push will disturb it. *)
Definition File_at (r : string) (e : CacheEntry) s : Prop :=
  cacheMutex_ s = false /\ cache_ s !! r = Some e /\ undisturbed r e (env s) = true.

(** What an event leaves of the state. *)
Lemma event_frame ev s :
  env (runEvent ev s) = env s /\ cacheMutex_ (runEvent ev s) = cacheMutex_ s
  /\ handles (runEvent ev s) = handles s /\ nextHandle (runEvent ev s) = nextHandle s.
Proof.
  destruct ev; simpl; try done; [|by destruct (healthStop_ s)].
  destruct (handlerSet s); [|done]. apply (pushHandler_frame m data s).
Qed.

Lemma event_entry r e ev s :
  cache_ s !! r = Some e -> (if dirty e then deletes r ev else touches r ev) = false ->
  cache_ (runEvent ev s) !! r = Some e.
Proof.
  intros He Hev. destruct ev; simpl; try done; [|by destruct (healthStop_ s)].
  destruct (handlerSet s); [|done]. unfold pushHandler.
  assert (forall s0, cache_ (invalidatePath (getString m FILE_PATH "") s0) = cache_ s0) as Hinv.
  { intros s0. unfold invalidatePath. by destruct (fuse_ s0). }
  match goal with |- cache_ (if _ then ?x else _) !! r = _ => enough (cache_ x !! r = Some e) as Hx end.
  { case_decide; [done|]. by rewrite Hinv. }
  destruct (decide (getString m FILE_PATH "" = r)) as [Hp|Hp].
  - rewrite Hp. cbn [deletes touches] in Hev. rewrite (bool_decide_true _ Hp) in Hev.
    destruct (opcode m); try done; simpl; rewrite ?lookup_insert_eq, ?He; simpl.
    all: destruct (dirty e); [done|discriminate].
  - destruct (opcode m); try done; simpl; rewrite ?lookup_insert_ne, ?lookup_delete_ne; done.
Qed.

Lemma events_entry r e evs s :
  cache_ s !! r = Some e ->
  forallb (fun ev => negb (if dirty e then deletes r ev else touches r ev)) evs = true ->
  cache_ (runEvents evs s) !! r = Some e.
Proof.
  unfold runEvents. revert s. induction evs as [|ev evs IH]; intros s He Hu; [done|].
  cbn [forallb] in Hu. apply andb_prop in Hu as [Hev Hu]. simpl. apply IH; [|done].
  apply event_entry; [done|]. by apply negb_true_iff.
Qed.

Lemma events_frame evs s :
  env (runEvents evs s) = env s /\ cacheMutex_ (runEvents evs s) = cacheMutex_ s
  /\ handles (runEvents evs s) = handles s /\ nextHandle (runEvents evs s) = nextHandle s.
Proof.
  unfold runEvents. revert s. induction evs as [|ev evs IH]; intros s; [done|]. simpl.
  destruct (IH (runEvent ev s)) as (-> & -> & -> & ->). apply event_frame.
Qed.

Lemma deliver_at r e s : File_at r e s -> File_at r e (deliver s).
Proof.
  intros (Hm & He & Hu). unfold deliver. destruct (env s) as [|batch rest] eqn:Es; [by rewrite <- Es in Hu|].
  destruct (events_frame batch (set_env rest s)) as (E1 & E2 & _ & _).
  unfold undisturbed in Hu. cbn [forallb] in Hu. apply andb_prop in Hu as [Hb Hu].
  split; [by rewrite E2|]. split; [by apply events_entry|]. by rewrite E1.
Qed.

Lemma guarded_at {A} (m : SO FS A) r e s : File_at r e s ->
  guarded m s = scoped m (set_mutex true (deliver s))
  /\ cache_ (set_mutex true (deliver s)) !! r = Some e
  /\ undisturbed r e (env (set_mutex true (deliver s))) = true.
Proof.
  intros Hf. pose proof (deliver_at r e s Hf) as (_ & He & Hu). destruct Hf as (Hm & _ & _).
  split; [|done]. unfold guarded, scoped, sbind, lock. by rewrite Hm.
Qed.

(** An update of the entry, at the end of the scope. *)
Lemma upd_at {A} r e f (a : A) s :
  cache_ s !! r = Some e -> undisturbed r (f e) (env s) = true ->
  exists s', scoped (do! smodify (upd_entry r f) in sret a) s = (Done (Ok a), s') /\ File_at r (f e) s'.
Proof.
  intros He Hu. eexists. split; [reflexivity|]. split; [done|]. split; [|done].
  simpl. rewrite lookup_insert_eq, He. done.
Qed.

Lemma resizeTo_ok n d : 0 <= n <= PTRDIFF_MAX -> resizeTo n d = Ok (ptruncate d (Z.to_nat n)).
Proof.
  intros Hn. unfold resizeTo. destruct (Z.ltb_spec PTRDIFF_MAX n); [lia|]. by rewrite ptruncate_resize.
Qed.

Lemma u64_small z : 0 <= z <= PTRDIFF_MAX -> u64 z = z.
Proof. intros Hz. unfold u64, wrap, PTRDIFF_MAX in *. apply Z.mod_small. lia. Qed.

Lemma copyIn_ok d buf off : 0 <= off -> (Z.to_nat off + length buf <= length d)%nat ->
  copyIn d buf off = Some (pwrite d (Z.to_nat off) buf).
Proof.
  intros Ho Hl. unfold copyIn. destruct (Z.leb_spec 0 off); [|lia].
  destruct (Z.leb_spec (off + Z.of_nat (length buf)) (Z.of_nat (length d))); [|lia]. simpl.
  by rewrite pwrite_splice.
Qed.

Lemma op_write_at path buf off e s :
  File_at (rel path) e s -> 0 <= off -> off + Z.of_nat (length buf) <= PTRDIFF_MAX ->
  exists s', op_write path buf off s = (Done (Ok (i32 (Z.of_nat (length buf)))), s')
    /\ File_at (rel path) (set_dirty true (set_data (pwrite (e_data e) (Z.to_nat off) buf) e)) s'.
Proof.
  intros Hf Ho Hend. unfold op_write. set (r := rel path) in *. cbn zeta.
  edestruct (guarded_at (A := Z)) as (-> & He & Hu); [exact Hf|].
  unfold scoped, find_entry at 1. rewrite sbind_gets, He.
  rewrite (u64_small off), u64_small by lia. set (len := length buf) in *.
  set (d := e_data e).
  assert (exists d', (if Z.of_nat (length d) <? off + Z.of_nat len
                      then resizeTo (off + Z.of_nat len) d else Ok d) = Ok d'
    /\ copyIn d' buf off = Some (pwrite d (Z.to_nat off) buf)) as (d' & -> & ->).
  { destruct (Z.ltb_spec (Z.of_nat (length d)) (off + Z.of_nat len)).
    - eexists. split; [apply resizeTo_ok; lia|]. rewrite copyIn_ok by (rewrite ?length_ptruncate; lia).
      f_equal. rewrite <- (pwrite_extended d). f_equal. f_equal. lia.
    - exists d. split; [done|]. apply copyIn_ok; lia. }
  apply (upd_at r e (fun e => set_dirty true (set_data (pwrite d (Z.to_nat off) buf) e))); [done|].
  by eapply undisturbed_dirty.
Qed.

Lemma op_truncate_at path size e s :
  File_at (rel path) e s -> 0 <= size <= PTRDIFF_MAX ->
  exists s', op_truncate path size s = (Done (Ok 0), s')
    /\ File_at (rel path) (set_dirty true (set_data (ptruncate (e_data e) (Z.to_nat size)) e)) s'.
Proof.
  intros Hf Hsz. unfold op_truncate. set (r := rel path) in *. cbn zeta.
  edestruct (guarded_at (A := Z)) as (-> & He & Hu); [exact Hf|].
  unfold scoped, find_entry at 1. rewrite sbind_gets, He, u64_small, resizeTo_ok by lia.
  apply (upd_at r e (fun e' => set_dirty true (set_data (ptruncate (e_data e) (Z.to_nat size)) e'))); [done|].
  by eapply undisturbed_dirty.
Qed.

Lemma copyFromEntry_ok r size off e s :
  cache_ s !! r = Some e -> 0 <= off <= PTRDIFF_MAX -> 0 <= size ->
  Z.of_nat (length (e_data e)) <= PTRDIFF_MAX ->
  let bs := pread (e_data e) (Z.to_nat off) (Z.to_nat size) in
  copyFromEntry r size off s = (Done (Ok (i32 (Z.of_nat (length bs)), bs)), s).
Proof.
  intros He Ho Hsz Hlen bs. unfold copyFromEntry, find_entry. rewrite sbind_gets, He.
  set (d := e_data e) in *. destruct (Z.leb_spec (Z.of_nat (length d)) off).
  - assert (bs = []) as -> by (apply length_zero_iff_nil; subst bs; rewrite length_pread; lia). done.
  - rewrite (u64_small off), u64_small by lia. unfold copyOut.
    destruct (Z.leb_spec 0 off); [|lia].
    destruct (Z.leb_spec (off + Z.min size (Z.of_nat (length d) - off)) (Z.of_nat (length d))); [|lia].
    cbn [andb]. rewrite pread_slice.
    assert (pread d (Z.to_nat off) (Z.to_nat (Z.min size (Z.of_nat (length d) - off))) = bs) as ->.
    { subst bs. unfold pread. f_equal. f_equal. lia. }
    unfold sret. do 4 f_equal. subst bs. rewrite length_pread. f_equal. lia.
Qed.

Lemma op_read_at path size off e s :
  File_at (rel path) e s -> e_data e <> [] -> 0 <= off <= PTRDIFF_MAX -> 0 <= size ->
  Z.of_nat (length (e_data e)) <= PTRDIFF_MAX ->
  let bs := pread (e_data e) (Z.to_nat off) (Z.to_nat size) in
  exists s', op_read path size off s = (Done (Ok (i32 (Z.of_nat (length bs)), bs)), s')
    /\ File_at (rel path) e s'.
Proof.
  intros Hf Hne Ho Hsz Hlen bs. unfold op_read. set (r := rel path) in *. cbn zeta.
  edestruct (guarded_at (A := Z * list byte)) as (E & He & Hu); [exact Hf|].
  unfold guarded in E. rewrite E. clear E. set (s1 := set_mutex true (deliver s)) in *.
  assert (fetchForRead r s1 = (Done (Ok 0), s1)) as Hfetch.
  { unfold fetchForRead, find_entry. rewrite sbind_gets, He. by rewrite decide_False. }
  unfold scoped. rewrite (sbind_done _ _ _ _ _ Hfetch). cbn [Z.eqb negb].
  rewrite (copyFromEntry_ok r size off e s1 He Ho Hsz Hlen).
  exists (set_mutex false s1). split; [done|]. split; [done|]. split; [exact He|exact Hu].
Qed.
End files.

(** ** Sequences of operations *)

Inductive file_op : Type :=
| FRead (size off : Z)
| FWrite (buf : list byte) (off : Z)
| FTruncate (size : Z).

Definition file_request (path : string) (op : file_op) : fuse_request :=
  match op with
  | FRead size off => Read path size off
  | FWrite buf off => Write path buf off
  | FTruncate size => Truncate path size
  end.

(** The same on an array of bytes. *)
Definition file_step (op : file_op) (d : list byte) : fuse_reply * list byte :=
  match op with
  | FRead size off =>
      let bs := pread d (Z.to_nat off) (Z.to_nat size) in (ReplyBytes (Z.of_nat (length bs)) bs, d)
  | FWrite buf off => (ReplyCode (Z.of_nat (length buf)), pwrite d (Z.to_nat off) buf)
  | FTruncate size => (ReplyCode 0, ptruncate d (Z.to_nat size))
  end.
Fixpoint file_run (ops : list file_op) (d : list byte) : list fuse_reply * list byte :=
  match ops with
  | [] => ([], d)
  | op :: ops =>
      let '(a, d) := file_step op d in
      let '(l, d) := file_run ops d in (a :: l, d)
  end.

(** Offsets and sizes as FUSE passes them; and no read of an empty file, which
    the code answers from the server. *)
Definition in_range (op : file_op) (d : list byte) : bool :=
  match op with
  | FRead size off =>
      (0 <=? off) && (off <=? PTRDIFF_MAX) && (0 <=? size) && (size <=? INT_MAX)
      && (Z.of_nat (length d) <=? PTRDIFF_MAX) && negb (bool_decide (d = []))
  | FWrite buf off =>
      (0 <=? off) && (off + Z.of_nat (length buf) <=? PTRDIFF_MAX)
      && (Z.of_nat (length buf) <=? INT_MAX)
  | FTruncate size => (0 <=? size) && (size <=? PTRDIFF_MAX)
  end.
Fixpoint all_in_range (ops : list file_op) (d : list byte) : bool :=
  match ops with
  | [] => true
  | op :: ops => in_range op d && all_in_range ops (file_step op d).2
  end.

Section refinement.
Context {Cl : Type} `{FsClient Cl}.
Local Abbreviation FS := (SquidFS Cl).
Implicit Types s : FS.

(** The entry once its contents are [d]: nothing else of it changes, but that
    it is dirty. *)
Definition same_file (e e' : CacheEntry) (d : list byte) : Prop :=
  e_data e' = d /\ lockCount e' = lockCount e /\ openCount e' = openCount e
  /\ e_version e' = e_version e /\ (dirty e = true -> dirty e' = true).

Lemma ops_step path op e s :
  File_at (rel path) e s -> in_range op (e_data e) = true ->
  exists s' e', ops_ (file_request path op) s = (Done (Ok (file_step op (e_data e)).1), s')
    /\ File_at (rel path) e' s' /\ same_file e e' (file_step op (e_data e)).2.
Proof.
  intros Hf Hr. destruct op; cbn [in_range file_request ops_ file_step fst snd] in *; unfold INT_MAX in *; to_prop.
  - edestruct (op_read_at path size off e s) as (s' & E & Hf'); [done|by eapply bool_decide_eq_false_1|lia|lia|lia|].
    exists s', e. split; [|done]. rewrite (sbind_done _ _ _ _ _ E). unfold sret. cbn [fst snd].
    rewrite i32_small; [done|]. unfold in_i32. rewrite length_pread. lia.
  - edestruct (op_write_at path buf off e s) as (s' & E & Hf'); [done|lia|lia|].
    eexists s', _. split; [|split; [exact Hf'|done]].
    rewrite (sbind_done _ _ _ _ _ E). unfold sret. by rewrite i32_small by (unfold in_i32; lia).
  - edestruct (op_truncate_at path size e s) as (s' & E & Hf'); [done|lia|].
    eexists s', _. split; [|split; [exact Hf'|done]]. by rewrite (sbind_done _ _ _ _ _ E).
Qed.

(** C6. An open file is an array of bytes: any sequence of reads, writes and
    truncations through [ops_] is answered as the reference answers it, and
    leaves the buffer with the reference's contents, whatever pushes arrive
    that do not delete the file (nor replace it while it is clean), for offsets
    and sizes in the range of [off_t], and as long as no read comes while the
    file is empty: the code takes an empty buffer for a missing one and fetches
    the file again ([FsFaults.empty_buffer_refetched]). *)
Theorem open_file_refines path ops e s :
  File_at (rel path) e s -> all_in_range ops (e_data e) = true ->
  exists s' e', serve (file_request path <$> ops) s = (Done (Ok (file_run ops (e_data e)).1), s')
    /\ File_at (rel path) e' s' /\ same_file e e' (file_run ops (e_data e)).2.
Proof.
  revert e s. induction ops as [|op ops IH]; intros e s Hf Hr; [by exists s, e|].
  cbn [all_in_range] in Hr. apply andb_prop in Hr as [Hr1 Hr2].
  destruct (ops_step path op e s Hf Hr1) as (s1 & e1 & E1 & Hf1 & Hd & Hl & Ho & Hv & Hdy).
  cbn [fmap list_fmap serve file_run].
  rewrite (sbind_done _ _ _ _ _ E1). destruct (file_step op (e_data e)) as [a d]. cbn [fst snd] in *.
  rewrite <- Hd in Hr2 |- *. destruct (IH e1 s1 Hf1 Hr2) as (s2 & e2 & E2 & Hf2 & Hs2).
  rewrite (sbind_done _ _ _ _ _ E2). destruct (file_run ops (e_data e1)) as [l d2].
  exists s2, e2. split; [done|]. split; [done|]. destruct Hs2 as (? & ? & ? & ? & ?).
  unfold same_file. rewrite <- Hl, <- Ho, <- Hv. split_and!; auto.
Qed.
End refinement.

Definition demo_open : SquidFS Mem :=
  mkFS demo_mem false {[ "a.txt" := mkEntry ["x"%char; "y"%char] true 1 1 3 ]} ∅ true false true
       {[ 1 := mkHandle "a.txt" true ]} 2 []
       [[demo_push PUSH_UPDATE_FILE "a.txt"]; [demo_push PUSH_DELETE_FILE "b"]].
Definition demo_ops : list file_op :=
  [FWrite ["p"%char; "q"%char] 4; FRead 10 1; FTruncate 3; FRead 2 0; FRead 5 3].

Lemma open_file_refines_witness :
  exists s' e', serve (file_request "/a.txt" <$> demo_ops) demo_open
      = (Done (Ok (file_run demo_ops ["x"%char; "y"%char]).1), s')
    /\ File_at "a.txt" e' s'
    /\ same_file (mkEntry ["x"%char; "y"%char] true 1 1 3) e' (file_run demo_ops ["x"%char; "y"%char]).2.
Proof.
  apply (open_file_refines "/a.txt" demo_ops (mkEntry ["x"%char; "y"%char] true 1 1 3) demo_open).
  - split; [|split]; vm_compute; reflexivity.
  - vm_compute. reflexivity.
Defined.
