(* ===== verification/FsClose.v ===== *)
(** * Operations return, and closing publishes

    With a server that answers, every operation returns and leaves the mutex
    free, but for one: [op_create] of a path that is in the cache.  Closing the
    last handle for writing sends the buffer and then gives the lock back; the
    next open reads what was sent. *)

From S2P Require Import Prelude Text Wire FileManager FileTransfer Protocol StateStore Session ServerState LockManager Replication ClusterConfig Watcher Standby Server Peer Client SquidFS FsClients FsCounts FsFiles.

(** Every request is answered. *)
Class Responsive (Cl : Type) `{FsClient Cl} : Prop := {
  rs_create p d v c : exists m c', fc_createFile p d v c = (Done (Ok m), c');
  rs_read p c : exists m c', fc_readFile p c = (Done (Ok m), c');
  rs_update p d v c : exists m c', fc_updateFile p d v c = (Done (Ok m), c');
  rs_delete p c : exists m c', fc_deleteFile p c = (Done (Ok m), c');
  rs_acquire p c : exists m c', fc_acquireLock p c = (Done (Ok m), c');
  rs_release p c : exists m c', fc_releaseLock p c = (Done (Ok m), c') }.

Lemma mem_request_answers {A} (ok : Mem -> A * Mem) refuse c :
  exists m c', mem_request ok refuse c = (Done (Ok m), c').
Proof.
  unfold mem_request. destruct (m_answers c) as [|[] rest]; try by eexists _, _.
  all: destruct (ok _); by eexists _, _.
Qed.

#[export] Instance Mem_responsive : Responsive Mem.
Proof. split; intros; apply mem_request_answers. Qed.

#[export] Instance Logged_responsive {Cl} `{Responsive Cl} : Responsive (Logged Cl).
Proof.
  split; intros; simpl; unfold logging.
  - destruct (rs_create p d v (inner c)) as (m & c' & ->). by eexists _, _.
  - destruct (rs_read p (inner c)) as (m & c' & ->). by eexists _, _.
  - destruct (rs_update p d v (inner c)) as (m & c' & ->). by eexists _, _.
  - destruct (rs_delete p (inner c)) as (m & c' & ->). by eexists _, _.
  - destruct (rs_acquire p (inner c)) as (m & c' & ->). by eexists _, _.
  - destruct (rs_release p (inner c)) as (m & c' & ->). by eexists _, _.
Qed.

(** ** Total triples *)

(** As [triple], and [m] does return. *)
Definition total {S A} (P : S -> Prop) (m : SO S A) (Q : A -> S -> Prop) (E : S -> Prop) : Prop :=
  forall s, P s ->
    match m s with
    | (Done (Ok a), s') => Q a s'
    | (Done (Throw _), s') => E s'
    | (Hang, _) => False
    end.

Section total.
Context {S : Type}.
Implicit Types P E : S -> Prop.

Lemma total_ret {A} P (a : A) (Q : A -> S -> Prop) E :
  (forall s, P s -> Q a s) -> total P (sret a) Q E.
Proof. intros HQ s Hs. by apply HQ. Qed.

Lemma total_bind {A B} P (m : SO S A) (R : A -> S -> Prop) (k : A -> SO S B) Q E :
  total P m R E -> (forall a, total (R a) (k a) Q E) -> total P (sbind m k) Q E.
Proof.
  intros Hm Hk s Hs. specialize (Hm s Hs). unfold sbind.
  destruct (m s) as [[[a|e]|] s1]; [by apply Hk|done|done].
Qed.

Lemma total_pre {A} P P' (m : SO S A) (Q : A -> S -> Prop) E :
  total P' m Q E -> (forall s, P s -> P' s) -> total P m Q E.
Proof. intros Hm HP s Hs. by apply Hm, HP. Qed.

Lemma total_post {A} P (m : SO S A) (Q Q' : A -> S -> Prop) E :
  total P m Q' E -> (forall a s, Q' a s -> Q a s) -> total P m Q E.
Proof.
  intros Hm HQ s Hs. specialize (Hm s Hs). destruct (m s) as [[[a|e]|] s1]; auto.
Qed.

Lemma total_modify P f (Q : unit -> S -> Prop) E :
  (forall s, P s -> Q tt (f s)) -> total P (smodify f) Q E.
Proof. intros HQ s Hs. by apply HQ. Qed.

Lemma total_gets {A B} P (f : S -> A) (k : A -> SO S B) Q E :
  (forall a, total (fun s => P s /\ f s = a) (k a) Q E) -> total P (sbind (sgets f) k) Q E.
Proof. intros Hk s Hs. rewrite sbind_gets. by apply Hk. Qed.

(** The value read does not matter. *)
Lemma total_read {A B} P (f : S -> A) (k : A -> SO S B) Q E :
  (forall a, total P (k a) Q E) -> total P (sbind (sgets f) k) Q E.
Proof. intros Hk. apply total_gets. intros a s [Hs _]. by apply Hk. Qed.
End total.

(** ** The mutex *)

Section returns.
Context {Cl : Type} `{FsClient Cl} `{!Responsive Cl}.
Local Abbreviation FS := (SquidFS Cl).
Implicit Types s : FS.

Definition mutex_is (b : bool) s : Prop := cacheMutex_ s = b.
Local Abbreviation free := (mutex_is false).
Local Abbreviation taken := (mutex_is true).
Local Abbreviation anyway := (fun _ : FS => True).

Lemma deliver_mutex s : cacheMutex_ (deliver s) = cacheMutex_ s.
Proof.
  unfold deliver. destruct (env s) as [|batch rest]; [done|].
  by destruct (events_frame batch (set_env rest s)) as (_ & -> & _ & _).
Qed.

Lemma lock_total : total free lock (fun _ => taken) anyway.
Proof. intros s Hs. unfold lock. unfold mutex_is in *. by rewrite Hs. Qed.
Lemma unlock_total P : total P unlock (fun _ => free) anyway.
Proof. by apply total_modify. Qed.

Lemma rpc_total {A} (m : SO Cl A) b :
  (forall c, exists a c', m c = (Done (Ok a), c')) -> total (mutex_is b) (rpc m) (fun _ => mutex_is b) anyway.
Proof.
  intros Hm s Hs. unfold rpc. destruct (Hm (client_ (deliver s))) as (a & c' & ->).
  unfold mutex_is in *. simpl. by rewrite deliver_mutex.
Qed.

Lemma scoped_total {A} P (m : SO FS A) Q E : total P m Q E -> total P (scoped m) (fun _ => free) free.
Proof. intros Hm s Hs. specialize (Hm s Hs). unfold scoped. by destruct (m s) as [[[a|e]|] s1]. Qed.

Lemma guarded_total {A} (m : SO FS A) Q E : total taken m Q E -> total free (guarded m) (fun _ => free) free.
Proof.
  intros Hm. eapply scoped_total with (E := fun _ => True). eapply total_bind; [apply lock_total|].
  intros u s Hs. specialize (Hm s Hs). destruct (m s) as [[[a|e]|] s1]; [exact Hm|done|done].
Qed.

(** After a step that does not touch the mutex. *)
Lemma modify_total b (f : FS -> FS) :
  (forall s, cacheMutex_ (f s) = cacheMutex_ s) -> total (mutex_is b) (smodify f) (fun _ => mutex_is b) anyway.
Proof. intros Hf. apply total_modify. intros s Hs. unfold mutex_is in *. by rewrite Hf. Qed.
Lemma ret_total {A} P (a : A) E : total (S := FS) P (sret a) (fun _ => P) E.
Proof. by apply total_ret. Qed.
Lemma gets_total {A} P (f : FS -> A) E : total P (sgets f) (fun _ => P) E.
Proof. by intros s Hs. Qed.

Lemma eraseUnused_total p b : total (mutex_is b) (eraseUnused p) (fun _ => mutex_is b) anyway.
Proof. apply modify_total. intros s. destruct (cache_ s !! p); [|done]. by destruct (_ =? 0). Qed.

Lemma fetchIntoCache_total p : total taken (fetchIntoCache p) (fun _ => taken) anyway.
Proof.
  eapply total_bind; [apply unlock_total|intros ?].
  eapply total_bind; [apply rpc_total, rs_read|intros [ack d]].
  eapply total_bind; [apply lock_total|intros ?]. cbn beta iota.
  destruct (isAck ack); cbn [negb]; [|apply ret_total].
  eapply total_bind; [by apply modify_total|intros ?]. apply ret_total.
Qed.

(** The window around [releaseLock]. *)
Lemma release_window_total p : total taken (do! unlock in do! rpc (fc_releaseLock p) in lock) (fun _ => taken) anyway.
Proof.
  eapply total_bind; [apply unlock_total|intros ?].
  eapply total_bind; [apply rpc_total, rs_release|intros ?]. apply lock_total.
Qed.

Lemma acquireForOpen_total p w : total taken (acquireForOpen p w) (fun _ => taken) anyway.
Proof.
  eapply total_bind; [by apply modify_total|intros ?]. apply total_read. intros it.
  case_match; [|apply ret_total].
  eapply total_bind; [apply unlock_total|intros ?].
  eapply total_bind; [apply rpc_total, rs_acquire|intros ack].
  eapply total_bind; [apply lock_total|intros ?]. destruct (isAck ack); cbn [negb].
  - apply total_read. intros [e|]; apply ret_total.
  - eapply total_bind; [apply eraseUnused_total|intros ?]. apply ret_total.
Qed.

Lemma fetchForOpen_total p w : total taken (fetchForOpen p w) (fun _ => taken) anyway.
Proof.
  eapply total_bind; [by apply modify_total|intros ?]. apply total_read. intros it.
  case_match; [|apply ret_total].
  eapply total_bind; [apply fetchIntoCache_total|intros rc]. destruct (rc =? 0); cbn [negb]; [apply ret_total|].
  eapply total_bind with (R := fun _ => taken).
  { destruct w; [apply release_window_total|apply ret_total]. }
  intros ?. eapply total_bind; [apply eraseUnused_total|intros ?]. apply ret_total.
Qed.

Lemma newHandle_total p w b : total (mutex_is b) (newHandle p w) (fun _ => mutex_is b) anyway.
Proof. by intros s Hs. Qed.

(** Outside of a scope, an answered request leaves the mutex free. *)
Lemma rpc_free {A} (m : SO Cl A) :
  (forall c, exists a c', m c = (Done (Ok a), c')) -> total free (rpc m) (fun _ => free) free.
Proof.
  intros Hm s Hs. unfold rpc. destruct (Hm (client_ (deliver s))) as (a & c' & ->).
  unfold mutex_is in *. simpl. by rewrite deliver_mutex.
Qed.
Lemma newHandle_free p w : total free (newHandle p w) (fun _ => free) free.
Proof. by intros s Hs. Qed.

Lemma op_open_total path fi : total free (op_open path fi) (fun _ => free) free.
Proof.
  unfold op_open. case_decide; [apply ret_total|]. eapply scoped_total with (E := anyway).
  eapply total_bind; [apply lock_total|intros ?].
  eapply total_bind; [apply acquireForOpen_total|intros rc]. destruct (rc =? 0); cbn [negb]; [|apply ret_total].
  eapply total_bind; [apply fetchForOpen_total|intros rc2]. destruct (rc2 =? 0); cbn [negb]; [|apply ret_total].
  eapply total_bind; [by apply modify_total|intros ?].
  eapply total_bind; [by apply modify_total|intros ?].
  eapply total_bind; [apply newHandle_total|intros ?]. apply ret_total.
Qed.

(** The path of a [Create] is in the cache when it is looked up. *)
Definition creates_cached (rq : fuse_request) s : bool :=
  match rq with
  | Create path _ =>
      negb (bool_decide (rel path = "")) && bool_decide (is_Some (cache_ (deliver s) !! rel path))
  | _ => false
  end.

Lemma op_open_taken path fi s : rel path <> "" -> cacheMutex_ s = true -> (op_open path fi s).1 = Hang.
Proof.
  intros Hp Hm. unfold op_open. rewrite decide_False by done.
  unfold scoped, sbind at 1, lock. by rewrite Hm.
Qed.

Lemma op_create_total path fi :
  total (fun s => free s /\ creates_cached (Create path fi) s = false) (op_create path fi) (fun _ => free) free.
Proof.
  unfold op_create, creates_cached. case_decide; [by apply total_ret; intros s [? _]|].
  rewrite bool_decide_false by done. cbn [negb andb].
  eapply total_bind with (R := fun opened s => free s /\ opened = None).
  { intros s [Hs Hc%bool_decide_eq_false]. unfold guarded, scoped, sbind at 1, lock.
    unfold mutex_is in *. rewrite Hs. unfold find_entry. rewrite sbind_gets.
    cbn [cache_ set_mutex]. apply eq_None_not_Some in Hc. by rewrite Hc. }
  intros opened. intros s [Hs ->]. revert s Hs. apply total_read. intros v.
  destruct (0 <=? v); [apply op_open_total|].
  eapply total_bind; [apply rpc_free, rs_create|intros cAck].
  destruct (isAck cAck); cbn [negb]; [|apply ret_total].
  eapply total_bind; [apply rpc_free, rs_acquire|intros lAck]. destruct (isAck lAck); cbn [negb].
  - eapply total_bind; [eapply guarded_total with (E := anyway); by apply modify_total|intros ?].
    eapply total_bind; [apply newHandle_free|intros ?]. apply ret_total.
  - eapply total_bind; [apply rpc_free, rs_delete|intros ?]. apply ret_total.
Qed.

Lemma op_read_total path size offset : total free (op_read path size offset) (fun _ => free) free.
Proof.
  eapply scoped_total with (E := anyway) (Q := fun _ => taken). eapply total_bind; [apply lock_total|intros ?].
  eapply total_bind with (R := fun _ => taken).
  { apply total_read. intros it.
    assert (total taken (do! touch (rel path) in fetchIntoCache (rel path)) (fun _ => taken) anyway).
    { eapply total_bind; [by apply modify_total|intros ?]. apply fetchIntoCache_total. }
    destruct it; [case_decide; [done|apply ret_total]|done]. }
  intros rc. destruct (rc =? 0); cbn [negb]; [|apply ret_total].
  unfold copyFromEntry, find_entry. apply total_read. intros [e|]; [|apply ret_total].
  case_match; [apply ret_total|]. case_match; [apply ret_total|done].
Qed.

Lemma op_write_total path buf offset : total free (op_write path buf offset) (fun _ => free) free.
Proof.
  eapply guarded_total with (E := anyway) (Q := fun _ => taken). apply total_read.
  intros [e|]; [|apply ret_total]. cbn zeta.
  match goal with |- context [match ?x with Ok _ => _ | Throw _ => _ end] => destruct x end; [|done].
  destruct (copyIn _ _ _); [|done]. eapply total_bind; [by apply modify_total|intros ?]. apply ret_total.
Qed.

Lemma op_truncate_total path size : total free (op_truncate path size) (fun _ => free) free.
Proof.
  eapply guarded_total with (E := anyway) (Q := fun _ => taken). apply total_read.
  intros [e|]; [|apply ret_total]. destruct (resizeTo _ _); [|done].
  eapply total_bind; [by apply modify_total|intros ?]. apply ret_total.
Qed.

Lemma flush_total p e : total taken (flush p e) (fun _ => free) anyway.
Proof.
  unfold flush. destruct (dirty e); [|apply unlock_total].
  eapply total_bind; [apply unlock_total|intros ?].
  eapply total_bind; [apply rpc_total, rs_update|intros ack].
  eapply total_bind; [apply lock_total|intros ?]. apply total_read. intros it2.
  eapply total_bind with (R := fun _ => taken); [|intros ?; apply unlock_total].
  destruct it2; [destruct (isAck ack); by apply modify_total|apply ret_total].
Qed.

Lemma op_release_total fi : total free (op_release fi) (fun _ => free) free.
Proof.
  unfold op_release. destruct (fi_fh fi =? 0); [apply ret_total|].
  apply total_read. intros [fh|]; [|intros s Hs; exact Hs].
  eapply total_bind with (R := fun _ => free); [by apply total_modify|intros ?].
  eapply scoped_total with (E := anyway) (Q := fun _ => taken). eapply total_bind; [apply lock_total|intros ?].
  apply total_read. intros [e|].
  - eapply total_bind; [by apply modify_total|intros ?]. eapply total_bind; [by apply modify_total|intros ?].
    apply total_read. intros it. eapply total_bind with (R := fun _ => taken).
    { case_match; [|apply ret_total]. eapply total_bind; [apply flush_total|intros ?].
      eapply total_bind; [apply rpc_total, rs_release|intros ?]. apply lock_total. }
    intros ?. eapply total_bind; [apply eraseUnused_total|intros ?]. apply ret_total.
  - eapply total_bind with (R := fun _ => taken); [|intros ?; apply ret_total].
    destruct (h_writable fh); [apply release_window_total|apply ret_total].
Qed.

Lemma op_unlink_total path : total free (op_unlink path) (fun _ => free) free.
Proof.
  eapply total_bind; [apply rpc_free, rs_delete|intros ack]. destruct (isAck ack); cbn [negb]; [|apply ret_total].
  eapply total_bind; [eapply guarded_total with (E := anyway); by apply modify_total|intros ?]. apply ret_total.
Qed.

Lemma reply_total {A} (m : SO FS A) (f : A -> fuse_reply) P :
  total P m (fun _ => free) free -> total P (let! a := m in sret (f a)) (fun _ => free) free.
Proof. intros Hm. eapply total_bind; [exact Hm|intros ?; apply ret_total]. Qed.

Lemma ops_total rq : total (fun s => free s /\ creates_cached rq s = false) (ops_ rq) (fun _ => free) free.
Proof.
  assert (forall A (m : SO FS A) (f : A -> fuse_reply), total free m (fun _ => free) free ->
    total (fun s => free s /\ creates_cached rq s = false) (let! a := m in sret (f a)) (fun _ => free) free) as Hr.
  { intros A m f Hm. apply reply_total. eapply total_pre; [exact Hm|by intros s [? _]]. }
  destruct rq; cbn [ops_].
  - apply Hr. unfold op_getattr. case_decide; [apply ret_total|].
    eapply total_bind; [eapply guarded_total, (gets_total _ _ anyway)|intros [e|]]; [apply ret_total|].
    apply total_read. intros []; [apply ret_total|]. apply total_read. intros v. case_match; apply ret_total.
  - apply Hr. apply total_read. intros known. case_match; [apply ret_total|]. apply total_read. intros c. apply ret_total.
  - apply Hr. unfold op_mkdir. case_decide; [apply ret_total|]. apply total_read. intros v.
    case_match; [apply ret_total|]. apply total_read. intros []; [|apply ret_total].
    eapply total_bind; [by apply total_modify with (Q := fun _ => free)|intros ?]. apply ret_total.
  - apply Hr. apply total_read. intros []; [|apply ret_total]. apply total_read. intros c.
    case_decide; apply ret_total.
  - apply Hr, op_open_total.
  - apply reply_total, op_create_total.
  - apply Hr, op_read_total.
  - apply Hr, op_write_total.
  - apply Hr, op_release_total.
  - apply Hr, op_unlink_total.
  - apply Hr, op_truncate_total.
Qed.

(** C17. When the server answers its requests, every operation returns with
    the mutex free, except [op_create] of a path that is in the cache: it calls
    [op_open] with [cacheMutex_] held and waits for itself for ever, so that no
    later operation and no push gets the mutex again. *)
Theorem operations_return rq s : cacheMutex_ s = false ->
  if creates_cached rq s
  then (ops_ rq s).1 = Hang /\ cacheMutex_ (ops_ rq s).2 = true
  else (exists x, (ops_ rq s).1 = Done x) /\ cacheMutex_ (ops_ rq s).2 = false.
Proof.
  intros Hm. destruct (creates_cached rq s) eqn:Hc.
  - destruct rq; try done. cbn [creates_cached] in Hc. to_prop.
    match goal with Hp : bool_decide (rel path = "") = false |- _ => apply bool_decide_eq_false in Hp end.
    match goal with Hp : bool_decide (is_Some _) = true |- _ => apply bool_decide_eq_true in Hp as [e He] end.
    assert (op_create path fi s = (Hang, set_mutex true (deliver s))) as Hcr.
    { unfold op_create. rewrite decide_False by done. unfold guarded, scoped, sbind at 1 2, lock. rewrite Hm.
      unfold find_entry. rewrite sbind_gets. cbn [cache_ set_mutex]. rewrite He.
      unfold op_open. rewrite decide_False by done. reflexivity. }
    cbn [ops_]. unfold sbind. rewrite Hcr. done.
  - pose proof (ops_total rq s (conj Hm Hc)) as Ht.
    destruct (ops_ rq s) as [[[a|e]|] s1]; [| |done]; (split; [by eexists|exact Ht]).
Qed.
End returns.

Lemma operations_return_witness :
  if creates_cached (Create "/a.txt" (mkInfo O_RDWR 0)) demo_open
  then (ops_ (Create "/a.txt" (mkInfo O_RDWR 0)) demo_open).1 = Hang
       /\ cacheMutex_ (ops_ (Create "/a.txt" (mkInfo O_RDWR 0)) demo_open).2 = true
  else (exists x, (ops_ (Create "/a.txt" (mkInfo O_RDWR 0)) demo_open).1 = Done x)
       /\ cacheMutex_ (ops_ (Create "/a.txt" (mkInfo O_RDWR 0)) demo_open).2 = false.
Proof. apply (operations_return (Create "/a.txt" (mkInfo O_RDWR 0)) demo_open). reflexivity. Defined.

(** ** Closing *)

(** What is known of a client whatever the other threads do to it. *)
Record lasting {Cl} `{FsClient Cl} (U : Cl -> Prop) : Prop := {
  la_learn p v c : U c -> U (fc_setFileVersion p v c);
  la_forget p c : U c -> U (fc_deleteFileVersion p c);
  la_health c : U c -> U (healthTurn c) }.

Lemma deliver_lasting {Cl} `{FsClient Cl} (U : Cl -> Prop) (s : SquidFS Cl) :
  lasting U -> U (client_ s) -> U (client_ (deliver s)).
Proof.
  intros HU. unfold deliver. destruct (env s) as [|batch rest]; [done|]. unfold runEvents.
  change (client_ s) with (client_ (set_env rest s)). generalize (set_env rest s) as s0.
  induction batch as [|ev evs IH]; intros s0 Hc; [done|]. simpl. apply IH. destruct ev; simpl.
  - by apply HU.
  - by apply HU.
  - destruct (handlerSet s0); [|done]. by destruct (pushHandler_frame m data s0) as (-> & _).
  - destruct (healthStop_ s0); [done|]. by apply HU.
Qed.

(** The counts of an entry that no push deletes. *)
Lemma deliver_counts {Cl} `{FsClient Cl} r (s : SquidFS Cl) : keeps r (env s) = true ->
  openOf r (deliver s) = openOf r s /\ keeps r (env (deliver s)) = true.
Proof.
  unfold deliver. destruct (env s) as [|batch rest] eqn:Es; [by rewrite Es|].
  cbn [keeps forallb]. intros [Hb Hr]%andb_prop.
  destruct (events_frame batch (set_env rest s)) as (-> & _ & _ & _). split; [|exact Hr].
  change (openOf r s) with (openOf r (set_env rest s)). generalize (set_env rest s) as s0.
  unfold runEvents. clear Es. induction batch as [|ev evs IH]; intros s0; [done|].
  cbn [forallb] in Hb. apply andb_prop in Hb as [Hev Hb]. simpl. rewrite IH by done.
  destruct ev; simpl; try done; [|by destruct (healthStop_ s0)].
  destruct (handlerSet s0); [|done]. unfold pushHandler.
  assert (forall s1 : SquidFS Cl, openOf r (invalidatePath (getString m FILE_PATH "") s1) = openOf r s1) as Hinv.
  { intros s1. unfold invalidatePath. by destruct (fuse_ s1). }
  match goal with |- openOf r (if _ then ?x else _) = _ => enough (openOf r x = openOf r s0) as Hx end.
  { case_decide; by rewrite ?Hinv. }
  cbn [deletes] in Hev. destruct (opcode m); try done.
  1, 2: apply (counts_upd_free (r := r)); intros e; by destruct (dirty e).
  apply negb_true_iff, bool_decide_eq_false in Hev. unfold openOf. simpl. by rewrite lookup_delete_ne.
Qed.

Section close.
Context {Cl : Type} `{FsClient Cl}.
Local Abbreviation FS := (SquidFS Cl).
Local Abbreviation never := (fun _ : FS => False).
Implicit Types s : FS.

(** What is known of the entry, stable under the events. *)
Record stable (I : FS -> Prop) : Prop := {
  stable_deliver s : I s -> I (deliver s);
  stable_same s s' : cache_ s' = cache_ s -> env s' = env s -> I s -> I s' }.

Definition dirty_entry (r : string) (e : CacheEntry) s : Prop :=
  cache_ s !! r = Some e /\ undisturbed r e (env s) = true.
Definition open_count (r : string) (o : Z) s : Prop := keeps r (env s) = true /\ openOf r s = o.

Lemma stable_dirty r e : stable (dirty_entry r e).
Proof.
  split.
  - intros s Hs. destruct (deliver_at r e (set_mutex false s)) as (_ & Hd); [by split; [done|]|].
    replace (deliver (set_mutex false s)) with (set_mutex false (deliver s)) in Hd; [exact Hd|].
    unfold deliver. cbn [env set_mutex]. destruct (env s) as [|batch rest]; [done|].
    change (set_env rest (set_mutex false s)) with (set_mutex false (set_env rest s)).
    generalize (set_env rest s) as s0. unfold runEvents. induction batch as [|ev evs IH]; intros s0; [done|].
    simpl. rewrite IH. f_equal. destruct ev; simpl; try done; [|by destruct (healthStop_ s0)].
    unfold pushHandler, invalidatePath, upd_entry, erase.
    destruct (handlerSet s0), (opcode m), (decide (getString m FILE_PATH "" = "")), (fuse_ s0) eqn:E;
      simpl; rewrite ?E; done.
  - intros s s' E1 E2 [He Hu]. unfold dirty_entry. by rewrite E1, E2.
Qed.

Lemma stable_open_count r o : stable (open_count r o).
Proof.
  split.
  - intros s [Hk <-]. destruct (deliver_counts r s Hk). by split.
  - intros s s' E1 E2 [Hk <-]. unfold open_count, openOf. by rewrite E1, E2.
Qed.

(** Between two steps of an operation: the mutex, the client, the entry. *)
Definition At (I : FS -> Prop) (U : Cl -> Prop) (b : bool) s : Prop :=
  cacheMutex_ s = b /\ U (client_ s) /\ I s.

Section window.
Context (I : FS -> Prop) (HI : stable I) (U : Cl -> Prop) (HU : lasting U).

Lemma At_deliver b s : At I U b s -> At I U b (deliver s).
Proof.
  intros (Hm & Hu & Hi). split; [by rewrite deliver_mutex|]. split; [by apply deliver_lasting|by apply HI].
Qed.

Lemma At_mutex b b' s : At I U b s -> At I U b' (set_mutex b' s).
Proof. intros (Hm & Hu & Hi). split_and!; try done. by eapply (stable_same _ HI s). Qed.

Lemma At_lock : total (At I U false) lock (fun _ => At I U true) never.
Proof.
  intros s Hs. unfold lock. pose proof (At_deliver _ _ Hs) as Hd. destruct Hs as (-> & _).
  by eapply At_mutex.
Qed.

Lemma At_unlock b : total (At I U b) unlock (fun _ => At I U false) never.
Proof. apply total_modify. intros s. apply At_mutex. Qed.

Lemma At_rpc {A} (m : SO Cl A) (V : A -> Cl -> Prop) :
  (forall c, U c -> exists a c', m c = (Done (Ok a), c') /\ V a c') ->
  total (At I U false) (rpc m) (fun a => At I (V a) false) never.
Proof.
  intros Hm s Hs%At_deliver. destruct Hs as (Hb & Hu & Hi). unfold rpc.
  destruct (Hm _ Hu) as (a & c' & -> & HV). split_and!; try done. by eapply (stable_same _ HI (deliver s)).
Qed.
End window.

Lemma undisturbed_keeps r e schedule : dirty e = true -> undisturbed r e schedule = keeps r schedule.
Proof. unfold undisturbed, keeps. by intros ->. Qed.

(** What a client goes through when a file is published: [U] before the update
    with the buffer of [e], [V] after it and [W] after the release. *)
Record publishing (r : string) (e : CacheEntry) (U : Cl -> Prop) (V W : bool -> Cl -> Prop) : Prop := {
  pb_before : lasting U;
  pb_between ack : lasting (V ack);
  pb_after ack : lasting (W ack);
  pb_update c : U c ->
    exists m c', fc_updateFile r (e_data e) (e_version e) c = (Done (Ok m), c') /\ V (isAck m) c';
  pb_release ack c : V ack c -> exists m c', fc_releaseLock r c = (Done (Ok m), c') /\ W ack c' }.

Section publish.
Context (U : Cl -> Prop) (V W : bool -> Cl -> Prop).

(** [flush] of a dirty entry: one update with the buffer. *)
Lemma flush_dirty r e : publishing r e U V W -> dirty e = true ->
  total (At (dirty_entry r e) U true) (flush r e)
    (fun _ s => exists ack, At (open_count r (openCount e)) (V ack) false s) never.
Proof.
  intros HP Hd. unfold flush. rewrite Hd.
  eapply total_bind; [apply At_unlock, stable_dirty|intros ?].
  eapply total_bind; [apply (At_rpc _ (stable_dirty r e) _ (pb_before _ _ _ _ _ HP) _ (fun m => V (isAck m)));
    apply (pb_update _ _ _ _ _ HP)|intros ack].
  eapply total_bind; [apply At_lock; [apply stable_dirty|apply (pb_between _ _ _ _ _ HP)]|intros ?].
  intros s (Hm & Hx & He & Hu). unfold find_entry. rewrite sbind_gets, He.
  rewrite (undisturbed_keeps _ _ _ Hd) in Hu. set (f := fun e' => set_dirty false
    (if isAck ack then if getUint32 ack FILE_VERSION 0 =? 0 then e'
     else set_version (i32 (getUint32 ack FILE_VERSION 0)) e' else e')).
  assert (forall k, sbind (if isAck ack
       then smodify (upd_entry r (fun e => set_dirty false
              (if getUint32 ack FILE_VERSION 0 =? 0 then e else set_version (i32 (getUint32 ack FILE_VERSION 0)) e)))
       else smodify (upd_entry r (set_dirty false))) k s = k tt (upd_entry r f s) :> outcome unit * FS) as E.
  { intros k. subst f. by destruct (isAck ack). }
  cbn zeta. rewrite E. exists (isAck ack). split_and!; try done. split; [done|].
  change (openOf r (upd_entry r f s) = openCount e). rewrite openOf_upd, He. subst f. cbn.
  by destruct (isAck ack), (getUint32 ack FILE_VERSION 0 =? 0).
Qed.

(** The counts of the entry after the last handle for writing. *)
Definition closed_entry (e : CacheEntry) : CacheEntry :=
  set_openCount (Z.max 0 (openCount e - 1)) (set_lockCount (Z.max 0 (lockCount e - 1)) e).

(** From the lock to the end of the scope. *)
Lemma close_last_total r e fi :
  publishing r e U V W -> dirty e = true -> lockCount e = 1 ->
  total (At (dirty_entry r e) U true)
    (do! smodify (upd_entry r (fun e => set_lockCount (Z.max 0 (lockCount e - 1)) e)) in
     do! smodify (upd_entry r (fun e => set_openCount (Z.max 0 (openCount e - 1)) e)) in
     let! it := find_entry r in
     let entry := default newEntry it in
     do! (if true && (lockCount entry =? 0) then
            do! flush r entry in do! rpc (fc_releaseLock r) in lock
          else sret tt) in
     do! eraseUnused r in
     sret (0, fi))
    (fun res s => res = (0, fi : FileInfo) /\ keeps r (env s) = true
       /\ (exists ack, W ack (client_ s)) /\ (openCount e = 1 -> cache_ s !! r = None)) never.
Proof.
  intros HP Hd Hl s (Hm & Hs & He & Hu). rewrite !sbind_modify. unfold find_entry. rewrite sbind_gets.
  set (s1 := upd_entry r _ (upd_entry r _ s)). set (e2 := closed_entry e).
  assert (cache_ s1 !! r = Some e2) as He2.
  { subst s1. simpl. rewrite !lookup_insert_eq, He. done. }
  rewrite He2. change (default newEntry (Some e2)) with e2.
  replace (true && (lockCount e2 =? 0)) with true by (subst e2; simpl; by rewrite Hl).
  assert (At (dirty_entry r e2) U true s1) as Hat by by split_and!.
  assert (publishing r e2 U V W) as HP2 by (destruct HP; by constructor).
  clearbody s1. clear Hm Hs He Hu He2 s. revert s1 Hat.
  eapply total_bind with (R := fun _ s => exists ack, At (open_count r (openCount e2)) (W ack) true s).
  { eapply total_bind; [by apply (flush_dirty r e2)|intros ?].
    intros s [ack Hs]. revert s Hs.
    eapply total_bind; [apply (At_rpc _ (stable_open_count r _) _ (pb_between _ _ _ _ _ HP ack) _ (fun _ => W ack));
      apply (pb_release _ _ _ _ _ HP)|intros ?].
    eapply total_post; [apply At_lock; [apply stable_open_count|apply (pb_after _ _ _ _ _ HP)]|].
    intros ? s Hs. by exists ack. }
  intros ?. intros s [ack (Hm & Hs & Hk & Ho)]. cbn. split; [done|].
  repeat case_match; cbn; (split; [exact Hk|]); (split; [by exists ack|]); intros Hone.
  all: try done.
  - apply lookup_delete_eq.
  - unfold openOf in Ho. match goal with Hc : cache_ s !! r = Some _ |- _ => rewrite Hc in Ho end.
    subst e2. cbn in Ho. to_prop. lia.
Qed.

Lemma release_last fi r e s :
  publishing r e U V W -> U (client_ s) ->
  cacheMutex_ s = false -> fi_fh fi <> 0 -> handles s !! fi_fh fi = Some (mkHandle r true) ->
  cache_ s !! r = Some e -> dirty e = true -> lockCount e = 1 -> keeps r (env s) = true ->
  exists ack s', op_release fi s = (Done (Ok (0, set_fh 0 fi)), s')
    /\ cacheMutex_ s' = false /\ W ack (client_ s') /\ (openCount e = 1 -> cache_ s' !! r = None).
Proof.
  intros HP HU Hm Hfh Hh He Hd Hl Hk. unfold op_release. destruct (fi_fh fi =? 0) eqn:Hz; [to_prop; done|].
  rewrite sbind_gets, Hh. cbn [h_path h_writable]. rewrite sbind_modify. set (s1 := set_handles _ _ s).
  assert (At (dirty_entry r e) U false s1) as Hat.
  { unfold At, dirty_entry. rewrite (undisturbed_keeps r e) by done. by split_and!. }
  pose proof (At_lock _ (stable_dirty r e) _ (pb_before _ _ _ _ _ HP) s1 Hat) as Hlock.
  unfold scoped, sbind at 1. destruct (lock s1) as [[[u|x]|] s2]; [|done|done].
  unfold find_entry at 1. rewrite sbind_gets. destruct Hlock as (Hm2 & Hs2 & He2 & Hu2). rewrite He2.
  pose proof (close_last_total r e (set_fh 0 fi) HP Hd Hl s2) as Hc.
  specialize (Hc ltac:(by split_and!)). cbn [h_writable]. cbn beta iota zeta in Hc |- *.
  destruct (sbind _ _ s2) as [[[a|x]|] s3]; [|done|done].
  destruct Hc as (-> & _ & [ack HW] & Hgone). by exists ack, (set_mutex false s3).
Qed.
End publish.
End close.

(** *** What is sent *)

Section sending.
Context {Cl : Type} `{FsClient Cl} `{!Responsive Cl}.

Lemma lasting_sent (l : list sent_request) : lasting (fun c : Logged Cl => sent c = l).
Proof.
  split; try done. intros c Hc. unfold healthTurn, sbind. simpl. unfold logging.
  destruct (fc_isAlive (inner c)); [done|].
  destruct (fc_reconnect (inner c)) as [[[u|x]|] c1]; simpl; try done. by destruct (fc_syncStatus c1).
Qed.

Lemma deliver_sent (s : SquidFS (Logged Cl)) : sent (client_ (deliver s)) = sent (client_ s).
Proof. exact (deliver_lasting _ s (lasting_sent _) eq_refl). Qed.

Lemma publishing_sent r e (l : list sent_request) :
  publishing r e (fun c : Logged Cl => sent c = l)
    (fun ack c => sent c = l ++ [SentUpdate r (e_data e) (e_version e) ack])
    (fun ack c => sent c = l ++ [SentUpdate r (e_data e) (e_version e) ack; SentRelease r]).
Proof.
  split; try (intros; apply lasting_sent).
  - intros c Hc. simpl. unfold logging. destruct (rs_update r (e_data e) (e_version e) (inner c)) as (m & c' & ->).
    eexists _, _. split; [reflexivity|]. simpl. by rewrite Hc.
  - intros ack c Hc. simpl. unfold logging. destruct (rs_release r (inner c)) as (m & c' & ->).
    eexists _, _. split; [reflexivity|]. simpl. by rewrite Hc, <-app_assoc.
Qed.

(** C12. Closing the last handle for writing of a file with unsaved changes
    sends exactly the buffer, at the version it was fetched with, and then
    gives the lock back, whatever the server answers, as long as it answers;
    the entry goes with the last handle.  No push that deletes the file may
    come meanwhile: such a push drops the entry and nothing is sent
    ([FsFaults.delete_push_drops_writes]). *)
Theorem close_publishes fi r e (s : SquidFS (Logged Cl)) :
  cacheMutex_ s = false -> fi_fh fi <> 0 -> handles s !! fi_fh fi = Some (mkHandle r true) ->
  cache_ s !! r = Some e -> dirty e = true -> lockCount e = 1 -> keeps r (env s) = true ->
  exists ack s', op_release fi s = (Done (Ok (0, set_fh 0 fi)), s')
    /\ sent (client_ s') = sent (client_ s) ++ [SentUpdate r (e_data e) (e_version e) ack; SentRelease r]
    /\ (openCount e = 1 -> cache_ s' !! r = None).
Proof.
  intros Hm Hfh Hh He Hd Hl Hk.
  destruct (release_last _ _ _ fi r e s (publishing_sent r e (sent (client_ s))) eq_refl Hm Hfh Hh He Hd Hl Hk)
    as (ack & s' & Hrel & _ & Hs & Hgone).
  by exists ack, s'.
Qed.
End sending.

Definition demo_logged : SquidFS (Logged Mem) :=
  mkFS (mkLogged demo_mem {[ "a.txt" ]} []) false
       {[ "a.txt" := mkEntry ["n"%char; "e"%char; "w"%char] true 1 1 3 ]} ∅ true false true
       {[ 1 := mkHandle "a.txt" true ]} 2 []
       [[demo_push PUSH_UPDATE_FILE "a.txt"]; [demo_push PUSH_DELETE_FILE "b"]].

Lemma close_publishes_witness :
  exists ack s', op_release (mkInfo O_RDWR 1) demo_logged = (Done (Ok (0, mkInfo O_RDWR 0)), s')
    /\ sent (client_ s') = [] ++ [SentUpdate "a.txt" ["n"%char; "e"%char; "w"%char] 3 ack; SentRelease "a.txt"]
    /\ (1 = 1 -> cache_ s' !! "a.txt" = None).
Proof.
  apply (close_publishes (mkInfo O_RDWR 1) "a.txt" (mkEntry ["n"%char; "e"%char; "w"%char] true 1 1 3) demo_logged);
    vm_compute; (reflexivity || discriminate).
Defined.

(** ** Reopening *)

Section reopen.
Context {Cl : Type} `{FsClient Cl} `{!FileServer Cl}.
Local Abbreviation FS := (SquidFS Cl).
Local Abbreviation never := (fun _ : FS => False).
Implicit Types s : FS.

(** No push about [r] is to come. *)
Definition quiet (r : string) (schedule : list (list event)) : bool :=
  forallb (forallb (fun ev => negb (touches r ev))) schedule.

Lemma quiet_keeps r schedule : quiet r schedule = true -> keeps r schedule = true.
Proof.
  unfold quiet, keeps. intros Hq. apply forallb_forall. intros batch Hb. rewrite forallb_forall in Hq.
  specialize (Hq batch Hb). apply forallb_forall. intros ev Hev. rewrite forallb_forall in Hq.
  specialize (Hq ev Hev). apply negb_true_iff, touches_deletes. by apply negb_true_iff.
Qed.

Lemma lasting_file r d : lasting (keeps_file r d).
Proof. split; intros; [by apply sv_learn|by apply sv_forget|by apply sv_health]. Qed.
Lemma lasting_update r d v : lasting (takes_update r d v).
Proof. split; intros; [by apply su_learn|by apply su_forget|by apply su_health]. Qed.

(** A server that takes the update keeps the file from then on. *)
Lemma publishing_file r e :
  publishing r e (takes_update r (e_data e) (e_version e))
    (fun ack c => ack = true /\ keeps_file r (e_data e) c) (fun ack c => ack = true /\ keeps_file r (e_data e) c).
Proof.
  assert (forall ack : bool, lasting (fun c => ack = true /\ keeps_file r (e_data e) c)) as Hl.
  { intros ack. destruct (lasting_file r (e_data e)) as [H1 H2 H3].
    split; intros; (split; [tauto|]); [apply H1|apply H2|apply H3]; tauto. }
  split; try apply Hl; [apply lasting_update|..].
  - intros c Hc. destruct (sv_update _ _ _ _ Hc) as (m & c' & Hu & Ha & Hf). by exists m, c'.
  - intros ack c [-> Hc]. destruct (sv_release _ _ _ Hc) as (m & c' & Hr & Hf). by exists m, c'.
Qed.

Section fetch.
Context (r : string) (d : list byte).

(** The file is not open and no push about it is to come. *)
Definition unopened s : Prop := quiet r (env s) = true /\ openOf r s = 0.
(** The server has [d]. *)
Definition served (b : bool) s : Prop := At unopened (keeps_file r d) b s.
(** ... and so has the cache. *)
Definition fetched s : Prop := exists e, cache_ s !! r = Some e /\ e_data e = d.

Lemma stable_unopened : stable unopened.
Proof.
  split.
  - intros s [Hq Ho]. destruct (deliver_counts r s (quiet_keeps _ _ Hq)) as [Ho' _]. split; [|by rewrite Ho'].
    unfold deliver. destruct (env s) as [|batch rest] eqn:Es; [by rewrite Es|].
    destruct (events_frame batch (set_env rest s)) as (-> & _ & _ & _). cbn in Hq |- *.
    by apply andb_prop in Hq as [_ Hq].
  - intros s s' E1 E2 [Hq Ho]. unfold unopened, openOf in *. by rewrite E1, E2.
Qed.

Lemma served_touch b s : served b s -> served b (upd_entry r (fun e => e) s).
Proof.
  intros (Hm & Hk & Hq & Ho). split_and!; try done. split; [done|]. by rewrite openOf_upd, openOf_default.
Qed.

Lemma served_lock : total (served false) lock (fun _ => served true) never.
Proof. apply At_lock; [apply stable_unopened|apply lasting_file]. Qed.
Lemma served_unlock b : total (served b) unlock (fun _ => served false) never.
Proof. apply At_unlock, stable_unopened. Qed.

Lemma total_touched {A} (P : FS -> Prop) (k : option CacheEntry -> SO FS A) Q E :
  (forall s, P s -> P (upd_entry r (fun e => e) s)) ->
  (forall e, total (fun s => P s /\ cache_ s !! r = Some e) (k (Some e)) Q E) ->
  total P (do! touch r in let! it := find_entry r in k it) Q E.
Proof.
  intros HP Hk s Hs. unfold touch, find_entry. rewrite sbind_modify, sbind_gets.
  apply HP in Hs. revert Hs. set (s1 := upd_entry r _ s). intros Hs.
  assert (exists e, cache_ s1 !! r = Some e) as [e He] by (eexists; apply lookup_insert_eq).
  rewrite He. by apply Hk.
Qed.

(** The contents are fetched. *)
Lemma served_fetch : total (served true) (fetchIntoCache r) (fun rc s => rc = 0 /\ fetched s) never.
Proof.
  eapply total_bind; [apply served_unlock|intros ?].
  eapply total_bind.
  { apply (At_rpc _ stable_unopened _ (lasting_file r d) _ (fun a c => isAck a.1 = true /\ a.2 = d /\ keeps_file r d c)).
    intros c Hc. destruct (sv_read _ _ _ Hc) as (m & c' & Hr & Ha & Hf). by exists (m, d), c'. }
  intros [ack data]. intros s (Hm & HV & Hi). cbn [fst snd] in HV. destruct HV as (Ha & -> & Hk). revert s Hm Hk Hi.
  enough (total (served false) (do! lock in if negb (isAck ack) then sret (- EIO) else
      do! smodify (upd_entry r (fun e =>
        set_dirty false (set_version (i32 (getUint32 ack FILE_VERSION 0)) (set_data d e)))) in sret 0)
      (fun rc s => rc = 0 /\ fetched s) never) as Ht.
  { intros s Hm Hk Hi. apply (Ht s). done. }
  eapply total_bind; [apply served_lock|intros ?]. rewrite Ha. cbn [negb].
  intros s Hs. cbn. split; [done|]. eexists. split; [apply lookup_insert_eq|done].
Qed.

Lemma served_fetchForOpen w : total (served true) (fetchForOpen r w) (fun rc s => rc = 0 /\ fetched s) never.
Proof.
  apply total_touched; [apply served_touch|]. intros e. change (default newEntry (Some e)) with e.
  destruct (openCount e =? 0) eqn:Hz.
  - eapply total_bind; [eapply total_pre; [apply served_fetch|by intros s [? _]]|intros rc].
    intros s [-> Hf]. cbn. done.
  - intros s [(_ & _ & _ & Ho) He]. unfold openOf in Ho. rewrite He in Ho. cbn in Ho. apply Z.eqb_neq in Hz. done.
Qed.

Lemma served_acquire w :
  total (served true) (acquireForOpen r w) (fun rc s => (rc = 0 -> served true s) /\ (w = false -> rc = 0)) never.
Proof.
  apply total_touched; [apply served_touch|]. intros e.
  eapply total_pre; [|intros s [Hs _]; exact Hs]. destruct w; cbn [andb]; [|by apply total_ret].
  case_match; [|by apply total_ret].
  eapply total_bind; [apply served_unlock|intros ?].
  eapply total_bind.
  { apply (At_rpc _ stable_unopened _ (lasting_file r d) _ (fun _ => keeps_file r d)).
    intros c Hc. destruct (sv_acquire _ _ _ Hc) as (m & c' & Hr & Hf). by exists m, c'. }
  intros ack. eapply total_bind; [apply served_lock|intros ?]. destruct (isAck ack); cbn [negb].
  - apply total_gets. intros [e'|]; apply total_ret; by intros s [Hs _].
  - intros s Hs. cbn. by destruct (cache_ s !! r) as [e'|]; [destruct (openCount e' =? 0)|].
Qed.

Lemma served_open path fi :
  rel path = r -> r <> "" -> Z.land (fi_flags fi) O_TRUNC = 0 ->
  total (served false) (op_open path fi)
    (fun res s => (res.1 = 0 -> fetched s) /\ (Z.land (fi_flags fi) O_ACCMODE = O_RDONLY -> res.1 = 0)) never.
Proof.
  intros Hp Hne Htr. unfold op_open. rewrite Hp, decide_False by done. cbn zeta. rewrite Htr. cbn [Z.eqb negb andb].
  set (w := negb _). intros s Hs. unfold scoped.
  match goal with |- context [let '(_, _) := ?m s in _] =>
    enough (total (served false) m (fun res s => (res.1 = 0 -> fetched s) /\ (w = false -> res.1 = 0)) never) as Ht end.
  { specialize (Ht s Hs). destruct (sbind _ _ s) as [[[a|e]|] s1]; [|done|done]. destruct Ht as [Hf Hw].
    split; [exact Hf|]. intros E. apply Hw. unfold w. by rewrite E. }
  clear s Hs. eapply total_bind; [apply served_lock|intros ?].
  eapply total_bind; [apply served_acquire|intros rc]. destruct (rc =? 0) eqn:Hrc; cbn [negb].
  - apply Z.eqb_eq in Hrc. eapply total_bind; [eapply total_pre; [apply served_fetchForOpen|by intros s [Hs _]; apply Hs]|].
    intros rc2 s [-> (e & He & Hd)]. cbn. split; [|done]. intros _.
    eexists. split; [apply lookup_insert_eq|]. cbn. rewrite lookup_insert_eq. cbn. rewrite He. cbn. by destruct w.
  - apply total_ret. intros s [_ Hw]. cbn. apply Z.eqb_neq in Hrc. split; [done|exact Hw].
Qed.
End fetch.

(** Close and open again.  A server that takes the update of the last handle
    for writing has its contents, and an open that finds no push about the file
    gets them. *)
Lemma close_then_open fi path fi2 e s :
  cacheMutex_ s = false -> fi_fh fi <> 0 -> handles s !! fi_fh fi = Some (mkHandle (rel path) true) ->
  cache_ s !! rel path = Some e -> dirty e = true -> lockCount e = 1 -> openCount e = 1 ->
  keeps (rel path) (env s) = true -> takes_update (rel path) (e_data e) (e_version e) (client_ s) ->
  rel path <> "" -> Z.land (fi_flags fi2) O_TRUNC = 0 ->
  exists s1, op_release fi s = (Done (Ok (0, set_fh 0 fi)), s1) /\ keeps_file (rel path) (e_data e) (client_ s1)
    /\ (quiet (rel path) (env s1) = true ->
        exists res s2, op_open path fi2 s1 = (Done (Ok res), s2)
          /\ (res.1 = 0 -> exists e', cache_ s2 !! rel path = Some e' /\ e_data e' = e_data e)
          /\ (Z.land (fi_flags fi2) O_ACCMODE = O_RDONLY -> res.1 = 0)).
Proof.
  intros Hm Hfh Hh He Hd Hl Ho Hk Hu Hne Htr.
  destruct (release_last _ _ _ fi (rel path) e s (publishing_file _ e) Hu Hm Hfh Hh He Hd Hl Hk)
    as (ack & s1 & Hrel & Hm1 & [_ Hf] & Hgone).
  exists s1. split; [done|]. split; [done|]. intros Hq.
  assert (served (rel path) (e_data e) false s1) as Hs.
  { split; [done|]. split; [done|]. split; [done|]. unfold openOf. by rewrite Hgone. }
  pose proof (served_open (rel path) (e_data e) path fi2 eq_refl Hne Htr s1 Hs) as Ht.
  destruct (op_open path fi2 s1) as [[[res|x]|] s2]; [|done|done]. by exists res, s2.
Qed.
End reopen.
