(* ===== verification/Mounted.v ===== *)
(** * The mounted file system and the cluster behind it

    The whole program put together: the FUSE operations of
    [client/src/squidfs.cpp] on a client ([client/src/client.cpp]) whose requests
    go, byte for byte, to the server of [EndToEnd] with its datanodes, and whose
    answers come back.  [World] is the client's end and the server's end of that
    connection; it is an instance of [FsClient], and the laws of [FileServer],
    which the theorems on closing and opening files rely on, are theorems about
    it.  Pushes reach the file system as the events of its schedule. *)

From S2P Require Import Prelude Text Wire FileManager FileTransfer Protocol StateStore Session ServerState LockManager Replication Linked ClusterConfig Watcher Standby Server Peer Client EndToEnd LockService SquidFS FsClients FsCounts FsFiles FsClose.

(** ** The two ends *)

(** [w_turn] counts the requests; [w_up]: nothing is left unread on the
    connection. *)
Record World (N : Naming) : Type := mkWorld {
  w_client : Client Gate;
  w_server : Server (Link N + ConnectionSession Gate);
  w_turn : nat;
  w_up : bool }.
Arguments mkWorld {N}.
Arguments w_client {N}.
Arguments w_server {N}.
Arguments w_turn {N}.
Arguments w_up {N}.

(** A session whose channel has these bytes to read. *)
Definition feedSession (bs : list byte) (s : ConnectionSession Gate) : ConnectionSession Gate :=
  mkSession (alive_ s) (feed bs (protocol_ s)) (tasks_ s) (readSuspended_ s).
Definition feedClient (bs : list byte) (cl : Client Gate) : Client Gate :=
  set_peer (set_session (feedSession bs <$> session_ (peer cl)) (peer cl)) cl.
Definition clientGate (cl : Client Gate) : Gate :=
  match session_ (peer cl) with Some s => gate (protocol_ s) | None => mkGate [] [] None end.

(** The client does not reconnect: there is one server. *)
Definition noDial : nat -> string -> Z -> option Gate := fun _ _ _ => None.

Section world.
Context {N : Naming}.
(** The client's session on the server and its name, and the server's clock at
    each request. *)
Variables (i : sid) (me : string) (clock : nat -> Z).
Local Abbreviation W := (World N).
Local Abbreviation St := (Server (Link N + ConnectionSession Gate)).
Implicit Types (w : W) (st : St) (cl : Client Gate).

Definition feedServer (bs : list byte) st : St :=
  set_sessions (alter (fun x => match x with inl l => inl l | inr s => inr (feedSession bs s) end) i (sessions st)) st.
Definition serverGate st : Gate :=
  match sessions st !! i with Some (inr s) => gate (protocol_ s) | _ => mkGate [] [] None end.

(** The turn of the server for what the client has sent. *)
Definition serverTurn (now : Z) (bs : list byte) st : St :=
  if decide (bs = []) then feedServer [] st else (serveClient i me now (feedServer bs st)).2.

(** One request: the client's end runs on the answer so far, the server's end
    on what the client sent; when the client would block, again with the longer
    answer. *)
Fixpoint converse {A} (fuel : nat) (op : SO (Client Gate) A) w (reply : list byte) : option (outcome A * W) :=
  match fuel with
  | O => None
  | S fuel =>
      let '(r, cl) := op (feedClient reply (w_client w)) in
      let st := serverTurn (clock (w_turn w)) (early (clientGate cl)) (w_server w) in
      match g_seen (clientGate cl) with
      | Some _ => converse fuel op w (early (serverGate st))
      | None =>
          Some (r, mkWorld cl st (S (w_turn w))
                     (bool_decide (g_in (clientGate cl) = [] /\ serverGate st = mkGate [] reply None)))
      end
  end.

(** A request of the client.  Each needs at most three rounds; one that needs
    more, or comes when bytes were left unread, is not answered. *)
Definition ask {A} (op : SO (Client Gate) A) : SO W A := fun w =>
  if negb (peerAlive (peer (w_client w))) then
    let '(r, cl) := op (w_client w) in (r, mkWorld cl (w_server w) (w_turn w) (w_up w))
  else if negb (w_up w) then (Hang, w)
  else match converse 4 op w [] with
       | Some x => x
       | None => (Hang, mkWorld (w_client w) (w_server w) (w_turn w) false)
       end.

Definition onClient (f : Client Gate -> Client Gate) w : W :=
  mkWorld (f (w_client w)) (w_server w) (w_turn w) (w_up w).

Definition World_fs : FsClient W := {|
  fc_isAlive w := peerAlive (peer (w_client w));
  fc_reconnect w := let '(r, cl) := reconnectClient noDial (w_client w) in
                    (r, mkWorld cl (w_server w) (w_turn w) (w_up w));
  fc_syncStatus := ask Client.syncStatus;
  fc_createFile path data v := ask (Client.createFile noDial path data v);
  fc_readFile path := ask (Client.readFile noDial path);
  fc_updateFile path data v := ask (Client.updateFile noDial path data v);
  fc_deleteFile path := ask (Client.deleteFile noDial path);
  fc_acquireLock path := ask (Client.acquireLock noDial path);
  fc_releaseLock path := ask (Client.releaseLock noDial path);
  fc_getFileVersion path w := Client.getFileVersion path (w_client w);
  fc_getVersionMap w := getVersionMap (w_client w);
  fc_setFileVersion path v := onClient (Client.setFileVersion path v);
  fc_deleteFileVersion path := onClient (Client.deleteFileVersion path) |}.
End world.

(** ** A connection at rest *)

(** A session that waits for nothing, [a] and [b] being the numbers of the next
    frame it sends and receives. *)
Definition at_rest (s : ConnectionSession Gate) (a b : Z) : Prop :=
  alive_ s = true /\ tasks_ s = [] /\ readSuspended_ s = false /\ alive (protocol_ s) = true
  /\ reorderBuffer (protocol_ s) = ∅ /\ nextSendSeq (protocol_ s) = a /\ expectedRecvSeq (protocol_ s) = b.

Lemma rest_fed bs s a b : at_rest s a b -> idle (feedSession bs s) false a b (bs ++ [zero]) [].
Proof.
  intros (Ha & Ht & Hr & Hp & Hb & <- & <-). do 3 (split; [done|]). by apply conn_feed.
Qed.
Lemma idle_rest s a b i o : idle s false a b i o -> at_rest s a b.
Proof. intros (Ha & Ht & Hr & [H1 _ H3 H4 H5 _ _]). by split_and!. Qed.
Lemma idle_gate s u a b i o : idle s u a b (i ++ [zero]) o -> gate (protocol_ s) = mkGate i o None.
Proof. intros (_ & _ & _ & Hc). by eapply gate_of_conn. Qed.

Section rest.
Context {N : Naming}.
Variables (i : sid) (me : string) (clock : nat -> Z).
Local Abbreviation W := (World N).
Local Abbreviation St := (Server (Link N + ConnectionSession Gate)).
Implicit Types (w : W) (st : St) (cl : Client Gate).

Definition joined w (a b : Z) : Prop :=
  w_up w = true /\ in_u32 a /\ in_u32 b
  /\ (exists s, session_ (peer (w_client w)) = Some s /\ at_rest s b a)
  /\ (exists s, sessions (w_server w) !! i = Some (inr s) /\ at_rest s a b).

Lemma client_fed bs w a b : joined w a b -> client_end (feedClient bs (w_client w)) b a (bs ++ [zero]) [].
Proof.
  intros (_ & _ & _ & (s & Hs & Hr) & _). exists (feedSession bs s). split; [|by apply rest_fed].
  simpl. by rewrite Hs.
Qed.

Lemma server_fed bs w a b : joined w a b ->
  server_end (feedServer i bs (w_server w)) i false a b (bs ++ [zero]) []
  /\ only_session i (w_server w) (feedServer i bs (w_server w)).
Proof.
  intros (_ & _ & _ & _ & s & Hs & Hr). split.
  - exists (feedSession bs s). split; [|by apply rest_fed]. simpl. by rewrite lookup_alter_eq, Hs.
  - split; [apply only_sessions_set|]. intros j Hj. simpl. by rewrite lookup_alter_ne.
Qed.

Lemma client_gate cl a b j o : client_end cl a b (j ++ [zero]) o -> clientGate cl = mkGate j o None.
Proof. intros (s & Hs & Hi). unfold clientGate. rewrite Hs. by eapply idle_gate. Qed.
Lemma server_gate st u a b j o : server_end st i u a b (j ++ [zero]) o -> serverGate i st = mkGate j o None.
Proof. intros (s & Hs & Hi). unfold serverGate. rewrite Hs. by eapply idle_gate. Qed.

Lemma joined_alive w a b : joined w a b -> peerAlive (peer (w_client w)) = true /\ w_up w = true.
Proof.
  intros (Hu & _ & _ & (s & Hs & Hr) & _). split; [|done]. unfold peerAlive. rewrite Hs.
  destruct Hr as (Ha & _ & _ & Hp & _). unfold cs_isAlive. by rewrite Ha, Hp.
Qed.

(** A round in which the client waits. *)
Lemma converse_more {A} n (op : SO (Client Gate) A) w reply r cl j o sent rs st :
  op (feedClient reply (w_client w)) = (r, cl) -> clientGate cl = mkGate j o (Some sent) -> sent <> [] ->
  serveClient i me (clock (w_turn w)) (feedServer i sent (w_server w)) = (rs, st) ->
  converse i me clock (S n) op w reply = converse i me clock n op w (early (serverGate i st)).
Proof.
  intros Hop Hg Hne Hs. cbn [converse]. rewrite Hop, Hg. cbn [g_seen].
  change (early (mkGate j o (Some sent))) with sent. unfold serverTurn. rewrite decide_False by done. by rewrite Hs.
Qed.

(** The last round leaves the connection at rest. *)
Lemma converse_done {A} n (op : SO (Client Gate) A) w reply r cl sent st a b a' b' :
  joined w a b -> in_u32 a' -> in_u32 b' ->
  op (feedClient reply (w_client w)) = (r, cl) -> client_end cl b' a' [zero] sent -> sent <> [] ->
  serveClient i me (clock (w_turn w)) (feedServer i sent (w_server w)) = (Done (Ok tt), st) ->
  server_end st i false a' b' [zero] reply ->
  exists w', converse i me clock (S n) op w reply = Some (r, w') /\ w_client w' = cl /\ w_server w' = st
    /\ joined w' a' b'.
Proof.
  intros Hw Ha Hb Hop Hc Hne Hs Hse. pose proof (client_gate cl _ _ [] _ Hc) as Hg.
  pose proof (server_gate st _ _ _ [] _ Hse) as Hgs.
  cbn [converse]. rewrite Hop, Hg. cbn [g_seen]. change (early (mkGate [] sent None)) with sent.
  unfold serverTurn. rewrite decide_False by done. rewrite Hs. cbn [snd].
  eexists. split; [reflexivity|]. do 2 (split; [done|]). rewrite Hgs. split; [by apply bool_decide_eq_true|].
  do 2 (split; [done|]). destruct Hc as (s & Hs1 & Hi1), Hse as (t & Ht1 & Hi2).
  split; [exists s|exists t]; (split; [done|]); by eapply idle_rest.
Qed.

Lemma ask_joined {A} (op : SO (Client Gate) A) w a b x :
  joined w a b -> converse i me clock 4 op w [] = Some x -> ask i me clock op w = x.
Proof.
  intros Hw Hx. destruct (joined_alive w a b Hw) as [Hal Hup]. unfold ask. rewrite Hal, Hup. cbn [negb].
  by rewrite Hx.
Qed.

(** A request that is sent at once and answered at once. *)
Lemma ask_answered {A} (op : SO (Client Gate) A) w a b a' b' req reply (Q : A -> Client Gate -> Prop) (T : St -> Prop) :
  joined w a b -> in_u32 a' -> in_u32 b' -> req <> [] ->
  (forall cl, client_end cl b a [zero] [] -> exists r1 cl1, op cl = (r1, cl1) /\ clientGate cl1 = mkGate [] req (Some req)) ->
  (exists st, serveClient i me (clock (w_turn w)) (feedServer i req (w_server w)) = (Done (Ok tt), st)
     /\ server_end st i false a' b' [zero] reply /\ T st) ->
  (forall cl, client_end cl b a (reply ++ [zero]) [] ->
     exists r cl', op cl = (Done (Ok r), cl') /\ client_end cl' b' a' [zero] req /\ Q r cl') ->
  exists r w', ask i me clock op w = (Done (Ok r), w') /\ joined w' a' b' /\ Q r (w_client w') /\ T (w_server w').
Proof.
  intros Hw Ha Hb Hne H1 (st & Hs & Hse & HT) H2.
  destruct (H1 _ (client_fed [] w a b Hw)) as (r1 & cl1 & Hop1 & Hg1).
  destruct (H2 _ (client_fed reply w a b Hw)) as (r & cl' & Hop2 & Hc2 & HQ).
  destruct (converse_done 2 op w reply _ cl' req st a b a' b' Hw Ha Hb Hop2 Hc2 Hne Hs Hse) as (w' & Hx & Hcl & Hst & Hw').
  exists r, w'. rewrite Hcl, Hst. split; [|done]. apply (ask_joined op w a b _ Hw).
  rewrite (converse_more 3 op w [] r1 cl1 [] req req _ st Hop1 Hg1 Hne Hs), (server_gate st _ _ _ [] _ Hse).
  exact Hx.
Qed.
End rest.

(** ** Rounds in which somebody waits *)

(** What a request leaves on the client's channel, whatever it returns. *)
Lemma call_gate {A} (fn : M Gate A) s u a b j o (G : Gate -> Prop) :
  idle s u a b j o -> (forall p, conn p a b j o -> exists r p', fn p = (r, p') /\ G (gate p')) ->
  exists r s', call fn s = (Done r, s') /\ G (gate (protocol_ s')).
Proof.
  intros Hi Hfn. pose proof (idle_alive _ _ _ _ _ _ Hi) as Hal. destruct Hi as (_ & Ht & _ & Hc).
  destruct (Hfn _ Hc) as (r & p' & Hr & Hg). rewrite call_idle by done. rewrite Hr. eexists _, _. by split.
Qed.

Lemma request_gate (fn : M Gate Message) learn cl a b j o (G : Gate -> Prop) :
  client_end cl a b j o -> (forall m cl, peer (learn m cl) = peer cl) ->
  (forall p, conn p a b j o -> exists r p', fn p = (r, p') /\ G (gate p')) ->
  exists r1 cl1, Client.request noDial fn learn cl = (r1, cl1) /\ G (clientGate cl1).
Proof.
  intros Hc Hl Hfn. pose proof (client_live _ _ _ _ _ Hc) as Hal. destruct Hc as (s & Hs & Hi).
  destruct (call_gate fn s _ _ _ _ _ G Hi Hfn) as (r & s' & Hcall & Hg).
  unfold Client.request. rewrite (sbind_done _ _ _ _ _ (ensureConnected_live cl noDial Hal)). cbn [negb].
  unfold sbind, onSession. rewrite Hs, Hcall. destruct r as [m|e]; eexists _, _; (split; [reflexivity|]);
    unfold clientGate; cbn [snd]; rewrite ?Hl; exact Hg.
Qed.

Lemma read_gate path cl a b j o (G : Gate -> Prop) :
  client_end cl a b j o ->
  (forall p, conn p a b j o -> exists r p', Protocol.readFile path p = (r, p') /\ G (gate p')) ->
  exists r1 cl1, Client.readFile noDial path cl = (r1, cl1) /\ G (clientGate cl1).
Proof.
  intros Hc Hfn. pose proof (client_live _ _ _ _ _ Hc) as Hal. destruct Hc as (s & Hs & Hi).
  destruct (call_gate _ s _ _ _ _ _ G Hi Hfn) as (r & s' & Hcall & Hg).
  unfold Client.readFile. rewrite (sbind_done _ _ _ _ _ (ensureConnected_live cl noDial Hal)). cbn [negb].
  rewrite Hs, Hcall. destruct r as [[m data]|e]; eexists _, _; (split; [reflexivity|]); unfold clientGate; [|exact Hg].
  unfold setVersionFromAck. destruct (negb (isAck m)); [exact Hg|]. destruct (_ =? _); exact Hg.
Qed.

Lemma learn_peer path m (cl : Client Gate) : peer (setVersionFromAck path m cl) = peer cl.
Proof. unfold setVersionFromAck. destruct (negb (isAck m)); [done|]. by destruct (_ =? _). Qed.

(** The first round of a request: it is out, and the client waits. *)
Definition waits_after (req : list byte) (g : Gate) : Prop := g = mkGate [] req (Some req).

Lemma asks_gate {A} (fn : M Gate A) f a b : asks fn f ->
  forall p, conn p a b [zero] [] -> exists r p', fn p = (r, p') /\ waits_after (stampSeq f a) (gate p').
Proof. intros Ha p Hc. exact (Ha p a b Hc). Qed.

Lemma framed_nonempty raw m rest : wellframed raw m -> raw ++ rest <> [].
Proof. intros Hw%wellframed_length. destruct raw; [simpl in Hw; lia|done]. Qed.

(** The server has the request of an update but not the data: it has told the
    client to go on, and waits. *)
Lemma accept_waits (p : SquidProtocol Gate) a b out : in_u32 a -> conn p a b [zero] out ->
  exists p', acceptUpload p = (Ok (false, []), p') /\ alive p' = true
    /\ (let sent := out ++ frameOf (responseAck true) a in gate p' = mkGate [] sent (Some sent)).
Proof.
  intros Ha Hc. destruct (answers_ack true p a b [zero] out Ha Hc) as (p1 & Hr & Hc1).
  pose proof (conn_gate _ _ _ [] _ Hc1) as Hch. pose proof (co_alive _ _ _ _ _ Hc1) as Hal.
  unfold acceptUpload, bind. rewrite Hr. unfold receiveFileData. rewrite Hch. cbn.
  eexists. split; [reflexivity|]. split; [exact Hal|reflexivity].
Qed.

Section server_waits.
Context {N : Naming}.
Variables (i : sid) (me : string).
Local Abbreviation St := (Server (Link N + ConnectionSession Gate)).
Implicit Types st : St.

Lemma handler_waits st m now path v a b :
  opcode m = UPDATE_FILE -> getString m FILE_PATH "" = path -> i32 (getUint32 m FILE_VERSION 0) = v ->
  in_u32 a -> server_end st i true a b [zero] [] ->
  exists st1, handleClientRequest i me m now st = (Done (Ok tt), st1)
    /\ early (serverGate i st1) = frameOf (responseAck true) a.
Proof.
  intros Hop Hpath Hver Ha (s & Hs & Hi). pose proof (idle_alive _ _ _ _ _ _ Hi) as Hal.
  destruct Hi as (Hal1 & Ht & Hu & Hc). destruct (accept_waits (protocol_ s) a b [] Ha Hc) as (p1 & Hacc & Hp1 & Hg1).
  unfold handleClientRequest. rewrite Hop, Hpath, Hver.
  set (s1 := mkSession (alive_ s) p1 (tasks_ s) (readSuspended_ s)).
  set (st1 := set_sessions (<[i := inr s1]> (sessions st)) st).
  assert (on_session i sess_acceptUpload st = (Done (Ok (false, [])), st1)) as Hon.
  { unfold on_session. rewrite Hs. cbn [sess_acceptUpload sum_session either ConnectionSession_session].
    rewrite call_idle by done. rewrite Hacc. by unfold st1, s1; rewrite Ht. }
  rewrite (sbind_done _ _ _ _ _ Hon). cbn [fst]. unfold sbind at 1. cbn [sret]. change (0 <=? -1) with false. cbv iota.
  destruct (frame_ack false 0) as (k & Hk & _); [by vm_compute|].
  destruct (send_after_block k p1 _ _ _ Hg1) as (p2 & Hsend & o2 & Hg2).
  assert (cs_isAlive s1 = true) as Hal2 by (unfold cs_isAlive; cbn; by rewrite Hal1, Hp1).
  unfold on_session. cbn [sessions st1 set_sessions]. rewrite lookup_insert_eq.
  cbn [sess_response sum_session either ConnectionSession_session]. rewrite call_idle by (done || exact Ht).
  cbn [protocol_ s1]. unfold response. rewrite Hk, Hsend. eexists. split; [reflexivity|].
  unfold serverGate. cbn [sessions set_sessions]. rewrite lookup_insert_eq. cbn [protocol_]. by rewrite Hg2.
Qed.

Lemma server_waits st now path v f a b :
  short path = true -> in_i32 v -> in_u32 a -> in_u32 b -> updateFileFormatV path v = Ok f ->
  server_end st i false a b (stampSeq f b ++ [zero]) [] ->
  exists rs st1, serveClient i me now st = (rs, st1) /\ early (serverGate i st1) = frameOf (responseAck true) a.
Proof.
  intros Hsh Hv Ha Hb Hf Hs. destruct (frame_path_version UPDATE_FILE path v b Hsh eq_refl Hb) as (f' & Hf' & Hw).
  assert (f' = f) as -> by (unfold updateFileFormatV in *; congruence).
  destruct (server_takes _ _ _ _ _ _ _ _ Hs Hw eq_refl) as (st1 & Ht & Hs1 & Ho1).
  unfold serveClient. rewrite (sbind_done _ _ _ _ _ Ht). unfold onClientRequest. rewrite sbind_modify.
  destruct (server_suspends true st1 i _ _ _ _ _ Hs1) as [Hs2 Ho2]. set (st2 := set_sessions _ st1) in *.
  destruct (handler_waits st2 (mkMessage UPDATE_FILE 0 b 0 [fieldString FILE_PATH path; fieldUint32 FILE_VERSION (u32 v)])
    now path v a (u32 (b + 1))) as (st3 & Hrun & Hg); [done|by apply getString_field| |done|exact Hs2|].
  { rewrite (getUint32_field _ _ (u32 v)) by done. rewrite u32_small by auto with squid. by apply i32_u32. }
  rewrite (sbind_done _ _ _ _ _ Hrun). eexists _, _. split; [reflexivity|]. rewrite <-Hg.
  unfold serverGate. cbn [sessions set_sessions smodify snd]. rewrite lookup_alter_eq.
  by destruct (sessions st3 !! i) as [[l|s]|].
Qed.
End server_waits.

(** ** The requests *)

Section requests.
Context {N : Naming}.
Variables (i : sid) (me : string) (clock : nat -> Z).
Local Abbreviation W := (World N).
Local Abbreviation St := (Server (Link N + ConnectionSession Gate)).
Local Abbreviation ask := (ask (N := N) i me clock).
Implicit Types (w : W) (st : St) (cl : Client Gate).

(** Asking for a lock and giving it back. *)
Lemma ask_lock w a b r :
  joined i w a b -> short (reqPath r) = true -> is_Some (fileLockMap (w_server w) !! reqPath r) ->
  exists m w' L, ask (lockCall noDial r) w = (Done (Ok m), w') /\ joined i w' (u32 (a + 1)) (u32 (b + 1))
    /\ only_session i (set_locks L (w_server w)) (w_server w') /\ lockStep r me (fileLockMap (w_server w)) L.
Proof.
  intros Hw Hsh Hl. pose proof Hw as (_ & Ha & Hb & _).
  destruct (frame_request r b Hsh Hb) as (f & m0 & Hf & Hwf & _).
  destruct (server_fed i (frameOf (requestFormat r) b) w a b Hw) as [Hse Hos].
  set (st0 := feedServer i _ (w_server w)) in *.
  destruct (serve_lock st0 i me (clock (w_turn w)) r a b [zero] [] Hsh Hl Ha Hb Hse)
    as (st' & Hrun & Hse' & L & HoL & HL).
  destruct (ask_answered i me clock (lockCall noDial r) w a b (u32 (a + 1)) (u32 (b + 1)) (frameOf (requestFormat r) b)
    (frameOf (responseAck (ownerSpec me r (owners (fileLockMap st0))).1) a) (fun _ _ => True)
    (fun st => only_session i (set_locks L st0) st)) as (m & w' & Hask & Hw' & _ & HT); auto with squid.
  - unfold frameOf. rewrite Hf, <-(app_nil_r (stampSeq f b)). by eapply framed_nonempty.
  - intros cl Hc. unfold frameOf. rewrite Hf.
    destruct (request_gate (do* send (requestFormat r) in receive) (fun _ cl => cl) cl b a _ _
      (waits_after (stampSeq f b)) Hc) as (r1 & cl1 & Hop & Hg); [done|by apply asks_gate, asks_receive|].
    exists r1, cl1. split; [|exact Hg]. destruct r; exact Hop.
  - by exists st'.
  - intros cl Hc. destruct (client_asks noDial cl a b r _ _ _ Hsh Ha Hb Hc) as (m & cl' & Hcall & _ & Hc' & _).
    by exists m, cl'.
  - exists m, w', L. split; [done|]. split; [done|]. split; [|done].
    transitivity (set_locks L st0); [|done]. split; [unfold only_sessions; reflexivity|]. intros j Hj. by apply Hos.
Qed.

(** Reading a file. *)
Lemma ask_read w a b path v data :
  joined i w a b -> Linked.named (N := N) path -> transferable data -> in_i32 v -> 0 <= v ->
  holdersOf path (w_server w) <> ∅ -> persistedVersionMap (w_server w) !! path = Some v ->
  holders_are (serving path v data) (w_server w) path ->
  exists m w' a' b', ask (Client.readFile noDial path) w = (Done (Ok (m, data)), w') /\ isAck m = true
    /\ joined i w' a' b' /\ only_sessions (w_server w) (w_server w')
    /\ holders_are (serving path v data) (w_server w') path.
Proof.
  intros Hw Hn Hd Hv Hpos Hne Hver Hall. pose proof Hw as (_ & Ha & Hb & _ & s & Hs & Hr).
  destruct (named_good path Hn) as (_ & Hsh & _).
  destruct (frame_path READ_FILE path b Hsh eq_refl Hb) as (f & Hf & Hwf).
  destruct (server_fed i (readRequest path b) w a b Hw) as [Hse Hos].
  set (st0 := feedServer i _ (w_server w)) in *.
  assert (i ∉ map_values (holdersOf path (w_server w))) as Hi.
  { intros Hin. apply list_elem_of_fmap in Hin as (n & -> & Hn'). destruct (Hall n Hn') as (l & Hl & _). congruence. }
  destruct (serves_read st0 i me (clock (w_turn w)) a b [zero] [] path v data Hn Hd Ha Hb Hne Hver
    (holders_kept _ _ _ _ _ Hos Hi Hall) Hse) as (st' & Hrun & Hse' & Ho' & Hall').
  destruct (ask_answered i me clock (Client.readFile noDial path) w a b (u32 (u32 (a + 1) + 1)) (u32 (b + 1))
    (readRequest path b) (readReply v data a) (fun r _ => isAck r.1 = true /\ r.2 = data)
    (fun st => only_sessions st0 st /\ holders_are (serving path v data) st path)) as (m & w' & Hask & Hw' & [Hack Hm] & HT);
    auto with squid.
  - unfold readRequest, frameOf, readFileFormat. rewrite Hf, <-(app_nil_r (stampSeq f b)). by eapply framed_nonempty.
  - intros cl Hc. unfold readRequest, frameOf, readFileFormat. rewrite Hf.
    exact (read_gate path cl b a _ _ (waits_after (stampSeq f b)) Hc (asks_gate _ f b a (asks_read path f Hf))).
  - by exists st'.
  - intros cl Hc. destruct (client_reads noDial cl a b path v data [zero] [] Hsh Hd Hv Hpos Ha Hb Hc)
      as (m & cl' & Hcall & Hm & Hc' & _). by exists (m, data), cl'.
  - destruct m as [m data']. cbn in Hack, Hm. subst data'. exists m, w', (u32 (u32 (a + 1) + 1)), (u32 (b + 1)).
    split_and!; try done; [|apply HT]. eapply only_sessions_trans; [apply Hos|apply HT].
Qed.

(** An update takes three rounds: the request, the data, the answer. *)
Lemma ask_update w a b path v data :
  let nv := nextVersion path v (w_server w) in
  joined i w a b -> Linked.named (N := N) path -> transferable data -> in_i32 v -> 0 <= nv ->
  distinct_sessions (holdersOf path (w_server w)) -> holders_are (ready path) (w_server w) path ->
  owned (w_server w) i me ->
  exists m w' a' b', ask (Client.updateFile noDial path data v) w = (Done (Ok m), w') /\ isAck m = true
    /\ joined i w' a' b' /\ committed i path nv data (w_server w) (w_server w').
Proof.
  intros nv Hw Hn Hd Hv Hpos Hnd Hall Hown. pose proof Hw as (_ & Ha & Hb & _ & s & Hs & Hr).
  destruct (named_good path Hn) as (_ & Hsh & _).
  destruct (frame_path_version UPDATE_FILE path v b Hsh eq_refl Hb) as (f & Hf & Hwf).
  destruct (frame_ack true a Ha) as (k1 & Hk1 & Hw1).
  assert (i ∉ map_values (holdersOf path (w_server w))) as Hi.
  { intros Hin. apply list_elem_of_fmap in Hin as (n & -> & Hn'). destruct (Hall n Hn') as (l & Hl & _). congruence. }
  destruct (server_fed i (stampSeq f b) w a b Hw) as [Hse1 _].
  destruct (server_waits i me _ (clock (w_turn w)) path v f a b Hsh Hv Ha Hb Hf Hse1) as (rs1 & st1 & Hrun1 & Hg1).
  destruct (server_fed i (updateRequest path v data b) w a b Hw) as [Hse2 Hos].
  set (st0 := feedServer i (updateRequest path v data b) (w_server w)) in *.
  destruct (serves_update st0 i me (clock (w_turn w)) a b [zero] [] path v data Hn Hd Hv Hpos Ha Hb Hnd
    (holders_kept _ _ _ _ _ Hos Hi Hall) Hown Hse2) as (st' & Hrun2 & Hse' & Hcm).
  change (nextVersion path v st0) with nv in *.
  set (op := Client.updateFile noDial path data v).
  assert (updateRequest path v data b = stampSeq f b ++ transferBytes data) as Hreq
    by (unfold updateRequest, frameOf, updateFileFormatV; by rewrite Hf).
  assert (updateRequest path v data b <> []) as Hne by (rewrite Hreq; by eapply framed_nonempty).
  destruct (request_gate (updateFileData path v data) (setVersionFromAck path) _ _ _ _ _ (waits_after (stampSeq f b))
    (client_fed i [] w a b Hw) (learn_peer path)) as (r1 & cl1 & Hop1 & Hc1); [by apply asks_gate, asks_upload|].
  destruct (request_gate (updateFileData path v data) (setVersionFromAck path) _ _ _ _ _
    (waits_after (updateRequest path v data b)) (client_fed i (stampSeq k1 a) w a b Hw) (learn_peer path))
    as (r2 & cl2 & Hop2 & Hc2).
  { intros p Hp. rewrite Hreq. exact (upload_waits _ f data p b a _ _ Hf Hd Hw1 eq_refl eq_refl Hp). }
  destruct (client_updates noDial _ a b path v nv data [zero] [] Hsh Hd (i32_range _) Hpos Ha Hb
    (client_fed i (updateReply nv a) w a b Hw)) as (m & cl' & Hop3 & Hack & Hc3 & _).
  destruct (converse_done i me clock 1 op w (updateReply nv a) _ cl' _ st' a b _ _ Hw (u32_range _) (u32_range _)
    Hop3 Hc3 Hne Hrun2 Hse') as (w' & Hx & _ & Hst & Hw').
  exists m, w', (u32 (u32 (a + 1) + 1)), (u32 (b + 1)). rewrite Hst. split_and!; try done.
  - apply (ask_joined i me clock op w a b _ Hw).
    assert (stampSeq f b <> []) as Hne1 by (rewrite <-(app_nil_r (stampSeq f b)); by eapply framed_nonempty).
    rewrite (converse_more i me clock 3 op w [] r1 cl1 _ _ _ rs1 st1 Hop1 Hc1 Hne1 Hrun1), Hg1.
    unfold frameOf. rewrite Hk1.
    rewrite (converse_more i me clock 2 op w _ r2 cl2 _ _ _ _ st' Hop2 Hc2 Hne Hrun2).
    rewrite (server_gate i st' _ _ _ [] _ Hse'). exact Hx.
  - by eapply committed_from.
Qed.
End requests.

(** ** The server of a mounted file system *)

Section file_server.
Context {N : Naming}.
Variables (i : sid) (me : string) (clock : nat -> Z).
Local Abbreviation W := (World N).
Local Abbreviation St := (Server (Link N + ConnectionSession Gate)).
Local Abbreviation ask := (ask (N := N) i me clock).
Implicit Types (w : W) (st : St).

Definition in_touch w : Prop := exists a b, joined i w a b.

(** The server can take an update of [p]: the file is in its maps, and every
    holder is in step and can open it. *)
Definition can_update (p : string) (d : list byte) (v : Z) w : Prop :=
  let st := w_server w in
  in_touch w /\ Linked.named (N := N) p /\ transferable d /\ in_i32 v /\ 0 <= nextVersion p v st
  /\ holdersOf p st <> ∅ /\ distinct_sessions (holdersOf p st) /\ holders_are (ready p) st p
  /\ owned st i me /\ is_Some (fileLockMap st !! p).

(** Every holder of [p] has [d] at the version the server has recorded. *)
Definition has_file (p : string) (d : list byte) w : Prop :=
  let st := w_server w in
  in_touch w /\ Linked.named (N := N) p /\ transferable d /\ holdersOf p st <> ∅ /\ is_Some (fileLockMap st !! p)
  /\ exists v, 0 <= v /\ in_i32 v /\ persistedVersionMap st !! p = Some v /\ holders_are (serving p v d) st p.

Lemma in_touch_client w w' :
  w_server w' = w_server w -> w_up w' = w_up w -> session_ (peer (w_client w')) = session_ (peer (w_client w)) ->
  in_touch w -> in_touch w'.
Proof. intros E1 E2 E3 (a & b & Hw). exists a, b. unfold joined in *. by rewrite E1, E2, E3. Qed.

(** Whatever happens to the client's version map. *)
Lemma on_client_file p d w f : (forall cl, peer (f cl) = peer cl) -> has_file p d w -> has_file p d (onClient f w).
Proof. intros Hf [Ht Hr]. split; [|exact Hr]. apply (in_touch_client w); [done..| |done]. simpl. by rewrite Hf. Qed.
Lemma on_client_update p d v w f : (forall cl, peer (f cl) = peer cl) -> can_update p d v w -> can_update p d v (onClient f w).
Proof. intros Hf [Ht Hr]. split; [|exact Hr]. apply (in_touch_client w); [done..| |done]. simpl. by rewrite Hf. Qed.

(** The health monitor leaves a live client alone. *)
Lemma health_idle w : in_touch w -> @healthTurn _ (World_fs i me clock) w = w.
Proof. intros (a & b & Hw). unfold healthTurn. simpl. by rewrite (proj1 (joined_alive i w a b Hw)). Qed.

Lemma update_file p d v w : can_update p d v w ->
  exists m w', ask (Client.updateFile noDial p d v) w = (Done (Ok m), w') /\ isAck m = true /\ has_file p d w'.
Proof.
  intros ((a & b & Hw) & Hn & Hd & Hv & Hpos & Hne & Hnd & Hall & Hown & Hl).
  destruct (ask_update i me clock w a b p v d Hw Hn Hd Hv Hpos Hnd Hall Hown)
    as (m & w' & a' & b' & Hask & Hack & Hw' & [Hver Hh Hst _ Hlk]).
  exists m, w'. split; [done|]. split; [done|]. unfold has_file. rewrite Hlk, Hver.
  assert (holdersOf p (w_server w') = holdersOf p (w_server w)) as Eh by (unfold holdersOf; by rewrite Hh).
  split; [by exists a', b'|]. rewrite Eh. do 4 (split; [done|]). exists (nextVersion p v (w_server w)).
  split; [done|]. split; [apply i32_range|]. split; [apply lookup_insert_eq|].
  intros n Hn'. rewrite Eh in Hn'. destruct (Hst n Hn') as (l & l' & _ & Hl' & Hs & Hheld & _). by exists l'.
Qed.

Lemma read_file p d w : has_file p d w ->
  exists m w', ask (Client.readFile noDial p) w = (Done (Ok (m, d)), w') /\ isAck m = true /\ has_file p d w'.
Proof.
  intros ((a & b & Hw) & Hn & Hd & Hne & Hl & v & Hpos & Hv & Hver & Hall).
  destruct (ask_read i me clock w a b p v d Hw Hn Hd Hv Hpos Hne Hver Hall)
    as (m & w' & a' & b' & Hask & Hack & Hw' & Hos & Hall').
  exists m, w'. split; [done|]. split; [done|]. unfold only_sessions in Hos.
  assert (holdersOf p (w_server w') = holdersOf p (w_server w)) as Eh by (unfold holdersOf; by rewrite Hos).
  split; [by exists a', b'|]. rewrite Eh. do 3 (split; [done|]). split; [by rewrite Hos|].
  exists v. split_and!; [done|done|by rewrite Hos|exact Hall'].
Qed.

Lemma lock_file r d w : has_file (reqPath r) d w ->
  exists m w', ask (lockCall noDial r) w = (Done (Ok m), w') /\ has_file (reqPath r) d w'.
Proof.
  intros ((a & b & Hw) & Hn & Hd & Hne & Hl & v & Hpos & Hv & Hver & Hall).
  destruct (named_good (reqPath r) Hn) as (_ & Hsh & _).
  destruct (ask_lock i me clock w a b r Hw Hsh Hl) as (m & w' & L & Hask & Hw' & Ho & [_ HL]).
  exists m, w'. split; [done|].
  assert (i ∉ map_values (holdersOf (reqPath r) (w_server w))) as Hi.
  { pose proof Hw as (_ & _ & _ & _ & s & Hs & _).
    intros Hin. apply list_elem_of_fmap in Hin as (n & -> & Hn'). destruct (Hall n Hn') as (l & Hl' & _). congruence. }
  pose proof (holders_kept _ (set_locks L (w_server w)) _ _ _ Ho Hi Hall) as Hall'.
  destruct Ho as [Hos _]. unfold only_sessions in Hos.
  assert (holdersOf (reqPath r) (w_server w') = holdersOf (reqPath r) (w_server w)) as Eh
    by (unfold holdersOf; by rewrite Hos).
  split; [by eexists _, _|]. rewrite Eh. do 3 (split; [done|]). split.
  - rewrite Hos. apply elem_of_dom. cbn [fileLockMap set_locks set_sessions]. rewrite HL. by apply elem_of_dom.
  - exists v. split_and!; [done|done|by rewrite Hos|exact Hall'].
Qed.

(** The laws of [FileServer], of the program. *)
Definition World_server : @FileServer W (World_fs i me clock).
Proof.
  refine (@Build_FileServer W (World_fs i me clock) can_update has_file _ _ _ _ _ _ _ _ _ _).
  - intros p d v w Hw. exact (update_file p d v w Hw).
  - intros p d w Hw. exact (read_file p d w Hw).
  - intros p d w Hw. exact (lock_file (AskLock p) d w Hw).
  - intros p d w Hw. exact (lock_file (GiveLock p) d w Hw).
  - intros p d q v w. by apply on_client_file.
  - intros p d q w. by apply on_client_file.
  - intros p d w Hw. by rewrite health_idle by apply Hw.
  - intros p d v q u w. by apply on_client_update.
  - intros p d v q w. by apply on_client_update.
  - intros p d v w Hw. by rewrite health_idle by apply Hw.
Defined.
End file_server.

(** C4. Close-to-open consistency, of the whole program.  A file system is
    mounted on a client whose requests go over its connection to the server and
    from there to the datanodes, all of them running the program.  The last
    handle of a file with unsaved changes is closed.  If the server can take
    the update (the connection is at rest, the file is named without white
    space and is in the lock table, it has holders and each of them is in step
    and can open it, the contents fit a transfer, the next version is not
    negative) and no delete of the file is pushed meanwhile, then the close
    returns 0 and afterwards every holder has the buffer on its disk at the
    recorded version.  If then no change of the file is pushed, the next open
    returns, an open for reading with 0, and every open that returns 0 finds
    in the cache exactly the buffer that was closed. *)
Theorem close_to_open {N : Naming} (i : sid) (me : string) (clock : nat -> Z) fi path fi2 e (s : SquidFS (World N)) :
  let fs := World_fs i me clock in
  cacheMutex_ s = false -> fi_fh fi <> 0 -> handles s !! fi_fh fi = Some (mkHandle (rel path) true) ->
  cache_ s !! rel path = Some e -> dirty e = true -> lockCount e = 1 -> openCount e = 1 ->
  keeps (rel path) (env s) = true -> can_update i me (rel path) (e_data e) (e_version e) (client_ s) ->
  rel path <> "" -> Z.land (fi_flags fi2) O_TRUNC = 0 ->
  exists s1, @op_release _ fs fi s = (Done (Ok (0, set_fh 0 fi)), s1)
    /\ has_file i (rel path) (e_data e) (client_ s1)
    /\ (quiet (rel path) (env s1) = true ->
        exists res s2, @op_open _ fs path fi2 s1 = (Done (Ok res), s2)
          /\ (res.1 = 0 -> exists e', cache_ s2 !! rel path = Some e' /\ e_data e' = e_data e)
          /\ (Z.land (fi_flags fi2) O_ACCMODE = O_RDONLY -> res.1 = 0)).
Proof.
  intros fs Hm Hfh Hh He Hd Hl Ho Hk Hu Hne Htr.
  exact (@close_then_open _ fs (World_server i me clock) fi path fi2 e s Hm Hfh Hh He Hd Hl Ho Hk Hu Hne Htr).
Qed.

(** *** [bob] has [a.txt] open and has written to it *)

Definition demo_gate : ConnectionSession Gate := newSession (mkGate [] [] None) "CLIENT" "bob".

Definition demo_cluster : Server (Link demo_names + ConnectionSession Gate) :=
  let both := {["dn1" := 1%positive; "dn2" := 2%positive]} in
  ServerState.mkServer 3 0 both {["bob" := 11%positive]} {["a.txt" := newFileLock "a.txt" 0]} {["a.txt" := both]}
    {["a.txt" := 4]} 0 None demo_disk
    {[1%positive := inl demo_link; 2%positive := inl demo_link; 11%positive := inr demo_gate]} [].

Definition demo_world : World demo_names :=
  mkWorld (mkClientState (set_session (Some demo_gate) (newPeer "" 0 "CLIENT" "bob")) {["a.txt" := 4]} [])
    demo_cluster 0 true.

Definition demo_written : CacheEntry := mkEntry demo_data true 1 1 4.
Definition demo_mounted : SquidFS (World demo_names) :=
  mkFS demo_world false {["a.txt" := demo_written]} ∅ true false true {[1 := mkHandle "a.txt" true]} 2 []
    [[demo_push PUSH_DELETE_FILE "b.txt"]].

Lemma demo_can_update : can_update 11%positive "bob" "a.txt" demo_data 4 demo_world.
Proof.
  split.
  { exists 0, 0. split; [reflexivity|]. split; [unfold in_u32; lia|]. split; [unfold in_u32; lia|].
    split; exists demo_gate; (split; [reflexivity|]); by split_and!. }
  split; [apply (bool_decide_unpack _); vm_compute; exact I|].
  split; [vm_compute; discriminate|]. split; [unfold in_i32; lia|]. split; [vm_compute; discriminate|].
  split; [apply (bool_decide_unpack _); vm_compute; exact I|].
  split; [apply (bool_decide_unpack _); vm_compute; exact I|]. split; [|split].
  - intros n Hn. exists demo_link. split; [|apply (bool_decide_unpack _); vm_compute; exact I].
    change (map_entries (holdersOf "a.txt" (w_server demo_world))) with [("dn1", 1%positive); ("dn2", 2%positive)] in Hn.
    apply elem_of_cons in Hn as [->|[->|[]%elem_of_nil]%elem_of_cons]; reflexivity.
  - split; [|apply not_elem_of_nil].
    intros name Hname. change (({["bob" := 11%positive]} : gmap string sid) !! name = Some 11%positive) in Hname.
    by apply lookup_singleton_Some in Hname as [-> _].
  - eexists. reflexivity.
Defined.

Lemma close_to_open_witness :
  let fs := World_fs 11%positive "bob" (fun _ => 0) in
  exists s1, @op_release _ fs (mkInfo O_RDWR 1) demo_mounted = (Done (Ok (0, mkInfo O_RDWR 0)), s1)
    /\ has_file 11%positive "a.txt" demo_data (client_ s1)
    /\ (quiet "a.txt" (env s1) = true ->
        exists res s2, @op_open _ fs "/a.txt" (mkInfo O_RDONLY 0) s1 = (Done (Ok res), s2)
          /\ (res.1 = 0 -> exists e', cache_ s2 !! "a.txt" = Some e' /\ e_data e' = demo_data)
          /\ (Z.land O_RDONLY O_ACCMODE = O_RDONLY -> res.1 = 0)).
Proof.
  apply (close_to_open 11%positive "bob" (fun _ => 0) (mkInfo O_RDWR 1) "/a.txt" (mkInfo O_RDONLY 0) demo_written demo_mounted).
  - reflexivity.
  - discriminate.
  - reflexivity.
  - reflexivity.
  - reflexivity.
  - reflexivity.
  - reflexivity.
  - reflexivity.
  - exact demo_can_update.
  - discriminate.
  - reflexivity.
Defined.

(** The same, computed: the close, and the open that reads the file back. *)
Example mounted_demo :
  let fs := World_fs 11%positive "bob" (fun _ => 0) in
  let '(r1, s1) := @op_release _ fs (mkInfo O_RDWR 1) demo_mounted in
  let '(r2, s2) := @op_open _ fs "/a.txt" (mkInfo O_RDONLY 0) s1 in
  match r1, r2 with
  | Done (Ok (rc1, _)), Done (Ok (rc2, _)) =>
      (rc1 =? 0) && (rc2 =? 0)
      && bool_decide ((e_data <$> cache_ s2 !! "a.txt") = Some demo_data)
      && bool_decide (cache_ s1 !! "a.txt" = None)
  | _, _ => false
  end = true.
Proof. vm_compute. reflexivity. Qed.
