(* ===== verification/FsFaults.v ===== *)
(** * Where the file system loses data or locks

    Executions of [SquidFS] in which a write is reported as done and lost, or a
    lock is taken and never given back. *)

From S2P Require Import Prelude Text Wire FileManager FileTransfer Protocol StateStore Session ServerState LockManager Replication ClusterConfig Watcher Standby Server Peer Client SquidFS FsClients FsCounts FsFiles FsClose.

(** A push that deletes [r] is handled: its entry is gone. *)
Lemma delete_push_erases {Cl} `{FsClient Cl} r m d (s : SquidFS Cl) :
  deletes r (RunPushHandler m d) = true -> handlerSet s = true ->
  cache_ (runEvent (RunPushHandler m d) s) = delete r (cache_ s).
Proof.
  intros Hd Hh. cbn [deletes] in Hd. simpl. rewrite Hh. unfold pushHandler.
  destruct (opcode m); try done. apply bool_decide_eq_true in Hd. rewrite Hd.
  case_decide; [done|]. unfold invalidatePath, erase. simpl. by destruct (fuse_ s).
Qed.

(** A schedule that has run out. *)
Lemma deliver_nil {Cl} `{FsClient Cl} (s : SquidFS Cl) : env s = [] -> deliver s = s.
Proof. intros He. unfold deliver. by rewrite He. Qed.

Lemma rpc_done {Cl} `{FsClient Cl} {A} (m : SO Cl A) s a c' :
  m (client_ (deliver s)) = (Done (Ok a), c') -> rpc m s = (Done (Ok a), set_client c' (deliver s)).
Proof. intros E. unfold rpc. by rewrite E. Qed.

Lemma lock_done {Cl} `{FsClient Cl} (s : SquidFS Cl) :
  cacheMutex_ s = false -> lock s = (Done (Ok tt), set_mutex true (deliver s)).
Proof. intros E. unfold lock. by rewrite E. Qed.

Lemma fetchIntoCache_done {Cl} `{FsClient Cl} r ack d c' (s : SquidFS Cl) :
  env s = [] -> fc_readFile r (client_ s) = (Done (Ok (ack, d)), c') -> isAck ack = true ->
  fetchIntoCache r s = (Done (Ok 0), upd_entry r (fun e =>
      set_dirty false (set_version (i32 (getUint32 ack FILE_VERSION 0)) (set_data d e)))
    (set_mutex true (set_client c' (set_mutex false s)))).
Proof.
  intros He Hr Ha. unfold fetchIntoCache, unlock. rewrite sbind_modify.
  assert (deliver (set_mutex false s) = set_mutex false s) as Hd by (by apply deliver_nil).
  rewrite (sbind_done _ _ _ _ _ (rpc_done (fc_readFile r) (set_mutex false s) (ack, d) c' ltac:(by rewrite Hd))).
  rewrite Hd. rewrite (sbind_done _ _ _ _ _ (lock_done (set_client c' (set_mutex false s)) eq_refl)).
  rewrite deliver_nil by done. cbn beta iota. by rewrite Ha.
Qed.

(** ** Writes *)

(** A server that refuses the update of a close (another client was faster, or
    there is no quorum): the close still returns 0 and the buffer is dropped
    with the entry, as [close_publishes] says for every answer. *)
Definition demo_refusing : SquidFS (Logged Mem) :=
  set_client (mkLogged (mkMem (m_files demo_mem) (m_versions demo_mem) [false]) {[ "a.txt" ]} []) demo_logged.

Example refused_flush_is_lost :
  let '(res, s) := op_release (mkInfo O_RDWR 1) demo_refusing in
  res = Done (Ok (0, mkInfo O_RDWR 0)) /\ cache_ s !! "a.txt" = None
  /\ sent (client_ s) = [SentUpdate "a.txt" ["n"%char; "e"%char; "w"%char] 3 false; SentRelease "a.txt"]
  /\ m_files (inner (client_ s)) = m_files demo_mem.
Proof. vm_compute. repeat split. Qed.

(** A push that deletes a file while it is open for writing takes the
    buffer with it: the close that follows sends no update, only the release
    of the lock, and returns 0. *)
Theorem delete_push_drops_writes {Cl} `{FsClient Cl} `{!Responsive Cl}
    fi r m d rest (s : SquidFS (Logged Cl)) :
  cacheMutex_ s = false -> fi_fh fi <> 0 -> handles s !! fi_fh fi = Some (mkHandle r true) ->
  handlerSet s = true -> env s = [RunPushHandler m d] :: rest -> deletes r (RunPushHandler m d) = true ->
  exists s', op_release fi s = (Done (Ok (0, set_fh 0 fi)), s')
    /\ sent (client_ s') = sent (client_ s) ++ [SentRelease r].
Proof.
  intros Hm Hfh Hh Hset Henv Hdel. unfold op_release. destruct (fi_fh fi =? 0) eqn:Hz; [to_prop; done|].
  rewrite sbind_gets, Hh. cbn [h_path h_writable]. rewrite sbind_modify. set (s1 := set_handles _ _ s).
  assert (cache_ (deliver s1) !! r = None) as Hc.
  { unfold deliver. cbn [env s1 set_handles]. rewrite Henv. unfold runEvents. cbn [fold_left].
    rewrite (delete_push_erases r) by done. apply lookup_delete_eq. }
  assert (sent (client_ (deliver s1)) = sent (client_ s)) as Hs1 by (by rewrite deliver_sent).
  assert (cacheMutex_ (deliver s1) = false) as Hm1 by (by rewrite deliver_mutex).
  unfold scoped, sbind at 1, lock at 1. cbn [cacheMutex_ s1 set_handles]. rewrite Hm. fold s1.
  unfold find_entry. rewrite sbind_gets. cbn [cache_ set_mutex]. rewrite Hc.
  set (s2 := set_mutex false (set_mutex true (deliver s1))).
  unfold sbind at 1, unlock at 1, sbind at 1, smodify at 1. fold s2. unfold sbind at 1, rpc. cbn [fc_releaseLock Logged_fs].
  unfold logging. destruct (rs_release r (inner (client_ (deliver s2)))) as (ack & c' & ->).
  unfold lock. cbn [cacheMutex_ set_client]. rewrite deliver_mutex. cbn [cacheMutex_ s2 set_mutex].
  eexists. split; [reflexivity|]. cbn [client_ set_mutex]. rewrite deliver_sent. cbn [client_ set_client sent].
  rewrite deliver_sent. cbn [client_ s2 set_mutex]. by rewrite Hs1.
Qed.

Definition demo_deleted : SquidFS (Logged Mem) :=
  set_env [[demo_push PUSH_DELETE_FILE "a.txt"]] demo_logged.

Lemma delete_push_drops_writes_witness :
  exists s', op_release (mkInfo O_RDWR 1) demo_deleted = (Done (Ok (0, mkInfo O_RDWR 0)), s')
    /\ sent (client_ s') = [] ++ [SentRelease "a.txt"].
Proof.
  apply (delete_push_drops_writes (mkInfo O_RDWR 1) "a.txt"
           (mkMessage PUSH_DELETE_FILE 0 0 0 [fieldString FILE_PATH "a.txt"]) ["z"%char] [] demo_deleted);
    vm_compute; (reflexivity || discriminate).
Defined.

(** A read of a file whose buffer is empty is answered from the server,
    and what is fetched replaces the buffer and clears [dirty]: after an open
    with O_TRUNC or a truncation to 0, a read before the first write brings the
    old contents back, and the truncation is never sent. *)
Theorem empty_buffer_refetched {Cl} `{FsClient Cl} path size off e ack d c' (s : SquidFS Cl) :
  cacheMutex_ s = false -> env s = [] -> cache_ s !! rel path = Some e -> e_data e = [] ->
  fc_readFile (rel path) (client_ s) = (Done (Ok (ack, d)), c') -> isAck ack = true ->
  0 <= off <= PTRDIFF_MAX -> 0 <= size -> Z.of_nat (length d) <= PTRDIFF_MAX ->
  let bs := pread d (Z.to_nat off) (Z.to_nat size) in
  exists s' e', op_read path size off s = (Done (Ok (i32 (Z.of_nat (length bs)), bs)), s')
    /\ cache_ s' !! rel path = Some e' /\ e_data e' = d /\ dirty e' = false
    /\ lockCount e' = lockCount e /\ openCount e' = openCount e.
Proof.
  intros Hm Henv He Hd Hrd Hack Hoff Hsz Hlen bs. set (r := rel path) in *.
  set (e' := mkEntry d false (lockCount e) (openCount e) (i32 (getUint32 ack FILE_VERSION 0))).
  set (s1 := set_mutex true s).
  assert (exists s2, fetchForRead r s1 = (Done (Ok 0), s2) /\ cache_ s2 !! r = Some e') as (s2 & E2 & He2).
  { unfold fetchForRead, find_entry. rewrite sbind_gets. change (cache_ s1) with (cache_ s).
    rewrite He, decide_True by done. unfold touch. rewrite sbind_modify.
    rewrite (fetchIntoCache_done r ack d c') by done. eexists. split; [reflexivity|].
    cbn. rewrite !lookup_insert_eq. cbn. by rewrite He. }
  exists (set_mutex false s2), e'. split; [|done].
  unfold op_read. fold r. unfold scoped. rewrite (sbind_done _ _ _ _ _ (lock_done s Hm)), (deliver_nil s Henv).
  fold s1. rewrite (sbind_done _ _ _ _ _ E2). cbn [Z.eqb negb].
  by rewrite (copyFromEntry_ok r size off e' s2 He2 Hoff Hsz Hlen).
Qed.

Definition demo_truncated : SquidFS Mem :=
  mkFS demo_mem false {[ "a.txt" := mkEntry [] true 1 1 3 ]} ∅ true false true
       {[ 1 := mkHandle "a.txt" true ]} 2 [] [].

Lemma empty_buffer_refetched_witness :
  exists s' e', op_read "/a.txt" 4096 0 demo_truncated
      = (Done (Ok (i32 (Z.of_nat (length (pread ["x"%char; "y"%char] 0 (Z.to_nat 4096)))),
                   pread ["x"%char; "y"%char] 0 (Z.to_nat 4096))), s')
    /\ cache_ s' !! "a.txt" = Some e' /\ e_data e' = ["x"%char; "y"%char] /\ dirty e' = false
    /\ lockCount e' = 1 /\ openCount e' = 1.
Proof.
  apply (empty_buffer_refetched "/a.txt" 4096 0 (mkEntry [] true 1 1 3) (node_ack 3) ["x"%char; "y"%char]
           demo_mem demo_truncated); try reflexivity; unfold PTRDIFF_MAX; simpl; lia.
Defined.

(** ** Locks *)

(** When a push that deletes the file is handled between the grant of the
    lock and the re-lock of [op_open], the open fails with EIO, no handle is
    made, and the lock that was granted is not given back. *)
Theorem open_leaks_lock {Cl} `{FsClient Cl} path fi m d ack c' (s : SquidFS (Logged Cl)) :
  let r := rel path in
  cacheMutex_ s = false -> r <> "" -> Z.land (fi_flags fi) O_ACCMODE <> O_RDONLY -> lockOf r s = 0 ->
  handlerSet s = true -> env s = [[]; []; [RunPushHandler m d]] -> deletes r (RunPushHandler m d) = true ->
  fc_acquireLock r (inner (client_ s)) = (Done (Ok ack), c') -> isAck ack = true ->
  exists s', op_open path fi s = (Done (Ok (- EIO, fi)), s')
    /\ handles s' = handles s /\ r ∈ held (client_ s') /\ sent (client_ s') = sent (client_ s).
Proof.
  intros r Hm Hne Hw Hl Hset Henv Hdel Hacq Hack. unfold op_open. fold r. rewrite decide_False by done.
  destruct (Z.land (fi_flags fi) O_ACCMODE =? O_RDONLY) eqn:Hacc; [to_prop; done|]. cbn [negb].
  unfold scoped. rewrite (sbind_done _ _ _ _ _ (lock_done s Hm)). unfold deliver. rewrite Henv.
  unfold runEvents at 1. cbn [fold_left]. set (s1 := set_mutex true (set_env _ s)).
  set (s2 := set_mutex false (upd_entry r (fun e => e) s1)).
  set (c1 := mkLogged c' ({[ r ]} ∪ held (client_ s)) (sent (client_ s))).
  set (s3 := set_client c1 (set_env [[RunPushHandler m d]] s2)).
  assert (deliver s2 = set_env [[RunPushHandler m d]] s2) as Hd2 by reflexivity.
  assert (rpc (fc_acquireLock r) s2 = (Done (Ok ack), s3)) as Hrpc.
  { rewrite (rpc_done _ _ ack c1); [by rewrite Hd2|]. rewrite Hd2. cbn. unfold logging.
    change (inner (client_ (set_env _ s2))) with (inner (client_ s)). rewrite Hacq. cbn. by rewrite Hack. }
  assert (acquireForOpen r true s1 = (Done (Ok (- EIO)), set_mutex true (deliver s3))) as Hacqd.
  { unfold acquireForOpen, touch, find_entry, unlock. rewrite sbind_modify, sbind_gets.
    change (cache_ (upd_entry r (fun e => e) s1) !! r)
      with (<[r := default newEntry (cache_ s !! r)]> (cache_ s) !! r).
    rewrite lookup_insert_eq. change (default newEntry (Some ?e)) with e. rewrite lockOf_default, Hl.
    cbn [Z.eqb andb]. rewrite sbind_modify. fold s2. rewrite (sbind_done _ _ _ _ _ Hrpc).
    rewrite (sbind_done _ _ _ _ _ (lock_done s3 eq_refl)). rewrite Hack. cbn [negb]. rewrite sbind_gets.
    assert (cache_ (set_mutex true (deliver s3)) !! r = None) as ->; [|done].
    change (deliver s3) with (runEvent (RunPushHandler m d) (set_env [] s3)). cbn [cache_ set_mutex].
    rewrite (delete_push_erases r) by done. apply lookup_delete_eq. }
  rewrite (sbind_done _ _ _ _ _ Hacqd). cbn [EIO Z.opp Z.eqb negb].
  eexists. split; [reflexivity|]. change (deliver s3) with (runEvents [RunPushHandler m d] (set_env [] s3)).
  destruct (events_frame [RunPushHandler m d] (set_env [] s3)) as (_ & _ & Hh & _). cbn [handles client_ set_mutex].
  rewrite Hh. split; [done|]. unfold runEvents. cbn [fold_left runEvent].
  change (handlerSet (set_env [] s3)) with (handlerSet s). rewrite Hset.
  destruct (pushHandler_frame m d (set_env [] s3)) as (-> & _). cbn. split; [set_solver|done].
Qed.

Lemma open_leaks_lock_witness :
  exists s', op_open "/b" (mkInfo O_RDWR 0)
      (demo_fs (mkLogged demo_mem ∅ []) [[]; []; [demo_push PUSH_DELETE_FILE "b"]])
      = (Done (Ok (- EIO, mkInfo O_RDWR 0)), s')
    /\ handles s' = ∅ /\ "b" ∈ held (client_ s') /\ sent (client_ s') = [].
Proof.
  apply (open_leaks_lock "/b" (mkInfo O_RDWR 0) (mkMessage PUSH_DELETE_FILE 0 0 0 [fieldString FILE_PATH "b"])
           ["z"%char] makeAck demo_mem
           (demo_fs (mkLogged demo_mem ∅ []) [[]; []; [demo_push PUSH_DELETE_FILE "b"]]));
    vm_compute; (reflexivity || discriminate).
Defined.
