(* ===== verification/FsDirs.v ===== *)
(** * Directories

    Directories exist by the paths of the files below them and by [mkdir].  A
    listing names exactly the children, every name it gives can be looked up,
    and every file is listed by its directory; a created directory shows up in
    both.  What [rmdir] does is nothing at all. *)

From S2P Require Import Prelude Text Wire FileManager FileTransfer Protocol StateStore Session ServerState LockManager Replication ClusterConfig Watcher Standby Server Peer Client SquidFS FsClients FsCounts FsFiles FsClose FsFaults.

(** ** Prefixes *)

Lemma substring_all s n : String.length s = n -> String.substring 0 n s = s.
Proof. intros <-. induction s as [|c s IH]; [done|]. simpl. by rewrite IH. Qed.

Lemma substring_app s t : String.substring 0 (String.length s) (s +:+ t) = s.
Proof. induction s as [|c s IH]; simpl; [by destruct t|]. by rewrite IH. Qed.

Lemma substring_skip s t n : String.substring (String.length s) n (s +:+ t) = String.substring 0 n t.
Proof. induction s as [|c s IH]; simpl; [done|]. apply IH. Qed.

Lemma substring_split n d :
  String.substring 0 n d +:+ String.substring n (String.length d - n) d = d.
Proof.
  revert n. induction d as [|c d IH]; intros [|n]; simpl; try done.
  - change (String c (String.substring 0 (String.length d) d) = String c d). by rewrite substring_all.
  - change (String c (String.substring 0 n d +:+ String.substring n (String.length d - n) d) = String c d).
    by rewrite IH.
Qed.

Lemma length_append s t : String.length (s +:+ t) = (String.length s + String.length t)%nat.
Proof. induction s as [|c s IH]; simpl; [done|]. by rewrite IH. Qed.

Lemma drop_str_app s t : drop_str (String.length s) (s +:+ t) = t.
Proof.
  unfold drop_str. rewrite substring_skip, length_append. apply substring_all. lia.
Qed.

Lemma starts_with_spec p d : starts_with p d = true <-> exists rest, d = p +:+ rest.
Proof.
  unfold starts_with. rewrite bool_decide_eq_true. split.
  - intros Hp. exists (drop_str (String.length p) d). rewrite <- Hp at 1.
    symmetry. apply substring_split.
  - intros [rest ->]. apply substring_app.
Qed.

(** ** Slashes *)

Definition no_slash (s : string) : Prop := free_of slash (bytes_of_string s).

Lemma find_char_none d l : find_char d l = None <-> free_of d l.
Proof.
  unfold free_of. induction l as [|c l IH]; simpl; [by split|].
  case_decide as Hc; subst; rewrite Forall_cons.
  - split; [done|]. by intros [? _].
  - rewrite <- IH. destruct (find_char d l); naive_solver.
Qed.

Lemma find_char_some d l i :
  find_char d l = Some i -> exists a b, l = a ++ d :: b /\ length a = i /\ free_of d a.
Proof.
  unfold free_of. revert i. induction l as [|c l IH]; intros i; simpl; [done|]. case_decide as Hc.
  - intros [= <-]. exists [], l. by subst.
  - destruct (find_char d l) as [j|] eqn:E; [|done]. intros [= <-].
    destruct (IH j eq_refl) as (a & b & -> & <- & Ha). exists (c :: a), b. by rewrite Forall_cons.
Qed.

Lemma find_slash_none s : find_slash s = None <-> no_slash s.
Proof. apply find_char_none. Qed.

Lemma string_bytes_length s : length (bytes_of_string s) = String.length s.
Proof. induction s as [|c s IH]; simpl; [done|]. by f_equal. Qed.

Lemma find_slash_some s i : find_slash s = Some i ->
  exists y rest, s = y +:+ "/" +:+ rest /\ String.length y = i /\ no_slash y.
Proof.
  intros (a & b & Hs & Hl & Ha)%find_char_some. exists (string_of_bytes a), (string_of_bytes b).
  rewrite <- (string_of_bytes_of_string s), Hs. split; [|split].
  - rewrite string_of_bytes_app. done.
  - by rewrite <- string_bytes_length, bytes_of_string_of_bytes.
  - unfold no_slash. by rewrite bytes_of_string_of_bytes.
Qed.

Lemma find_slash_first y rest : no_slash y -> find_slash (y +:+ "/" +:+ rest) = Some (String.length y).
Proof.
  intros Hy. unfold find_slash. rewrite bytes_of_string_app.
  change (bytes_of_string ("/" +:+ rest)) with (slash :: bytes_of_string rest).
  rewrite find_char_app by done. by rewrite string_bytes_length.
Qed.

Lemma append_assoc (a b c : string) : (a +:+ b) +:+ c = a +:+ (b +:+ c).
Proof. induction a as [|x a IH]; [done|]. change (String x ((a +:+ b) +:+ c) = String x (a +:+ (b +:+ c))). by rewrite IH. Qed.
Lemma append_nil_r (a : string) : a +:+ "" = a.
Proof. induction a as [|x a IH]; [done|]. change (String x (a +:+ "") = String x a). by rewrite IH. Qed.

(** ** The children of a directory *)

Definition dir_prefix (dirRel : string) : string := if decide (dirRel = "") then "" else dirRel +:+ "/".

Section dirs.
Context {Cl : Type} `{FsClient Cl}.
Implicit Types s : SquidFS Cl.

(** The guard of both loops of [listChildren]. *)
Lemma prefix_guard prefix d :
  negb (bool_decide (prefix = "")) && negb (starts_with prefix d) = false
  <-> exists rest, d = prefix +:+ rest.
Proof.
  rewrite <- starts_with_spec. destruct (starts_with prefix d) eqn:E.
  - by rewrite andb_false_r.
  - rewrite andb_true_r. destruct (decide (prefix = "")) as [->|Hp].
    + unfold starts_with in E. by destruct d.
    + by rewrite bool_decide_false.
Qed.

Lemma childOfFile_spec prefix f x :
  childOfFile prefix f = Some x <->
  (no_slash x /\ f = prefix +:+ x)
  \/ exists y rest, x = y +:+ "/" /\ no_slash y /\ f = prefix +:+ y +:+ "/" +:+ rest.
Proof.
  unfold childOfFile. destruct (negb _ && negb _) eqn:E.
  - assert (~ exists rest, f = prefix +:+ rest) as Hn by (intros Hr%prefix_guard; congruence).
    split; [done|]. intros [[_ ->]|(y & rest & _ & _ & ->)]; exfalso; apply Hn; by eexists.
  - apply prefix_guard in E as [rest ->]. rewrite drop_str_app. split.
    + destruct (find_slash rest) as [i|] eqn:Ei; intros [= <-].
      * apply find_slash_some in Ei as (y & rest' & -> & <- & Hy). right. exists y, rest'.
        split; [|done]. rewrite <- append_assoc.
        replace (String.length y + 1)%nat with (String.length (y +:+ "/")) by (rewrite length_append; simpl; lia).
        apply substring_app.
      * left. split; [|done]. by apply find_slash_none.
    + intros [[Hx Heq]|(y & rest' & -> & Hy & Heq)].
      * apply (inj (String.append prefix)) in Heq as ->. apply find_slash_none in Hx. by rewrite Hx.
      * apply (inj (String.append prefix)) in Heq as ->. rewrite find_slash_first by done.
        rewrite <- append_assoc.
        replace (String.length y + 1)%nat with (String.length (y +:+ "/")) by (rewrite length_append; simpl; lia).
        by rewrite substring_app.
Qed.

Lemma childOfDir_spec dirRel prefix d x :
  childOfDir dirRel prefix d = Some x <->
  exists y, x = y +:+ "/" /\ no_slash y /\ d = prefix +:+ y /\ d <> dirRel.
Proof.
  unfold childOfDir. case_decide as Hd; [split; [done|naive_solver]|].
  destruct (negb _ && negb _) eqn:E.
  - assert (~ exists rest, d = prefix +:+ rest) as Hn by (intros Hr%prefix_guard; congruence).
    split; [done|]. intros (y & _ & _ & -> & _). exfalso. apply Hn. by eexists.
  - apply prefix_guard in E as [rest ->]. rewrite drop_str_app. split.
    + destruct (find_slash rest) as [i|] eqn:Ei; intros [= <-]. exists rest. by apply find_slash_none in Ei.
    + intros (y & -> & Hy & Heq & _). apply (inj (String.append prefix)) in Heq as ->.
      apply find_slash_none in Hy. by rewrite Hy.
Qed.

Lemma elem_of_listChildren dirRel s x :
  x ∈ listChildren dirRel s <->
  (no_slash x /\ is_Some (localVersionMap s !! (dir_prefix dirRel +:+ x)))
  \/ (exists y, x = y +:+ "/" /\ no_slash y
       /\ ((exists rest, is_Some (localVersionMap s !! (dir_prefix dirRel +:+ y +:+ "/" +:+ rest)))
           \/ (dir_prefix dirRel +:+ y ∈ createdDirs_ s /\ dir_prefix dirRel +:+ y <> dirRel))).
Proof.
  unfold listChildren. fold (dir_prefix dirRel). rewrite elem_of_union, !elem_of_list_to_set, !list_elem_of_omap.
  assert (forall p, p ∈ map_keys (localVersionMap s) <-> is_Some (localVersionMap s !! p)) as Hk.
  { intros p. unfold map_keys. rewrite list_elem_of_fmap. split.
    - intros ([k v] & -> & Hin). apply elem_of_map_entries in Hin. by eexists.
    - intros [v Hv]. exists (p, v). split; [done|]. by apply elem_of_map_entries. }
  split.
  - intros [(d & Hd & (y & -> & Hy & -> & Hne)%childOfDir_spec)|(f & Hf & Hx%childOfFile_spec)].
    + right. exists y. split; [done|]. split; [done|]. right. split; [by apply elem_of_set_elems|done].
    + apply Hk in Hf. destruct Hx as [[Hx ->]|(y & rest & -> & Hy & ->)]; [by left|].
      right. exists y. split; [done|]. split; [done|]. left. by exists rest.
  - intros [[Hx Hv]|(y & -> & Hy & [[rest Hv]|[Hd Hne]])].
    + right. eexists. split; [apply Hk, Hv|]. apply childOfFile_spec. by left.
    + right. eexists. split; [apply Hk, Hv|]. apply childOfFile_spec. right. by exists y, rest.
    + left. eexists. split; [apply elem_of_set_elems, Hd|]. apply childOfDir_spec. by exists y.
Qed.
(** The listing of a directory: the files directly below it by their
    names, and with a slash the first components of the deeper paths and the
    directories made by [mkdir] directly below it; nothing else. *)
Theorem listChildren_spec dirRel s x :
  x ∈ listChildren dirRel s <->
  (no_slash x /\ is_Some (localVersionMap s !! (dir_prefix dirRel +:+ x)))
  \/ (exists y, x = y +:+ "/" /\ no_slash y
       /\ ((exists rest, is_Some (localVersionMap s !! (dir_prefix dirRel +:+ y +:+ "/" +:+ rest)))
           \/ (dir_prefix dirRel +:+ y ∈ createdDirs_ s /\ dir_prefix dirRel +:+ y <> dirRel))).
Proof. apply elem_of_listChildren. Qed.

(** ** Looking names up *)

Lemma isKnownDir_spec dirRel s :
  isKnownDir dirRel s = true <->
  dirRel ∈ createdDirs_ s
  \/ exists rest, rest <> "" /\ is_Some (localVersionMap s !! (dirRel +:+ "/" +:+ rest)).
Proof.
  unfold isKnownDir. rewrite orb_true_iff, bool_decide_eq_true, existsb_exists.
  split; (intros [Hd|Hf]; [by left|right]).
  - destruct Hf as (f & Hf%list_elem_of_In & [Hlen [rest ->]%starts_with_spec]%andb_prop).
    unfold map_keys in Hf. apply list_elem_of_fmap in Hf as ([k v] & Hk & Hin). cbn in Hk. subst k.
    apply elem_of_map_entries in Hin. rewrite append_assoc in Hin, Hlen.
    exists rest. split; [|by eexists]. intros ->. apply Nat.ltb_lt in Hlen.
    rewrite append_nil_r in Hlen. lia.
  - destruct Hf as (rest & Hr & v & Hv). exists (dirRel +:+ "/" +:+ rest). split.
    + apply list_elem_of_In. unfold map_keys. apply list_elem_of_fmap. exists (dirRel +:+ "/" +:+ rest, v).
      split; [done|]. by apply elem_of_map_entries.
    + rewrite <- append_assoc. apply andb_true_intro. split; [|apply starts_with_spec; by eexists].
      apply Nat.ltb_lt. rewrite (length_append _ rest). destruct rest; [done|]. simpl. lia.
Qed.

(** With nothing going on besides, [op_getattr] finds a path that is cached, a
    directory, or in the version map. *)
Lemma op_getattr_found path s :
  cacheMutex_ s = false -> env s = [] ->
  is_Some (cache_ s !! rel path) \/ isKnownDir (rel path) s = true \/ 0 <= fc_getFileVersion (rel path) (client_ s)
    \/ path = "/" ->
  exists st, (op_getattr path s).1 = Done (Ok (0, st)).
Proof.
  intros Hm Henv Hf. unfold op_getattr. case_decide as Hp; [by eexists|].
  assert (guarded (find_entry (rel path)) s = (Done (Ok (cache_ s !! rel path)), set_mutex false (set_mutex true s)))
    as Hg.
  { unfold guarded, scoped. rewrite (sbind_done _ _ _ _ _ (lock_done s Hm)), (deliver_nil s Henv). done. }
  rewrite (sbind_done _ _ _ _ _ Hg). destruct (cache_ s !! rel path) as [e|]; [by eexists|].
  rewrite sbind_gets. change (isKnownDir (rel path) (set_mutex false (set_mutex true s))) with (isKnownDir (rel path) s).
  destruct (isKnownDir (rel path) s); [by eexists|]. rewrite sbind_gets. cbn [client_ set_mutex].
  destruct Hf as [[]|[|[Hv|]]]; try done. destruct (Z.ltb_spec (fc_getFileVersion (rel path) (client_ s)) 0); [lia|].
  by eexists.
Qed.

Lemma no_slash_last x : no_slash x -> last (bytes_of_string x) <> Some slash.
Proof.
  unfold no_slash, free_of. rewrite Forall_forall. intros Hx Hl. apply last_Some in Hl as [l Hl].
  apply (Hx slash); [|done]. rewrite Hl. apply elem_of_app. right. apply list_elem_of_here.
Qed.

Lemma dirent_file x : no_slash x -> dirent x = x.
Proof. intros Hx%no_slash_last. unfold dirent. by rewrite bool_decide_false. Qed.

Lemma dirent_dir y : dirent (y +:+ "/") = y.
Proof.
  unfold dirent. rewrite bytes_of_string_app. change (bytes_of_string "/") with [slash].
  rewrite last_snoc, bool_decide_true by done. rewrite length_append.
  replace (String.length y + String.length "/" - 1)%nat with (String.length y) by (simpl; lia). apply substring_app.
Qed.
End dirs.

(** The path of [name] in the directory [dirRel]. *)
Definition child_path (dirRel name : string) : string := "/" +:+ dir_prefix dirRel +:+ name.

(** The version of a file is its entry in the version map. *)
Class VersionMapped (Cl : Type) `{FsClient Cl} : Prop :=
  version_mapped p (c : Cl) : fc_getFileVersion p c = default (-1) (fc_getVersionMap c !! p).
#[export] Instance Mem_mapped : VersionMapped Mem.
Proof. done. Qed.
#[export] Instance Client_mapped {C} `{NetworkChannel C} dial : VersionMapped (H := Client_fs dial) (Client C).
Proof. done. Qed.

Section listing.
Context {Cl : Type} `{FsClient Cl} `{!VersionMapped Cl}.
Implicit Types s : SquidFS Cl.

(** The version map as the server sends it: no version is negative, no path
    ends in a slash. *)
Definition proper_paths s : Prop :=
  forall p v, localVersionMap s !! p = Some v -> 0 <= v /\ forall d, p <> d +:+ "/".

(** C34. Every name that [readdir] gives can be looked up: [getattr] of it
    succeeds, when nothing changes in between. *)
Theorem readdir_names_resolve path names s s' :
  cacheMutex_ s = false -> env s = [] -> proper_paths s ->
  op_readdir path s = (Done (Ok (0, "." :: ".." :: names)), s') ->
  s' = s /\ forall n, n ∈ names -> exists st, (op_getattr (child_path (rel path) n) s).1 = Done (Ok (0, st)).
Proof.
  intros Hm Henv Hpp. unfold op_readdir. rewrite sbind_gets. case_match; [done|]. rewrite sbind_gets.
  intros [= <- <-]. split; [done|]. intros n (x & -> & Hx)%list_elem_of_fmap.
  apply elem_of_set_elems, elem_of_listChildren in Hx. apply op_getattr_found; [done|done|].
  set (D := rel path) in *. change (rel (child_path D (dirent x))) with (dir_prefix D +:+ dirent x).
  destruct Hx as [[Hx [v Hv]]|(y & -> & Hy & Hd)].
  - rewrite dirent_file by done. right; right; left. rewrite version_mapped. unfold localVersionMap in Hv.
    rewrite Hv. cbn. by eapply Hpp.
  - rewrite dirent_dir. right; left. apply isKnownDir_spec. destruct Hd as [[rest [v Hv]]|[Hd _]]; [right|by left].
    exists rest. rewrite append_assoc. split; [|by eexists]. intros ->. rewrite append_nil_r in Hv.
    apply Hpp in Hv as [_ Hv]. apply (Hv (dir_prefix D +:+ y)). by rewrite append_assoc.
Qed.

(** Every known file is listed by its directory: for a file [name] of the
    directory [path] that is in the version map, [readdir] succeeds and gives
    that name. *)
Theorem readdir_lists_files path name v s :
  no_slash name -> name <> "" -> localVersionMap s !! (dir_prefix (rel path) +:+ name) = Some v ->
  exists names, op_readdir path s = (Done (Ok (0, "." :: ".." :: names)), s) /\ name ∈ names.
Proof.
  intros Hn Hne Hv. unfold op_readdir. rewrite sbind_gets. set (D := rel path) in *.
  assert (negb (bool_decide (D = "")) && negb (isKnownDir D s) = false) as ->.
  { unfold dir_prefix in Hv. case_decide as HD; [by rewrite bool_decide_true|].
    assert (isKnownDir D s = true) as ->; [|by rewrite andb_false_r]. apply isKnownDir_spec. right.
    exists name. rewrite append_assoc in Hv. split; [done|by eexists]. }
  rewrite sbind_gets. eexists. split; [reflexivity|]. apply list_elem_of_fmap. exists name.
  split; [by rewrite dirent_file|]. apply elem_of_set_elems, elem_of_listChildren. left. by eexists.
Qed.
End listing.

Definition demo_tree : SquidFS Mem :=
  demo_fs (mkMem ∅ {[ "docs/a.txt" := 1; "docs/old/b.txt" := 2; "c.txt" := 0 ]} []) [].

Lemma readdir_names_resolve_witness :
  demo_tree = demo_tree /\ forall n, n ∈ ["a.txt"; "old"] ->
    exists st, (op_getattr (child_path "docs" n) demo_tree).1 = Done (Ok (0, st)).
Proof.
  apply (readdir_names_resolve "/docs" ["a.txt"; "old"] demo_tree demo_tree).
  - reflexivity.
  - reflexivity.
  - intros p v Hv. apply elem_of_map_to_list in Hv. vm_compute in Hv.
    repeat (apply elem_of_cons in Hv as [Hv|Hv]; [injection Hv as -> ->; split; [lia|]; intros d Hd|]);
      [..|by apply not_elem_of_nil in Hv].
    all: apply (f_equal (fun x => last (bytes_of_string x))) in Hd;
      rewrite bytes_of_string_app in Hd; change (bytes_of_string "/") with [slash] in Hd;
      rewrite last_snoc in Hd; discriminate Hd.
  - vm_compute. reflexivity.
Defined.

Lemma readdir_lists_files_witness :
  exists names, op_readdir "/docs" demo_tree = (Done (Ok (0, "." :: ".." :: names)), demo_tree) /\ "a.txt" ∈ names.
Proof.
  apply (readdir_lists_files "/docs" "a.txt" 1 demo_tree).
  - apply find_slash_none. reflexivity.
  - discriminate.
  - vm_compute. reflexivity.
Defined.

(** ** [mkdir] and [rmdir] *)

Section virtual.
Context {Cl : Type} `{FsClient Cl}.
Implicit Types s : SquidFS Cl.

(** The listing of the parent has the new directory. *)
Lemma created_is_listed dirRel name s :
  no_slash name -> dir_prefix dirRel +:+ name ∈ createdDirs_ s -> dir_prefix dirRel +:+ name <> dirRel ->
  name +:+ "/" ∈ listChildren dirRel s.
Proof. intros Hn Hd Hne. apply elem_of_listChildren. right. exists name. auto. Qed.

Lemma child_not_self dirRel name : name <> "" -> dir_prefix dirRel +:+ name <> dirRel.
Proof.
  intros Hn Heq. apply (f_equal String.length) in Heq. unfold dir_prefix in Heq.
  case_decide as Hd; subst; rewrite ?length_append in Heq; destruct name; try done; simpl in *; lia.
Qed.

(** [mkdir] that succeeds makes a directory: its path is a directory from
    then on, the listing of its parent has its name, and the other directories
    are what they were. *)
Theorem mkdir_makes_directory dirRel name s s' :
  no_slash name -> name <> "" ->
  op_mkdir (child_path dirRel name) s = (Done (Ok 0), s') ->
  isKnownDir (dir_prefix dirRel +:+ name) s' = true
  /\ name ∈ map dirent (set_elems (listChildren dirRel s'))
  /\ forall q, q <> dir_prefix dirRel +:+ name -> isKnownDir q s' = isKnownDir q s.
Proof.
  intros Hn Hne. unfold op_mkdir. change (rel (child_path dirRel name)) with (dir_prefix dirRel +:+ name).
  set (r := dir_prefix dirRel +:+ name). assert (r <> "") as Hr.
  { intros Hr. apply (f_equal String.length) in Hr. subst r. rewrite length_append in Hr.
    destruct name; [done|]. simpl in Hr. lia. }
  rewrite decide_False by done. rewrite sbind_gets. destruct (0 <=? _); [done|]. rewrite sbind_gets.
  destruct (match rfind_slash r with Some _ => _ | None => _ end); [|done]. cbn [negb]. rewrite sbind_modify.
  intros [= <-]. split; [apply isKnownDir_spec; left; cbn; set_solver|]. split.
  - apply list_elem_of_fmap. exists (name +:+ "/"). split; [by rewrite dirent_dir|]. apply elem_of_set_elems.
    apply created_is_listed; [done| |by apply child_not_self]. cbn. set_solver.
  - intros q Hq. apply eq_bool_prop_intro. rewrite !Is_true_true, !isKnownDir_spec. cbn. set_solver.
Qed.

(** [rmdir] removes nothing: whatever it returns, the state is the same,
    and a directory it reports as removed is still there. *)
Theorem rmdir_removes_nothing path s :
  exists rc, op_rmdir path s = (Done (Ok rc), s) /\ (rc = 0 -> isKnownDir (rel path) s = true).
Proof.
  unfold op_rmdir. rewrite sbind_gets. destruct (isKnownDir (rel path) s); cbn [negb].
  - rewrite sbind_gets. case_decide; by eexists.
  - eexists. by split.
Qed.
End virtual.

Lemma mkdir_makes_directory_witness :
  let s' := (op_mkdir (child_path "docs" "new") demo_tree).2 in
  isKnownDir (dir_prefix "docs" +:+ "new") s' = true
  /\ "new" ∈ map dirent (set_elems (listChildren "docs" s'))
  /\ forall q, q <> dir_prefix "docs" +:+ "new" -> isKnownDir q s' = isKnownDir q demo_tree.
Proof.
  apply (mkdir_makes_directory "docs" "new" demo_tree).
  - apply find_slash_none. reflexivity.
  - discriminate.
  - vm_compute. reflexivity.
Defined.
