(* ===== verification/Mains.v ===== *)
(** * The programs of a client

    Models [client/src/main.cpp], a program that works through one file, and
    [client/src/squidfs_main.cpp], which mounts the file system: the command
    line, the connection, what is asked of the server in which order, and the
    exit code.  Printing and sleeping are left out. *)

From S2P Require Import Prelude Text Wire FileManager FileTransfer Protocol StateStore Session ServerState LockManager Replication ClusterConfig Watcher Standby Server Startup Peer Client SquidFS FsClients.

Definition DEFAULT_SERVER_IP : string := "127.0.0.1".
Definition DEFAULT_SERVER_PORT : Z := 12345.
Definition TEST_FILE : string := "testfile.txt".

(** [arg.size() > 5 && arg.substr(arg.size() - 5) == ".conf"]. *)
Definition isConfigFile (arg : string) : bool :=
  let l := bytes_of_string arg in
  bool_decide (5 < length l)%nat && bool_decide (drop (length l - 5) l = bytes_of_string ".conf").

Section mains.
Context {C : Type} `{NetworkChannel C}.
Local Abbreviation Cl := (Client C).

(** [Client(serverIp, serverPort, processName)]; the constructor with a name
    only leaves address and port to [connectWithFailover]. *)
Definition newClient (serverIp : string) (serverPort : Z) (processName : string) : Cl :=
  mkClientState (newPeer serverIp serverPort "CLIENT" processName) ∅ [].

(** [Peer::disconnect] on the client. *)
Definition disconnectClient : SO Cl unit := fun cl =>
  let '(r, pe) := disconnect (peer cl) in (r, set_peer pe cl).

Definition connectClient (dial : nat -> string -> Z -> option C) : SO Cl unit := fun cl =>
  let '(r, pe) := connectToServer dial (peer cl) in (Done r, set_peer pe cl).
Definition failoverClient (dial : nat -> string -> Z -> option C) (cfg : ClusterConfig) : SO Cl unit := fun cl =>
  let '(r, pe) := connectWithFailover dial cfg (peer cl) in (Done r, set_peer pe cl).

(** ** [main.cpp] *)

(** The command line after the name of the program: an exit code, or address,
    port and name.  [argv[1]] is read before [argc] is looked at, and a string
    made of the null pointer at the end of [argv] throws. *)
Definition clientTarget (args : list string) (readConfig : string -> option (list byte))
  : result (Z + string * Z * string) :=
  match args with
  | [] => Throw "basic_string: construction from null is not valid"
  | arg1 :: _ =>
      if isConfigFile arg1 then
        match fromFile (readConfig arg1) with
        | Throw _ => Ok (inl 1)
        | Ok cfg =>
            let target := match servers cfg with
                          | s :: _ => (ip s, port s)
                          | [] => (DEFAULT_SERVER_IP, DEFAULT_SERVER_PORT)
                          end in
            Ok (inr (target, default "CLIENT_1" (args !! 1%nat)))
        end
      else Ok (inr (arg1, from_option atoi DEFAULT_SERVER_PORT (args !! 1%nat),
                    default "CLIENT_1" (args !! 2%nat)))
  end.

(** What the program asks of the server, and what it is answered. *)
Definition clientScript (dial : nat -> string -> Z -> option C) : SO Cl (list Message * list byte) :=
  do! connectClient dial in
  let! m1 := Client.syncStatus in
  let! m2 := Client.createFile dial TEST_FILE (bytes_of_string "hello") 0 in
  let! m3 := Client.acquireLock dial TEST_FILE in
  let! m4 := Client.updateFile dial TEST_FILE (bytes_of_string "world") 0 in
  let! m5 := Client.releaseLock dial TEST_FILE in
  let! m6 := Client.readFile dial TEST_FILE in
  let! m7 := Client.syncStatus in
  let! m8 := Client.heartbeat in
  do! disconnectClient in
  sret ([m1; m2; m3; m4; m5; m6.1; m7; m8], m6.2).

Definition clientMain (args : list string) (readConfig : string -> option (list byte))
    (dial : nat -> string -> Z -> option C) : outcome Z :=
  match clientTarget args readConfig with
  | Throw e => Done (Throw e)
  | Ok (inl code) => Done (Ok code)
  | Ok (inr (serverIp, serverPort, processName)) =>
      (sbind (clientScript dial) (fun _ => sret 0) (newClient serverIp serverPort processName)).1
  end.

(** ** [squidfs_main.cpp] *)

(** What follows the connection, the file system being served [rqs]. *)
Definition mountBody (dial : nat -> string -> Z -> option C) (newOk mountOk : bool)
    (rqs : list fuse_request) (rc : Z) (others : list (list event)) : SO Cl Z :=
  do! Client.syncStatus in
  fun cl =>
    match newSquidFS false cl others with
    | Throw e => (Done (Throw e), cl)
    | Ok fs =>
        let '(r, fs) := run (H := Client_fs dial) newOk mountOk rqs rc fs in
        let cl := client_ (destroy fs) in
        match r with
        | Done (Ok rc) => sbind disconnectClient (fun _ => sret rc) cl
        | other => (other, cl)
        end
    end.

(** The configuration file is read, and the file system runs, inside [try];
    with an address there is no handler. *)
Definition mountMain (args : list string) (readConfig : string -> option (list byte))
    (dial : nat -> string -> Z -> option C) (newOk mountOk : bool)
    (rqs : list fuse_request) (rc : Z) (others : list (list event)) : outcome Z :=
  match args with
  | mountpoint :: arg2 :: rest =>
      if isConfigFile arg2 then
        match fromFile (readConfig arg2) with
        | Throw _ => Done (Ok 1)
        | Ok cfg =>
            let cl := newClient "" 0 (default "FUSE_CLIENT" (rest !! 0%nat)) in
            match (sbind (failoverClient dial cfg) (fun _ => mountBody dial newOk mountOk rqs rc others) cl).1 with
            | Done (Throw _) => Done (Ok 1)
            | other => other
            end
        end
      else
        let port := from_option atoi DEFAULT_SERVER_PORT (rest !! 0%nat) in
        let cl := newClient arg2 port (default "FUSE_CLIENT" (rest !! 1%nat)) in
        (sbind (connectClient dial) (fun _ => mountBody dial newOk mountOk rqs rc others) cl).1
  | _ => Done (Ok 1)
  end.
End mains.

(** ** What the programs do *)

(** The client program has defaults for everything and cannot be started
    without an argument: the exception leaves [main]. *)
Theorem client_needs_argument {C} `{NetworkChannel C} readConfig (dial : nat -> string -> Z -> option C) :
  exists e, clientMain [] readConfig dial = Done (Throw e).
Proof. by eexists. Qed.

(** Given a configuration, the client program tries the first server only,
    whatever other servers the cluster has; the mount program takes the first
    server that accepts it. *)
Theorem client_ignores_failover {C} `{NetworkChannel C} readConfig (dial : nat -> string -> Z -> option C)
    arg cfg s more :
  isConfigFile arg = true -> fromFile (readConfig arg) = Ok cfg -> servers cfg = s :: more ->
  dial 0%nat (ip s) (port s) = None ->
  exists e, clientMain [arg] readConfig dial = Done (Throw e).
Proof.
  intros Ha Hf Hs Hd. unfold clientMain, clientTarget. rewrite Ha, Hf, Hs. cbn [default from_option lookup list_lookup].
  unfold clientScript, connectClient, connectToServer, sbind, newClient. cbn [peer server_ip server_port newPeer].
  rewrite Hd. by eexists.
Qed.

Definition demo_conf : list byte :=
  unlines (map bytes_of_string ["[servers]"; "s1 = 10.0.0.1:1"; "s2 = 10.0.0.2:2"]).

Lemma client_ignores_failover_witness :
  exists e, clientMain (C := Pipe) ["c.conf"] (fun _ => Some demo_conf)
              (fun _ addr _ => if decide (addr = "10.0.0.2") then Some (demo_pipe []) else None) = Done (Throw e).
Proof.
  destruct (fromFile (Some demo_conf)) as [cfg|e] eqn:E; [|done].
  destruct (servers cfg) as [|s more] eqn:Es;
    [exfalso; vm_compute in E; injection E as <-; vm_compute in Es; done|].
  apply (client_ignores_failover (fun _ => Some demo_conf)
           (fun _ addr _ => if decide (addr = "10.0.0.2") then Some (demo_pipe []) else None) "c.conf" cfg s more).
  - reflexivity.
  - exact E.
  - exact Es.
  - vm_compute in E. injection E as <-. vm_compute in Es. injection Es as <- _. reflexivity.
Defined.

(** Without a mount point and an address the mount program exits with 1; an
    exception of the configured form is turned into the code 1 as well, one of
    the plain form is not. *)
Theorem mount_fails_to_connect {C} `{NetworkChannel C} readConfig (dial : nat -> string -> Z -> option C)
    newOk mountOk rqs rc others mountpoint arg2 rest :
  (forall k addr prt, dial k addr prt = None) ->
  exists r, mountMain (mountpoint :: arg2 :: rest) readConfig dial newOk mountOk rqs rc others = Done r
    /\ r = (if isConfigFile arg2 then Ok 1 else Throw "TCPConnectorChannel: connect failed").
Proof.
  intros Hd. unfold mountMain. destruct (isConfigFile arg2).
  - destruct (fromFile (readConfig arg2)) as [cfg|e]; [|by eexists].
    assert (forall cl : Client C, exists e cl', failoverClient dial cfg cl = (Done (Throw e), cl')) as Hf.
    { intros cl. unfold failoverClient, connectWithFailover.
      generalize (Z.to_nat (Z.max 1 (reconnect_attempts cfg))) as n, 0%nat as k.
      intros n. generalize (set_config cfg (peer cl)) as pe. induction n as [|n IH]; intros pe k; [by eexists _, _|].
      cbn [failoverLoop].
      assert (forall es, tryServers (dial k) es pe = (Ok false, pe)) as ->.
      { induction es as [|s es IHes]; [done|]. cbn [tryServers]. rewrite Hd. exact IHes. }
      apply IH. }
    destruct (Hf (newClient "" 0 (default "FUSE_CLIENT" (rest !! 0%nat)))) as (e & cl' & Hfe).
    unfold sbind. rewrite Hfe. by eexists.
  - unfold sbind, connectClient, connectToServer, newClient. cbn [peer server_ip server_port newPeer].
    rewrite Hd. by eexists.
Qed.

Lemma mount_fails_to_connect_witness :
  exists r, mountMain (C := Pipe) ["/mnt"; "127.0.0.1"] (fun _ => None) (fun _ _ _ => None) true true [] 0 [] = Done r
    /\ r = Throw "TCPConnectorChannel: connect failed".
Proof.
  apply (mount_fails_to_connect (fun _ => None) (fun _ _ _ => None) true true [] 0 [] "/mnt" "127.0.0.1" []).
  reflexivity.
Defined.
